(* ===== verification/_CoqProject ===== *)
-Q . S2P
Prelude.v
GoStrings.v
GoTime.v
KeyRange.v
Json.v
Floats.v
Vehicle.v
Event.v
EventGen.v
Regions.v
Poller.v
IsleDB.v
ChangeFeed.v
Tenant.v
Store.v
PrefixDB.v
Bucket.v
Simulation.v
Status.v
Session.v
Coordinator.v
LivePipeline.v
LiveStores.v
Replay.v
PollLoop.v
Notify.v
Web.v
JsonText.v
EventStream.v
Views.v
Browser.v
Url.v
LivePage.v
ReplayPage.v
DemoServer.v
Dashboard.v
Harness.v
Demo.v
LiveMap.v
ReplayMap.v
Wire.v
Metrics.v
MetricsServer.v
MetricsClient.v
MetricsHTTP.v
Codex.v
Flags.v
Report.v
Commands.v
