(* ===== verification/Prelude.v ===== *)
(** * Gedung Peristiwa: a verification library

    The repository is a Go program in two halves over one object-store database,
    IsleDB, whose prefixes hold sorted keys and a change feed.

    - The _simulation_ half (internal/model, eventgen, pipeline, simulation and
      the dashboard internal/web) generates FinTech events for five tenants,
      writes each to its tenant's prefix, and checks that keys and change feeds
      hold what was generated.
    - The _demo_ half (internal/gtfs, internal/demo, internal/web/demo,
      cmd/demo) polls the public GTFS-Realtime feeds of Malaysian transit,
      stores the vehicle positions in one prefix per agency, keeps the latest of
      each vehicle in memory, pushes it to browsers, and replays the change feed.

    ** How the files correspond to the code

    Shared ground:
    - Prelude: errors and results ([error], [result]), wrap-around on 64 bits,
      instants and durations, maps iterated in an arbitrary order ([MapRange]),
      sorting of slices ([SliceSort]), and the tactics.
    - GoStrings, GoTime, Json, Floats, Web: what the code uses of strings,
      strconv, time.ParseDuration, path/filepath, encoding/json, float64, and of
      net/http and RFC 3339.
    - JsonText: the bytes of a JSON document and their parser; EventStream
      (internal/web/demo/sse.go): the bytes of server-sent events and a browser's
      parser of them; Url: query strings.
    - KeyRange: [prefixUpperBound] and when a scan holds exactly a prefix.
    - IsleDB: the operations of the database as a class [IsleDB]; what the code
      relies on as the class of laws [IsleDBLaws]; that it answers as
      [IsleDBReliable]; and a small store [MemStore] that satisfies them.

    The simulation half:
    - Event (internal/model/event.go), EventGen (internal/eventgen/generator.go).
    - Store (internal/pipeline/store.go): environment, retention, URLs, caches.
    - PrefixDB (db.go, bucket.go, tenant.go): the life cycle of handles; Bucket
      (bucket.go): the conversation that PrefixDB takes as one step.
    - ChangeFeed (changefeed.go), Tenant (tenant.go, tenants.go, verify.go),
      Status (status.go, bucket.go): the data plane.
    - Simulation (internal/simulation/run.go) composes all of these; Dashboard
      (internal/web/server.go) runs simulations and probes in a web server.

    The demo half:
    - Vehicle (internal/gtfs/types.go, bounds.go), Regions (feeds.go,
      regions.go), Poller (poller.go).
    - Session (internal/demo/session.go, poll.go), Coordinator (poll.go): which
      region is fetched next.
    - LivePipeline (internal/demo/pipeline.go) and LiveStores (its opening and
      closing, on PrefixDB), Notify (its poll subscriptions), Replay (replay.go,
      snapshots.go).
    - PollLoop (cmd/demo/main.go, internal/demo/health.go) composes Coordinator,
      Poller, LivePipeline and the health tracker.
    - Views and DemoServer (internal/web/demo/server.go, session.go, replay.go,
      sse.go): the handlers over Session, LivePipeline and Replay.
    - Demo (cmd/demo/main.go): the whole process, as a state machine whose steps
      are requests, turns of live streams, rounds of the poll loop and signals.
    - LivePage (internal/web/demo/render.go) and ReplayPage (replay_render.go):
      the scripts of the two pages, one step per callback, reading documents
      with Browser.  LiveMap and ReplayMap join server, bytes and page.

    - Commands (cmd/simulate, cmd/demo, cmd/dev): the main functions, from the
      flags, which Flags parses as the package flag does, to the exit code.

    Beside both: Harness (internal/isledbdebug/harness.go,
    cmd/isledb-debug/main.go), experiments on one prefix and their verdicts,
    and Report (cmd/isledb-debug/main.go), what the tool prints about them;
    Codex (internal/codexsites/compiler.go), which writes the catalogues and
    templates to the files of a site.

    The archived prototype (ARCHIVE/Jul252026/internal), a client that sends
    metric points to a server, over a gRPC stream or over HTTP:
    - Wire: the protobuf library easyproto as a class [Easyproto] with its laws,
      and the wire format as an implementation.
    - Metrics (shared/types.go and the codecs of client/main.go and
      server/main.go): points, their bytes, and reading them back.
    - MetricsServer (server/main.go, ProcessMetrics): one stream as a step
      function, with the receiving goroutines that timeouts leave behind.
    - MetricsClient (client/main.go): the generator, the batches, and the
      goroutines that share the stream, composed with the server's loop.
    - MetricsHTTP (httpapi): the JSON of metrics, the handler and the client.

    ** How state and effects are modelled

    A value with an error is [result], or a pair where the code uses both.  A
    method on a mutex-protected struct is one transition of an explicit state:
    the mutex is held for the whole of it.  Where the code releases the lock in
    between, the model is a step function on the shared state and theorems hold
    in every reachable state.  In Notify, Dashboard, MetricsServer and
    MetricsClient an action is a critical section, a channel operation, or the
    start or return of a call.  In DemoServer and Demo a step is coarser, a whole
    handler, turn of a stream or round of the poll loop; interleavings inside
    them are covered for the viewer counters alone ([section_step],
    [viewers_interleaved]).

    gRPC documents that two calls of SendMsg, or two of RecvMsg, on one stream at
    once are not safe.  The archived prototype does both; its models end a run
    when that happens ([contended], [clashing]), the theorems speak of the runs
    until then, and [silent_client_contends] and [goroutines_clash] show that the
    code gets there.

    What the program does not decide is a parameter that theorems quantify
    over: the clock ([clock n], [now n]), the disk ([disk n]), the network to a
    client ([wire n]), random bytes and uuids, the context's cancellation, the
    outcome of every call on IsleDB or S3 in PrefixDB ([answer], a function of
    the calls so far), HTTP answers of the feeds, the decoded protobuf message,
    math.Sin, the local time zone, the order of map iteration and of equal
    elements in a sort.  The n-th effect reads the n-th value, so two readings
    within one operation may differ.

    Two views of a prefix are kept apart: PrefixDB says which handles are open,
    IsleDB and its laws say what a prefix holds.  LiveStores, Simulation and
    Harness join them.

    ** What the theorems show

    - From end to end: what the poll loop fetches reaches every open map, whatever
      happens in between ([fetched_positions_reach_streams]); a push becomes
      exactly the markers of the live positions ([live_map_shows]), and a frame
      of a replay exactly the markers of the frame ([replay_reaches_map]).
    - Wire and pages: documents and events arrive as they were sent
      ([json_text_roundtrip], [events_received]) and data in a script cannot end
      it ([script_data_inert]); the state of the pages over every sequence of
      callbacks ([replay_page_safe]), a change of region ([region_switched]) and
      a pause ([resume_continues]).
    - Keys and values: events and positions survive encoding ([event_value_roundtrip],
      [vehicle_value_roundtrip], [vehicle_key_lossless]); scans hold exactly the
      keys of their tenant or agency ([event_key_schema]); the cases that break
      this are stated too ([colon_vehicle_ids_collide], [accepted_not_storable]).
    - Polling: bounded retries ([poll_feed_bounded],
      [poll_feed_retries]), validated positions ([parse_feed_validated]), the
      choice of the next region as the best due one ([next_due_region]), spacing
      of fetches ([fetch_spacing]), and who is served ([polled_region_served],
      [live_region_ids], [unpolled_regions_starve]).
    - Sessions: the invariant of store and file over every operation
      ([session_invariant]) and what a restart keeps ([session_restart]).
    - Storage: Verify is sound for the tenants it is asked about ([verify_sound])
      and blind to others ([stray_tenant_unseen]), a simulation on stores that
      answer ends well ([simulation_ok]), feeds are drained exactly
      ([drain_change_feed], [summarize_change_feed]), a restart recovers the
      latest positions ([restart_recovers]).
    - Resources: whatever fails, no handle leaks ([new_pipeline_no_leak],
      [start_pipeline], [demo_starts], [simulation_no_leak], [tool_exit]) and
      closing runs every step ([close_runs_every_step]), the error of the
      maintenance pass being dropped ([maintenance_error_dropped]).
    - Replay: frames, their contents and resuming ([replay_frames],
      [replay_shows_latest], [replay_resume]).
    - Servers: viewer counters equal open streams under any interleaving
      ([viewers_are_streams]), one simulation at a time ([one_simulation]), no
      lost wake-up ([notify_no_lost_wakeup]), what the handlers send and answer
      ([post_region], [push_snapshot], [replay_stream], [session_identity]); the
      bucket that is asked for is the configured one ([bucket_request]); what
      the site generator writes ([generate_bundle]).
    - Commands: arguments are read back ([parse_rendered]), a command runs what
      they say and its exit code is the outcome ([simulate_command]), and the
      debugging tool prints what its experiments found ([debug_report]).
    - Metrics: encoding and decoding are inverse ([metric_roundtrip]) and reading
      is bounded by its input ([unmarshal_bounded]); each message of a stream is
      accounted for ([stream_accounting]) and has its answer ([metric_answer]); the
      goroutines of a session can misuse the stream, and as long as they have not
      they can finish in turn ([metrics_session_completes]), unless a message was
      lost ([lost_message_blocks_client]); over HTTP a batch is sent, decoded,
      and accepted or refused as stated ([send_metrics]).

    Lemmas named in a finding of the manifest show where the code and its
    comments disagree, or where it fails.

    ** Fuel

    Only loops whose length the code does not bound run on fuel, and their
    result is an [option].  A page loop over a change feed (ChangeFeed, and
    through it Tenant, Simulation, Replay) needs one unit more than the feed has
    changes, since a page that is not caught up makes progress: the hypothesis
    [length (feed_log d) < fuel], or [fueled], under which the theorems also say
    that the result is [Some] ([buildReplayFrames_total], [RunReplay_total] and
    [handleReplayStream_total] for a replay).  The waiting loop of Harness counts its rounds.
    Reading a protobuf message takes the length of its data as fuel, for the
    loop and for the nesting of lists, since every field is shorter than what it
    was read from ([unmarshalMetricPoint_total]).
    The JSON parser takes twice the length of its text ([text_readable]).
    Everything else is structural recursion over a
    list, or over the attempts that are left.

    ** What is not modelled

    - The bodies of third-party libraries: IsleDB, the S3 client, protobuf, gRPC,
      uuid.
    - HTML and CSS in the pages, html/template and the map library: a page is
      the data it is rendered from, a map is its markers.  The templates of the
      site generator, which hold JavaScript and SQL, are a parameter.
    - Listening on a port, parsing of a request into method, path, cookie,
      query and body, the usage text of the commands; bucket URLs whose host is
      in brackets (Bucket).
    - The digits of a float64 in JSON: a class of texts with their reading
      ([FloatText], with an instance).  Handlers work on trees (see Json); the
      bytes are in JsonText.
    - Of the prototype: the registration of the gRPC service and its transport,
      and two programs that only greet. *)

From stdpp Require Export base tactics option list gmap sets strings sorting pretty.
From Stdlib Require Export ZArith Lia.
From Stdlib Require Import SpecFloat.

(** Notations of the library live in a scope of their own. *)
Declare Scope go_scope.
Delimit Scope go_scope with go.
#[global] Open Scope Z_scope.

Create HintDb gedung.
Create Rewrite HintDb gedung_rw.

(** ** Automation shared by every file *)

(** Case analysis on the scrutinee of the matches of the goal or a hypothesis,
    keeping the equations. *)
Ltac split_match :=
  repeat (case_match; simplify_eq/=; try done).

(** Turns boolean tests of the code into propositions, everywhere. *)
Ltac bool_to_prop :=
  repeat match goal with
  | H : (_ <? _) = true |- _ => apply Z.ltb_lt in H
  | H : (_ <? _) = false |- _ => apply Z.ltb_ge in H
  | H : (_ <=? _) = true |- _ => apply Z.leb_le in H
  | H : (_ <=? _) = false |- _ => apply Z.leb_gt in H
  | H : (_ =? _) = true |- _ => apply Z.eqb_eq in H
  | H : (_ =? _) = false |- _ => apply Z.eqb_neq in H
  | H : (_ && _) = true |- _ => apply andb_true_iff in H as [? ?]
  | H : (_ || _) = false |- _ => apply orb_false_iff in H as [? ?]
  | H : negb _ = true |- _ => apply negb_true_iff in H
  | H : negb _ = false |- _ => apply negb_false_iff in H
  | H : bool_decide _ = true |- _ => apply bool_decide_eq_true in H
  | H : bool_decide _ = false |- _ => apply bool_decide_eq_false in H
  end.

Ltac crush := repeat case_match; bool_to_prop; simplify_eq/=; try lia; auto with gedung.

Lemma bool_decide_eq_iff (P Q : Prop) `{Decision P} `{Decision Q} :
  bool_decide P = bool_decide Q <-> (P <-> Q).
Proof.
  destruct (bool_decide_reflect P), (bool_decide_reflect Q); naive_solver.
Qed.

Lemma omap_cons {A B} (f : A -> option B) x (l : list A) :
  omap f (x :: l) = match f x with Some y => y :: omap f l | None => omap f l end.
Proof. done. Qed.

Lemma filter_cons_bool {A} (f : A -> bool) x (l : list A) :
  List.filter f (x :: l) = if f x then x :: List.filter f l else List.filter f l.
Proof. done. Qed.

(** ** Errors *)

(** The sentinel errors that the source compares with [errors.Is]. *)
Inductive sentinel :=
  | SCanceled | SDeadlineExceeded | SEOF | SWriterFailed | SWriterClosed.

#[export] Instance sentinel_eq_dec : EqDecision sentinel.
Proof. solve_decision. Defined.

(** A Go [error]: the text of [errors.New]/[fmt.Errorf], a sentinel of a
    library, or [fmt.Errorf("...%w", err)], which keeps the wrapped error. *)
Inductive error :=
  | Errorf (msg : string)
  | Sentinel (s : sentinel) (msg : string)
  | Wrap (prefix : string) (inner : error).

#[export] Instance error_eq_dec : EqDecision error.
Proof. solve_decision. Defined.

(** [err.Error()]. *)
Fixpoint Error (e : error) : string :=
  match e with
  | Errorf m => m
  | Sentinel _ m => m
  | Wrap p e => p +:+ Error e
  end.

(** [errors.Is(err, sentinel)]. *)
Fixpoint errors_Is (e : error) (s : sentinel) : bool :=
  match e with
  | Errorf _ => false
  | Sentinel s' _ => bool_decide (s' = s)
  | Wrap _ e => errors_Is e s
  end.

(** A Go pair [(T, error)] of which one side is meaningful. *)
Inductive result (A : Type) :=
  | Ok (a : A)
  | Err (e : error).
Arguments Ok {A} a.
Arguments Err {A} e.

#[export] Instance result_ret : MRet result := fun A => @Ok A.
#[export] Instance result_bind : MBind result := fun A B f r =>
  match r with Ok a => f a | Err e => Err e end.
#[export] Instance result_fmap : FMap result := fun A B f r =>
  match r with Ok a => Ok (f a) | Err e => Err e end.

Lemma bind_ok {A B} (r : result A) (f : A -> result B) b :
  (r ≫= f) = Ok b <-> exists a, r = Ok a /\ f a = Ok b.
Proof. destruct r; naive_solver. Qed.

Lemma bind_err {A B} (r : result A) (f : A -> result B) e :
  (r ≫= f) = Err e <-> r = Err e \/ exists a, r = Ok a /\ f a = Err e.
Proof. destruct r; naive_solver. Qed.

(** The first error of two, as the code's [first] accumulators keep it. *)
Definition keep_first (first err : option error) : option error :=
  match first with Some _ => first | None => err end.

(** ** Machine integers *)

Definition int64_min : Z := - 2 ^ 63.
Definition int64_max : Z := 2 ^ 63 - 1.

(** Two's-complement wrap-around of a 64-bit signed result. *)
Definition wrap64 (z : Z) : Z := (z + 2 ^ 63) mod 2 ^ 64 - 2 ^ 63.

Definition in_int64 (z : Z) : Prop := int64_min <= z <= int64_max.

Lemma wrap64_range z : in_int64 (wrap64 z).
Proof.
  unfold in_int64, wrap64, int64_min, int64_max.
  pose proof (Z.mod_pos_bound (z + 2 ^ 63) (2 ^ 64) ltac:(lia)). lia.
Qed.

Lemma wrap64_id z : in_int64 z -> wrap64 z = z.
Proof.
  unfold in_int64, wrap64, int64_min, int64_max. intros ?.
  rewrite Z.mod_small; lia.
Qed.

#[export] Hint Resolve wrap64_range : gedung.
#[export] Hint Rewrite wrap64_id using (unfold in_int64, int64_min, int64_max in *; lia) : gedung_rw.

(** ** float64 *)

(** IEEE 754 binary64 values as the Standard Library specifies them. *)
Abbreviation float64 := spec_float.

#[export] Instance float64_eq_dec : EqDecision float64.
Proof. solve_decision. Defined.

(** The double nearest to an integer, and to the decimal constant [n / d]
    (both exactly representable, so the one division rounds correctly). *)
Definition f64_of_Z (z : Z) : float64 := binary_normalize 53 1024 z 0 false.
Definition f64_const (n d : Z) : float64 := SFdiv 53 1024 (f64_of_Z n) (f64_of_Z d).
Definition f64_add (x y : float64) : float64 := SFadd 53 1024 x y.
Definition f64_mul (x y : float64) : float64 := SFmul 53 1024 x y.
Definition f64_div (x y : float64) : float64 := SFdiv 53 1024 x y.
(** The comparisons are false on NaN. *)
Definition f64_le (x y : float64) : bool := SFleb x y.
Definition f64_lt (x y : float64) : bool := SFltb x y.
Definition f64_eq (x y : float64) : bool := SFeqb x y.
Definition f64_zero : float64 := S754_zero false.

(** ** time.Duration and time.Time *)

(** A [time.Duration] is an int64 count of nanoseconds. *)
Definition millisecond : Z := 1000000.
Definition second : Z := 1000000000.
Definition minute : Z := 60 * second.
Definition hour : Z := 60 * minute.

(** A [time.Time] is the instant it denotes, in nanoseconds since the Unix
    epoch; its location and monotonic reading are not part of the model. *)
Abbreviation time := Z.

(** The zero [time.Time], 1 January of year 1. *)
Definition unix_to_internal : Z := 62135596800.
Definition zero_time : time := - unix_to_internal * second.
Definition is_zero (t : time) : bool := t =? zero_time.

Definition time_after (t u : time) : bool := u <? t.
Definition time_before (t u : time) : bool := t <? u.
Definition time_equal (t u : time) : bool := t =? u.

(** [t.Sub(u)] saturates at the ends of the Duration range. *)
Definition time_sub (t u : time) : Z := Z.max int64_min (Z.min int64_max (t - u)).

(** [time.Unix(sec, nsec)] for [0 <= nsec < 1e9]: the seconds since year 1 are
    an int64. *)
Definition time_unix (sec nsec : Z) : time :=
  (wrap64 (sec + unix_to_internal) - unix_to_internal) * second + nsec.

(** [t.UnixNano()], an int64. *)
Definition unix_nano (t : time) : Z := wrap64 t.

(** [t.Truncate(d)] rounds down to a multiple of [d] since the zero time. *)
Definition time_truncate (t : time) (d : Z) : time :=
  if d <=? 0 then t else t - (t - zero_time) mod d.

Lemma time_sub_ge t u d :
  int64_min < d <= int64_max -> (d <= time_sub t u <-> d <= t - u).
Proof. unfold time_sub. lia. Qed.

Lemma time_sub_le t u d :
  int64_min <= d < int64_max -> (time_sub t u <= d <-> t - u <= d).
Proof. unfold time_sub. lia. Qed.

Lemma time_truncate_le t d : time_truncate t d <= t.
Proof.
  unfold time_truncate. case_match; bool_to_prop; [lia|].
  pose proof (Z.mod_pos_bound (t - zero_time) d). lia.
Qed.

Lemma time_truncate_mono t u d : t <= u -> time_truncate t d <= time_truncate u d.
Proof.
  intros Htu. unfold time_truncate. case_match; bool_to_prop; [lia|].
  pose proof (Z.div_le_mono (t - zero_time) (u - zero_time) d ltac:(lia) ltac:(lia)).
  pose proof (Z.div_mod (t - zero_time) d ltac:(lia)).
  pose proof (Z.div_mod (u - zero_time) d ltac:(lia)). nia.
Qed.

#[export] Hint Resolve time_truncate_le time_truncate_mono : gedung.

(** ** Iteration over Go maps *)

(** [for k, v := range m] visits every entry once, in an order the language
    leaves open.  The order is a parameter of every definition that ranges over
    a map, so a theorem about such a definition holds for all orders. *)
Class MapRange := {
  range {V : Type} : gmap string V -> list (string * V);
  range_perm {V : Type} (m : gmap string V) : range m ≡ₚ map_to_list m
}.

(** One legal order, used to evaluate definitions on concrete inputs. *)
Definition canonical_range : MapRange :=
  {| range V m := map_to_list m; range_perm V m := reflexivity _ |}.

Section map_range.
Context `{MR : MapRange} {V : Type}.
Implicit Types (m : gmap string V).

Lemma elem_of_range m k v : (k, v) ∈ range m <-> m !! k = Some v.
Proof. by rewrite range_perm, elem_of_map_to_list. Qed.

Lemma NoDup_range_keys m : NoDup (range m).*1.
Proof. rewrite range_perm. apply NoDup_fst_map_to_list. Qed.

Lemma NoDup_range m : NoDup (range m).
Proof. rewrite range_perm. apply NoDup_map_to_list. Qed.

Lemma length_range m : length (range m) = size m.
Proof. rewrite range_perm. apply length_map_to_list. Qed.
End map_range.

#[export] Hint Resolve NoDup_range NoDup_range_keys : gedung.

(** Folds whose steps commute do not depend on the order of the list. *)
Lemma foldl_perm {A B} (f : B -> A -> B) (b : B) (l1 l2 : list A) :
  (forall b x y, x ∈ l1 -> y ∈ l1 -> f (f b x) y = f (f b y) x) ->
  l1 ≡ₚ l2 -> foldl f b l1 = foldl f b l2.
Proof.
  intros Hcomm Hp. revert b Hcomm.
  induction Hp as [|x l1 l2 Hp IH|x y l|l1 l2 l3 Hp1 IH1 Hp2 IH2]; intros b Hcomm; simpl.
  - done.
  - apply IH. intros; apply Hcomm; by right.
  - rewrite (Hcomm b y x); [done|left|right; left].
  - rewrite IH1 by done. apply IH2. intros ???; rewrite <-!Hp1; by apply Hcomm.
Qed.

(** ** Sorting *)

(** What [sort.Slice] requires of [less]: a strict weak order. *)
Class LessOrder {A} (less : A -> A -> bool) := {
  less_asym x y : less x y = true -> less y x = false;
  less_cotrans x y z : less x y = false -> less y z = false -> less x z = false
}.

(** [sort.Slice] promises a permutation of its input, sorted by [less], and
    nothing on elements that [less] does not separate: it is not stable. *)
Class SliceSort := {
  sort_slice {A : Type} (less : A -> A -> bool) : list A -> list A;
  sort_slice_perm {A} less (l : list A) : sort_slice less l ≡ₚ l;
  sort_slice_sorted {A} (less : A -> A -> bool) `{!LessOrder less} (l : list A) :
    StronglySorted (fun x y => less y x = false) (sort_slice less l)
}.

(** Two legal sorts: merge sort of the list, and of its reverse. *)
Definition not_less {A} (less : A -> A -> bool) (x y : A) : Prop := less y x = false.
#[export] Instance not_less_dec {A} (less : A -> A -> bool) : RelDecision (not_less less).
Proof. intros x y. unfold not_less. apply _. Defined.

Definition merge_slice (reversed : bool) {A} (less : A -> A -> bool) (l : list A) : list A :=
  merge_sort (not_less less) (if reversed then rev l else l).

Lemma merge_slice_sorted reversed {A} (less : A -> A -> bool) `{!LessOrder less} l :
  StronglySorted (fun x y => less y x = false) (merge_slice reversed less l).
Proof.
  assert (Total (not_less less)).
  { intros x y. unfold not_less. destruct (less y x) eqn:E; [right|by left]. by apply less_asym. }
  assert (Transitive (not_less less)) by (intros x y z H1 H2; by apply (less_cotrans z y x)).
  by apply (StronglySorted_merge_sort (not_less less)).
Qed.

Definition merge_slice_sort (reversed : bool) : SliceSort.
Proof.
  refine {| sort_slice A := merge_slice reversed |}.
  - intros A less l. unfold merge_slice. rewrite merge_sort_Permutation.
    destruct reversed; [symmetry; apply Permutation_rev|done].
  - intros A less H l. by apply merge_slice_sorted.
Defined.

Lemma StronglySorted_snoc {A} (R : relation A) l x :
  StronglySorted R (l ++ [x]) <-> StronglySorted R l /\ Forall (fun y => R y x) l.
Proof.
  induction l as [|y l IH]; simpl.
  - split; [split; constructor|intros _; by repeat constructor].
  - split.
    + intros [Hs Hy]%StronglySorted_inv. apply IH in Hs as [Hs Hx]. apply Forall_app in Hy as [Hy Hyx].
      rewrite Forall_singleton in Hyx. split; [by apply SSorted_cons|by apply Forall_cons].
    + intros [[Hs Hy]%StronglySorted_inv [Hyx Hx]%Forall_cons]. constructor; [by apply IH|].
      apply Forall_app. split; [done|]. by apply Forall_singleton.
Qed.

Lemma StronglySorted_weaken {A} (R R' : relation A) l :
  (forall x y, R x y -> R' x y) -> StronglySorted R l -> StronglySorted R' l.
Proof.
  intros HR. induction 1 as [|x l Hs IH Hx]; constructor; [done|]. eapply Forall_impl; [exact Hx|]. auto.
Qed.

(** [sort.Strings]: byte order is total, so the result is determined. *)
Definition sort_strings (l : list string) : list string := merge_sort String.le l.

Lemma sort_strings_perm l : sort_strings l ≡ₚ l.
Proof. apply merge_sort_Permutation. Qed.

Lemma sort_strings_sorted l : StronglySorted String.le (sort_strings l).
Proof. apply StronglySorted_merge_sort; apply _. Qed.

Lemma sort_strings_unique l1 l2 : l1 ≡ₚ l2 -> sort_strings l1 = sort_strings l2.
Proof.
  intros Hp. apply (StronglySorted_unique String.le); [apply sort_strings_sorted..|].
  by rewrite !sort_strings_perm.
Qed.

Lemma sort_strings_id l : StronglySorted String.le l -> sort_strings l = l.
Proof.
  intros Hs. apply (StronglySorted_unique String.le); [apply sort_strings_sorted|done|].
  apply sort_strings_perm.
Qed.
