(* ===== verification/GoStrings.v ===== *)
(** * Go strings

    What the source uses of [strings], [strconv], [fmt] and the string
    comparison operators, on byte strings: order, prefixes, splitting at a
    separator, decimal integers.  Shared by the key schemas of [Event.v] and
    [Vehicle.v]. *)

From Stdlib Require Import Ascii.
From S2P Require Import Prelude.

(** ** Byte order *)

(** [a < b] and [a <= b] on strings. *)
Definition str_lt (a b : string) : bool := String.ltb a b.
Definition str_le (a b : string) : bool := String.leb a b.

Lemma str_le_spec a b : str_le a b = true <-> String.le a b.
Proof. unfold str_le, String.le. by rewrite Is_true_true. Qed.

Lemma str_lt_negb_le a b : str_lt a b = negb (str_le b a).
Proof.
  unfold str_lt, str_le, String.ltb, String.leb.
  rewrite (String.compare_antisym a b). by destruct (String.compare b a).
Qed.

Lemma str_lt_spec a b : str_lt a b = true <-> ~ String.le b a.
Proof. rewrite str_lt_negb_le, negb_true_iff, <-str_le_spec. by destruct (str_le b a). Qed.

Lemma str_lt_false a b : str_lt a b = false <-> String.le b a.
Proof. rewrite str_lt_negb_le, negb_false_iff. apply str_le_spec. Qed.

Lemma str_lt_irrefl a : str_lt a a = false.
Proof. by apply str_lt_false. Qed.

Lemma str_lt_trans a b c : str_lt a b = true -> str_lt b c = true -> str_lt a c = true.
Proof.
  rewrite !str_lt_spec. intros H1 H2 H3. apply H2. trans a; [done|].
  by destruct (total String.le a b).
Qed.

Lemma str_lt_le a b : str_lt a b = true <-> String.le a b /\ a <> b.
Proof.
  rewrite str_lt_spec. split.
  - intros H. split; [by destruct (total String.le a b)|]. intros ->. by apply H.
  - intros [H1 H2] H3. apply H2. by apply (anti_symm String.le).
Qed.

Lemma str_lt_total a b : a <> b -> str_lt a b = true \/ str_lt b a = true.
Proof.
  intros Hne. rewrite !str_lt_le. destruct (total String.le a b); auto.
Qed.

#[export] Hint Resolve str_lt_irrefl : gedung.

Lemma str_lt_cons c1 s1 c2 s2 :
  str_lt (String c1 s1) (String c2 s2) =
  ((N_of_ascii c1 <? N_of_ascii c2)%N || ((N_of_ascii c1 =? N_of_ascii c2)%N && str_lt s1 s2)).
Proof.
  unfold str_lt, String.ltb. simpl. unfold Ascii.compare.
  destruct (N.compare_spec (N_of_ascii c1) (N_of_ascii c2)) as [E|E|E].
  - rewrite E, N.ltb_irrefl, N.eqb_refl. done.
  - by rewrite (proj2 (N.ltb_lt _ _) E).
  - rewrite (proj2 (N.ltb_ge _ _)), (proj2 (N.eqb_neq _ _)) by lia. done.
Qed.

Lemma str_lt_nil_r s : str_lt s "" = false.
Proof. by destruct s. Qed.

(** ** Bytes *)

Lemma N_of_ascii_inj a b : N_of_ascii a = N_of_ascii b -> a = b.
Proof. intros H. by rewrite <-(ascii_N_embedding a), <-(ascii_N_embedding b), H. Qed.

Lemma N_of_ascii_bound a : (N_of_ascii a < 256)%N.
Proof. by destruct a as [[] [] [] [] [] [] [] []]. Qed.

(** ** Prefixes *)

(** [strings.HasPrefix(s, p)]. *)
Definition has_prefix (s p : string) : bool := String.prefix p s.

Lemma has_prefix_spec s p : has_prefix s p = true <-> exists r, s = p +:+ r.
Proof.
  unfold has_prefix. revert s. induction p as [|c p IH]; intros [|d s]; simpl.
  - split; [by exists ""|done].
  - split; [by exists (String d s)|done].
  - split; [done|]. intros [r Hr]. by destruct r.
  - destruct (ascii_dec c d) as [->|Hne].
    + rewrite IH. split; intros [r Hr]; exists r; unfold String.append in *; simpl in *; congruence.
    + split; [done|]. intros [r Hr]. unfold String.append in *; simpl in *; congruence.
Qed.

Lemma has_prefix_cons c s d p :
  has_prefix (String c s) (String d p) = (N_of_ascii d =? N_of_ascii c)%N && has_prefix s p.
Proof.
  unfold has_prefix. simpl. destruct (ascii_dec d c) as [->|Hne].
  - by rewrite N.eqb_refl.
  - rewrite (proj2 (N.eqb_neq _ _)); [done|]. intros E. by apply Hne, N_of_ascii_inj.
Qed.

(** [strings.Contains(s, sub)]. *)
Definition str_contains (s sub : string) : bool :=
  match String.index 0 sub s with Some _ => true | None => false end.

(** ** Separators *)

(** [strings.IndexByte(s, c)]: -1 when absent. *)
Fixpoint index_byte (s : string) (c : ascii) : Z :=
  match s with
  | "" => -1
  | String d s =>
      if decide (d = c) then 0
      else let i := index_byte s c in if i <? 0 then -1 else i + 1
  end.

(** [s[:i]] and [s[i:]]. *)
Definition str_take (i : Z) (s : string) : string := String.substring 0 (Z.to_nat i) s.

(** [strings.Cut(s, c)] at a one-byte separator. *)
Fixpoint str_cut (c : ascii) (s : string) : string * option string :=
  match s with
  | "" => ("", None)
  | String d s =>
      if decide (d = c) then ("", Some s)
      else let '(a, r) := str_cut c s in (String d a, r)
  end.

(** [strings.SplitN(s, sep, n)] for [n > 0]: at most [n] pieces, the last one
    unsplit. *)
Fixpoint split_n (n : nat) (c : ascii) (s : string) : list string :=
  match n with
  | O => []
  | S O => [s]
  | S n =>
      match str_cut c s with
      | (a, None) => [a]
      | (a, Some r) => a :: split_n n c r
      end
  end.

(** The bytes of a string, and whether a byte occurs in it. *)
Fixpoint has_byte (c : ascii) (s : string) : bool :=
  match s with
  | "" => false
  | String d s => bool_decide (d = c) || has_byte c s
  end.

Lemma has_byte_app c s t : has_byte c (s +:+ t) = has_byte c s || has_byte c t.
Proof.
  induction s as [|d s IH]; [done|]. unfold String.append in *. simpl.
  by rewrite IH, orb_assoc.
Qed.

Lemma str_cut_app c a r :
  has_byte c a = false -> str_cut c (a +:+ String c r) = (a, Some r).
Proof.
  induction a as [|d a IH]; intros Hc; unfold String.append in *; simpl in *.
  - by rewrite decide_True.
  - bool_to_prop. rewrite decide_False by done. by rewrite IH.
Qed.

Lemma str_cut_none c a : has_byte c a = false -> str_cut c a = (a, None).
Proof.
  induction a as [|d a IH]; intros Hc; simpl in *; [done|].
  bool_to_prop. rewrite decide_False by done. by rewrite IH.
Qed.

Lemma index_byte_app c a r :
  has_byte c a = false -> index_byte (a +:+ String c r) c = Z.of_nat (String.length a).
Proof.
  induction a as [|d a IH]; intros Hc; unfold String.append in *; simpl in *.
  - by rewrite decide_True.
  - bool_to_prop. rewrite decide_False by done. rewrite IH by done.
    rewrite (proj2 (Z.ltb_ge _ _)) by lia. lia.
Qed.

Lemma str_take_app a r : str_take (Z.of_nat (String.length a)) (a +:+ r) = a.
Proof.
  unfold str_take. rewrite Nat2Z.id. unfold String.append.
  induction a as [|d a IH]; simpl; [by destruct r|]. by rewrite IH.
Qed.

Lemma str_app_assoc a b c : (a +:+ b) +:+ c = a +:+ (b +:+ c).
Proof.
  induction a as [|d a IH]; unfold String.append in *; simpl; [done|]. by rewrite IH.
Qed.

Lemma length_app_str a b : String.length (a +:+ b) = (String.length a + String.length b)%nat.
Proof. induction a as [|c a IH]; simpl; [done|]. change (String c a +:+ b) with (String c (a +:+ b)). simpl. by rewrite IH. Qed.

Lemma app_str_nil_r a : a +:+ "" = a.
Proof. induction a as [|x a IH]; [done|]. change (String x (a +:+ "") = String x a). by rewrite IH. Qed.

Lemma str_app_cons d a r : String d a +:+ r = String d (a +:+ r).
Proof. done. Qed.

#[export] Hint Rewrite has_byte_app str_app_assoc : gedung_rw.

(** ** Decimal integers *)

(** [%q]: the text between double quotes.  The escapes of quotes, backslashes and
    unprintable bytes are left out: they occur in error texts only. *)
Definition quote (s : string) : string :=
  let q := String (Ascii.ascii_of_N 34) "" in q +:+ s +:+ q.

(** [%d]. *)
Definition itoa (z : Z) : string := pretty z.

Definition digit_of (c : ascii) : option N :=
  let n := N_of_ascii c in
  if ((48 <=? n) && (n <=? 57))%N then Some (n - 48)%N else None.

Inductive num_error := NumSyntax | NumRange.

#[export] Instance num_error_eq_dec : EqDecision num_error.
Proof. solve_decision. Defined.

Definition uint64_max : N := (2 ^ 64 - 1)%N.

(** The loop of [strconv.ParseUint(s, 10, 64)]: a bad digit is a syntax error,
    an overflow stops the loop with the largest value. *)
Fixpoint parse_uint_go (s : string) (acc : N) : N * option num_error :=
  match s with
  | "" => (acc, None)
  | String c s =>
      match digit_of c with
      | None => (0%N, Some NumSyntax)
      | Some d =>
          let n := (acc * 10 + d)%N in
          if (uint64_max <? n)%N then (uint64_max, Some NumRange)
          else parse_uint_go s n
      end
  end.

Definition parse_uint (s : string) : N * option num_error :=
  match s with "" => (0%N, Some NumSyntax) | _ => parse_uint_go s 0 end.

(** [strconv.ParseInt(s, 10, 64)] (and [strconv.Atoi], whose int is 64 bits):
    the value is meaningful on a range error too, where it is the nearest
    limit. *)
Definition parse_int (s : string) : Z * option num_error :=
  match s with
  | "" => (0, Some NumSyntax)
  | String c r =>
      let neg := bool_decide (c = "-"%char) in
      let digits := if neg || bool_decide (c = "+"%char) then r else s in
      match parse_uint digits with
      | (_, Some NumSyntax) => (0, Some NumSyntax)
      | (un, e) =>
          if negb neg && (2 ^ 63 <=? un)%N then (int64_max, Some NumRange)
          else if neg && (2 ^ 63 <? un)%N then (int64_min, Some NumRange)
          else (if neg then - Z.of_N un else Z.of_N un, e)
      end
  end.

Lemma digit_of_pretty_N_char d : (d < 10)%N -> digit_of (pretty_N_char d) = Some d.
Proof.
  intros Hd.
  assert (d = 0 ∨ d = 1 ∨ d = 2 ∨ d = 3 ∨ d = 4 ∨ d = 5 ∨ d = 6 ∨ d = 7 ∨ d = 8 ∨ d = 9)%N
    by lia.
  naive_solver.
Qed.

Lemma parse_uint_go_pretty x s :
  (x <= uint64_max)%N -> parse_uint_go (pretty_N_go x s) 0 = parse_uint_go s x.
Proof.
  revert s. induction (N.lt_wf_0 x) as [x _ IH]; intros s Hx.
  destruct (decide (x = 0)%N) as [->|Hne]; [by rewrite pretty_N_go_0|].
  rewrite pretty_N_go_step by lia.
  rewrite IH; [|apply N.div_lt; lia|etrans; [apply N.Div0.div_le_upper_bound with (q := x); lia|done]].
  simpl. rewrite digit_of_pretty_N_char by (apply N.mod_lt; lia).
  assert (x `div` 10 * 10 + x `mod` 10 = x)%N as -> by (pose proof (N.div_mod x 10); lia).
  by rewrite (proj2 (N.ltb_ge _ _)) by done.
Qed.

Lemma pretty_N_go_head x s :
  (0 < x)%N -> exists d r, (d < 10)%N /\ pretty_N_go x s = String (pretty_N_char d) r.
Proof.
  revert s. induction (N.lt_wf_0 x) as [x _ IH]; intros s Hx.
  rewrite pretty_N_go_step by done.
  destruct (decide (x < 10)%N) as [Hlt|Hge].
  - exists x, s. rewrite N.div_small, N.mod_small, pretty_N_go_0 by done. done.
  - apply IH; [apply N.div_lt; lia|]. apply N.div_str_pos. lia.
Qed.

Lemma parse_uint_pretty (x : N) : (x <= uint64_max)%N -> parse_uint (pretty x) = (x, None).
Proof.
  intros Hx. unfold pretty, pretty_N. case_decide as H0; [by subst|].
  destruct (pretty_N_go_head x "") as (d & r & _ & E); [lia|].
  trans (parse_uint_go (pretty_N_go x "") 0); [by rewrite E|].
  by rewrite parse_uint_go_pretty.
Qed.

Lemma pretty_N_head (x : N) :
  exists d r, (d < 10)%N /\ pretty x = String (pretty_N_char d) r.
Proof.
  unfold pretty, pretty_N. case_decide; [by exists 0%N, ""|].
  apply pretty_N_go_head. lia.
Qed.

Lemma pretty_N_char_not_sign d :
  (d < 10)%N -> pretty_N_char d <> "-"%char /\ pretty_N_char d <> "+"%char.
Proof. intros Hd. unfold pretty_N_char. by repeat case_match. Qed.

(** Printing an int64 and parsing it back gives the same integer. *)
Lemma parse_int_itoa z : in_int64 z -> parse_int (itoa z) = (z, None).
Proof.
  unfold in_int64, int64_min, int64_max, itoa. intros Hz.
  assert (Hpos : forall p : positive, (N.pos p <= 2 ^ 63)%N ->
    parse_uint (pretty (N.pos p)) = (N.pos p, None)).
  { intros p Hp. apply parse_uint_pretty. unfold uint64_max. lia. }
  destruct z as [|p|p]; [done|..].
  - change (pretty (Z.pos p)) with (pretty (N.pos p)).
    destruct (pretty_N_head (N.pos p)) as (d & r & Hd & E).
    unfold parse_int. rewrite E.
    destruct (pretty_N_char_not_sign d Hd).
    rewrite !bool_decide_false by done. cbn [orb negb andb]. rewrite <-E, Hpos by lia.
    by rewrite (proj2 (N.leb_gt _ _)) by lia.
  - change (pretty (Z.neg p)) with ("-" +:+ pretty (N.pos p)).
    unfold parse_int, String.append.
    rewrite bool_decide_true by done. cbn [orb negb andb]. rewrite Hpos by lia.
    by rewrite (proj2 (N.ltb_ge _ _)) by lia.
Qed.

Lemma itoa_inj x y : itoa x = itoa y -> x = y.
Proof. apply (inj (pretty (A := Z))). Qed.

Lemma has_byte_pretty_N_go c x s :
  (forall d, (d < 10)%N -> pretty_N_char d <> c) ->
  has_byte c (pretty_N_go x s) = has_byte c s.
Proof.
  intros Hc. revert s. induction (N.lt_wf_0 x) as [x _ IH]; intros s.
  destruct (decide (x = 0)%N) as [->|Hne]; [by rewrite pretty_N_go_0|].
  rewrite pretty_N_go_step by lia. rewrite IH by (apply N.div_lt; lia).
  simpl. rewrite bool_decide_false; [done|]. apply Hc, N.mod_lt. lia.
Qed.

(** A decimal integer contains no separator. *)
Lemma has_byte_itoa c z :
  (forall d, (d < 10)%N -> pretty_N_char d <> c) -> c <> "-"%char ->
  has_byte c (itoa z) = false.
Proof.
  intros Hc Hm.
  assert (HN : forall n : N, has_byte c (pretty n) = false).
  { intros n. unfold pretty, pretty_N. case_decide.
    - simpl. specialize (Hc 0%N ltac:(lia)). simpl in Hc. by rewrite bool_decide_false.
    - by rewrite has_byte_pretty_N_go. }
  unfold itoa. destruct z as [|p|p].
  - apply (HN 0%N).
  - apply (HN (N.pos p)).
  - change (pretty (Z.neg p)) with (String "-"%char (pretty (N.pos p))). simpl.
    rewrite bool_decide_false by done. apply HN.
Qed.

(** ** All bytes of a string *)

Fixpoint all_bytes (f : ascii -> bool) (s : string) : bool :=
  match s with "" => true | String c r => f c && all_bytes f r end.

Lemma all_bytes_app f a b : all_bytes f (a +:+ b) = all_bytes f a && all_bytes f b.
Proof. induction a as [|c a IH]; [done|]. rewrite str_app_cons. simpl. by rewrite IH, andb_assoc. Qed.

Lemma all_bytes_impl f g s : (forall c, f c = true -> g c = true) -> all_bytes f s = true -> all_bytes g s = true.
Proof.
  intros Hfg. induction s as [|c s IH]; [done|]. simpl. intros [Hc Hs]%andb_true_iff. by rewrite Hfg, IH.
Qed.

Lemma all_bytes_absent f c s : all_bytes f s = true -> f c = false -> has_byte c s = false.
Proof.
  intros Hs Hc. induction s as [|d s IH]; [done|]. simpl in *. apply andb_true_iff in Hs as [Hd Hs].
  rewrite IH by done. case_bool_decide; [subst; congruence|done].
Qed.

(** ** Hexadecimal digits *)

Definition hex_digit (n : N) : ascii := ascii_of_N (if (n <? 10)%N then 48 + n else 87 + n).

Lemma hex_digit_inj a b : (a < 16)%N -> (b < 16)%N -> hex_digit a = hex_digit b -> a = b.
Proof.
  unfold hex_digit. intros Ha Hb E. apply (f_equal N_of_ascii) in E.
  assert (Hv : forall n, (n < 16)%N -> N_of_ascii (ascii_of_N (if (n <? 10)%N then 48 + n else 87 + n)) = (if (n <? 10)%N then 48 + n else 87 + n)%N).
  { intros n Hn. apply N_ascii_embedding. destruct (n <? 10)%N; lia. }
  rewrite !Hv in E by done. revert E. destruct (N.ltb_spec a 10), (N.ltb_spec b 10); lia.
Qed.
