(* ===== verification/GoTime.v ===== *)
(** * time.ParseDuration and path/filepath

    The parts of Go's standard library the configuration code calls:
    [time.ParseDuration] (its unsigned 64-bit sums and its float64 fractions)
    and the Unix [filepath.Clean]/[filepath.Join]. *)

From Stdlib Require Import Ascii SpecFloat.
From S2P Require Import Prelude GoStrings.

(** Truncation of a finite double towards zero, as Go converts to an integer. *)
Definition f64_trunc (f : float64) : Z :=
  match f with
  | S754_finite s m e =>
      let v := if 0 <=? e then Z.pos m * 2 ^ e else Z.pos m / 2 ^ (- e) in
      if s then - v else v
  | _ => 0
  end.

Definition is_digit (c : ascii) : bool := bool_decide (is_Some (digit_of c)).
Definition digit_val (c : ascii) : Z := Z.of_N (default 0%N (digit_of c)).

(** [leadingInt]: [None] for the overflow error. *)
Fixpoint leadingInt (x : Z) (s : string) : option (Z * string) :=
  match s with
  | "" => Some (x, s)
  | String c s' =>
      if is_digit c then
        if 2 ^ 63 / 10 <? x then None
        else let x := x * 10 + digit_val c in
             if 2 ^ 63 <? x then None else leadingInt x s'
      else Some (x, s)
  end.

(** [leadingFraction]: the digits, their scale, the rest. *)
Fixpoint leadingFraction (x : Z) (scale : float64) (overflow : bool) (s : string) : Z * float64 * string :=
  match s with
  | "" => (x, scale, s)
  | String c s' =>
      if is_digit c then
        if overflow then leadingFraction x scale overflow s'
        else if (2 ^ 63 - 1) / 10 <? x then leadingFraction x scale true s'
        else let y := x * 10 + digit_val c in
             if 2 ^ 63 <? y then leadingFraction x scale true s'
             else leadingFraction y (f64_mul scale (f64_of_Z 10)) overflow s'
      else (x, scale, s)
  end.

(** The unit: everything up to the next digit or period. *)
Fixpoint unit_span (s : string) : string * string :=
  match s with
  | "" => ("", "")
  | String c s' =>
      if bool_decide (c = "."%char) || is_digit c then ("", s)
      else let '(u, r) := unit_span s' in (String c u, r)
  end.

Definition unitMap (u : string) : option Z :=
  if bool_decide (u = "ns") then Some 1
  else if bool_decide (u = "us") || bool_decide (u = "µs") || bool_decide (u = "μs") then Some 1000
  else if bool_decide (u = "ms") then Some millisecond
  else if bool_decide (u = "s") then Some second
  else if bool_decide (u = "m") then Some minute
  else if bool_decide (u = "h") then Some hour
  else None.

(** One [v.f unit] element added to [d]. *)
Definition duration_element (d : Z) (s : string) : option (Z * string) :=
  match s with
  | "" => None
  | String c _ =>
      if bool_decide (c = "."%char) || is_digit c then
        match leadingInt 0 s with
        | None => None
        | Some (v, s1) =>
            let pre := negb (bool_decide (String.length s1 = String.length s)) in
            let '(f, scale, s2, post) :=
              match s1 with
              | String "." s1' =>
                  let '(f, scale, s2) := leadingFraction 0 (f64_of_Z 1) false s1' in
                  (f, scale, s2, negb (bool_decide (String.length s2 = String.length s1')))
              | _ => (0, f64_of_Z 1, s1, false)
              end in
            if negb pre && negb post then None
            else
              let '(u, s3) := unit_span s2 in
              match unitMap u with
              | None => None
              | Some unit =>
                  if 2 ^ 63 / unit <? v then None
                  else
                    let v := v * unit in
                    let v := if 0 <? f
                             then v + f64_trunc (f64_mul (f64_of_Z f) (f64_div (f64_of_Z unit) scale))
                             else v in
                    if 2 ^ 63 <? v then None
                    else
                      let d := (d + v) mod 2 ^ 64 in
                      if 2 ^ 63 <? d then None else Some (d, s3)
              end
        end
      else None
  end.

(** Every element consumes its digits, so the length of the string is enough
    fuel. *)
Fixpoint duration_elements (fuel : nat) (d : Z) (s : string) : option Z :=
  match fuel with
  | O => None
  | S fuel' =>
      if bool_decide (s = "") then Some d
      else match duration_element d s with
           | None => None
           | Some (d', s') => duration_elements fuel' d' s'
           end
  end.

(** [time.ParseDuration]: [None] for the error, whose text no caller reads. *)
Definition ParseDuration (s : string) : option Z :=
  let '(neg, s) := match s with
                   | String "-" s' => (true, s')
                   | String "+" s' => (false, s')
                   | _ => (false, s)
                   end in
  if bool_decide (s = "0") then Some 0
  else if bool_decide (s = "") then None
  else match duration_elements (S (String.length s)) 0 s with
       | None => None
       | Some d =>
           if neg then Some (wrap64 (- d))
           else if 2 ^ 63 - 1 <? d then None else Some d
       end.

Example ParseDuration_hours : ParseDuration "48h" = Some (48 * hour).
Proof. by vm_compute. Qed.

Example ParseDuration_mixed : ParseDuration "-1h2.5m.25s" = Some (- (hour + 2 * minute + 30 * second + 250 * millisecond)).
Proof. by vm_compute. Qed.

Example ParseDuration_bad : ParseDuration "not-a-duration" = None /\ ParseDuration "5" = None /\ ParseDuration "3e9s" = None.
Proof. by vm_compute. Qed.

(** ** filepath *)

Fixpoint split_all (c : ascii) (s : string) : list string :=
  match s with
  | "" => [""]
  | String a s' =>
      if bool_decide (a = c) then "" :: split_all c s'
      else match split_all c s' with
           | [] => [String a ""]
           | x :: l => String a x :: l
           end
  end.

Lemma split_all_app c a b : split_all c (a +:+ String c b) = split_all c a ++ split_all c b.
Proof.
  induction a as [|d a IH]; [unfold String.append; cbn [split_all]; by rewrite bool_decide_true|].
  rewrite str_app_cons. cbn [split_all]. rewrite IH. case_bool_decide; [done|].
  destruct (split_all c a) as [|x l] eqn:Hs; [|done].
  exfalso. clear -Hs. destruct a as [|e a]; [done|]. cbn [split_all] in Hs. case_bool_decide; [done|].
  by destruct (split_all c a).
Qed.

Lemma split_all_none c s : has_byte c s = false -> split_all c s = [s].
Proof. induction s as [|d s IH]; [done|]. simpl. intros [-> Hs]%orb_false_iff. by rewrite IH. Qed.

(** One path element against the cleaned elements so far, last one first. *)
Definition clean_step (rooted : bool) (out : list string) (elem : string) : list string :=
  if bool_decide (elem = "") || bool_decide (elem = ".") then out
  else if bool_decide (elem = "..") then
    match out with
    | [] => if rooted then [] else [".."]
    | last :: out' => if bool_decide (last = "..") then ".." :: out else out'
    end
  else elem :: out.

Definition Clean (path : string) : string :=
  if bool_decide (path = "") then "."
  else
    let rooted := has_prefix path "/" in
    let body := String.concat "/" (rev (foldl (clean_step rooted) [] (split_all "/" path))) in
    if rooted then "/" +:+ body
    else if bool_decide (body = "") then "." else body.

(** [filepath.Join]: the empty elements are ignored. *)
Definition Join (elems : list string) : string :=
  let elems := List.filter (fun e => negb (bool_decide (e = ""))) elems in
  if bool_decide (elems = []) then "" else Clean (String.concat "/" elems).

Example Clean_ex : Clean "data//cache/./x/../tenant-a/" = "data/cache/tenant-a" /\ Clean "../../a" = "../../a" /\ Clean "/.." = "/".
Proof. by vm_compute. Qed.
