(* ===== verification/KeyRange.v ===== *)
(** * Key ranges

    The range scans of the store take an inclusive lower and an exclusive upper
    key.  Both key schemas (internal/model and internal/gtfs) turn a prefix into
    such a range with the same [prefixUpperBound]; this file models it and shows
    when the range holds exactly the keys with the prefix. *)

From Stdlib Require Import Ascii.
From S2P Require Import Prelude GoStrings.

(** The keys an iterator with [MinKey = lo] and [MaxKey = hi] visits. *)
Definition in_scan (lo hi k : string) : bool := str_le lo k && str_lt k hi.

(** The loop of [prefixUpperBound]: from the last byte down, increment the
    first byte below 0xff that is met and cut the string after it; [None] when
    every byte is 0xff. *)
Fixpoint bump_last (s : string) : option string :=
  match s with
  | "" => None
  | String c r =>
      match bump_last r with
      | Some r' => Some (String c r')
      | None =>
          if (N_of_ascii c <? 255)%N
          then Some (String (ascii_of_N (N_of_ascii c + 1)) "")
          else None
      end
  end.

Definition prefixUpperBound (prefix : string) : string :=
  match bump_last prefix with
  | Some out => out
  | None => prefix +:+ String (ascii_of_N 0) ""
  end.

(** Every byte is 0xff. *)
Fixpoint all_ff (s : string) : bool :=
  match s with
  | "" => true
  | String c r => (N_of_ascii c =? 255)%N && all_ff r
  end.

Lemma bump_last_none s : bump_last s = None <-> all_ff s = true.
Proof.
  induction s as [|c r IH]; [done|]. simpl.
  pose proof (N_of_ascii_bound c).
  destruct (bump_last r); destruct (N.ltb_spec (N_of_ascii c) 255);
    destruct (N.eqb_spec (N_of_ascii c) 255); destruct (all_ff r);
    simpl; split; try lia; try naive_solver.
Qed.

Lemma str_le_cons c1 s1 c2 s2 :
  str_le (String c1 s1) (String c2 s2) =
  ((N_of_ascii c1 <? N_of_ascii c2)%N || ((N_of_ascii c1 =? N_of_ascii c2)%N && str_le s1 s2)).
Proof.
  pose proof (str_lt_negb_le (String c2 s2) (String c1 s1)) as E.
  pose proof (str_lt_negb_le s2 s1) as E'.
  rewrite str_lt_cons in E. rewrite E' in E.
  apply (f_equal negb) in E. rewrite negb_involutive in E. rewrite <-E.
  destruct (N.ltb_spec (N_of_ascii c1) (N_of_ascii c2)), (N.eqb_spec (N_of_ascii c1) (N_of_ascii c2)),
    (N.ltb_spec (N_of_ascii c2) (N_of_ascii c1)), (N.eqb_spec (N_of_ascii c2) (N_of_ascii c1)),
    (str_le s1 s2); simpl; try done; lia.
Qed.

Lemma str_le_nil s : str_le "" s = true.
Proof. by destruct s. Qed.

(** Above a string of 0xff bytes there are only its extensions. *)
Lemma all_ff_le p k : all_ff p = true -> str_le p k = has_prefix k p.
Proof.
  revert k. induction p as [|c p IH]; intros k Hp; [by rewrite str_le_nil; destruct k|].
  simpl in Hp. apply andb_true_iff in Hp as [Hc Hp]. apply N.eqb_eq in Hc.
  destruct k as [|d k]; [done|].
  rewrite str_le_cons, has_prefix_cons, IH by done.
  pose proof (N_of_ascii_bound d). rewrite Hc.
  destruct (N.ltb_spec 255 (N_of_ascii d)); [lia|]. by rewrite N.eqb_sym.
Qed.

Lemma N_of_ascii_succ c :
  (N_of_ascii c <? 255)%N = true ->
  N_of_ascii (ascii_of_N (N_of_ascii c + 1)) = (N_of_ascii c + 1)%N.
Proof. intros H%N.ltb_lt. apply N_ascii_embedding. lia. Qed.

Lemma bump_last_scan p ub k :
  bump_last p = Some ub -> in_scan p ub k = has_prefix k p.
Proof.
  unfold in_scan. revert ub k. induction p as [|c p IH]; intros ub k Hub; [done|].
  simpl in Hub. destruct k as [|d k].
  { by destruct ub. }
  rewrite str_le_cons, has_prefix_cons.
  destruct (bump_last p) as [r|] eqn:Hr; simplify_eq.
  - rewrite str_lt_cons, <-(IH r k) by done. rewrite (N.eqb_sym (N_of_ascii d)).
    destruct (N.ltb_spec (N_of_ascii c) (N_of_ascii d)), (N.ltb_spec (N_of_ascii d) (N_of_ascii c)),
      (N.eqb_spec (N_of_ascii c) (N_of_ascii d)); try lia; simpl; try done.
  - destruct (N_of_ascii c <? 255)%N eqn:Hc; simplify_eq.
    rewrite str_lt_cons, N_of_ascii_succ, str_lt_nil_r, andb_false_r, orb_false_r by done.
    rewrite <-(all_ff_le p k) by by apply bump_last_none.
    destruct (N.ltb_spec (N_of_ascii c) (N_of_ascii d)), (N.eqb_spec (N_of_ascii c) (N_of_ascii d)),
      (N.ltb_spec (N_of_ascii d) (N_of_ascii c + 1)); try lia; simpl; try done.
    all: by rewrite ?andb_true_r, ?andb_false_r.
Qed.

(** The scan of [prefix, prefixUpperBound(prefix)) visits exactly the keys that
    start with the prefix, whatever bytes the prefix has, unless all of them
    are 0xff. *)
Lemma scan_prefix p k :
  all_ff p = false -> in_scan p (prefixUpperBound p) k = has_prefix k p.
Proof.
  intros Hp. unfold prefixUpperBound. destruct (bump_last p) eqn:E.
  - by apply bump_last_scan.
  - apply bump_last_none in E. congruence.
Qed.

Lemma all_ff_app p q : all_ff (p +:+ q) = all_ff p && all_ff q.
Proof.
  induction p as [|c p IH]; [done|]. rewrite str_app_cons. simpl. by rewrite IH, andb_assoc.
Qed.

(** The fallback of the loop is not an upper bound of the prefix: the scan of
    an all-0xff prefix holds the prefix itself and nothing else. *)
Lemma scan_all_ff p k :
  all_ff p = true -> in_scan p (prefixUpperBound p) k = bool_decide (k = p).
Proof.
  intros Hp. unfold prefixUpperBound. rewrite (proj2 (bump_last_none p)) by done.
  unfold in_scan. rewrite all_ff_le by done. clear Hp.
  revert k. induction p as [|c p IH]; intros k.
  - destruct k as [|d k]; [done|]. unfold String.append.
    rewrite str_lt_cons, N_ascii_embedding by lia. rewrite str_lt_nil_r, andb_false_r, orb_false_r.
    destruct (N.ltb_spec (N_of_ascii d) 0); [lia|]. done.
  - destruct k as [|d k]; [done|]. rewrite has_prefix_cons, str_app_cons, str_lt_cons.
    destruct (N.eqb_spec (N_of_ascii c) (N_of_ascii d)) as [E|E]; simpl.
    + apply N_of_ascii_inj in E as ->. rewrite N.ltb_irrefl, N.eqb_refl. simpl. rewrite IH.
      apply bool_decide_ext. naive_solver.
    + symmetry. apply bool_decide_false. naive_solver.
Qed.

(** [prefixUpperBound] is the least bound it can be.  Scanning from any
    prefix to its upper bound visits exactly the keys that start with the
    prefix when some byte of it is below 0xff; when every byte is 0xff the
    range holds the prefix itself only. *)
Theorem prefix_upper_bound_exact p k :
  in_scan p (prefixUpperBound p) k =
  if all_ff p then bool_decide (k = p) else has_prefix k p.
Proof. destruct (all_ff p) eqn:Hp; [by apply scan_all_ff|by apply scan_prefix]. Qed.
