(* ===== verification/Json.v ===== *)
(** * JSON documents

    What the source uses of [encoding/json]: struct fields with their names and
    [omitempty], field lookup on decoding, the errors of both directions.  A
    stored value is the document its bytes hold.  Two lexical conversions are
    not spelled out: a number is the float64 or integer that its shortest text
    denotes, and the RFC 3339 text of an instant is the instant ([JTime]); JsonText
    has the bytes. *)

From Stdlib Require Import Ascii SpecFloat.
From S2P Require Import Prelude GoStrings.

#[warnings="-register-all"]
Inductive json :=
  | JNull
  | JBool (b : bool)
  | JInt (z : Z)
  | JFloat (f : float64)
  | JStr (s : string)
  | JTime (t : time)
  | JArr (l : list json)
  | JObj (fields : list (string * json)).

(** The [[]byte] of a stored value or a file: a document, or bytes that are not
    JSON. *)
Inductive value :=
  | Doc (j : json)
  | Raw (s : string).

(** ** UTF-8 coercion *)

Definition byte_in (lo hi : N) (c : ascii) : bool :=
  ((lo <=? N_of_ascii c) && (N_of_ascii c <=? hi))%N.
Definition cont_byte : ascii -> bool := byte_in 128 191.

(** Lead byte and the range of the byte after it, for sequences of 3 and 4. *)
Definition lead3 (c d : ascii) : bool :=
  (byte_in 224 224 c && byte_in 160 191 d) || (byte_in 237 237 c && byte_in 128 159 d)
  || ((byte_in 225 236 c || byte_in 238 239 c) && cont_byte d).
Definition lead4 (c d : ascii) : bool :=
  (byte_in 240 240 c && byte_in 144 191 d) || (byte_in 244 244 c && byte_in 128 143 d)
  || (byte_in 241 243 c && cont_byte d).

Definition replacement : string :=
  String (ascii_of_N 239) (String (ascii_of_N 191) (String (ascii_of_N 189) "")).

(** [json.Marshal] writes every byte that is not part of a well-formed UTF-8
    sequence as U+FFFD. *)
Fixpoint utf8_coerce (s : string) : string :=
  match s with
  | "" => ""
  | String c r =>
      if byte_in 0 127 c then String c (utf8_coerce r) else
      match r with
      | String d r1 =>
          if byte_in 194 223 c && cont_byte d then String c (String d (utf8_coerce r1)) else
          match r1 with
          | String e r2 =>
              if lead3 c d && cont_byte e
              then String c (String d (String e (utf8_coerce r2))) else
              match r2 with
              | String f r3 =>
                  if lead4 c d && cont_byte e && cont_byte f
                  then String c (String d (String e (String f (utf8_coerce r3))))
                  else replacement +:+ utf8_coerce r
              | "" => replacement +:+ utf8_coerce r
              end
          | "" => replacement +:+ utf8_coerce r
          end
      | "" => replacement
      end
  end.

Definition utf8_valid (s : string) : bool := bool_decide (utf8_coerce s = s).

(** ** Encoding *)

Definition f64_finite (f : float64) : bool :=
  match f with S754_zero _ | S754_finite _ _ _ => true | _ => false end.
Definition f64_is_zero (f : float64) : bool :=
  match f with S754_zero _ => true | _ => false end.

(** Instants whose year is in [0, 9999]. *)
Definition json_time_ok (t : time) : bool :=
  (-62167219200 * second <=? t) && (t <? 253402300800 * second).

Definition enc_str (s : string) : json := JStr (utf8_coerce s).
Definition enc_float (f : float64) : result json :=
  if f64_finite f then Ok (JFloat f) else Err (Errorf "json: unsupported value").
Definition enc_time (t : time) : result json :=
  if json_time_ok t then Ok (JTime t)
  else Err (Errorf "json: error calling MarshalJSON for type time.Time: Time.MarshalJSON: year outside of range [0,9999]").

(** The fields of a struct, each with its [omitempty] test. *)
Definition omit_if (empty : bool) (name : string) (j : json) : list (string * json) :=
  if empty then [] else [(name, j)].

(** ** Decoding *)

Definition ascii_lower (c : ascii) : ascii :=
  if byte_in 65 90 c then ascii_of_N (N_of_ascii c + 32) else c.
Fixpoint str_lower (s : string) : string :=
  match s with "" => "" | String c s => String (ascii_lower c) (str_lower s) end.

(** Field names match up to (ASCII) case; a later member wins. *)
Fixpoint json_field (name : string) (fields : list (string * json)) : option json :=
  match fields with
  | [] => None
  | (k, j) :: fields =>
      match json_field name fields with
      | Some j' => Some j'
      | None => if bool_decide (str_lower k = str_lower name) then Some j else None
      end
  end.

Definition type_error {A} : result A := Err (Errorf "json: cannot unmarshal value into Go struct field").

(** An absent member and [null] leave the zero value. *)
Definition dec_field {A} (zero : A) (dec : json -> result A) (name : string)
    (fields : list (string * json)) : result A :=
  match json_field name fields with
  | None | Some JNull => Ok zero
  | Some j => dec j
  end.

Definition dec_str (j : json) : result string :=
  match j with JStr s => Ok s | _ => type_error end.
Definition dec_bool (j : json) : result bool :=
  match j with JBool b => Ok b | _ => type_error end.
Definition dec_int (j : json) : result Z :=
  match j with
  | JInt z => if bool_decide (int64_min <= z <= int64_max) then Ok z else type_error
  | _ => type_error
  end.
Definition dec_float (j : json) : result float64 :=
  match j with
  | JFloat f => Ok f
  | JInt z => let f := f64_of_Z z in if f64_finite f then Ok f else type_error
  | _ => type_error
  end.
Definition dec_time (j : json) : result time :=
  match j with
  | JTime t => Ok t
  | _ => Err (Errorf "Time.UnmarshalJSON: input is not a JSON string")
  end.
Definition dec_obj (v : value) : result (list (string * json)) :=
  match v with
  | Doc (JObj fields) => Ok fields
  | Doc JNull => Ok []
  | Doc _ => type_error
  | Raw _ => Err (Errorf "invalid character looking for beginning of value")
  end.

Lemma enc_float_ok f j : enc_float f = Ok j <-> f64_finite f = true /\ j = JFloat f.
Proof. unfold enc_float. case_match; naive_solver. Qed.

Lemma enc_time_ok t j : enc_time t = Ok j <-> json_time_ok t = true /\ j = JTime t.
Proof. unfold enc_time. case_match; naive_solver. Qed.

Lemma utf8_valid_coerce s : utf8_valid s = true -> utf8_coerce s = s.
Proof. by intros ?%bool_decide_eq_true. Qed.

#[export] Hint Rewrite utf8_valid_coerce using done : gedung_rw.

(** ** Maps of raw messages *)

(** A [map[string]json.RawMessage] is written with its keys in byte order. *)
Definition entry_le {V} (x y : string * V) : Prop := String.le x.1 y.1.
#[export] Instance entry_le_dec {V} : RelDecision (@entry_le V).
Proof. intros x y. unfold entry_le. apply _. Defined.

Definition enc_map (m : gmap string json) : json :=
  JObj ((fun kv => (utf8_coerce kv.1, kv.2)) <$> merge_sort entry_le (map_to_list m)).

(** Decoding into a fresh map: a later member wins. *)
Definition dec_map (j : json) : result (gmap string json) :=
  fs ← dec_obj (Doc j);
  Ok (foldl (fun m kv => <[kv.1 := kv.2]> m) ∅ fs).

Lemma foldl_insert_list {V} (l : list (string * V)) (m : gmap string V) :
  NoDup l.*1 -> foldl (fun m kv => <[kv.1 := kv.2]> m) m l = list_to_map l ∪ m.
Proof.
  revert m. induction l as [|[k v] l IH]; intros m Hnd; simpl; [by rewrite map_empty_union|].
  apply NoDup_cons in Hnd as [Hk Hnd]. rewrite IH by done.
  rewrite <-insert_union_l, insert_union_r; [done|]. by apply not_elem_of_list_to_map_1.
Qed.

Lemma dec_enc_map m :
  (forall k, is_Some (m !! k) -> utf8_valid k = true) -> dec_map (enc_map m) = Ok m.
Proof.
  intros Hu. unfold dec_map, enc_map. simpl.
  assert (Hp := merge_sort_Permutation entry_le (map_to_list m)).
  assert (He : (fun kv : string * json => (utf8_coerce kv.1, kv.2)) <$> merge_sort entry_le (map_to_list m)
               = merge_sort entry_le (map_to_list m)).
  { transitivity (id <$> merge_sort entry_le (map_to_list m)); [|apply list_fmap_id]. apply list_fmap_ext. intros i [k v] Hi. simpl.
    apply list_elem_of_lookup_2 in Hi. rewrite Hp, elem_of_map_to_list in Hi.
    by rewrite utf8_valid_coerce by eauto. }
  rewrite He. f_equal.
  assert (Hnd : NoDup (merge_sort entry_le (map_to_list m)).*1) by (rewrite Hp; apply NoDup_fst_map_to_list).
  rewrite foldl_insert_list, map_union_empty by done. apply map_eq. intros k. apply option_eq. intros v.
  rewrite <-elem_of_list_to_map by done. by rewrite Hp, elem_of_map_to_list.
Qed.
