(* ===== verification/Floats.v ===== *)
(** * float64 results that stay finite

    The magnitude of the Standard Library's binary64 values, and that sums and
    products of moderate numbers are finite: JSON cannot carry an infinity or a
    NaN, so what the generator computes has to be finite to be stored. *)

From Stdlib Require Import SpecFloat.
From S2P Require Import Prelude Json.

Definition f64_one : float64 := f64_of_Z 1.

(** [float64 -> int] conversion: truncation towards zero (of a finite value in
    range; other conversions are implementation-specific in Go). *)
Definition f64_trunc (x : float64) : Z :=
  match x with
  | S754_finite s m e =>
      let a := if 0 <=? e then Z.pos m * 2 ^ e else Z.pos m / 2 ^ (- e) in
      if s then - a else a
  | _ => 0
  end.

(** The builtin [max] on two floats. *)
Definition f64_max (x y : float64) : float64 :=
  match x, y with
  | S754_nan, _ | _, S754_nan => S754_nan
  | _, _ => if f64_lt y x then x else if f64_lt x y then y
            else match x with S754_zero true => y | _ => x end
  end.

(** Below [2 ^ n] in absolute value. *)
Definition mag (n : Z) (x : float64) : Prop :=
  match x with
  | S754_zero _ => True
  | S754_finite _ m e => Z.pos m < 2 ^ (n - e)
  | _ => False
  end.

Lemma mag_finite n x : mag n x -> f64_finite x = true.
Proof. by destruct x. Qed.

Lemma mag_le n n' x : n <= n' -> mag n x -> mag n' x.
Proof.
  destruct x as [| | |s m e]; simpl; try done. intros Hn Hm.
  assert (2 ^ (n - e) <= 2 ^ (n' - e)); [|lia].
  destruct (decide (0 <= n - e)); [apply Z.pow_le_mono_r; lia|].
  rewrite (Z.pow_neg_r 2 (n - e)) by lia. apply Z.pow_nonneg. lia.
Qed.

(** ** Rounding *)

Lemma Zdigits2_spec m n : 0 < m -> m < 2 ^ n -> Zdigits2 m <= n.
Proof.
  destruct m as [|p|]; try lia. intros _ Hm. simpl.
  assert (Hd : forall q, Z.pos (digits2_pos q) = Z.log2 (Z.pos q) + 1).
  { induction q as [q IH|q IH|]; [| |done].
    - change (Z.pos q~1) with (2 * Z.pos q + 1). rewrite Z.log2_succ_double by lia. simpl digits2_pos. rewrite Pos2Z.inj_succ. lia.
    - change (Z.pos q~0) with (2 * Z.pos q). rewrite Z.log2_double by lia. simpl digits2_pos. rewrite Pos2Z.inj_succ. lia. }
  rewrite Hd. destruct (decide (0 <= n)).
  - enough (Z.log2 (Z.pos p) < n) by lia. apply Z.log2_lt_pow2; [lia|done].
  - rewrite Z.pow_neg_r in Hm by lia. lia.
Qed.

Lemma iter_pos_iter {A} (f : A -> A) p x : SpecFloat.iter_pos f p x = Nat.iter (Pos.to_nat p) f x.
Proof.
  revert x. induction p as [p IH|p IH|]; intros x; simpl SpecFloat.iter_pos.
  - rewrite !IH, <-Nat.iter_add, Pos2Nat.inj_xI, Nat.iter_succ_r. f_equal. lia.
  - rewrite !IH, <-Nat.iter_add, Pos2Nat.inj_xO. f_equal. lia.
  - done.
Qed.

Lemma shr_1_m r : 0 <= shr_m r -> shr_m (shr_1 r) = shr_m r / 2.
Proof.
  destruct r as [m b s]. destruct m as [|[p|p|]|]; simpl; try done; try lia; intros _.
  - apply (Z.div_unique _ _ _ 1); lia.
  - apply (Z.div_unique _ _ _ 0); lia.
Qed.

Lemma iter_shr_1_m k r : 0 <= shr_m r -> shr_m (Nat.iter k shr_1 r) = shr_m r / 2 ^ Z.of_nat k.
Proof.
  intros Hr. induction k as [|k IH]; [by rewrite Z.div_1_r|].
  simpl. rewrite shr_1_m.
  - rewrite IH, Z.div_div by (try apply Z.pow_pos_nonneg; lia).
    rewrite Nat2Z.inj_succ, Z.pow_succ_r by lia. by rewrite Z.mul_comm.
  - rewrite IH. apply Z.div_pos; [done|]. apply Z.pow_pos_nonneg; lia.
Qed.

(** Shifting right keeps the magnitude, and leaves an exponent below it. *)
Lemma shr_fexp_mag m e l n : 0 < m -> m < 2 ^ (n - e) -> -1000 <= n ->
  let '(r, e') := shr_fexp 53 1024 m e l in 0 <= shr_m r < 2 ^ (n - e') /\ e' <= n.
Proof.
  intros Hm Hn Hlow. unfold shr_fexp.
  assert (Hr : shr_m (shr_record_of_loc m l) = m) by (by destruct l as [|[]]).
  assert (Hd : Zdigits2 m + e <= n) by (pose proof (Zdigits2_spec m (n - e) Hm Hn); lia).
  assert (He : e <= n).
  { destruct (decide (e <= n)); [done|]. rewrite Z.pow_neg_r in Hn by lia. lia. }
  assert (Hf : fexp 53 1024 (Zdigits2 m + e) <= n) by (unfold fexp, emin; lia).
  unfold shr. destruct (fexp 53 1024 (Zdigits2 m + e) - e) as [|p|p] eqn:Ek; [rewrite Hr; lia| |rewrite Hr; lia].
  rewrite iter_pos_iter, iter_shr_1_m by (rewrite Hr; lia). rewrite Hr, positive_nat_Z.
  split; [|lia]. split; [apply Z.div_pos; [lia|by apply Z.pow_pos_nonneg]|].
  apply Z.div_lt_upper_bound; [by apply Z.pow_pos_nonneg|].
  rewrite <-Z.pow_add_r by lia. by replace (Z.pos p + (n - (e + Z.pos p))) with (n - e) by lia.
Qed.

Lemma round_nearest_even_le m l : m <= round_nearest_even m l <= m + 1.
Proof. destruct l as [|[]]; simpl; try lia. destruct (Z.even m); lia. Qed.

Lemma binary_round_aux_mag s m e l n : 0 < m -> m < 2 ^ (n - e) -> -1000 <= n <= 900 ->
  mag (n + 1) (binary_round_aux 53 1024 s m e l).
Proof.
  intros Hm Hn Hr. unfold binary_round_aux.
  pose proof (shr_fexp_mag m e l n Hm Hn ltac:(lia)) as H1.
  destruct (shr_fexp 53 1024 m e l) as [r1 e1]. destruct H1 as [[H0 H1] He1].
  pose proof (round_nearest_even_le (shr_m r1) (loc_of_shr_record r1)) as Hround.
  set (m2 := round_nearest_even _ _) in *.
  assert (Hm2 : m2 < 2 ^ (n + 1 - e1)).
  { replace (n + 1 - e1) with (Z.succ (n - e1)) by lia. rewrite Z.pow_succ_r by lia.
    pose proof (Z.pow_pos_nonneg 2 (n - e1) ltac:(lia) ltac:(lia)). lia. }
  destruct (decide (m2 = 0)) as [->|Hne].
  { unfold shr_fexp. simpl Zdigits2. unfold shr.
    destruct (fexp 53 1024 (0 + e1) - e1) as [|p|p]; simpl; [done| |done].
    rewrite iter_pos_iter, iter_shr_1_m by (simpl; lia). simpl shr_m. by rewrite Z.div_0_l by (apply Z.pow_nonzero; lia). }
  pose proof (shr_fexp_mag m2 e1 loc_Exact (n + 1) ltac:(lia) Hm2 ltac:(lia)) as H2.
  destruct (shr_fexp 53 1024 m2 e1 loc_Exact) as [r2 e2]. destruct H2 as [[H3 H4] He2].
  destruct (shr_m r2) as [|p|p]; [done| |lia].
  destruct (Z.leb_spec e2 (1024 - 53)); [done|lia].
Qed.

Lemma Pos_iter_xO m d : Z.pos (Pos.iter xO m d) = Z.pos m * 2 ^ Z.pos d.
Proof.
  induction d as [|d IH] using Pos.peano_ind; [simpl; lia|].
  rewrite Pos.iter_succ, Pos2Z.inj_succ, Z.pow_succ_r by lia.
  change (Z.pos (Pos.iter xO m d)~0) with (2 * Z.pos (Pos.iter xO m d)). lia.
Qed.

Lemma shl_align_mag m e e' n : Z.pos m < 2 ^ (n - e) ->
  let '(m', e2) := shl_align m e e' in Z.pos m' < 2 ^ (n - e2).
Proof.
  intros Hm. unfold shl_align. destruct (e' - e) as [|p|p] eqn:E; try done.
  rewrite Pos_iter_xO. assert (0 <= n - e).
  { destruct (decide (0 <= n - e)); [done|]. rewrite Z.pow_neg_r in Hm by lia. lia. }
  replace (n - e') with ((n - e) + Z.pos p) by lia. rewrite Z.pow_add_r by lia.
  apply Z.mul_lt_mono_pos_r; [|done]. by apply Z.pow_pos_nonneg.
Qed.

Lemma binary_normalize_mag m e s n : Z.abs m < 2 ^ (n - e) -> -1000 <= n <= 900 ->
  mag (n + 1) (binary_normalize 53 1024 m e s).
Proof.
  intros Hm Hn. destruct m as [|p|p]; simpl; [done|..]; unfold binary_round.
  all: set (e' := fexp _ _ _); pose proof (shl_align_mag p e e' n Hm) as Ha.
  all: destruct (shl_align p e e') as [m' e2]; by apply binary_round_aux_mag.
Qed.

Lemma f64_mul_mag nx ny x y : mag nx x -> mag ny y -> -1000 <= nx + ny <= 900 ->
  mag (nx + ny + 1) (f64_mul x y).
Proof.
  destruct x as [| | |sx mx ex], y as [| | |sy my ey]; simpl; try done. intros Hx Hy Hn.
  apply binary_round_aux_mag; [lia| |done].
  assert (0 <= nx - ex /\ 0 <= ny - ey) as [? ?].
  { split; [destruct (decide (0 <= nx - ex))|destruct (decide (0 <= ny - ey))]; try done.
    - rewrite Z.pow_neg_r in Hx by lia. lia.
    - rewrite Z.pow_neg_r in Hy by lia. lia. }
  replace (nx + ny - (ex + ey)) with ((nx - ex) + (ny - ey)) by lia.
  rewrite Z.pow_add_r, Pos2Z.inj_mul by lia. apply Z.mul_lt_mono_nonneg; lia.
Qed.

Lemma shl_align_value m e ez n : ez <= e -> Z.pos m < 2 ^ (n - e) ->
  Z.pos (fst (shl_align m e ez)) < 2 ^ (n - ez).
Proof.
  intros He Hm. pose proof (shl_align_mag m e ez n Hm) as H.
  destruct (shl_align m e ez) as [m' e2] eqn:E. simpl.
  assert (e2 = ez) as ->; [|done].
  revert E. unfold shl_align. destruct (ez - e) eqn:?; intros [= <- <-]; lia.
Qed.

Lemma f64_add_mag n x y : mag n x -> mag n y -> -1000 <= n <= 800 -> mag (n + 2) (f64_add x y).
Proof.
  destruct x as [sx| | |sx mx ex], y as [sy| | |sy my ey]; simpl; try done; intros Hx Hy Hn.
  - by destruct sx, sy.
  - apply (mag_le n _ (S754_finite sy my ey)); [lia|done].
  - apply (mag_le n _ (S754_finite sx mx ex)); [lia|done].
  - replace (n + 2) with (n + 1 + 1) by lia. apply binary_normalize_mag; [|lia].
    pose proof (shl_align_value mx ex (Z.min ex ey) n ltac:(lia) Hx) as Hmx.
    pose proof (shl_align_value my ey (Z.min ex ey) n ltac:(lia) Hy) as Hmy.
    assert (0 <= n - Z.min ex ey).
    { destruct (decide (0 <= n - Z.min ex ey)); [done|].
      rewrite Z.pow_neg_r in Hmx by lia. lia. }
    replace (n + 1 - Z.min ex ey) with (Z.succ (n - Z.min ex ey)) by lia.
    rewrite Z.pow_succ_r by lia. revert Hmx Hmy.
    generalize (2 ^ (n - Z.min ex ey)) (fst (shl_align mx ex (Z.min ex ey))) (fst (shl_align my ey (Z.min ex ey))).
    intros b p q Hp Hq. destruct sx, sy; unfold cond_Zopp; lia.
Qed.

Lemma mantissa_lt m n :
  match Some (Pos.compare_cont Eq m n) with Some Lt => true | _ => false end = true -> (m < n)%positive.
Proof. unfold Pos.lt, Pos.compare. by destruct (Pos.compare_cont Eq m n). Qed.

(** A double in [[0, 1)] is below [2 ^ 0]. *)
Lemma unit_mag x : valid_binary 53 1024 x = true ->
  f64_le f64_zero x = true -> f64_lt x f64_one = true -> mag 0 x.
Proof.
  destruct x as [s|[]| |[] m e]; try done. unfold f64_lt, SFltb.
  change f64_one with (S754_finite false 4503599627370496 (-52)). cbn [valid_binary SFcompare mag]. intros Hv _.
  unfold bounded, canonical_mantissa in Hv. apply andb_true_iff in Hv as [Hv _]. apply Z.eqb_eq in Hv.
  destruct (Z.compare_spec e (-52)) as [->|He|He]; [| |discriminate 1].
  - intros Hm%mantissa_lt. change (2 ^ (0 - -52)) with (Z.pos 4503599627370496).
    exact (Pos2Z.pos_lt_pos _ _ Hm).
  - intros _. unfold fexp, emin in Hv.
    assert (Hd : Z.pos (digits2_pos m) <= 53) by lia.
    assert (Hm : Z.pos m < 2 ^ Z.pos (digits2_pos m)).
    { clear. induction m as [m IH|m IH|]; simpl digits2_pos; [..|done].
      all: rewrite Pos2Z.inj_succ, Z.pow_succ_r by lia; lia. }
    apply Z.lt_le_trans with (1 := Hm). apply Z.pow_le_mono_r; lia.
Qed.

Lemma SFcompare_swap x y : SFcompare y x = CompOpp <$> SFcompare x y.
Proof.
  destruct x as [sx|[]| |[] mx ex], y as [sy|[]| |[] my ey]; try done; simpl.
  all: change (Pos.compare_cont Eq my mx) with (Pos.compare my mx).
  all: change (Pos.compare_cont Eq mx my) with (Pos.compare mx my).
  all: rewrite (Z.compare_antisym ex ey), (Pos.compare_antisym mx my).
  all: destruct (Z.compare ex ey), (Pos.compare mx my); done.
Qed.

Lemma f64_max_floor x y : f64_lt (f64_max x y) y = false.
Proof.
  assert (Hirr : forall z, f64_lt z z = false).
  { intros z. unfold f64_lt, SFltb. pose proof (SFcompare_swap z z) as H.
    destruct (SFcompare z z) as [[]|]; simpl in *; congruence. }
  assert (Has : f64_lt y x = true -> f64_lt x y = false).
  { unfold f64_lt, SFltb. rewrite (SFcompare_swap x y). by destruct (SFcompare x y) as [[]|]. }
  assert (f64_max x y = S754_nan \/ f64_max x y = y \/
          f64_max x y = x /\ (f64_lt y x = true \/ f64_lt x y = false)) as [->|[->|[-> [H|H]]]]; auto.
  unfold f64_max. destruct (f64_lt y x), (f64_lt x y); destruct x as [[]| | |], y; auto.
Qed.
