(* ===== verification/Vehicle.v ===== *)
(** * Vehicle positions (internal/gtfs/types.go, internal/gtfs/bounds.go)

    The stored GPS reading, its key schema [agency:vehicle:timestamp_ns], the
    scan bounds of an agency and the JSON value. *)

From Stdlib Require Import Ascii SpecFloat.
From S2P Require Import Prelude GoStrings KeyRange Json.

Record VehiclePosition := {
  Agency : string;
  VehicleID : string;
  Lat : float64;
  Lng : float64;
  Bearing : float64;
  Speed : float64;
  Route : string;
  Trip : string;
  Timestamp : time
}.

#[export] Instance VehiclePosition_eq_dec : EqDecision VehiclePosition.
Proof. solve_decision. Defined.

Definition colon : ascii := ":"%char.

(** [fmt.Sprintf("%s:%s:%d", v.Agency, v.VehicleID, v.Timestamp.UnixNano())] *)
Definition Key (v : VehiclePosition) : string :=
  Agency v +:+ ":" +:+ VehicleID v +:+ ":" +:+ itoa (unix_nano (Timestamp v)).

Definition KeyBytes (v : VehiclePosition) : string := Key v.

(** [json.Marshal(v)], members in field order. *)
Definition ValueBytes (v : VehiclePosition) : result value :=
  lat ← enc_float (Lat v);
  lng ← enc_float (Lng v);
  bearing ← enc_float (Bearing v);
  speed ← enc_float (Speed v);
  ts ← enc_time (Timestamp v);
  Ok (Doc (JObj (
    [("agency", enc_str (Agency v)); ("vehicle_id", enc_str (VehicleID v));
     ("lat", lat); ("lng", lng)] ++
    omit_if (f64_is_zero (Bearing v)) "bearing" bearing ++
    omit_if (f64_is_zero (Speed v)) "speed" speed ++
    omit_if (bool_decide (Route v = "")) "route" (enc_str (Route v)) ++
    omit_if (bool_decide (Trip v = "")) "trip" (enc_str (Trip v)) ++
    [("timestamp", ts)]))).

(** [json.Unmarshal] into a zero VehiclePosition. *)
Definition ParseVehiclePosition (data : value) : result VehiclePosition :=
  fs ← dec_obj data;
  agency ← dec_field "" dec_str "agency" fs;
  vid ← dec_field "" dec_str "vehicle_id" fs;
  lat ← dec_field f64_zero dec_float "lat" fs;
  lng ← dec_field f64_zero dec_float "lng" fs;
  bearing ← dec_field f64_zero dec_float "bearing" fs;
  speed ← dec_field f64_zero dec_float "speed" fs;
  route ← dec_field "" dec_str "route" fs;
  trip ← dec_field "" dec_str "trip" fs;
  ts ← dec_field zero_time dec_time "timestamp" fs;
  Ok {| Agency := agency; VehicleID := vid; Lat := lat; Lng := lng;
        Bearing := bearing; Speed := speed; Route := route; Trip := trip;
        Timestamp := ts |}.

Definition AgencyPrefix (agency : string) : string := agency +:+ ":".

(** The copy of [prefixUpperBound] in package gtfs. *)
Definition gtfs_prefixUpperBound (prefix : string) : string := KeyRange.prefixUpperBound prefix.

Definition AgencyUpperBound (agency : string) : string :=
  gtfs_prefixUpperBound (agency +:+ ":").

Definition VehicleIDFromKey (key : string) : string :=
  match split_n 3 colon key with
  | _ :: vid :: _ => vid
  | _ => ""
  end.

(** The error of [ParseInt] is dropped, its value kept. *)
Definition TimestampNSFromKey (key : string) : Z :=
  match split_n 3 colon key with
  | _ :: _ :: ns :: _ => (parse_int ns).1
  | _ => 0
  end.

(** ** Bounds *)

Definition minLat : float64 := f64_of_Z 1.
Definition maxLat : float64 := f64_of_Z 7.
Definition minLng : float64 := f64_of_Z 100.
Definition maxLng : float64 := f64_of_Z 119.

Definition ValidMalaysiaBounds (lat lng : float64) : bool :=
  f64_le minLat lat && f64_le lat maxLat && f64_le minLng lng && f64_le lng maxLng.

(** ** Lemmas *)

(** No separator in a string. *)
Definition no_colon (s : string) : bool := negb (has_byte colon s).

Lemma itoa_no_colon z : has_byte colon (itoa z) = false.
Proof.
  apply has_byte_itoa; [|done]. intros d Hd. unfold pretty_N_char. by repeat case_match.
Qed.

Lemma split_key v :
  no_colon (Agency v) = true -> no_colon (VehicleID v) = true ->
  split_n 3 colon (Key v) = [Agency v; VehicleID v; itoa (unix_nano (Timestamp v))].
Proof.
  unfold no_colon. intros Ha%negb_true_iff Hv%negb_true_iff.
  unfold Key. change (":" +:+ VehicleID v +:+ ":" +:+ itoa (unix_nano (Timestamp v)))
    with (String colon (VehicleID v +:+ String colon (itoa (unix_nano (Timestamp v))))).
  cbn [split_n]. rewrite str_cut_app by done. cbn [split_n]. by rewrite str_cut_app.
Qed.

Lemma VehicleIDFromKey_Key v :
  no_colon (Agency v) = true -> no_colon (VehicleID v) = true ->
  VehicleIDFromKey (Key v) = VehicleID v.
Proof. intros Ha Hv. unfold VehicleIDFromKey. by rewrite split_key. Qed.

Lemma TimestampNSFromKey_Key v :
  no_colon (Agency v) = true -> no_colon (VehicleID v) = true ->
  TimestampNSFromKey (Key v) = unix_nano (Timestamp v).
Proof.
  intros Ha Hv. unfold TimestampNSFromKey. rewrite split_key by done.
  by rewrite parse_int_itoa by apply wrap64_range.
Qed.

Lemma Key_prefix v : exists r, Key v = AgencyPrefix (Agency v) +:+ r.
Proof.
  eexists. unfold Key, AgencyPrefix. rewrite str_app_assoc. reflexivity.
Qed.

Lemma agency_scan agency k :
  in_scan (AgencyPrefix agency) (AgencyUpperBound agency) k = has_prefix k (AgencyPrefix agency).
Proof.
  apply scan_prefix. unfold AgencyPrefix. rewrite all_ff_app. simpl. apply andb_false_r.
Qed.

Lemma str_app_colon_inj a b r s :
  has_byte colon a = false -> has_byte colon b = false ->
  a +:+ String colon r = b +:+ String colon s -> a = b /\ r = s.
Proof.
  intros Ha Hb E. pose proof (f_equal (str_cut colon) E) as Hc.
  rewrite !str_cut_app in Hc by done. naive_solver.
Qed.

#[export] Hint Resolve VehicleIDFromKey_Key TimestampNSFromKey_Key : gedung.

(** What a decode of the encoding gives: [omitempty] drops the sign of a zero
    bearing or speed. *)
Definition drop_zero_sign (f : float64) : float64 := if f64_is_zero f then f64_zero else f.
Definition normalized (v : VehiclePosition) : VehiclePosition :=
  {| Agency := Agency v; VehicleID := VehicleID v; Lat := Lat v; Lng := Lng v;
     Bearing := drop_zero_sign (Bearing v); Speed := drop_zero_sign (Speed v);
     Route := Route v; Trip := Trip v; Timestamp := Timestamp v |}.

Definition encodable (v : VehiclePosition) : bool :=
  f64_finite (Lat v) && f64_finite (Lng v) && f64_finite (Bearing v) && f64_finite (Speed v)
  && json_time_ok (Timestamp v).

Definition utf8_strings (v : VehiclePosition) : bool :=
  utf8_valid (Agency v) && utf8_valid (VehicleID v) && utf8_valid (Route v) && utf8_valid (Trip v).

Lemma ValueBytes_ok v : (exists d, ValueBytes v = Ok d) <-> encodable v = true.
Proof.
  unfold ValueBytes, encodable, enc_float, enc_time.
  destruct (f64_finite (Lat v)), (f64_finite (Lng v)), (f64_finite (Bearing v)),
    (f64_finite (Speed v)), (json_time_ok (Timestamp v)); naive_solver.
Qed.

Lemma parse_ValueBytes v d :
  utf8_strings v = true -> ValueBytes v = Ok d -> ParseVehiclePosition d = Ok (normalized v).
Proof.
  unfold utf8_strings. rewrite !andb_true_iff. intros [[[Ha Hv] Hr] Ht].
  assert (Ea := utf8_valid_coerce _ Ha). assert (Ev := utf8_valid_coerce _ Hv).
  assert (Er := utf8_valid_coerce _ Hr). assert (Et := utf8_valid_coerce _ Ht).
  destruct v as [a vid lat lng b s r t ts]; simpl in *. unfold ValueBytes; simpl.
  unfold enc_str. rewrite Ea, Ev, Er, Et.
  unfold enc_float, enc_time, normalized, drop_zero_sign, omit_if; simpl.
  destruct (f64_finite lat), (f64_finite lng), (f64_finite b), (f64_finite s),
    (json_time_ok ts); simpl; try done.
  destruct (f64_is_zero b), (f64_is_zero s), (bool_decide_reflect (r = "")),
    (bool_decide_reflect (t = "")); intros [= <-]; subst; reflexivity.
Qed.

Lemma split_key_colon v p x :
  no_colon (Agency v) = true -> no_colon p = true -> VehicleID v = p +:+ ":" +:+ x ->
  split_n 3 colon (Key v) =
    [Agency v; p; x +:+ String colon (itoa (unix_nano (Timestamp v)))].
Proof.
  unfold no_colon. intros Ha%negb_true_iff Hp%negb_true_iff Hv.
  unfold Key. rewrite Hv.
  change (":" +:+ (p +:+ ":" +:+ x) +:+ ":" +:+ itoa (unix_nano (Timestamp v)))
    with (String colon ((p +:+ String colon x) +:+ String colon (itoa (unix_nano (Timestamp v))))).
  rewrite str_app_assoc. cbn [split_n]. rewrite str_cut_app by done.
  rewrite str_app_cons. cbn [split_n]. by rewrite str_cut_app.
Qed.

(** A separator in the digits is never parsed as a number. *)
Lemma parse_uint_go_colon x r acc : (parse_uint_go (x +:+ String colon r) acc).2 <> None.
Proof.
  revert acc. induction x as [|c x IH]; intros acc; [done|].
  rewrite str_app_cons. simpl. destruct (digit_of c); [|done].
  case_match; [done|]. apply IH.
Qed.

Lemma parse_uint_colon x r : (parse_uint (x +:+ String colon r)).2 <> None.
Proof.
  pose proof (parse_uint_go_colon x r 0) as H. unfold parse_uint.
  by destruct (x +:+ String colon r) eqn:E; [destruct x|].
Qed.

Lemma parse_int_err s :
  (parse_int s).2 <> None -> (parse_int s).1 ∈ [0; int64_max; int64_min].
Proof.
  destruct s as [|c s]; intros H; [by left|]. unfold parse_int in *.
  destruct (parse_uint _) as [un [[]|]] eqn:E; [by left| |].
  2: { destruct (negb _ && _)%bool; [set_solver|].
       destruct (_ && _)%bool; [set_solver|done]. }
  assert (un = uint64_max) as ->; [|by destruct (bool_decide (c = "-"%char)); simpl; set_solver].
  clear H. revert E. generalize (if bool_decide (c = "-"%char) || bool_decide (c = "+"%char)
    then s else String c s). intros t.
  destruct t as [|d t]; [done|]. unfold parse_uint. generalize (String d t) 0%N.
  clear. intros s. induction s as [|c s IH]; intros acc; simpl; [done|].
  destruct (digit_of c); [|done]. case_match; [by intros [= <-]|]. apply IH.
Qed.

Lemma parse_int_colon x r : (parse_int (x +:+ String colon r)).1 ∈ [0; int64_max; int64_min].
Proof.
  apply parse_int_err.
  destruct x as [|c x]; [done|]. rewrite str_app_cons. unfold parse_int.
  destruct (bool_decide (c = "-"%char) || bool_decide (c = "+"%char)).
  - pose proof (parse_uint_colon x r) as H.
    by destruct (parse_uint _) as [un [[]|]]; [..|done]; repeat case_match.
  - pose proof (parse_uint_colon (String c x) r) as H. rewrite str_app_cons in H.
    by destruct (parse_uint _) as [un [[]|]]; [..|done]; repeat case_match.
Qed.

(** ** Properties *)

(** A stored reading survives the store.  For every reading with finite
    coordinates, a representable timestamp and well-formed strings, ValueBytes
    succeeds and ParseVehiclePosition of its result is the reading itself (a
    zero bearing or speed loses its sign, which [omitempty] drops). *)
Theorem vehicle_value_roundtrip v :
  encodable v = true -> utf8_strings v = true ->
  exists d, ValueBytes v = Ok d /\ ParseVehiclePosition d = Ok (normalized v).
Proof.
  intros He Hu. apply ValueBytes_ok in He as [d Hd].
  exists d. split; [done|]. by apply parse_ValueBytes.
Qed.

Definition sample_vehicle : VehiclePosition :=
  {| Agency := "ktmb"; VehicleID := "ETS-9101"; Lat := f64_const 3139 1000;
     Lng := f64_const 101687 1000; Bearing := f64_zero; Speed := f64_of_Z 80;
     Route := "R1"; Trip := ""; Timestamp := 1753430400 * second |}.

Lemma vehicle_value_roundtrip_witness :
  encodable sample_vehicle = true /\ utf8_strings sample_vehicle = true /\
  exists d, ValueBytes sample_vehicle = Ok d /\
            ParseVehiclePosition d = Ok (normalized sample_vehicle).
Proof.
  split; [by vm_compute|]. split; [by vm_compute|].
  apply (vehicle_value_roundtrip sample_vehicle); by vm_compute.
Defined.

(** The key schema is lossless and the agency scans are exact.  For ids
    without a separator and an int64 timestamp, VehicleIDFromKey and
    TimestampNSFromKey recover the id and the timestamp from the key, readings
    with the same key agree on agency, id and timestamp, and the scan range of
    an agency holds the key exactly when the reading is of that agency. *)
Theorem vehicle_key_lossless v w a :
  no_colon (Agency v) = true -> no_colon (VehicleID v) = true -> in_int64 (Timestamp v) ->
  no_colon (Agency w) = true -> no_colon (VehicleID w) = true -> in_int64 (Timestamp w) ->
  no_colon a = true ->
  VehicleIDFromKey (Key v) = VehicleID v /\ TimestampNSFromKey (Key v) = Timestamp v /\
  (Key v = Key w ->
     Agency v = Agency w /\ VehicleID v = VehicleID w /\ Timestamp v = Timestamp w) /\
  in_scan (AgencyPrefix a) (AgencyUpperBound a) (Key v) = bool_decide (Agency v = a).
Proof.
  intros Ha Hv Ht Ha' Hv' Ht' Hna.
  rewrite VehicleIDFromKey_Key, TimestampNSFromKey_Key by done.
  unfold unix_nano. rewrite wrap64_id by done. split_and!; [done..| |].
  - intros E. pose proof (f_equal (split_n 3 colon) E) as Hs.
    rewrite !split_key in Hs by done. injection Hs as -> -> Hn%itoa_inj.
    unfold unix_nano in Hn. by rewrite !wrap64_id in Hn.
  - rewrite agency_scan. apply Bool.eq_true_iff_eq.
    rewrite has_prefix_spec, bool_decide_eq_true. split.
    + intros [r E]. unfold AgencyPrefix in E. rewrite str_app_assoc in E. symmetry in E.
      apply str_app_colon_inj in E as [-> _]; [done| |]; by apply negb_true_iff.
    + intros <-. apply Key_prefix.
Qed.

Lemma vehicle_key_lossless_witness :
  VehicleIDFromKey (Key sample_vehicle) = "ETS-9101" /\
  TimestampNSFromKey (Key sample_vehicle) = 1753430400000000000 /\
  in_scan (AgencyPrefix "ktmb") (AgencyUpperBound "ktmb") (Key sample_vehicle) = true.
Proof.
  destruct (vehicle_key_lossless sample_vehicle sample_vehicle "ktmb") as (H1 & H2 & _ & H4);
    [by vm_compute..| |by vm_compute|by vm_compute| |by vm_compute|].
  1, 2: unfold in_int64; vm_compute; split; discriminate.
  split; [exact H1|]. split; [exact H2|]. rewrite H4. by vm_compute.
Defined.

(** A separator inside a vehicle id breaks the recovery.  Two vehicles of
    one agency whose ids agree up to a separator get the same id from
    VehicleIDFromKey, and TimestampNSFromKey of their keys is 0 or a limit of
    int64 instead of the timestamp. *)
Theorem colon_vehicle_ids_collide v w p x y :
  no_colon (Agency v) = true -> Agency w = Agency v -> no_colon p = true ->
  VehicleID v = p +:+ ":" +:+ x -> VehicleID w = p +:+ ":" +:+ y ->
  VehicleIDFromKey (Key v) = VehicleIDFromKey (Key w) /\
  TimestampNSFromKey (Key v) ∈ [0; int64_max; int64_min].
Proof.
  intros Ha Haw Hp Hv Hw.
  unfold VehicleIDFromKey, TimestampNSFromKey.
  rewrite (split_key_colon v p x), (split_key_colon w p y) by congruence.
  split; [done|]. apply parse_int_colon.
Qed.

Lemma colon_vehicle_ids_collide_witness :
  let v := {| Agency := "mybas-johor"; VehicleID := "J1:a"; Lat := f64_zero; Lng := f64_zero;
              Bearing := f64_zero; Speed := f64_zero; Route := ""; Trip := ""; Timestamp := 7 |} in
  let w := {| Agency := "mybas-johor"; VehicleID := "J1:b"; Lat := f64_zero; Lng := f64_zero;
              Bearing := f64_zero; Speed := f64_zero; Route := ""; Trip := ""; Timestamp := 7 |} in
  VehicleIDFromKey (Key v) = VehicleIDFromKey (Key w) /\
  TimestampNSFromKey (Key v) ∈ [0; int64_max; int64_min].
Proof. intros v w. apply (colon_vehicle_ids_collide v w "J1" "a" "b"); reflexivity. Defined.
