(* ===== verification/Event.v ===== *)
(** * Events of the FinTech simulation (internal/model/event.go)

    The event value, its key schema [tenant:event_type:idempotency_key], the
    scan bounds of a tenant and of a tenant and type, the JSON value. *)

From Stdlib Require Import Ascii SpecFloat.
From S2P Require Import Prelude GoStrings KeyRange Json.

(** [type EventType string] with its constants. *)
Definition EventType := string.
Definition EventTransaction : EventType := "transaction".
Definition EventBalanceCheck : EventType := "balance_check".
Definition EventKYCUpdate : EventType := "kyc_update".
Definition EventFraudAlert : EventType := "fraud_alert".
Definition EventSettlement : EventType := "settlement".

Record Payload := {
  Amount : float64;
  Currency : string;
  AccountID : string;
  Description : string;
  Metadata : gmap string string
}.

Record Event := {
  TenantID : string;
  evType : EventType;
  evTimestamp : time;
  evPayload : Payload;
  IdempotencyKey : string;
  evRetry : bool
}.

#[export] Instance Payload_eq_dec : EqDecision Payload.
Proof. solve_decision. Defined.
#[export] Instance Event_eq_dec : EqDecision Event.
Proof. solve_decision. Defined.

(** [fmt.Sprintf("%s:%s:%s", e.TenantID, e.EventType, e.IdempotencyKey)] *)
Definition EventKey (e : Event) : string :=
  TenantID e +:+ ":" +:+ evType e +:+ ":" +:+ IdempotencyKey e.

Definition EventKeyBytes (e : Event) : string := EventKey e.

(** Map keys are written in byte order. *)
Definition key_le (x y : string * string) : Prop := String.le x.1 y.1.
#[export] Instance key_le_dec : RelDecision key_le.
Proof. intros x y. unfold key_le. apply _. Defined.

Definition enc_metadata (m : gmap string string) : json :=
  JObj ((fun kv => (utf8_coerce kv.1, enc_str kv.2)) <$> merge_sort key_le (map_to_list m)).

Definition enc_payload (p : Payload) : result json :=
  amount ← enc_float (Amount p);
  Ok (JObj (
    omit_if (f64_is_zero (Amount p)) "amount" amount ++
    omit_if (bool_decide (Currency p = "")) "currency" (enc_str (Currency p)) ++
    omit_if (bool_decide (AccountID p = "")) "account_id" (enc_str (AccountID p)) ++
    omit_if (bool_decide (Description p = "")) "description" (enc_str (Description p)) ++
    omit_if (bool_decide (Metadata p = ∅)) "metadata" (enc_metadata (Metadata p)))).

(** [json.Marshal(e)]. *)
Definition EventValueBytes (e : Event) : result value :=
  ts ← enc_time (evTimestamp e);
  payload ← enc_payload (evPayload e);
  Ok (Doc (JObj (
    [("tenant_id", enc_str (TenantID e)); ("event_type", enc_str (evType e));
     ("timestamp", ts); ("payload", payload);
     ("idempotency_key", enc_str (IdempotencyKey e))] ++
    omit_if (negb (evRetry e)) "retry" (JBool (evRetry e))))).

Fixpoint dec_metadata (fields : list (string * json)) (m : gmap string string)
    : result (gmap string string) :=
  match fields with
  | [] => Ok m
  | (k, j) :: fields =>
      v ← match j with JNull => Ok "" | _ => dec_str j end;
      dec_metadata fields (<[k := v]> m)
  end.

Definition dec_payload (j : json) : result Payload :=
  fs ← dec_obj (Doc j);
  amount ← dec_field f64_zero dec_float "amount" fs;
  currency ← dec_field "" dec_str "currency" fs;
  account ← dec_field "" dec_str "account_id" fs;
  description ← dec_field "" dec_str "description" fs;
  metadata ← dec_field ∅ (fun j => ms ← dec_obj (Doc j); dec_metadata ms ∅) "metadata" fs;
  Ok {| Amount := amount; Currency := currency; AccountID := account;
        Description := description; Metadata := metadata |}.

Definition zero_payload : Payload :=
  {| Amount := f64_zero; Currency := ""; AccountID := ""; Description := ""; Metadata := ∅ |}.

(** [json.Unmarshal] into a zero Event. *)
Definition ParseEvent (data : value) : result Event :=
  fs ← dec_obj data;
  tenant ← dec_field "" dec_str "tenant_id" fs;
  ty ← dec_field "" dec_str "event_type" fs;
  ts ← dec_field zero_time dec_time "timestamp" fs;
  payload ← dec_field zero_payload dec_payload "payload" fs;
  idem ← dec_field "" dec_str "idempotency_key" fs;
  retry ← dec_field false dec_bool "retry" fs;
  Ok {| TenantID := tenant; evType := ty; evTimestamp := ts; evPayload := payload;
        IdempotencyKey := idem; evRetry := retry |}.

Definition TenantPrefix (tenantID : string) : string := tenantID +:+ ":".
Definition TenantUpperBound (tenantID : string) : string := prefixUpperBound (tenantID +:+ ":").
Definition TypePrefix (tenantID : string) (eventType : EventType) : string :=
  tenantID +:+ ":" +:+ eventType +:+ ":".
Definition TypeUpperBound (tenantID : string) (eventType : EventType) : string :=
  prefixUpperBound (tenantID +:+ ":" +:+ eventType +:+ ":").

(** [key[:i]] at the first separator, the whole key when it is absent or
    first. *)
Definition TenantFromKey (key : string) : string :=
  let i := index_byte key ":"%char in
  if 0 <? i then str_take i key else key.

(** ** Lemmas *)

Definition no_sep (s : string) : bool := negb (has_byte ":"%char s).

Lemma TenantFromKey_EventKey e :
  no_sep (TenantID e) = true -> TenantID e <> "" -> TenantFromKey (EventKey e) = TenantID e.
Proof.
  unfold no_sep. intros Hs%negb_true_iff Hne. unfold TenantFromKey, EventKey.
  change (":" +:+ evType e +:+ ":" +:+ IdempotencyKey e)
    with (String ":"%char (evType e +:+ ":" +:+ IdempotencyKey e)).
  rewrite index_byte_app by done. rewrite (proj2 (Z.ltb_lt _ _)).
  - apply str_take_app.
  - destruct (TenantID e); [done|simpl; lia].
Qed.

Lemma EventKey_prefix e : has_prefix (EventKey e) (TenantPrefix (TenantID e)) = true.
Proof.
  apply has_prefix_spec. eexists. unfold EventKey, TenantPrefix. rewrite str_app_assoc. done.
Qed.

Lemma tenant_scan t k :
  in_scan (TenantPrefix t) (TenantUpperBound t) k = has_prefix k (TenantPrefix t).
Proof.
  apply scan_prefix. unfold TenantPrefix. rewrite all_ff_app. simpl. apply andb_false_r.
Qed.

Lemma type_scan t ty k :
  in_scan (TypePrefix t ty) (TypeUpperBound t ty) k = has_prefix k (TypePrefix t ty).
Proof.
  apply scan_prefix. unfold TypePrefix. rewrite !all_ff_app.
  change (all_ff ":") with false. simpl. by rewrite !andb_false_r.
Qed.

(** ** JSON round trip *)

Definition payload_utf8 (p : Payload) : bool :=
  utf8_valid (Currency p) && utf8_valid (AccountID p) && utf8_valid (Description p).
Definition metadata_utf8 (m : gmap string string) : Prop :=
  map_Forall (fun k v => utf8_valid k = true /\ utf8_valid v = true) m.
Definition event_utf8 (e : Event) : bool :=
  utf8_valid (TenantID e) && utf8_valid (evType e) && utf8_valid (IdempotencyKey e).

Definition event_normalized (e : Event) : Event :=
  let p := evPayload e in
  {| TenantID := TenantID e; evType := evType e; evTimestamp := evTimestamp e;
     evPayload :=
       {| Amount := if f64_is_zero (Amount p) then f64_zero else Amount p;
          Currency := Currency p; AccountID := AccountID p; Description := Description p;
          Metadata := Metadata p |};
     IdempotencyKey := IdempotencyKey e; evRetry := evRetry e |}.

Lemma dec_metadata_list l m :
  Forall (fun kv => utf8_valid kv.1 = true /\ utf8_valid kv.2 = true) l ->
  NoDup l.*1 -> (forall k, k ∈ l.*1 -> m !! k = None) ->
  dec_metadata ((fun kv => (utf8_coerce kv.1, enc_str kv.2)) <$> l) m
  = Ok (list_to_map l ∪ m).
Proof.
  revert m. induction l as [|[k v] l IH]; intros m Hu Hnd Hm; simpl.
  { by rewrite map_empty_union. }
  apply Forall_cons in Hu as [[Hk Hv] Hu]. apply NoDup_cons in Hnd as [Hnk Hnd]. simpl in *.
  unfold enc_str. rewrite !utf8_valid_coerce by done. simpl.
  rewrite IH; [|done..|].
  - f_equal. rewrite <-insert_union_l. rewrite insert_union_r; [done|].
    by apply not_elem_of_list_to_map_1.
  - intros k' Hk'. rewrite lookup_insert_ne by set_solver. apply Hm. set_solver.
Qed.

Lemma dec_enc_metadata m :
  metadata_utf8 m ->
  (ms ← dec_obj (Doc (enc_metadata m)); dec_metadata ms ∅) = Ok m.
Proof.
  intros Hu. unfold enc_metadata. simpl.
  assert (Hp := merge_sort_Permutation key_le (map_to_list m)).
  rewrite dec_metadata_list.
  - rewrite map_union_empty. f_equal. apply map_eq. intros k. apply option_eq. intros v.
    rewrite <-elem_of_list_to_map by (rewrite Hp; apply NoDup_fst_map_to_list).
    by rewrite Hp, elem_of_map_to_list.
  - rewrite Hp. apply Forall_forall. intros [k v] Hkv%elem_of_map_to_list. apply (Hu k v Hkv).
  - rewrite Hp. apply NoDup_fst_map_to_list.
  - intros. apply lookup_empty.
Qed.

Lemma dec_enc_payload p j :
  payload_utf8 p = true -> metadata_utf8 (Metadata p) -> enc_payload p = Ok j ->
  dec_payload j = Ok {| Amount := if f64_is_zero (Amount p) then f64_zero else Amount p;
                        Currency := Currency p; AccountID := AccountID p;
                        Description := Description p; Metadata := Metadata p |}.
Proof.
  unfold payload_utf8. rewrite !andb_true_iff. intros [[Hc Ha] Hd] Hm.
  destruct p as [amt cur acc desc meta]; simpl in *. unfold enc_payload, enc_str; simpl.
  rewrite !utf8_valid_coerce by done. unfold enc_float, omit_if.
  destruct (f64_finite amt); simpl; [|done]. intros [= <-].
  pose proof (dec_enc_metadata meta Hm) as Hmeta. revert Hmeta.
  unfold enc_metadata. generalize ((fun kv : string * string => (utf8_coerce kv.1, enc_str kv.2))
    <$> merge_sort key_le (map_to_list meta)). intros ms Hms.
  destruct (f64_is_zero amt), (bool_decide_reflect (cur = "")), (bool_decide_reflect (acc = "")),
    (bool_decide_reflect (desc = "")), (bool_decide_reflect (meta = ∅)); subst; try reflexivity.
  all: simpl in Hms; unfold dec_payload; simpl; unfold dec_field; simpl; rewrite Hms; reflexivity.
Qed.

Lemma parse_EventValueBytes e d :
  event_utf8 e = true -> payload_utf8 (evPayload e) = true ->
  metadata_utf8 (Metadata (evPayload e)) -> EventValueBytes e = Ok d ->
  ParseEvent d = Ok (event_normalized e).
Proof.
  unfold event_utf8. rewrite !andb_true_iff. intros [[Ht Hy] Hi] Hp Hm.
  destruct e as [t y ts p i r]; simpl in *. unfold EventValueBytes, enc_str; simpl.
  rewrite !utf8_valid_coerce by done. unfold enc_time.
  destruct (json_time_ok ts); simpl; [|done].
  destruct (enc_payload p) as [pj|] eqn:Hpj; simpl; [|done]. intros [= <-].
  pose proof (dec_enc_payload p pj Hp Hm Hpj) as Hd.
  assert (exists fs, pj = JObj fs) as [fs ->].
  { unfold enc_payload in Hpj. destruct (enc_float (Amount p)); naive_solver. }
  unfold ParseEvent, omit_if. destruct r; simpl; unfold dec_field; simpl; by rewrite Hd.
Qed.

Lemma EventValueBytes_stored e :
  f64_finite (Amount (evPayload e)) = true -> json_time_ok (evTimestamp e) = true ->
  exists d, EventValueBytes e = Ok d.
Proof.
  intros Ha Ht. unfold EventValueBytes, enc_payload, enc_time, enc_float. rewrite Ht, Ha. by eexists.
Qed.

(** ** Order and injectivity of the key schema *)

Lemma str_lt_app p a b : str_lt (p +:+ a) (p +:+ b) = str_lt a b.
Proof.
  induction p as [|c p IH]; [done|]. rewrite !str_app_cons, str_lt_cons, N.ltb_irrefl, N.eqb_refl.
  simpl. apply IH.
Qed.

Lemma sep_inj a b r s :
  has_byte ":"%char a = false -> has_byte ":"%char b = false ->
  a +:+ ":" +:+ r = b +:+ ":" +:+ s -> a = b /\ r = s.
Proof.
  intros Ha Hb E. pose proof (f_equal (str_cut ":"%char) E) as Hc.
  change (":" +:+ r) with (String ":"%char r) in Hc.
  change (":" +:+ s) with (String ":"%char s) in Hc.
  rewrite !str_cut_app in Hc by done. naive_solver.
Qed.

Lemma EventKey_inj e1 e2 :
  no_sep (TenantID e1) = true -> no_sep (TenantID e2) = true ->
  no_sep (evType e1) = true -> no_sep (evType e2) = true ->
  EventKey e1 = EventKey e2 ->
  TenantID e1 = TenantID e2 /\ evType e1 = evType e2 /\ IdempotencyKey e1 = IdempotencyKey e2.
Proof.
  unfold no_sep. rewrite !negb_true_iff. unfold EventKey. intros H1 H2 H3 H4 E.
  apply sep_inj in E as [-> E]; [|done..]. by apply sep_inj in E as [-> ->].
Qed.

Lemma has_prefix_tenant t e :
  no_sep t = true -> no_sep (TenantID e) = true ->
  has_prefix (EventKey e) (TenantPrefix t) = bool_decide (TenantID e = t).
Proof.
  unfold no_sep. rewrite !negb_true_iff. intros Ht He.
  apply Bool.eq_true_iff_eq. rewrite has_prefix_spec, bool_decide_eq_true. split.
  - intros [r E]. unfold EventKey, TenantPrefix in E. rewrite str_app_assoc in E.
    by apply sep_inj in E as [-> _].
  - intros <-. apply has_prefix_spec, EventKey_prefix.
Qed.

Lemma has_prefix_type t ty e :
  no_sep t = true -> no_sep ty = true -> no_sep (TenantID e) = true -> no_sep (evType e) = true ->
  has_prefix (EventKey e) (TypePrefix t ty) = bool_decide (TenantID e = t /\ evType e = ty).
Proof.
  unfold no_sep. rewrite !negb_true_iff. intros Ht Hty He Hety.
  apply Bool.eq_true_iff_eq. rewrite has_prefix_spec, bool_decide_eq_true.
  unfold EventKey, TypePrefix. split.
  - intros [r E]. rewrite !str_app_assoc in E.
    apply sep_inj in E as [-> E]; [|done..]. by apply sep_inj in E as [-> _].
  - intros [<- <-]. eexists. rewrite !str_app_assoc. done.
Qed.

(** ** Properties *)

(** A stored event survives the store.  An event with a finite amount, a
    representable timestamp and well-formed strings is marshalled, and
    ParseEvent of the bytes is the event (a zero amount loses its sign). *)
Theorem event_value_roundtrip e :
  f64_finite (Amount (evPayload e)) = true -> json_time_ok (evTimestamp e) = true ->
  event_utf8 e = true -> payload_utf8 (evPayload e) = true ->
  metadata_utf8 (Metadata (evPayload e)) ->
  exists d, EventValueBytes e = Ok d /\ ParseEvent d = Ok (event_normalized e).
Proof.
  intros Ha Ht He Hp Hm. destruct (EventValueBytes_stored e Ha Ht) as [d Hd].
  exists d. split; [done|]. by apply parse_EventValueBytes.
Qed.

Definition sample_event : Event :=
  {| TenantID := "tenant-alpha"; evType := EventTransaction;
     evTimestamp := 1753430400 * second;
     evPayload := {| Amount := f64_const 12345 100; Currency := "MYR"; AccountID := "acct-A1";
                     Description := "payment"; Metadata := {[ "source" := "simulation" ]} |};
     IdempotencyKey := "01984f6e-0000-7000-8000-000000000001"; evRetry := false |}.

Lemma event_value_roundtrip_witness :
  exists d, EventValueBytes sample_event = Ok d /\ ParseEvent d = Ok (event_normalized sample_event).
Proof.
  apply (event_value_roundtrip sample_event); [by vm_compute..|].
  intros k v Hk. simpl in Hk. apply lookup_singleton_Some in Hk as [<- <-]. by vm_compute.
Defined.

(** The event keys.  For tenants and types without a separator,
    TenantFromKey recovers the tenant, the tenant and the type scans hold
    exactly the keys of the tenant (and type), equal keys mean equal tenant,
    type and idempotency key, and the keys of one tenant and type are ordered
    as their idempotency keys. *)
Theorem event_key_schema e1 e2 t ty :
  no_sep (TenantID e1) = true -> no_sep (TenantID e2) = true ->
  no_sep (evType e1) = true -> no_sep (evType e2) = true ->
  TenantID e1 <> "" -> no_sep t = true -> no_sep ty = true ->
  TenantFromKey (EventKey e1) = TenantID e1 /\
  in_scan (TenantPrefix t) (TenantUpperBound t) (EventKey e1) = bool_decide (TenantID e1 = t) /\
  in_scan (TypePrefix t ty) (TypeUpperBound t ty) (EventKey e1)
    = bool_decide (TenantID e1 = t /\ evType e1 = ty) /\
  (EventKey e1 = EventKey e2 ->
     TenantID e1 = TenantID e2 /\ evType e1 = evType e2 /\ IdempotencyKey e1 = IdempotencyKey e2) /\
  (TenantID e1 = TenantID e2 -> evType e1 = evType e2 ->
     str_lt (EventKey e1) (EventKey e2) = str_lt (IdempotencyKey e1) (IdempotencyKey e2)).
Proof.
  intros H1 H2 H3 H4 Hne Ht Hty. split_and!.
  - by apply TenantFromKey_EventKey.
  - by rewrite tenant_scan, has_prefix_tenant.
  - by rewrite type_scan, has_prefix_type.
  - by apply EventKey_inj.
  - intros Et Ey. unfold EventKey. by rewrite Et, Ey, !str_lt_app.
Qed.

Lemma event_key_schema_witness :
  TenantFromKey (EventKey sample_event) = "tenant-alpha" /\
  in_scan (TypePrefix "tenant-alpha" EventSettlement) (TypeUpperBound "tenant-alpha" EventSettlement)
    (EventKey sample_event) = false.
Proof.
  destruct (event_key_schema sample_event sample_event "tenant-alpha" EventSettlement
    eq_refl eq_refl eq_refl eq_refl ltac:(discriminate) eq_refl eq_refl) as (H1 & _ & H3 & _).
  split; [exact H1|]. rewrite H3. reflexivity.
Defined.
