(* ===== verification/EventGen.v ===== *)
(** * The traffic generator (internal/eventgen/generator.go)

    [Run] produces the emissions of a simulation: unique events and, for some of
    them, a retry with the same idempotency key.  The pseudo-random source, the
    clock, the context and the uuid generator are parameters; [gen] counts how
    often each was asked.  [FastRun] is [Run] under a clock that advances one
    millisecond per reading. *)

From Stdlib Require Import Ascii SpecFloat.
From S2P Require Import Prelude GoStrings KeyRange Json Floats Event.

Record Emission := {
  emEvent : Event;
  emRetry : bool;
  emUnique : bool
}.

(** The settings of [Config]; its [Now] and [Rand] are the parameters below. *)
Record Config := {
  TotalUnique : Z;
  Duration : Z;
  DuplicateRate : float64;
  NoDelay : bool
}.

Definition DefaultConfig : Config := {|
  TotalUnique := 1000; Duration := 60 * second; DuplicateRate := f64_const 10 100; NoDelay := false |}.

Definition tenants : list (string * float64) := [
  ("tenant-alpha", f64_const 40 100);
  ("tenant-beta", f64_const 25 100);
  ("tenant-gamma", f64_const 15 100);
  ("tenant-delta", f64_const 12 100);
  ("tenant-epsilon", f64_const 8 100)].

Definition eventTypes : list (EventType * float64) := [
  (EventTransaction, f64_const 50 100);
  (EventBalanceCheck, f64_const 25 100);
  (EventSettlement, f64_const 15 100);
  (EventKYCUpdate, f64_const 5 100);
  (EventFraudAlert, f64_const 5 100)].

(** What [math/rand] promises of a [*rand.Rand]. *)
Class RandSource := {
  rng : Type;
  NewSource : Z -> rng;
  Float64 : rng -> float64 * rng;
  Intn : Z -> rng -> Z * rng;
  Float64_valid r : valid_binary 53 1024 (Float64 r).1 = true;
  Float64_unit r : f64_le f64_zero (Float64 r).1 = true /\ f64_lt (Float64 r).1 f64_one = true;
  Intn_range n r : 0 < n -> 0 <= (Intn n r).1 < n
}.

Section Generator.
Context {R : RandSource}.

(** [for _, t := range table { acc += t.share; if x <= acc { return t.id } }] *)
Fixpoint pick_share (x acc : float64) (table : list (string * float64)) (fallback : string) : string :=
  match table with
  | [] => fallback
  | (id, share) :: table =>
      let acc := f64_add acc share in
      if f64_le x acc then id else pick_share x acc table fallback
  end.

Definition pickTenant (r : rng) : string * rng :=
  let '(x, r) := Float64 r in (pick_share x f64_zero tenants "tenant-epsilon", r).

Definition pickEventType (r : rng) : EventType * rng :=
  let '(x, r) := Float64 r in (pick_share x f64_zero eventTypes EventTransaction, r).

(** [string(rune('A' + n))] for an ASCII code. *)
Definition rune_string (n : Z) : string := String (ascii_of_N (Z.to_N n)) "".

Definition fmtAccount (r : rng) : string * rng :=
  let '(a, r) := Intn 26 r in
  let '(d, r) := Intn 10 r in
  ("acct-" +:+ rune_string (65 + a) +:+ rune_string (48 + d), r).

Definition randomPayload (et : EventType) (r : rng) : Payload * rng :=
  let '(acct, r) := fmtAccount r in
  let p amount desc := {| Amount := amount; Currency := "MYR"; AccountID := acct; Description := desc;
                          Metadata := {[ "source" := "simulation" ]} |} in
  if bool_decide (et = EventTransaction \/ et = EventSettlement) then
    let '(x, r) := Float64 r in (p (f64_add (f64_of_Z 10) (f64_mul x (f64_of_Z 5000))) "payment", r)
  else if bool_decide (et = EventBalanceCheck) then (p f64_zero "balance inquiry", r)
  else if bool_decide (et = EventKYCUpdate) then (p f64_zero "kyc refresh", r)
  else if bool_decide (et = EventFraudAlert) then
    let '(x, r) := Float64 r in (p (f64_mul x (f64_of_Z 100)) "fraud signal", r)
  else (p f64_zero "", r).

(** [d.Seconds()] *)
Definition Seconds (d : Z) : float64 :=
  f64_add (f64_of_Z (Z.quot d second)) (f64_div (f64_of_Z (Z.rem d second)) (f64_of_Z second)).

(** The double [2 * math.Pi]. *)
Definition two_pi : float64 := S754_finite false 7074237752028440 (-50).

Variable sin : float64 -> float64.   (* math.Sin *)

Definition trafficMultiplier (elapsed : Z) (r : rng) : float64 * rng :=
  let sec := Seconds elapsed in
  let intSec := f64_trunc sec in
  let base := f64_add f64_one (f64_mul (f64_const 1 2)
                (sin (f64_div (f64_mul two_pi sec) (f64_of_Z 15)))) in
  let base := if (5 <=? Z.rem intSec 20) && (Z.rem intSec 20 <? 12)
              then f64_mul base (f64_const 3 2) else base in
  let bucket := Z.quot intSec 2 in
  let sr := NewSource (wrap64 (wrap64 (bucket * 0x9e3779b9) + 0x6c62272e)) in
  let '(x, sr) := Float64 sr in
  let base :=
    if f64_lt x (f64_const 6 100) then
      let '(y, _) := Float64 sr in f64_mul base (f64_add (f64_of_Z 10) (f64_mul y (f64_of_Z 10)))
    else
      let '(x, sr) := Float64 sr in
      if f64_lt x (f64_const 15 100) then
        let '(y, _) := Float64 sr in f64_mul base (f64_add (f64_of_Z 3) (f64_mul y (f64_of_Z 3)))
      else base in
  let '(z, r) := Float64 r in
  let tenantScale := f64_add (f64_const 1 2) z in
  (f64_max (f64_mul base tenantScale) (f64_const 1 10), r).

(** ** [Run] *)

(** The readings of [cfg.Now] and of the context, and the results of
    [uuid.NewV7], by their number. *)
Variable uuid_NewV7 : nat -> result string.
Variable ctx_Err : nat -> option error.

Record gen := {
  gRand : rng;
  gUuids : nat;
  gNow : nat;
  gCtx : nat
}.

Definition retry_of (ev : Event) (t : time) : Event :=
  {| TenantID := TenantID ev; evType := evType ev; evTimestamp := t;
     evPayload := {| Amount := Amount (evPayload ev); Currency := Currency (evPayload ev);
                     AccountID := AccountID (evPayload ev); Description := "retry";
                     Metadata := Metadata (evPayload ev) |};
     IdempotencyKey := IdempotencyKey ev; evRetry := true |}.

(** The wait of an iteration: the context is asked once before it and, when
    the generator sleeps, once more during the sleep. *)
Definition pace (cfg : Config) (interval elapsed : Z) (g : gen) : option error * gen :=
  match ctx_Err (gCtx g) with
  | Some e => (Some e, {| gRand := gRand g; gUuids := gUuids g; gNow := gNow g; gCtx := S (gCtx g) |})
  | None =>
      let '(rateMul, r) := trafficMultiplier elapsed (gRand g) in
      let wait := f64_trunc (f64_div (f64_of_Z interval) rateMul) in
      if negb (NoDelay cfg) && (0 <? wait)
      then (ctx_Err (S (gCtx g)), {| gRand := r; gUuids := gUuids g; gNow := gNow g; gCtx := S (S (gCtx g)) |})
      else (None, {| gRand := r; gUuids := gUuids g; gNow := gNow g; gCtx := S (gCtx g) |})
  end.

(** The emissions of one iteration, after the wait. *)
Definition emit (cfg : Config) (now : nat -> time) (g : gen) : result (list Emission) * gen :=
  let '(tenant, r) := pickTenant (gRand g) in
  let '(et, r) := pickEventType r in
  match uuid_NewV7 (gUuids g) with
  | Err e => (Err e, {| gRand := r; gUuids := S (gUuids g); gNow := gNow g; gCtx := gCtx g |})
  | Ok idKey =>
      let '(payload, r) := randomPayload et r in
      let ev := {| TenantID := tenant; evType := et; evTimestamp := now (gNow g);
                   evPayload := payload; IdempotencyKey := idKey; evRetry := false |} in
      let first := {| emEvent := ev; emRetry := false; emUnique := true |} in
      let '(x, r) := Float64 r in
      if f64_lt x (DuplicateRate cfg)
      then (Ok [first; {| emEvent := retry_of ev (now (S (gNow g))); emRetry := true; emUnique := false |}],
            {| gRand := r; gUuids := S (gUuids g); gNow := S (S (gNow g)); gCtx := gCtx g |})
      else (Ok [first], {| gRand := r; gUuids := S (gUuids g); gNow := S (gNow g); gCtx := gCtx g |})
  end.

(** [for unique < cfg.TotalUnique]: every iteration that does not leave the
    loop adds one unique event, so [TotalUnique - unique] bounds it. *)
Fixpoint gen_loop (cfg : Config) (now : nat -> time) (start deadline interval : Z) (remaining : nat)
    (out : list Emission) (g : gen) : (list Emission * option error) * gen :=
  match remaining with
  | O => ((out, None), g)
  | S remaining =>
      let t := now (gNow g) in
      let g := {| gRand := gRand g; gUuids := gUuids g; gNow := S (gNow g); gCtx := gCtx g |} in
      if time_after t deadline then ((out, None), g)
      else
        match pace cfg interval (time_sub t start) g with
        | (Some e, g) => ((out, Some e), g)
        | (None, g) =>
            match emit cfg now g with
            | (Err e, g) => ((out, Some e), g)
            | (Ok ems, g) => gen_loop cfg now start deadline interval remaining (out ++ ems) g
            end
        end
  end.

Definition Run (cfg : Config) (now : nat -> time) (g : gen) : (list Emission * option error) * gen :=
  if TotalUnique cfg <=? 0 then (([], None), g)
  else
    let start := now (gNow g) in
    let g := {| gRand := gRand g; gUuids := gUuids g; gNow := S (gNow g); gCtx := gCtx g |} in
    let deadline := start + Duration cfg in
    let interval := Z.quot (Duration cfg) (TotalUnique cfg) in
    let interval := if interval <=? 0 then millisecond else interval in
    gen_loop cfg now start deadline interval (Z.to_nat (TotalUnique cfg)) [] g.

Definition ExpectedKeys (emissions : list Emission) : list string :=
  (fun e => EventKey (emEvent e)) <$> List.filter emUnique emissions.

(** The clock of [FastRun]: reading [n] is [n] milliseconds after the epoch. *)
Definition fast_now (n : nat) : time := wrap64 (Z.of_nat n * millisecond).

(** [FastRun] counts its clock's readings from 0. *)
Definition FastRun (cfg : Config) (g : gen) : (list Emission * option error) * gen :=
  Run {| TotalUnique := TotalUnique cfg; Duration := Duration cfg; DuplicateRate := DuplicateRate cfg; NoDelay := true |}
      fast_now {| gRand := gRand g; gUuids := gUuids g; gNow := 0; gCtx := gCtx g |}.

(** ** What an iteration emits *)

Definition first_of (ev : Event) : Emission := {| emEvent := ev; emRetry := false; emUnique := true |}.

(** The emissions of generated events: each event, then its retry if it has
    one (the retry's timestamp is given). *)
Definition emissions_of (evs : list (Event * option time)) : list Emission :=
  evs ≫= fun er =>
    first_of er.1 ::
    match er.2 with
    | Some t => [{| emEvent := retry_of er.1 t; emRetry := true; emUnique := false |}]
    | None => []
    end.

(** A generated event can be stored, whatever its timestamp: its amount is
    finite and its strings are ASCII. *)
Definition generated (ev : Event) : Prop :=
  TenantID ev ∈ tenants.*1 /\ evType ev ∈ eventTypes.*1 /\ evRetry ev = false /\
  f64_finite (Amount (evPayload ev)) = true.

Lemma pick_share_in x acc table d : d ∈ table.*1 -> pick_share x acc table d ∈ table.*1.
Proof.
  intros Hd. enough (pick_share x acc table d ∈ d :: table.*1) as H.
  { by apply elem_of_cons in H as [->|]. }
  clear Hd. revert acc. induction table as [|[id share] table IH]; intros acc; simpl; [by left|].
  destruct (f64_le x _); [by right; left|]. specialize (IH (f64_add acc share)).
  apply elem_of_cons in IH as [->|]; [by left|by right; right].
Qed.

Lemma pickTenant_in r : (pickTenant r).1 ∈ tenants.*1.
Proof. unfold pickTenant. destruct (Float64 r). apply pick_share_in. by repeat constructor. Qed.

Lemma pickEventType_in r : (pickEventType r).1 ∈ eventTypes.*1.
Proof. unfold pickEventType. destruct (Float64 r). apply pick_share_in. by repeat constructor. Qed.

Lemma Float64_mag r : mag 0 (Float64 r).1.
Proof. destruct (Float64_unit r). apply unit_mag; [apply Float64_valid|done..]. Qed.

Lemma payment_finite x : mag 0 x -> f64_finite (f64_add (f64_of_Z 10) (f64_mul x (f64_of_Z 5000))) = true.
Proof.
  intros Hx. apply (mag_finite 16), (f64_add_mag 14); [by vm_compute| |lia].
  apply (f64_mul_mag 0 13); [done|by vm_compute|lia].
Qed.

Lemma fraud_finite x : mag 0 x -> f64_finite (f64_mul x (f64_of_Z 100)) = true.
Proof. intros Hx. apply (mag_finite 8), (f64_mul_mag 0 7); [done|by vm_compute|lia]. Qed.

Lemma randomPayload_finite et r : f64_finite (Amount (randomPayload et r).1) = true.
Proof.
  unfold randomPayload. destruct (fmtAccount r) as [acct r1]. pose proof (Float64_mag r1) as Hm.
  destruct (Float64 r1) as [x r2]. cbn [fst] in Hm.
  repeat case_bool_decide; cbn [fst Amount]; [by apply payment_finite|done|done|by apply fraud_finite|done].
Qed.

Lemma emit_ok cfg now g ems g' : emit cfg now g = (Ok ems, g') ->
  exists ev rt, ems = emissions_of [(ev, rt)] /\ generated ev /\
    uuid_NewV7 (gUuids g) = Ok (IdempotencyKey ev) /\ evTimestamp ev = now (gNow g) /\
    (forall t, rt = Some t -> t = now (S (gNow g))) /\
    gUuids g' = S (gUuids g) /\ (S (gNow g) <= gNow g' <= S (S (gNow g)))%nat.
Proof.
  unfold emit. pose proof (pickTenant_in (gRand g)) as Ht. destruct (pickTenant (gRand g)) as [tenant r1].
  pose proof (pickEventType_in r1) as Hy. destruct (pickEventType r1) as [et r2].
  destruct (uuid_NewV7 (gUuids g)) as [idKey|e] eqn:Hu; [|done].
  pose proof (randomPayload_finite et r2) as Hp. destruct (randomPayload et r2) as [payload r3].
  destruct (Float64 r3) as [x r4].
  destruct (f64_lt x (DuplicateRate cfg)); intros [= <- <-]; simpl in *.
  - eexists _, (Some _). split; [reflexivity|]. split_and!; simpl; try done; try lia. by intros t [= <-].
  - eexists _, None. split; [reflexivity|]. split_and!; simpl; try done; lia.
Qed.

Lemma emit_err cfg now g e g' : emit cfg now g = (Err e, g') -> uuid_NewV7 (gUuids g) = Err e.
Proof.
  unfold emit. destruct (pickTenant (gRand g)) as [tenant r1]. destruct (pickEventType r1) as [et r2].
  destruct (uuid_NewV7 (gUuids g)); [|by intros [= -> _]].
  destruct (randomPayload et r2) as [payload r3]. destruct (Float64 r3) as [x r4].
  by destruct (f64_lt x (DuplicateRate cfg)).
Qed.

Lemma pace_spec cfg interval elapsed g e g' : pace cfg interval elapsed g = (e, g') ->
  gUuids g' = gUuids g /\ gNow g' = gNow g /\ (forall e', e = Some e' -> exists n, ctx_Err n = Some e').
Proof.
  unfold pace. destruct (ctx_Err (gCtx g)) eqn:Hc; [intros [= <- <-]; naive_solver|].
  destruct (trafficMultiplier elapsed (gRand g)) as [m r].
  destruct (negb (NoDelay cfg) && _); intros [= <- <-]; simpl; split_and!; try done; eauto.
Qed.

(** ** The loop *)

(** [evs] were generated from the uuids from number [u] on, under the clock
    readings from number [n] on. *)
Definition generated_from (now : nat -> time) (u : nat) (evs : list (Event * option time)) : Prop :=
  forall i ev rt, evs !! i = Some (ev, rt) ->
    generated ev /\ uuid_NewV7 (u + i) = Ok (IdempotencyKey ev) /\
    (exists m, evTimestamp ev = now m) /\ (forall t, rt = Some t -> exists m, t = now m).

(** Iteration [i] reads the clock for its deadline at a number between
    [n + 2i] and [n + 3i]. *)
Definition deadline_reading (now : nat -> time) (n i : nat) (deadline : Z) (passed : bool) : Prop :=
  exists m, (n + 2 * i <= m <= n + 3 * i)%nat /\ time_after (now m) deadline = passed.

Lemma gen_loop_spec cfg now start deadline interval rem out g out' e g' :
  gen_loop cfg now start deadline interval rem out g = ((out', e), g') ->
  exists evs, out' = out ++ emissions_of evs /\ (length evs <= rem)%nat /\
    generated_from now (gUuids g) evs /\
    (forall i, (i < length evs)%nat -> deadline_reading now (gNow g) i deadline false) /\
    match e with
    | None => length evs = rem \/ deadline_reading now (gNow g) (length evs) deadline true
    | Some err => (exists n, ctx_Err n = Some err) \/ (exists n, uuid_NewV7 n = Err err)
    end.
Proof.
  revert out g. induction rem as [|rem IH]; intros out g; simpl.
  { intros [= <- <- <-]. exists []. rewrite app_nil_r. split_and!; [done|simpl; lia|intros i; done|simpl; lia|by left]. }
  assert (Hnil : out = out ++ emissions_of [] /\ (length (@nil (Event * option time)) <= S rem)%nat /\
            generated_from now (gUuids g) [] /\
            (forall i, (i < length (@nil (Event * option time)))%nat -> deadline_reading now (gNow g) i deadline false)).
  { rewrite app_nil_r. split_and!; [done|simpl; lia|intros i; done|simpl; lia]. }
  destruct (time_after (now (gNow g)) deadline) eqn:Hd.
  { intros [= <- <- <-]. exists []. split_and!; try apply Hnil. right. exists (gNow g). simpl. split; [lia|done]. }
  destruct (pace cfg interval _ _) as [[err|] g1] eqn:Hp; apply pace_spec in Hp as (Hu & Hn & Hc); simpl in Hu, Hn.
  { intros [= <- <- <-]. exists []. split_and!; try apply Hnil. left. by apply Hc. }
  destruct (emit cfg now g1) as [[ems|err] g2] eqn:He.
  2:{ intros [= <- <- <-]. exists []. split_and!; try apply Hnil. right. apply emit_err in He. eauto. }
  apply emit_ok in He as (ev & rt & -> & Hev & Hid & Hts & Hrt & Hu2 & Hn2).
  intros (evs & -> & Hl & Hfrom & Hread & Hend)%IH. exists ((ev, rt) :: evs). rewrite Hu in Hu2, Hid.
  assert (Hshift : forall i b, deadline_reading now (gNow g2) i deadline b -> deadline_reading now (gNow g) (S i) deadline b).
  { intros i b (m & Hm & Hb). exists m. split; [lia|done]. }
  split_and!.
  - rewrite <-app_assoc. f_equal. unfold emissions_of. simpl. by rewrite app_nil_r.
  - simpl. lia.
  - intros [|i] ev' rt'; simpl.
    + intros [= <- <-]. rewrite Nat.add_0_r. split_and!; eauto.
    + rewrite <-Nat.add_succ_comm, <-Hu2. apply Hfrom.
  - intros [|i] Hi; simpl in Hi; [|apply Hshift, Hread; lia].
    exists (gNow g). split; [lia|done].
  - destruct e; [done|]. destruct Hend as [<-|Hend]; [by left|]. right. by apply Hshift.
Qed.

Lemma emissions_of_cons ev rt evs : emissions_of ((ev, rt) :: evs) = emissions_of [(ev, rt)] ++ emissions_of evs.
Proof. unfold emissions_of. simpl. by rewrite app_nil_r. Qed.

Lemma ExpectedKeys_emissions evs : ExpectedKeys (emissions_of evs) = (fun er => EventKey er.1) <$> evs.
Proof.
  induction evs as [|[ev rt] evs IH]; [done|]. rewrite emissions_of_cons. unfold ExpectedKeys.
  rewrite List.filter_app, fmap_app. fold (ExpectedKeys (emissions_of evs)). rewrite IH. by destruct rt.
Qed.

Lemma elem_of_emissions em evs : em ∈ emissions_of evs <->
  exists ev rt, (ev, rt) ∈ evs /\
    (em = first_of ev \/ exists t, rt = Some t /\ em = {| emEvent := retry_of ev t; emRetry := true; emUnique := false |}).
Proof.
  unfold emissions_of. rewrite list_elem_of_bind. split.
  - intros ([ev rt] & Hem & Hin). exists ev, rt. split; [done|]. simpl in Hem.
    apply elem_of_cons in Hem as [->|Hem]; [by left|right]. destruct rt as [t|]; [|by apply not_elem_of_nil in Hem].
    apply list_elem_of_singleton in Hem. eauto.
  - intros (ev & rt & Hin & Hem). exists (ev, rt). split; [|done]. simpl.
    destruct Hem as [->|(t & -> & ->)]; [by left|right; by left].
Qed.

Lemma emissions_length evs : (length evs <= length (emissions_of evs) <= 2 * length evs)%nat /\
  (existsb emRetry (emissions_of evs) = true -> (length evs < length (emissions_of evs))%nat).
Proof.
  induction evs as [|[ev rt] evs [IH1 IH2]]; [done|]. rewrite emissions_of_cons, length_app, existsb_app.
  destruct rt; simpl; split; try lia. intros H. specialize (IH2 H). lia.
Qed.

Definition uuids_distinct : Prop := forall i j a, uuid_NewV7 i = Ok a -> uuid_NewV7 j = Ok a -> i = j.

Lemma generated_no_sep ev : generated ev ->
  no_sep (TenantID ev) = true /\ no_sep (evType ev) = true /\ TenantID ev <> "".
Proof.
  intros (Ht & Hy & _).
  assert (Ht' : Forall (fun t => no_sep t = true /\ t <> "") tenants.*1) by by repeat constructor.
  assert (Hy' : Forall (fun t => no_sep t = true) eventTypes.*1) by by repeat constructor.
  rewrite Forall_forall in Ht', Hy'. specialize (Ht' _ Ht). specialize (Hy' _ Hy). tauto.
Qed.

Lemma generated_keys_NoDup now u evs : uuids_distinct -> generated_from now u evs ->
  NoDup ((fun er : Event * option time => EventKey er.1) <$> evs).
Proof.
  intros Hd Hg. apply NoDup_alt. intros i j k Hi Hj. rewrite list_lookup_fmap in Hi, Hj.
  destruct (evs !! i) as [[e1 t1]|] eqn:E1; [|done]. destruct (evs !! j) as [[e2 t2]|] eqn:E2; [|done].
  injection Hi as Hk1. injection Hj as Hk2. rewrite <-Hk2 in Hk1. simpl in Hk1.
  apply Hg in E1 as (G1 & U1 & _), E2 as (G2 & U2 & _).
  apply generated_no_sep in G1 as (? & ? & _), G2 as (? & ? & _).
  apply EventKey_inj in Hk1 as (_ & _ & Hid); [|done..]. rewrite Hid in U1.
  specialize (Hd _ _ _ U1 U2). lia.
Qed.

(** ** Properties *)

Lemma Run_spec cfg now g out e g' : Run cfg now g = ((out, e), g') ->
  exists evs, out = emissions_of evs /\ Z.of_nat (length evs) <= Z.max 0 (TotalUnique cfg) /\
    generated_from now (gUuids g) evs /\
    ExpectedKeys out = (fun er => EventKey er.1) <$> evs /\ (uuids_distinct -> NoDup (ExpectedKeys out)) /\
    match e with
    | None => Z.of_nat (length evs) = Z.max 0 (TotalUnique cfg) \/
              exists m, time_after (now m) (now (gNow g) + Duration cfg) = true
    | Some err => (exists n, ctx_Err n = Some err) \/ (exists n, uuid_NewV7 n = Err err)
    end.
Proof.
  unfold Run. destruct (Z.leb_spec (TotalUnique cfg) 0) as [H0|H0].
  { intros [= <- <- <-]. exists []. split_and!; simpl; try done; [lia|by intros _; constructor|left; lia]. }
  intros (evs & -> & Hl & Hg & _ & Hend)%gen_loop_spec. simpl in Hg, Hend. exists evs.
  rewrite app_nil_l, ExpectedKeys_emissions. split_and!; [done|lia|done|done| |].
  - intros Hd. by apply (generated_keys_NoDup now (gUuids g)).
  - destruct e; [done|]. destruct Hend as [->|(m & _ & Hm)]; [left; lia|right; by exists m].
Qed.

(** The generator.  The emissions of a run are generated events, each
    followed by at most one retry that carries its key; their tenants and types
    are those of the tables and every event can be stored; there are at most
    [TotalUnique] of them, and without an error exactly as many unless the clock
    passed the deadline; an error comes from the context or from the uuids; and
    when the uuids are distinct the expected keys are. *)
Theorem run_emissions cfg now g out e g' : Run cfg now g = ((out, e), g') ->
  exists evs, out = emissions_of evs /\ Z.of_nat (length evs) <= Z.max 0 (TotalUnique cfg) /\
    generated_from now (gUuids g) evs /\
    ExpectedKeys out = (fun er => EventKey er.1) <$> evs /\ (uuids_distinct -> NoDup (ExpectedKeys out)) /\
    match e with
    | None => Z.of_nat (length evs) = Z.max 0 (TotalUnique cfg) \/
              exists m, time_after (now m) (now (gNow g) + Duration cfg) = true
    | Some err => (exists n, ctx_Err n = Some err) \/ (exists n, uuid_NewV7 n = Err err)
    end.
Proof. exact (Run_spec cfg now g out e g'). Qed.

(** How many events a fast run generates.  Its clock advances one
    millisecond per reading, two or three readings per event, and generation
    stops at the deadline: a run produces all [TotalUnique] events when the
    duration covers three milliseconds per event, and never more than one event
    per two milliseconds of it, whatever was asked for. *)
Theorem fast_run_count cfg g out g' :
  FastRun cfg g = ((out, None), g') -> 0 < TotalUnique cfg -> 0 <= Duration cfg ->
  (3 * TotalUnique cfg + 1) * millisecond <= int64_max ->
  let n := Z.of_nat (length (ExpectedKeys out)) in
  ((3 * TotalUnique cfg - 2) * millisecond <= Duration cfg -> n = TotalUnique cfg) /\
  n <= TotalUnique cfg /\ (0 < n -> (2 * n - 1) * millisecond <= Duration cfg).
Proof.
  intros Hrun Hpos Hdur Hbig. unfold FastRun, Run in Hrun. simpl in Hrun.
  destruct (Z.leb_spec (TotalUnique cfg) 0) as [H0|_]; [lia|].
  apply gen_loop_spec in Hrun as (evs & -> & Hl & _ & Hread & Hend). simpl in Hread, Hend.
  rewrite app_nil_l, ExpectedKeys_emissions, length_fmap. cbv zeta.
  assert (Hnow : forall m, Z.of_nat m <= 3 * TotalUnique cfg + 1 -> fast_now m = Z.of_nat m * millisecond).
  { intros m Hm. unfold fast_now. apply wrap64_id. unfold in_int64, int64_min. unfold millisecond in *. lia. }
  change (fast_now 0) with 0 in *. rewrite Z.add_0_l in *.
  split_and!; [|lia|].
  - intros Hd. destruct Hend as [->|(m & Hm & Ha)]; [lia|].
    destruct (decide (length evs = Z.to_nat (TotalUnique cfg))) as [->|Hne]; [lia|].
    unfold time_after in Ha. rewrite Hnow in Ha by lia. apply Z.ltb_lt in Ha. unfold millisecond in *. lia.
  - intros Hn. destruct (Hread (pred (length evs))) as (m & Hm & Ha); [lia|].
    unfold time_after in Ha. rewrite Hnow in Ha by lia. apply Z.ltb_ge in Ha. unfold millisecond in *. lia.
Qed.

(** The multiplier the wait is divided by is never below 0.1. *)
Lemma trafficMultiplier_floor elapsed r : f64_lt (trafficMultiplier elapsed r).1 (f64_const 1 10) = false.
Proof.
  unfold trafficMultiplier. cbv zeta. destruct (Float64 (NewSource _)) as [x sr], (Float64 r) as [z r'].
  cbn [fst]. apply f64_max_floor.
Qed.

End Generator.

(** ** Concrete runs *)

(** A small source: [Float64] walks through four values. *)
Definition walk_float (r : Z) : float64 :=
  match Z.modulo r 4 with 0 => f64_const 1 100 | 1 => f64_const 1 2 | 2 => f64_const 3 4 | _ => f64_const 9 10 end.

#[export] Instance walk : RandSource.
Proof.
  refine {| rng := Z; NewSource := fun seed => seed; Float64 := fun r => (walk_float r, r + 1);
            Intn := fun n r => (Z.modulo r n, r + 1) |}.
  - intros r. simpl. unfold walk_float. by repeat case_match; vm_compute.
  - intros r. simpl. unfold walk_float. by repeat case_match; vm_compute.
  - intros n r Hn. simpl. by apply Z.mod_pos_bound.
Defined.

Definition serial_uuid (n : nat) : result string := Ok (itoa (Z.of_nat n)).
Definition no_wave (_ : float64) : float64 := f64_zero.
Definition never_done (_ : nat) : option error := None.
Definition fresh_gen : gen := {| gRand := 3; gUuids := 0; gNow := 0; gCtx := 0 |}.

(** Sixty milliseconds for a hundred events. *)
Definition hurried : Config := {|
  TotalUnique := 100; Duration := 60 * millisecond; DuplicateRate := f64_const 10 100; NoDelay := true |}.

Lemma serial_uuids_distinct : uuids_distinct serial_uuid.
Proof. intros i j a. unfold serial_uuid. intros [= <-] [= E]. apply itoa_inj in E. lia. Qed.

Lemma run_ends (r : (list Emission * option error) * gen) n :
  r.1.2 = None -> length (ExpectedKeys r.1.1) = n ->
  exists out g', r = ((out, None), g') /\ length (ExpectedKeys out) = n.
Proof. destruct r as [[out e] g']. simpl. intros -> <-. eauto. Qed.

Lemma hurried_run : exists out g',
  Run no_wave serial_uuid never_done hurried fast_now fresh_gen = ((out, None), g') /\
  length (ExpectedKeys out) = 26%nat.
Proof. apply run_ends; by vm_compute. Qed.

Lemma hurried_fast : FastRun no_wave serial_uuid never_done hurried fresh_gen
  = Run no_wave serial_uuid never_done hurried fast_now fresh_gen.
Proof.
  unfold FastRun, hurried, fresh_gen.
  cbn [TotalUnique Duration DuplicateRate gRand gUuids gCtx]. reflexivity.
Qed.

Lemma run_emissions_witness : exists out g',
  Run no_wave serial_uuid never_done hurried fast_now fresh_gen = ((out, None), g') /\
  length (ExpectedKeys out) = 26%nat /\ NoDup (ExpectedKeys out).
Proof.
  destruct hurried_run as (out & g' & Hrun & Hn). exists out, g'. split; [exact Hrun|]. split; [exact Hn|].
  destruct (run_emissions no_wave serial_uuid never_done hurried fast_now fresh_gen out None g' Hrun)
    as (evs & _ & _ & _ & _ & Hnd & _).
  exact (Hnd serial_uuids_distinct).
Defined.

(** The hurried run is cut short: 26 of the hundred events, and thirty at most. *)
Lemma fast_run_count_witness : exists out g',
  FastRun no_wave serial_uuid never_done hurried fresh_gen = ((out, None), g') /\
  length (ExpectedKeys out) = 26%nat /\ 2 * Z.of_nat (length (ExpectedKeys out)) - 1 <= 60.
Proof.
  destruct hurried_run as (out & g' & Hrun & Hn). exists out, g'. rewrite <-hurried_fast in Hrun.
  split; [exact Hrun|]. split; [exact Hn|].
  destruct (fast_run_count no_wave serial_uuid never_done hurried fresh_gen out g' Hrun)
    as (_ & _ & H); [by vm_compute..|].
  rewrite Hn in *. specialize (H eq_refl). cbn [Duration hurried] in H. unfold millisecond in H. lia.
Defined.
