(* ===== verification/Regions.v ===== *)
(** * Feeds and map regions (internal/gtfs/feeds.go, internal/gtfs/regions.go)

    The static catalogues of GTFS-Realtime feeds and map regions, and the
    lookups between them. *)

From S2P Require Import Prelude GoStrings.

Definition baseURL : string := "https://api.data.gov.my/gtfs-realtime/vehicle-position/".

Record Feed := {
  fAgency : string;
  fURL : string;
  fCategory : string;
  fType : string;
  fRegion : string;
  fGroup : string;
  fBucketID : string
}.

#[export] Instance Feed_eq_dec : EqDecision Feed.
Proof. solve_decision. Defined.

Definition feed (agency path category ty region group bucket : string) : Feed :=
  {| fAgency := agency; fURL := baseURL +:+ path; fCategory := category; fType := ty;
     fRegion := region; fGroup := group; fBucketID := bucket |}.

Definition AllFeeds : list Feed := [
  feed "ktmb" "ktmb" "" "rail" "National" "ktmb" "national";
  feed "prasarana-rapid-bus-kl" "prasarana?category=rapid-bus-kl" "rapid-bus-kl" "bus" "KL" "prasarana" "klang-valley";
  feed "prasarana-rapid-bus-mrtfeeder" "prasarana?category=rapid-bus-mrtfeeder" "rapid-bus-mrtfeeder" "bus" "KL MRT Feeder" "prasarana" "klang-valley";
  feed "prasarana-rapid-bus-kuantan" "prasarana?category=rapid-bus-kuantan" "rapid-bus-kuantan" "bus" "Kuantan" "prasarana" "east-coast";
  feed "prasarana-rapid-bus-penang" "prasarana?category=rapid-bus-penang" "rapid-bus-penang" "bus" "Penang" "prasarana" "penang";
  feed "mybas-kangar" "mybas-kangar" "" "bus" "Perlis" "mybas" "northern";
  feed "mybas-alor-setar" "mybas-alor-setar" "" "bus" "Kedah" "mybas" "northern";
  feed "mybas-kota-bharu" "mybas-kota-bharu" "" "bus" "Kelantan" "mybas" "east-coast";
  feed "mybas-kuala-terengganu" "mybas-kuala-terengganu" "" "bus" "Terengganu" "mybas" "east-coast";
  feed "mybas-ipoh" "mybas-ipoh" "" "bus" "Perak" "mybas" "northern";
  feed "mybas-seremban-a" "mybas-seremban-a" "" "bus" "N. Sembilan A" "mybas" "central";
  feed "mybas-seremban-b" "mybas-seremban-b" "" "bus" "N. Sembilan B" "mybas" "central";
  feed "mybas-melaka" "mybas-melaka" "" "bus" "Melaka" "mybas" "central";
  feed "mybas-johor" "mybas-johor" "" "bus" "Johor" "mybas" "johor";
  feed "mybas-kuching" "mybas-kuching" "" "bus" "Sarawak" "mybas" "sarawak" ].

Definition AgencyIDs (feeds : list Feed) : list string := fAgency <$> feeds.

Definition DefaultRegionID : string := "klang-valley".

Record MapRegion := {
  rID : string;
  rLabel : string;
  rCenter : float64 * float64;
  rZoom : Z;
  rAgencies : list string
}.

#[export] Instance MapRegion_eq_dec : EqDecision MapRegion.
Proof. solve_decision. Defined.

Definition region (id label : string) (center : float64 * float64) (zoom : Z)
    (agencies : list string) : MapRegion :=
  {| rID := id; rLabel := label; rCenter := center; rZoom := zoom; rAgencies := agencies |}.

Definition mapRegions : list MapRegion := [
  region "klang-valley" "Klang Valley" (f64_const 3139 1000, f64_const 101687 1000) 12
    ["prasarana-rapid-bus-kl"; "prasarana-rapid-bus-mrtfeeder"];
  region "national" "National" (f64_const 42 10, f64_const 1020 10) 7 ["ktmb"];
  region "penang" "Penang" (f64_const 541 100, f64_const 10033 100) 11
    ["prasarana-rapid-bus-penang"];
  region "east-coast" "East Coast" (f64_const 495 100, f64_const 10315 100) 8
    ["prasarana-rapid-bus-kuantan"; "mybas-kota-bharu"; "mybas-kuala-terengganu"];
  region "johor" "Johor" (f64_const 149 100, f64_const 10374 100) 11 ["mybas-johor"];
  region "sarawak" "Sarawak" (f64_const 155 100, f64_const 11034 100) 11 ["mybas-kuching"];
  region "northern" "Northern" (f64_const 555 100, f64_const 10075 100) 8
    ["mybas-kangar"; "mybas-alor-setar"; "mybas-ipoh"];
  region "central" "Central" (f64_const 255 100, f64_const 10215 100) 9
    ["mybas-seremban-a"; "mybas-seremban-b"; "mybas-melaka"] ].

(** The package's [init]: the agency index is filled region by region. *)
Definition agencyToRegion : gmap string MapRegion :=
  foldl (fun m r => foldl (fun m a => <[a := r]> m) m (rAgencies r)) ∅ mapRegions.

Definition DefaultRegion : option MapRegion := head mapRegions.

Definition AllRegions : list MapRegion := mapRegions.

Definition zero_region : MapRegion :=
  {| rID := ""; rLabel := ""; rCenter := (f64_zero, f64_zero); rZoom := 0; rAgencies := [] |}.

Definition RegionByID (id : string) : result MapRegion :=
  match list_find (fun r => rID r = id) mapRegions with
  | Some (_, r) => Ok r
  | None => Err (Errorf ("unknown region " +:+ quote id))
  end.

Definition AgenciesForRegion (id : string) : result (list string) :=
  r ← RegionByID id;
  Ok (rAgencies r).

Definition RegionForAgency (agency : string) : option MapRegion := agencyToRegion !! agency.

(** A [map[string]struct{}] of ids. *)
Definition AgencySet (ids : list string) : gset string := list_to_set ids.

Definition FeedsForRegion (id : string) : result (list Feed) :=
  r ← RegionByID id;
  let agencySet := AgencySet (rAgencies r) in
  Ok (filter (fun f => fAgency f ∈ agencySet) AllFeeds).

(** The inner loop of [FeedsForRegions]: skip the agencies already seen. *)
Definition add_unseen (acc : gset string * list Feed) (f : Feed) : gset string * list Feed :=
  let '(seen, out) := acc in
  if decide (fAgency f ∈ seen) then acc else ({[ fAgency f ]} ∪ seen, out ++ [f]).

Fixpoint feeds_for_regions (ids : list string) (acc : gset string * list Feed)
    : result (list Feed) :=
  match ids with
  | [] => Ok acc.2
  | id :: ids =>
      feeds ← FeedsForRegion id;
      feeds_for_regions ids (foldl add_unseen acc feeds)
  end.

Definition FeedsForRegions (ids : list string) : result (list Feed) :=
  feeds_for_regions ids (∅, []).

(** Klang Valley's feeds, the error dropped. *)
Definition KLFeeds : list Feed :=
  match FeedsForRegion DefaultRegionID with Ok fs => fs | Err _ => [] end.

(** ** Lemmas *)

Lemma RegionByID_ok id r : RegionByID id = Ok r -> r ∈ mapRegions /\ rID r = id.
Proof.
  unfold RegionByID. destruct (list_find _ _) as [[i r']|] eqn:E; [|done].
  intros [= ->]. apply list_find_Some in E as (Hl & Hid & _).
  split; [by eapply list_elem_of_lookup_2|done].
Qed.

Lemma RegionByID_err id e : RegionByID id = Err e -> id ∉ rID <$> mapRegions.
Proof.
  unfold RegionByID. destruct (list_find _ _) as [[i r']|] eqn:E; [done|].
  intros _ (r & -> & Hr)%list_elem_of_fmap.
  apply list_find_None in E. rewrite Forall_forall in E. by apply (E r Hr).
Qed.

(** Region ids are non-empty, so "" is never a region. *)
Lemma RegionByID_nonempty id r : RegionByID id = Ok r -> id <> "".
Proof.
  intros [Hr <-]%RegionByID_ok.
  assert (Hall : Forall (fun r => rID r <> "") mapRegions) by (repeat constructor; done).
  rewrite Forall_forall in Hall. by apply Hall.
Qed.

(** The catalogue check: on every feed, the region bucket it declares is the
    region that lists its agency. *)
Definition feed_consistent (f : Feed) : bool :=
  match RegionForAgency (fAgency f) with
  | Some r => bool_decide (rID r = fBucketID f) && bool_decide (fAgency f ∈ rAgencies r)
              && bool_decide (r ∈ mapRegions)
  | None => false
  end.

Lemma all_feeds_consistent : forallb feed_consistent AllFeeds = true.
Proof. vm_compute. reflexivity. Qed.

Definition in_feed_region (f : Feed) (r : MapRegion) : bool :=
  eqb (bool_decide (fAgency f ∈ rAgencies r)) (bool_decide (fBucketID f = rID r)).

Lemma feeds_in_regions :
  forallb (fun f => forallb (in_feed_region f) mapRegions) AllFeeds = true.
Proof. vm_compute. reflexivity. Qed.

Lemma AllFeeds_NoDup : NoDup (AgencyIDs AllFeeds).
Proof. apply (bool_decide_unpack _). vm_compute. done. Qed.

Lemma region_ids_NoDup : NoDup (rID <$> mapRegions).
Proof. apply (bool_decide_unpack _). vm_compute. done. Qed.

#[local] Opaque AllFeeds mapRegions.

Lemma FeedsForRegion_elem id fs f :
  FeedsForRegion id = Ok fs -> (f ∈ fs <-> f ∈ AllFeeds /\ fBucketID f = id).
Proof.
  unfold FeedsForRegion. intros (r & [Hr <-]%RegionByID_ok & [= <-])%bind_ok.
  rewrite list_elem_of_filter. unfold AgencySet. rewrite elem_of_list_to_set.
  assert (Hf : f ∈ AllFeeds -> (fAgency f ∈ rAgencies r <-> fBucketID f = rID r)).
  { intros Hf. pose proof feeds_in_regions as H.
    rewrite forallb_forall in H. specialize (H f (proj1 (list_elem_of_In _ _) Hf)).
    rewrite forallb_forall in H. specialize (H r (proj1 (list_elem_of_In _ _) Hr)).
    unfold in_feed_region in H. apply eqb_prop in H.
    by apply bool_decide_eq_iff in H. }
  naive_solver.
Qed.

(** Membership and distinctness are all that [FeedsForRegions] accumulates. *)
Definition seen_ok (acc : gset string * list Feed) : Prop :=
  acc.1 = list_to_set (AgencyIDs acc.2) /\ NoDup (AgencyIDs acc.2).

Lemma add_unseen_ok acc f : seen_ok acc -> seen_ok (add_unseen acc f).
Proof.
  destruct acc as [seen out]. unfold seen_ok, AgencyIDs. simpl. intros [-> Hnd].
  case_decide as Hin; [done|]. simpl. rewrite fmap_app. simpl. split.
  - rewrite list_to_set_app_L. simpl. set_solver.
  - apply NoDup_app. split_and!; [done| |apply NoDup_singleton].
    rewrite elem_of_list_to_set in Hin. set_solver.
Qed.

Lemma foldl_add_unseen_ok fs acc : seen_ok acc -> seen_ok (foldl add_unseen acc fs).
Proof.
  revert acc. induction fs as [|f fs IH]; intros acc Hok; [done|]. by apply IH, add_unseen_ok.
Qed.

(** Among feeds that agree on their agency ids, accumulation is union. *)
Lemma foldl_add_unseen_elem fs acc f :
  seen_ok acc -> (forall g h, g ∈ acc.2 ++ fs -> h ∈ acc.2 ++ fs -> fAgency g = fAgency h -> g = h) ->
  (f ∈ (foldl add_unseen acc fs).2 <-> f ∈ acc.2 \/ f ∈ fs).
Proof.
  revert acc. induction fs as [|g fs IH]; intros acc Hok Hinj; simpl; [set_solver|].
  rewrite IH; [|by apply add_unseen_ok|].
  - destruct acc as [seen out]. destruct Hok as [Hs _]. simpl in *. case_decide as Hin.
    + rewrite Hs in Hin. unfold AgencyIDs in Hin. apply elem_of_list_to_set, list_elem_of_fmap in Hin.
      destruct Hin as (h & Ea & Hh).
      assert (g = h) as -> by (apply Hinj; [set_solver..|done]). set_solver.
    + simpl. set_solver.
  - intros h k Hh Hk. apply Hinj; destruct acc as [seen out]; simpl in *; case_decide; set_solver.
Qed.

Lemma agency_inj g h : g ∈ AllFeeds -> h ∈ AllFeeds -> fAgency g = fAgency h -> g = h.
Proof.
  intros [i Hi]%list_elem_of_lookup [j Hj]%list_elem_of_lookup E.
  pose proof AllFeeds_NoDup as Hnd. rewrite NoDup_alt in Hnd.
  assert (i = j) as ->; [|congruence].
  apply (Hnd i j (fAgency g)); unfold AgencyIDs; rewrite list_lookup_fmap.
  - by rewrite Hi.
  - by rewrite Hj, E.
Qed.

Lemma feeds_for_regions_ok ids acc out :
  seen_ok acc -> (forall f, f ∈ acc.2 -> f ∈ AllFeeds) ->
  feeds_for_regions ids acc = Ok out ->
  NoDup (AgencyIDs out) /\
  forall f, f ∈ out <-> f ∈ acc.2 \/ (f ∈ AllFeeds /\ fBucketID f ∈ ids).
Proof.
  revert acc. induction ids as [|id ids IH]; intros acc Hok Hall; simpl.
  { intros [= <-]. split; [apply Hok|]. set_solver. }
  intros (fs & Hfs & Hout)%bind_ok.
  assert (Hfs' : forall f, f ∈ fs -> f ∈ AllFeeds)
    by (intros f Hf; by apply (FeedsForRegion_elem id fs f) in Hf as [??]).
  assert (Helem : forall f, f ∈ (foldl add_unseen acc fs).2 <-> f ∈ acc.2 \/ f ∈ fs).
  { intros f. apply foldl_add_unseen_elem; [done|]. intros g h Hg Hh.
    apply agency_inj; set_solver. }
  apply IH in Hout as [Hnd Hiff]; [|by apply foldl_add_unseen_ok|set_solver].
  split; [done|]. intros f. rewrite Hiff, Helem, (FeedsForRegion_elem id fs f Hfs).
  set_solver.
Qed.

Lemma feeds_for_regions_known ids acc out :
  feeds_for_regions ids acc = Ok out -> Forall (fun id => id ∈ rID <$> AllRegions) ids.
Proof.
  revert acc. induction ids as [|id ids IH]; intros acc; simpl; [constructor|].
  intros (fs & (r & [Hr <-]%RegionByID_ok & _)%bind_ok & Hout)%bind_ok.
  constructor; [by apply list_elem_of_fmap_2|]. by eapply IH.
Qed.

Lemma feeds_for_regions_unknown ids acc e :
  feeds_for_regions ids acc = Err e -> Exists (fun id => id ∉ rID <$> AllRegions) ids.
Proof.
  revert acc. induction ids as [|id ids IH]; intros acc; simpl; [done|].
  intros [Hf|(fs & _ & Hout)]%bind_err.
  - left. apply bind_err in Hf as [Hf|(r & _ & [=])]. by apply RegionByID_err in Hf.
  - right. by eapply IH.
Qed.

Lemma region_id_inj r s : r ∈ mapRegions -> s ∈ mapRegions -> rID r = rID s -> r = s.
Proof.
  intros [i Hi]%list_elem_of_lookup [j Hj]%list_elem_of_lookup E.
  pose proof region_ids_NoDup as Hnd. rewrite NoDup_alt in Hnd.
  assert (i = j) as ->; [|congruence].
  apply (Hnd i j (rID r)); rewrite list_lookup_fmap; [by rewrite Hi|by rewrite Hj, E].
Qed.

(** ** Properties *)

(** The two catalogues agree.  Every feed's agency is listed by exactly one
    region, the one its BucketID names and RegionForAgency answers; so
    FeedsForRegion of a region id returns the feeds declared for it, and it
    fails exactly on ids that are not a region. *)
Theorem feed_catalogue_partition id f :
  f ∈ AllFeeds ->
  (exists r, RegionForAgency (fAgency f) = Some r /\ r ∈ AllRegions /\ rID r = fBucketID f
     /\ forall r', r' ∈ AllRegions -> (fAgency f ∈ rAgencies r' <-> r' = r)) /\
  match FeedsForRegion id with
  | Ok fs => id ∈ rID <$> AllRegions /\ (f ∈ fs <-> fBucketID f = id)
  | Err _ => id ∉ rID <$> AllRegions
  end.
Proof.
  intros Hf. pose proof Hf as Hf'. apply list_elem_of_In in Hf'. split.
  - pose proof all_feeds_consistent as Hc. rewrite forallb_forall in Hc. specialize (Hc f Hf').
    unfold feed_consistent in Hc. destruct (RegionForAgency (fAgency f)) as [r|]; [|done].
    bool_to_prop. exists r. split_and!; [done..|]. intros r' Hr'.
    assert (Hin : fAgency f ∈ rAgencies r' <-> fBucketID f = rID r').
    { pose proof feeds_in_regions as Hg. rewrite forallb_forall in Hg. specialize (Hg f Hf').
      rewrite forallb_forall in Hg. specialize (Hg r' (proj1 (list_elem_of_In _ _) Hr')).
      unfold in_feed_region in Hg. apply eqb_prop in Hg. by apply bool_decide_eq_iff in Hg. }
    rewrite Hin. split; [|by intros ->]. intros E. apply region_id_inj; [done..|congruence].
  - destruct (FeedsForRegion id) as [fs|e] eqn:E.
    + pose proof E as (r & [Hr <-]%RegionByID_ok & _)%bind_ok.
      split; [by apply list_elem_of_fmap_2|].
      rewrite (FeedsForRegion_elem _ _ _ E). naive_solver.
    + apply bind_err in E as [E|(r & _ & [=])]. by apply RegionByID_err in E.
Qed.

Lemma feed_catalogue_partition_witness :
  let f := feed "ktmb" "ktmb" "" "rail" "National" "ktmb" "national" in
  f ∈ AllFeeds /\
  match FeedsForRegion "national" with
  | Ok fs => "national" ∈ rID <$> AllRegions /\ (f ∈ fs <-> fBucketID f = "national")
  | Err _ => "national" ∉ rID <$> AllRegions
  end.
Proof.
  intros f. assert (Hf : f ∈ AllFeeds) by (apply (bool_decide_unpack _); vm_compute; done). split; [exact Hf|].
  apply (proj2 (feed_catalogue_partition "national" f Hf)).
Defined.

(** FeedsForRegions is the duplicate-free union.  On known region ids, in
    any order and with repetitions, it returns every feed of the listed regions
    once and nothing else; it fails exactly when some id is not a region. *)
Theorem feeds_for_regions_union ids :
  match FeedsForRegions ids with
  | Ok out =>
      NoDup (AgencyIDs out) /\ (forall f, f ∈ out <-> f ∈ AllFeeds /\ fBucketID f ∈ ids) /\
      Forall (fun id => id ∈ rID <$> AllRegions) ids
  | Err _ => Exists (fun id => id ∉ rID <$> AllRegions) ids
  end.
Proof.
  unfold FeedsForRegions.
  destruct (feeds_for_regions ids _) as [out|e] eqn:E.
  - assert (Hok : seen_ok (∅, [])) by (split; [done|constructor]).
    pose proof E as E'. apply feeds_for_regions_ok in E' as [Hnd Hiff]; [|done|set_solver].
    split; [done|]. split; [set_solver|]. by apply feeds_for_regions_known in E.
  - by apply feeds_for_regions_unknown in E.
Qed.
