(* ===== verification/Poller.v ===== *)
(** * The GTFS-Realtime poller (internal/gtfs/poller.go)

    Backoff, the retry loop of one feed as a trace of requests and sleeps, the
    sequential and concurrent batches, and the validation of decoded feed
    messages.  The HTTP client, the context and protobuf decoding are
    parameters. *)

From Stdlib Require Import SpecFloat.
From S2P Require Import Prelude GoStrings Json Vehicle Regions.

Definition UpstreamRefreshInterval : Z := 30 * second.
Definition maxPollAttempts : nat := 6.

(** ** Backoff *)

Record Backoff := { Initial : Z; Max : Z }.

(** [x << n] on a Duration. *)
Definition shl64 (x : Z) (n : nat) : Z := wrap64 (Z.shiftl x (Z.of_nat n)).

Definition duration (b : Backoff) (attempt : nat) : Z :=
  let initial := if Initial b <=? 0 then second else Initial b in
  let max := if Max b <=? 0 then 30 * second else Max b in
  let d := shl64 initial attempt in
  if max <? d then max else d.

Definition DefaultBackoff : Backoff := {| Initial := second; Max := 30 * second |}.

(** [retryAfterDuration]: [None] for the [false] result. *)
Definition retryAfterDuration (header : string) : option Z :=
  if bool_decide (header = "") then None
  else match parse_int header with
       | (seconds, None) => if seconds <? 0 then None else Some (wrap64 (seconds * second))
       | (_, Some _) => None
       end.

(** The delay the retry loop chooses after a 429. *)
Definition retry_wait (b : Backoff) (attempt : nat) (header : string) : Z :=
  match retryAfterDuration header with
  | Some ra => if (0 <? Max b) && (Max b <? ra) then Max b else ra
  | None => duration b attempt
  end.

(** ** Decoded feed messages

    The fields of the generated protobuf structs that the code reads; an absent
    optional field is [None], and the getters give the zero value for it. *)

Record Position := {
  latitude : option float64;
  longitude : option float64;
  bearing : option float64;
  speed : option float64
}.
Record VehicleDescriptor := { vdId : option string; vdLabel : option string }.
Record TripDescriptor := { tripId : option string; routeId : option string }.
Record VehicleMessage := {
  vmPosition : option Position;
  vmVehicle : option VehicleDescriptor;
  vmTrip : option TripDescriptor;
  vmTimestamp : option Z
}.
Record FeedEntity := { entityId : option string; entityVehicle : option VehicleMessage }.
Definition FeedMessage := list FeedEntity.

Definition get_str (o : option string) : string := default "" o.
Definition get_float (o : option float64) : float64 := default f64_zero o.

(** The vehicle id: the descriptor's id, else its label, else the entity id. *)
Definition entity_vehicle_id (entity : FeedEntity) (vp : VehicleMessage) : string :=
  let vid :=
    match vmVehicle vp with
    | Some v => if bool_decide (get_str (vdId v) = "") then get_str (vdLabel v) else get_str (vdId v)
    | None => ""
    end in
  if bool_decide (vid = "") then get_str (entityId entity) else vid.

(** One round of the entity loop: what it appends and what it counts. *)
Inductive entity_outcome :=
  | Ignored
  | Skipped
  | Accepted (pos : VehiclePosition).

Definition parse_entity (f : Feed) (now : time) (entity : FeedEntity) : entity_outcome :=
  match entityVehicle entity with
  | None => Ignored
  | Some vp =>
      match vmPosition vp with
      | None => Ignored
      | Some p =>
          let lat := get_float (latitude p) in
          let lng := get_float (longitude p) in
          if negb (ValidMalaysiaBounds lat lng) then Skipped else
          let vehicleID := entity_vehicle_id entity vp in
          if bool_decide (vehicleID = "") then Skipped else
          let ts := match vmTimestamp vp with
                    | Some t => time_unix (wrap64 t) 0
                    | None => now
                    end in
          Accepted
            {| Agency := fAgency f; VehicleID := vehicleID; Lat := lat; Lng := lng;
               Bearing := get_float (bearing p); Speed := get_float (speed p);
               Route := match vmTrip vp with Some t => get_str (routeId t) | None => "" end;
               Trip := match vmTrip vp with Some t => get_str (tripId t) | None => "" end;
               Timestamp := ts |}
      end
  end.

Definition entity_step (f : Feed) (now : time) (acc : list VehiclePosition * Z)
    (entity : FeedEntity) : list VehiclePosition * Z :=
  let '(positions, skipped) := acc in
  match parse_entity f now entity with
  | Ignored => (positions, skipped)
  | Skipped => (positions, skipped + 1)
  | Accepted pos => (positions ++ [pos], skipped)
  end.

Definition parse_entities (f : Feed) (now : time) (msg : FeedMessage) : list VehiclePosition * Z :=
  foldl (entity_step f now) ([], 0) msg.

Record PollResult := {
  prFeed : Feed;
  prPositions : list VehiclePosition;
  prSkipped : Z;
  prErr : option error
}.

Definition failed (f : Feed) (e : error) : PollResult :=
  {| prFeed := f; prPositions := []; prSkipped := 0; prErr := Some e |}.

(** ** The environment of one poll *)

(** What a request gives: a transport error, or a response with its status, its
    Retry-After header and the result of reading the body. *)
Inductive http_outcome :=
  | DoErr (e : error)
  | Response (status : Z) (retry_after : string) (body : result string).

Record PollEnv := {
  ctxErr : nat -> option error;       (* ctx.Err() before the n-th attempt *)
  newRequest : string -> option error; (* http.NewRequestWithContext on a URL *)
  doRequest : nat -> http_outcome;    (* client.Do of the n-th attempt *)
  sleepErr : nat -> option error;     (* ctx.Err() when it ends the n-th sleep *)
  pollNow : time                      (* time.Now() while decoding *)
}.

Inductive poll_event := Get (url : string) | Sleep (d : Z).

Section Poller.
  (** [proto.Unmarshal] into a FeedMessage. *)
  Context (unmarshal : string -> result FeedMessage).

(** [parseFeedMessage]. *)
Definition parseFeedMessage (f : Feed) (now : time) (body : string)
    : list VehiclePosition * Z * option error :=
  match unmarshal body with
  | Err e => ([], 0, Some (Wrap "unmarshal feed: " e))
  | Ok msg => (parse_entities f now msg, None)
  end.

Definition ParseFeedBytes := parseFeedMessage.

Definition rate_limited : error := Errorf "rate limited (429)".

(** The loop [for attempt := range maxPollAttempts], with [rounds] rounds to go:
    the requests and sleeps it performs and the result it returns. *)
Fixpoint poll_attempts (b : Backoff) (env : PollEnv) (f : Feed) (rounds attempt : nat)
    (lastErr : option error) : list poll_event * PollResult :=
  match rounds with
  | O => ([], {| prFeed := f; prPositions := []; prSkipped := 0; prErr := lastErr |})
  | S rounds =>
      match ctxErr env attempt with
      | Some e => ([], failed f e)
      | None =>
      match newRequest env (fURL f) with
      | Some e => ([], failed f e)
      | None =>
      match doRequest env attempt with
      | DoErr e => ([Get (fURL f)], failed f e)
      | Response status retry_after body =>
          match body with
          | Err e => ([Get (fURL f)], failed f e)
          | Ok bytes =>
              if status =? 429 then
                if bool_decide (attempt = maxPollAttempts - 1)%nat
                then ([Get (fURL f)], failed f rate_limited)
                else
                  let wait := retry_wait b attempt retry_after in
                  match sleepErr env attempt with
                  | Some e => ([Get (fURL f); Sleep wait], failed f e)
                  | None =>
                      let '(tr, r) := poll_attempts b env f rounds (S attempt) (Some rate_limited) in
                      (Get (fURL f) :: Sleep wait :: tr, r)
                  end
              else if negb (status =? 200)
              then ([Get (fURL f)], failed f (Errorf ("http " +:+ itoa status)))
              else
                let '(positions, skipped, err) := parseFeedMessage f (pollNow env) bytes in
                ([Get (fURL f)],
                 {| prFeed := f; prPositions := positions; prSkipped := skipped; prErr := err |})
          end
      end end end
  end.

Definition pollFeed (b : Backoff) (env : PollEnv) (f : Feed) : list poll_event * PollResult :=
  poll_attempts b env f maxPollAttempts 0 None.

(** [Poll] drops the trace and the counters. *)
Definition Poll (b : Backoff) (env : PollEnv) (f : Feed) : list VehiclePosition * option error :=
  let r := (pollFeed b env f).2 in (prPositions r, prErr r).

(** [PollAll]: one goroutine per feed, each writing its own slot. *)
Definition PollAll (b : Backoff) (envs : nat -> PollEnv) (feeds : list Feed) : list PollResult :=
  imap (fun i f => (pollFeed b (envs i) f).2) feeds.

(** [PollSequential]: [seqErr i] is [ctx.Err()] before the i-th feed. *)
Definition PollSequential (b : Backoff) (seqErr : nat -> option error) (envs : nat -> PollEnv)
    (feeds : list Feed) : list PollResult :=
  imap (fun i f => match seqErr i with
                   | Some e => failed f e
                   | None => (pollFeed b (envs i) f).2
                   end) feeds.
End Poller.

(** ** Lemmas *)

Lemma shl64_exact x n : in_int64 (x * 2 ^ Z.of_nat n) -> shl64 x n = x * 2 ^ Z.of_nat n.
Proof. intros H. unfold shl64. rewrite Z.shiftl_mul_pow2 by lia. by apply wrap64_id. Qed.

Lemma duration_le_max b attempt : 0 < Max b -> duration b attempt <= Max b.
Proof. intros HM. unfold duration. crush. Qed.

Lemma retry_wait_le_max b attempt header : 0 < Max b -> retry_wait b attempt header <= Max b.
Proof.
  intros HM. unfold retry_wait. destruct (retryAfterDuration header) as [ra|].
  - destruct (Z.ltb_spec 0 (Max b)), (Z.ltb_spec (Max b) ra); simpl; lia.
  - by apply duration_le_max.
Qed.

#[export] Hint Resolve duration_le_max retry_wait_le_max : gedung.

Definition sleeps (tr : list poll_event) : list Z :=
  omap (fun e => match e with Sleep d => Some d | Get _ => None end) tr.
Definition gets (tr : list poll_event) : list string :=
  omap (fun e => match e with Get u => Some u | Sleep _ => None end) tr.

(** Case analysis on one round of [poll_attempts]. *)
Ltac split_round :=
  repeat (case_match; simpl in *; simplify_eq/=).

Section Poller_lemmas.
  Context (unmarshal : string -> result FeedMessage).

Lemma poll_attempts_bounds b env f rounds attempt lastErr :
  (rounds + attempt = maxPollAttempts)%nat ->
  let tr := (poll_attempts unmarshal b env f rounds attempt lastErr).1 in
  (length (gets tr) <= rounds)%nat /\ (length (sleeps tr) <= pred rounds)%nat /\
  Forall (fun d => 0 < Max b -> d <= Max b) (sleeps tr) /\ Forall (eq (fURL f)) (gets tr).
Proof.
  unfold maxPollAttempts. revert attempt lastErr.
  induction rounds as [|rounds IH]; intros attempt lastErr Hn; simpl.
  { split_and!; [lia..|constructor|constructor]. }
  destruct (ctxErr env attempt); [simpl; split_and!; try lia; constructor|].
  destruct (newRequest env (fURL f)); [simpl; split_and!; try lia; constructor|].
  destruct (doRequest env attempt) as [e|st ra [bytes|e]];
    try (simpl; split_and!; try lia; by repeat constructor).
  destruct (st =? 429); [|by destruct (negb _); [|destruct (parseFeedMessage _ _ _ _) as [[]]];
                            simpl; split_and!; try lia; repeat constructor].
  case_bool_decide; [simpl; split_and!; try lia; by repeat constructor|].
  destruct (sleepErr env attempt).
  { simpl; split_and!; try lia; repeat constructor; auto with gedung. }
  specialize (IH (S attempt) (Some rate_limited) ltac:(lia)).
  destruct (poll_attempts _ _ _ _ rounds (S attempt) _) as [tr r]; simpl in *.
  destruct IH as (? & ? & ? & ?).
  split_and!; [lia|lia|constructor; auto with gedung|by constructor].
Qed.

(** One round that is rate limited and not the last. *)
Lemma poll_attempts_429 b env f rounds attempt lastErr ra bytes :
  ctxErr env attempt = None -> newRequest env (fURL f) = None ->
  doRequest env attempt = Response 429 ra (Ok bytes) -> sleepErr env attempt = None ->
  (attempt < 5)%nat ->
  poll_attempts unmarshal b env f (S rounds) attempt lastErr =
  let '(tr, r) := poll_attempts unmarshal b env f rounds (S attempt) (Some rate_limited) in
  (Get (fURL f) :: Sleep (retry_wait b attempt ra) :: tr, r).
Proof.
  intros Hc Hn Hd Hs Ha. simpl. rewrite Hc, Hn, Hd. simpl.
  rewrite bool_decide_false by lia. by rewrite Hs.
Qed.

Lemma poll_attempts_success b env f rounds attempt lastErr ra bytes :
  ctxErr env attempt = None -> newRequest env (fURL f) = None ->
  doRequest env attempt = Response 200 ra (Ok bytes) ->
  poll_attempts unmarshal b env f (S rounds) attempt lastErr =
  let '(positions, skipped, err) := parseFeedMessage unmarshal f (pollNow env) bytes in
  ([Get (fURL f)],
   {| prFeed := f; prPositions := positions; prSkipped := skipped; prErr := err |}).
Proof. intros Hc Hn Hd. simpl. by rewrite Hc, Hn, Hd. Qed.

(** [k] rate-limited rounds and then a decisive one. *)
Lemma poll_attempts_retry b env f (hdr : nat -> string) ra bytes k attempt rounds lastErr :
  (attempt + k <= 5)%nat -> (rounds = 6 - attempt)%nat ->
  (forall j, (attempt <= j <= attempt + k)%nat -> ctxErr env j = None) ->
  newRequest env (fURL f) = None ->
  (forall j, (attempt <= j < attempt + k)%nat ->
     (exists body, doRequest env j = Response 429 (hdr j) (Ok body)) /\ sleepErr env j = None) ->
  doRequest env (attempt + k)%nat = Response 200 ra (Ok bytes) ->
  let '(positions, skipped, err) := parseFeedMessage unmarshal f (pollNow env) bytes in
  poll_attempts unmarshal b env f rounds attempt lastErr =
  (flat_map (fun j => [Get (fURL f); Sleep (retry_wait b j (hdr j))]) (seq attempt k)
     ++ [Get (fURL f)],
   {| prFeed := f; prPositions := positions; prSkipped := skipped; prErr := err |}).
Proof.
  revert attempt rounds lastErr. induction k as [|k IH]; intros attempt rounds lastErr Hk -> Hc Hn Hr Hd.
  - replace (6 - attempt)%nat with (S (5 - attempt)) by lia.
    rewrite Nat.add_0_r in Hd. erewrite poll_attempts_success; [|apply Hc; lia|done|done].
    by destruct (parseFeedMessage _ _ _ _) as [[ps sk] err].
  - destruct (Hr attempt) as [[body Hb] Hs]; [lia|].
    replace (6 - attempt)%nat with (S (6 - S attempt)) by lia.
    erewrite poll_attempts_429; [|apply Hc; lia|done|done|done|lia].
    specialize (IH (S attempt) (6 - S attempt)%nat (Some rate_limited) ltac:(lia) eq_refl).
    destruct (parseFeedMessage _ _ _ _) as [[ps sk] err].
    rewrite IH; [done|intros; apply Hc; lia|done|intros; apply Hr; lia|].
    by replace (S attempt + k)%nat with (attempt + S k)%nat by lia.
Qed.

Definition default_schedule : list Z :=
  [1 * second; 2 * second; 4 * second; 8 * second; 16 * second].

Lemma default_duration n : (n < 5)%nat -> default_schedule !! n = Some (duration DefaultBackoff n).
Proof. intros Hn. do 5 (destruct n as [|n]; [reflexivity|]). lia. Qed.

Lemma default_sleeps env f rounds attempt lastErr :
  (forall n st ra body, doRequest env n = Response st ra body -> ra = "") ->
  (rounds = 6 - attempt)%nat ->
  sleeps (poll_attempts unmarshal DefaultBackoff env f rounds attempt lastErr).1
    `prefix_of` drop attempt default_schedule.
Proof.
  intros Hra. revert attempt lastErr. induction rounds as [|rounds IH]; intros attempt lastErr Hn; simpl.
  { apply prefix_nil. }
  destruct (ctxErr env attempt); [apply prefix_nil|].
  destruct (newRequest env (fURL f)); [apply prefix_nil|].
  destruct (doRequest env attempt) as [e|st ra [bytes|e]] eqn:Hd; try apply prefix_nil.
  assert (ra = "") as -> by by eapply Hra.
  destruct (st =? 429); [|destruct (negb _); [|destruct (parseFeedMessage _ _ _ _) as [[]]]; apply prefix_nil].
  case_bool_decide as Hlast; [apply prefix_nil|].
  unfold maxPollAttempts in Hlast.
  assert (Hdrop : drop attempt default_schedule
    = duration DefaultBackoff attempt :: drop (S attempt) default_schedule).
  { apply drop_S, default_duration. lia. }
  rewrite Hdrop. unfold retry_wait. simpl.
  destruct (sleepErr env attempt); [by apply prefix_cons, prefix_nil|].
  specialize (IH (S attempt) (Some rate_limited) ltac:(lia)).
  destruct (poll_attempts _ _ _ _ rounds (S attempt) _) as [tr r]; simpl in *.
  by apply prefix_cons.
Qed.
End Poller_lemmas.

(** ** Decoding lemmas *)

Definition accepted (f : Feed) (now : time) (entity : FeedEntity) : option VehiclePosition :=
  match parse_entity f now entity with Accepted pos => Some pos | _ => None end.
Definition is_skipped (f : Feed) (now : time) (entity : FeedEntity) : bool :=
  match parse_entity f now entity with Skipped => true | _ => false end.
Definition has_position (entity : FeedEntity) : bool :=
  match entityVehicle entity with
  | Some vp => match vmPosition vp with Some _ => true | None => false end
  | None => false
  end.

Lemma parse_entities_foldl f now msg ps sk :
  foldl (entity_step f now) (ps, sk) msg =
  (ps ++ omap (accepted f now) msg,
   sk + Z.of_nat (length (List.filter (is_skipped f now) msg))).
Proof.
  revert ps sk. induction msg as [|e msg IH]; intros ps sk; simpl.
  { by rewrite app_nil_r, Z.add_0_r. }
  unfold accepted at 1, is_skipped at 1.
  destruct (parse_entity f now e); rewrite IH; [done| |].
  - f_equal. simpl. lia.
  - by rewrite <-app_assoc.
Qed.

Lemma ValidMalaysiaBounds_finite lat lng :
  ValidMalaysiaBounds lat lng = true -> f64_finite lat = true /\ f64_finite lng = true.
Proof.
  unfold ValidMalaysiaBounds, f64_le. rewrite !andb_true_iff. intros [[[H1 H2] H3] H4].
  split; [destruct lat as [| [] | |]|destruct lng as [| [] | |]]; done.
Qed.

(** What the validation guarantees of an accepted position. *)
Definition valid_position (f : Feed) (pos : VehiclePosition) : Prop :=
  Agency pos = fAgency f /\ VehicleID pos <> "" /\ ValidMalaysiaBounds (Lat pos) (Lng pos) = true
  /\ f64_finite (Lat pos) = true /\ f64_finite (Lng pos) = true.

Lemma parse_entity_valid f now e pos :
  parse_entity f now e = Accepted pos -> valid_position f pos.
Proof.
  unfold parse_entity. repeat (case_match; try done); bool_to_prop.
  all: intros [= <-]; unfold valid_position; simpl.
  all: match goal with H : ValidMalaysiaBounds _ _ = true |- _ =>
         destruct (ValidMalaysiaBounds_finite _ _ H) end; by split_and!.
Qed.

(** ** What a feed says

    The specification of the parser, of the message alone. *)

(** The names a vehicle can go by, the preferred one first. *)
Definition candidate_ids (entity : FeedEntity) (vp : VehicleMessage) : list string :=
  match vmVehicle vp with Some v => [get_str (vdId v); get_str (vdLabel v)] | None => [] end ++ [get_str (entityId entity)].

Definition named (entity : FeedEntity) (vp : VehicleMessage) : option string :=
  head (List.filter (fun id => negb (bool_decide (id = ""))) (candidate_ids entity vp)).

(** The position an entity reports: one with a place inside the bounding box and
    a name, every field of it as the message says. *)
Definition reports (f : Feed) (now : time) (entity : FeedEntity) (pos : VehiclePosition) : Prop :=
  exists vp p, entityVehicle entity = Some vp /\ vmPosition vp = Some p /\
    Lat pos = get_float (latitude p) /\ Lng pos = get_float (longitude p) /\
    ValidMalaysiaBounds (Lat pos) (Lng pos) = true /\
    named entity vp = Some (VehicleID pos) /\ Agency pos = fAgency f /\
    Bearing pos = get_float (bearing p) /\ Speed pos = get_float (speed p) /\
    Route pos = default "" (t ← vmTrip vp; routeId t) /\ Trip pos = default "" (t ← vmTrip vp; tripId t) /\
    Timestamp pos = from_option (fun t => time_unix (wrap64 t) 0) now (vmTimestamp vp).

(** The entities that report one. *)
Definition reporting (entity : FeedEntity) : bool :=
  match entityVehicle entity with
  | Some vp => match vmPosition vp with
               | Some p => ValidMalaysiaBounds (get_float (latitude p)) (get_float (longitude p)) && bool_decide (is_Some (named entity vp))
               | None => false
               end
  | None => false
  end.

Lemma entity_vehicle_id_named entity vp :
  named entity vp = if bool_decide (entity_vehicle_id entity vp = "") then None else Some (entity_vehicle_id entity vp).
Proof.
  unfold named, candidate_ids, entity_vehicle_id. destruct (vmVehicle vp) as [v|]; simpl;
    repeat (case_bool_decide; simpl; try congruence).
Qed.

(** One entity: what parsing makes of it is what it reports. *)
Lemma parse_entity_reports f now entity :
  match parse_entity f now entity with
  | Accepted pos => reporting entity = true /\ has_position entity = true /\ reports f now entity pos
  | Skipped => reporting entity = false /\ has_position entity = true
  | Ignored => reporting entity = false /\ has_position entity = false
  end.
Proof.
  unfold parse_entity, reporting, has_position, reports. destruct (entityVehicle entity) as [vp|]; [|done].
  destruct (vmPosition vp) as [p|] eqn:Hp; [|done]. rewrite entity_vehicle_id_named.
  destruct (ValidMalaysiaBounds _ _) eqn:Hb; simpl; [|done]. case_bool_decide as Hid; simpl.
  { done. }
  split_and!; [done|done|]. exists vp, p.
  rewrite entity_vehicle_id_named, bool_decide_false by done.
  split_and!; try done; by destruct (vmTrip vp).
Qed.

Lemma entities_reported f now msg :
  Forall2 (reports f now) (List.filter reporting msg) (omap (accepted f now) msg) /\
  length (List.filter (is_skipped f now) msg) = length (List.filter (fun e => has_position e && negb (reporting e)) msg).
Proof.
  induction msg as [|e msg [IH1 IH2]]; [done|]. rewrite omap_cons, !filter_cons_bool.
  unfold accepted at 1, is_skipped at 1. pose proof (parse_entity_reports f now e) as He.
  destruct (parse_entity f now e) as [| |pos].
  - destruct He as [-> ->]. by split.
  - destruct He as [-> ->]. cbn. by rewrite IH2.
  - destruct He as (-> & -> & Hr). split; [by constructor|done].
Qed.

(** ** Properties *)

(** C34: a poll is bounded.  Whatever the network, the context and the server
    do, polling one feed makes at most [maxPollAttempts] (6) requests, all to
    the feed's URL, sleeps at most 5 times, and with a positive [Max] no sleep
    is longer than [Max], a Retry-After header included. *)
Theorem poll_feed_bounded unmarshal b env f :
  let tr := (pollFeed unmarshal b env f).1 in
  (length (gets tr) <= 6)%nat /\ (length (sleeps tr) <= 5)%nat /\
  Forall (fun d => 0 < Max b -> d <= Max b) (sleeps tr) /\ Forall (eq (fURL f)) (gets tr).
Proof. by apply (poll_attempts_bounds unmarshal b env f 6 0 None). Qed.

(** Rate limits are retried until the feed answers.  If the first [k <= 5]
    responses are 429 and response [k] is a 200, with the context alive, the
    poll makes exactly [k + 1] requests with the retry delay slept after each
    429, and returns what parseFeedMessage makes of the 200 body. *)
Theorem poll_feed_retries unmarshal b env f (hdr : nat -> string) k ra bytes :
  (k <= 5)%nat -> (forall j, (j <= k)%nat -> ctxErr env j = None) ->
  newRequest env (fURL f) = None ->
  (forall j, (j < k)%nat ->
     (exists body, doRequest env j = Response 429 (hdr j) (Ok body)) /\ sleepErr env j = None) ->
  doRequest env k = Response 200 ra (Ok bytes) ->
  let '(tr, r) := pollFeed unmarshal b env f in
  let '(positions, skipped, err) := parseFeedMessage unmarshal f (pollNow env) bytes in
  length (gets tr) = S k /\ sleeps tr = (fun j => retry_wait b j (hdr j)) <$> seq 0 k /\
  prPositions r = positions /\ prSkipped r = skipped /\ prErr r = err.
Proof.
  intros Hk Hc Hn Hr Hd.
  pose proof (poll_attempts_retry unmarshal b env f hdr ra bytes k 0 6 None Hk eq_refl
    ltac:(intros; apply Hc; lia) Hn ltac:(intros; apply Hr; lia) Hd) as E.
  destruct (parseFeedMessage _ _ _ _) as [[ps sk] err].
  unfold pollFeed, maxPollAttempts. rewrite E. split_and!; [| |done..].
  - unfold gets. rewrite omap_app, length_app. simpl. rewrite Nat.add_1_r. f_equal.
    generalize 0%nat. clear. induction k as [|k IH]; intros n; simpl; [done|]. by rewrite IH.
  - unfold sleeps. rewrite omap_app, app_nil_r. generalize 0%nat. clear.
    induction k as [|k IH]; intros n; simpl; [done|]. by rewrite IH.
Qed.

Definition calm_env (responses : nat -> http_outcome) : PollEnv :=
  {| ctxErr := fun _ => None; newRequest := fun _ => None; doRequest := responses;
     sleepErr := fun _ => None; pollNow := 0 |}.
Definition empty_unmarshal (body : string) : result FeedMessage := Ok [].
Definition ktmb : Feed := feed "ktmb" "ktmb" "" "rail" "National" "ktmb" "national".

Lemma poll_feed_retries_witness :
  let env := calm_env (fun n => if (n <? 2)%nat then Response 429 "" (Ok "") else Response 200 "" (Ok "")) in
  let '(tr, r) := pollFeed empty_unmarshal DefaultBackoff env ktmb in
  length (gets tr) = 3%nat /\ sleeps tr = [1 * second; 2 * second] /\ prErr r = None.
Proof.
  intros env.
  pose proof (poll_feed_retries empty_unmarshal DefaultBackoff env ktmb (fun _ => "") 2 "" ""
    ltac:(lia) ltac:(reflexivity) eq_refl
    ltac:(intros [|[|j]] Hj; [by split; [eexists|]..|lia]) eq_refl) as H.
  destruct (pollFeed _ _ _ _) as [tr r]. destruct H as (H1 & H2 & _ & _ & H3).
  split; [exact H1|]. split; [exact H2|exact H3].
Defined.

(** The default schedule.  Without Retry-After headers the sleeps of the
    default poller are a prefix of 1s, 2s, 4s, 8s, 16s, and all five of them
    when every response is a 429: the configured 30s cap is never reached. *)
Theorem default_backoff_schedule unmarshal env f :
  (forall n st ra body, doRequest env n = Response st ra body -> ra = "") ->
  let '(tr, r) := pollFeed unmarshal DefaultBackoff env f in
  sleeps tr `prefix_of` default_schedule /\
  Forall (fun d => d <= 16 * second /\ d < Max DefaultBackoff) (sleeps tr) /\
  ((forall n, ctxErr env n = None /\ sleepErr env n = None /\
      exists body, doRequest env n = Response 429 "" (Ok body)) -> newRequest env (fURL f) = None ->
   sleeps tr = default_schedule /\ length (gets tr) = 6%nat /\ prErr r = Some rate_limited).
Proof.
  intros Hra. pose proof (default_sleeps unmarshal env f 6 0 None Hra eq_refl) as Hp.
  unfold pollFeed, maxPollAttempts.
  destruct (poll_attempts _ _ _ _ 6 0 None) as [tr r] eqn:E.
  change (sleeps tr `prefix_of` default_schedule) in Hp. split_and!; [done| |].
  - destruct Hp as [rest Hp].
    assert (Hall : Forall (fun d => d <= 16 * second /\ d < Max DefaultBackoff) default_schedule)
      by (repeat constructor; simpl; unfold second; lia).
    rewrite Hp in Hall. by apply Forall_app in Hall as [? _].
  - intros Henv Hn. pose proof (fun n => proj1 (Henv n)) as Hc.
    pose proof (fun n => proj1 (proj2 (Henv n))) as Hs. pose proof (fun n => proj2 (proj2 (Henv n))) as Hd.
    revert E.
    do 5 (match goal with |- context [poll_attempts _ _ _ _ (S _) ?n _] =>
      destruct (Hd n) as [? Hb]; erewrite poll_attempts_429; [|done|done|exact Hb|done|lia]; clear Hb end).
    destruct (Hd 5%nat) as [? Hb]. simpl. rewrite Hc, Hn, Hb. simpl. by intros [= <- <-].
Qed.

Lemma default_backoff_schedule_witness :
  let env := calm_env (fun _ => Response 429 "" (Ok "")) in
  sleeps (pollFeed empty_unmarshal DefaultBackoff env ktmb).1 = default_schedule.
Proof.
  intros env. pose proof (default_backoff_schedule empty_unmarshal env ktmb
    ltac:(intros n st ra body [= _ <- _]; reflexivity)) as H.
  destruct (pollFeed _ _ _ _) as [tr r]. apply (proj2 (proj2 H)); [|reflexivity].
  intros n. split; [reflexivity|]. split; [reflexivity|]. by exists "".
Defined.

(** Retry-After.  A header of [s] seconds is honoured up to [Max] as long as
    [s] seconds fit a Duration; beyond that the multiplication wraps, and for
    the next [2^63] nanoseconds of values the delay is negative: the poller
    retries at once, although the server asked for centuries. *)
Theorem retry_after_wraps b attempt s :
  0 < Max b -> 0 <= s <= int64_max ->
  (s * second <= int64_max -> retry_wait b attempt (itoa s) = Z.min (s * second) (Max b)) /\
  (int64_max < s * second < 2 ^ 64 -> retry_wait b attempt (itoa s) < 0).
Proof.
  intros HM Hs. unfold retry_wait.
  assert (retryAfterDuration (itoa s) = Some (wrap64 (s * second))) as ->.
  { unfold retryAfterDuration. rewrite parse_int_itoa by (unfold in_int64, int64_min; lia).
    rewrite bool_decide_false.
    - by rewrite (proj2 (Z.ltb_ge _ _)) by lia.
    - intros E. pose proof (parse_int_itoa s) as H. rewrite E in H.
      unfold in_int64, int64_min in H. by assert (H' := H ltac:(lia)). }
  split; intros Hov.
  - rewrite wrap64_id by (unfold in_int64, int64_min, second in *; lia).
    rewrite (proj2 (Z.ltb_lt _ _)) by done. simpl.
    destruct (Z.ltb_spec (Max b) (s * second)); lia.
  - assert (wrap64 (s * second) < 0) as Hneg.
    { unfold wrap64, int64_max in *.
      replace (s * second + 2 ^ 63) with (s * second - 2 ^ 63 + 1 * 2 ^ 64) by lia.
      rewrite Z.mod_add, Z.mod_small by lia. lia. }
    destruct (Z.ltb_spec 0 (Max b)), (Z.ltb_spec (Max b) (wrap64 (s * second))); simpl; lia.
Qed.

Lemma retry_after_wraps_witness :
  retry_wait DefaultBackoff 0 (itoa 120) = 30 * second /\
  retry_wait DefaultBackoff 0 (itoa 9223372037) < 0.
Proof.
  split.
  - rewrite (proj1 (retry_after_wraps DefaultBackoff 0 120 ltac:(reflexivity)
      ltac:(unfold int64_max; lia))); [reflexivity|]. unfold int64_max, second. lia.
  - apply (proj2 (retry_after_wraps DefaultBackoff 0 9223372037 ltac:(reflexivity)
      ltac:(unfold int64_max; lia))). unfold int64_max, second. lia.
Defined.

(** C35: parsing a feed message.  The positions are exactly those the message
    reports, one for every entity with a place inside the bounding box and a name,
    in message order, every field as the entity has it: the name is the first of
    the descriptor's id, its label and the entity's id that is not empty.  Every
    other entity with a position is counted as skipped, and a body that is no feed
    message gives nothing but the error.  So every position has the feed's agency,
    a non-empty id and finite coordinates inside the box. *)
Theorem parse_feed_validated unmarshal f now body :
  let '(positions, skipped, err) := parseFeedMessage unmarshal f now body in
  match unmarshal body with
  | Err e => positions = [] /\ skipped = 0 /\ err = Some (Wrap "unmarshal feed: " e)
  | Ok msg =>
      err = None /\ Forall2 (reports f now) (List.filter reporting msg) positions /\
      skipped = Z.of_nat (length (List.filter (fun e => has_position e && negb (reporting e)) msg)) /\
      Forall (valid_position f) positions
  end.
Proof.
  unfold parseFeedMessage. destruct (unmarshal body) as [msg|e]; [|done].
  unfold parse_entities. rewrite parse_entities_foldl. destruct (entities_reported f now msg) as [Hr Hs].
  split_and!; [done|exact Hr|simpl; by rewrite Hs|].
  apply Forall_forall. intros pos (e & _ & He)%list_elem_of_omap.
  unfold accepted in He. destruct (parse_entity f now e) eqn:Hp; simplify_eq.
  by eapply parse_entity_valid.
Qed.

(** A feed of three entities: outside the box, without a name, and with a label. *)
Definition mixed_feed : FeedMessage :=
  let at_ lat := Some {| latitude := Some (f64_of_Z lat); longitude := Some (f64_of_Z 101); bearing := None; speed := None |} in
  let vehicle p v := Some {| vmPosition := p; vmVehicle := v; vmTrip := None; vmTimestamp := Some 1785000000 |} in
  [{| entityId := Some "a"; entityVehicle := vehicle (at_ 60) None |};
   {| entityId := None; entityVehicle := vehicle (at_ 3) None |};
   {| entityId := Some "c"; entityVehicle := vehicle (at_ 3) (Some {| vdId := None; vdLabel := Some "B7" |}) |}].

Example mixed_feed_parsed :
  let '(positions, skipped, err) := parseFeedMessage (fun _ => Ok mixed_feed) ktmb 0 "" in
  VehicleID <$> positions = ["B7"] /\ skipped = 2 /\ err = None.
Proof. by vm_compute. Qed.

(** Validation does not cover what the store needs.  An entity inside the
    bounding box with an id is accepted whatever its timestamp; when that is
    past year 9999 (a timestamp in milliseconds, say), the accepted position
    cannot be marshalled. *)
Theorem accepted_not_storable f now entity vp p t :
  entityVehicle entity = Some vp -> vmPosition vp = Some p -> vmTimestamp vp = Some t ->
  ValidMalaysiaBounds (get_float (latitude p)) (get_float (longitude p)) = true ->
  entity_vehicle_id entity vp <> "" ->
  253402300800 <= t <= int64_max - unix_to_internal ->
  exists pos, accepted f now entity = Some pos /\ Timestamp pos = t * second /\
              exists e, ValueBytes pos = Err e.
Proof.
  intros Hv Hp Ht Hb Hid Hrange. unfold accepted, parse_entity. rewrite Hv, Hp, Hb. simpl.
  rewrite bool_decide_false by done. rewrite Ht. eexists. split; [done|].
  assert (Ets : time_unix (wrap64 t) 0 = t * second).
  { unfold time_unix, unix_to_internal in *. rewrite !wrap64_id; [lia|..];
      unfold in_int64, int64_min, int64_max in *; rewrite ?wrap64_id;
      unfold in_int64, int64_min, int64_max; lia. }
  split; [exact Ets|]. destruct (ValueBytes _) as [d|e] eqn:Hd; [|by exists e].
  assert (He := proj1 (ValueBytes_ok _) (ex_intro _ d Hd)). unfold encodable in He. simpl in He.
  rewrite Ets in He. unfold json_time_ok in He. exfalso. bool_to_prop. unfold second in *. lia.
Qed.

Lemma accepted_not_storable_witness :
  let p := {| latitude := Some (f64_of_Z 3); longitude := Some (f64_of_Z 101);
              bearing := None; speed := None |} in
  let vp := {| vmPosition := Some p; vmVehicle := Some {| vdId := Some "B1"; vdLabel := None |};
               vmTrip := None; vmTimestamp := Some 1753430400000 |} in
  exists pos, accepted ktmb 0 {| entityId := None; entityVehicle := Some vp |} = Some pos /\
    Timestamp pos = 1753430400000 * second /\ exists e, ValueBytes pos = Err e.
Proof.
  intros p vp. apply (accepted_not_storable ktmb 0 _ vp p 1753430400000);
    [reflexivity..|by vm_compute|by vm_compute|].
  unfold int64_max, unix_to_internal. lia.
Defined.
