(* ===== verification/IsleDB.v ===== *)
(** * The interface of IsleDB

    IsleDB (github.com/ankur-anand/isledb) is not part of the repository: its
    operations are a class, and what the code relies on is a second class of
    laws, stated through an abstraction of one open prefix.  [MemStore], a
    small reference store, satisfies the laws; it is used to evaluate the
    model on concrete inputs. *)

From S2P Require Import Prelude GoStrings KeyRange Json.

Inductive change_op := ChangePut | ChangeDelete.

#[export] Instance change_op_eq_dec : EqDecision change_op.
Proof. solve_decision. Defined.

Record Change := { chOp : change_op; chKey : string; chValue : value }.

(** One page of a change-feed read, generic in the cursor type. *)
Record ChangePage (cursor : Type) := {
  pgChanges : list Change;
  pgNext : cursor;
  pgCaughtUp : bool
}.
Arguments pgChanges {cursor}. Arguments pgNext {cursor}. Arguments pgCaughtUp {cursor}.

(** The items an iterator yields until [Next] is false, and then [Err]. *)
Definition iteration : Type := list (string * value) * option error.

(** The handles of one prefix: DB, writer, reader, maintenance. *)
Class IsleDB := {
  db : Type;
  cursor : Type;
  snapshot : Type;
  writer_put : string -> value -> db -> option error * db;
  writer_flush : db -> option error * db;
  reader_refresh : db -> option error * db;
  reader_iter : string -> string -> db -> result iteration;
  reader_bootstrap : db -> result snapshot;
  snapshot_iter : string -> string -> snapshot -> result iteration;
  change_open : db -> option error;
  change_bounds : db -> result (cursor * cursor);
  cursor_is_zero : cursor -> bool;
  change_read : db -> cursor -> result (ChangePage cursor);
  maintenance_run_once : db -> option error * db
}.

Definition put_change (k : string) (v : value) : Change :=
  {| chOp := ChangePut; chKey := k; chValue := v |}.

(** The order of the keys an iterator yields. *)
Definition key_lt (x y : string * value) : Prop := str_lt x.1 y.1 = true.

(** What an iteration over a key-value state is: the entries of the range, in
    key order. *)
Definition iterates (kv : gmap string value) (lo hi : string) (items : list (string * value)) : Prop :=
  StronglySorted key_lt items /\
  forall k v, (k, v) ∈ items <-> in_scan lo hi k = true /\ kv !! k = Some v.

(** The documented behaviour the code relies on.  [accepted_kv] is the state
    with every put the writer accepted, [visible] the reader's view, [feed_log]
    the committed changes the change reader serves (no change here is older
    than the retention period), [unflushed] the accepted changes that are not
    committed yet. *)
Class IsleDBLaws (I : IsleDB) := {
  accepted_kv : db -> gmap string value;
  visible : db -> gmap string value;
  feed_log : db -> list Change;
  unflushed : db -> list Change;
  snapshot_kv : snapshot -> gmap string value;
  cursor_at : db -> cursor -> nat -> Prop;

  put_law k v d d' : writer_put k v d = (None, d') ->
    accepted_kv d' = <[k := v]> (accepted_kv d) /\
    feed_log d' ++ unflushed d' = feed_log d ++ unflushed d ++ [put_change k v];
  flush_law d d' : writer_flush d = (None, d') ->
    accepted_kv d' = accepted_kv d /\ unflushed d' = [] /\
    feed_log d' = feed_log d ++ unflushed d;
  refresh_law d d' : reader_refresh d = (None, d') ->
    accepted_kv d' = accepted_kv d /\ unflushed d' = unflushed d /\ feed_log d' = feed_log d /\
    (unflushed d = [] -> visible d' = accepted_kv d);
  iter_law lo hi d items : reader_iter lo hi d = Ok (items, None) ->
    iterates (visible d) lo hi items;
  bootstrap_law d s : reader_bootstrap d = Ok s -> unflushed d = [] -> snapshot_kv s = accepted_kv d;
  snapshot_iter_law lo hi s items : snapshot_iter lo hi s = Ok (items, None) ->
    iterates (snapshot_kv s) lo hi items;
  bounds_law d oldest head : change_bounds d = Ok (oldest, head) ->
    (cursor_is_zero oldest = true <-> feed_log d = []) /\
    (feed_log d <> [] -> cursor_at d oldest 0);
  read_law d c n page : cursor_at d c n -> change_read d c = Ok page ->
    exists m, pgChanges page = take m (drop n (feed_log d)) /\ cursor_at d (pgNext page) (n + m) /\
      (pgCaughtUp page = true <-> (length (feed_log d) <= n + m)%nat) /\
      (pgCaughtUp page = false -> (0 < m)%nat);
  run_once_law d d' : maintenance_run_once d = (None, d') ->
    accepted_kv d' = accepted_kv d /\ unflushed d' = unflushed d /\ feed_log d' = feed_log d
}.

(** What the debugging harness asks of cursors besides: a cursor keeps its position
    while the feed grows, [Head] is the end of the committed feed, and a position
    is not the zero cursor.  (The head of an empty feed may be the zero cursor.) *)
Class IsleDBCursors (I : IsleDB) {L : IsleDBLaws I} := {
  head_law d oldest head : change_bounds d = Ok (oldest, head) -> feed_log d <> [] -> cursor_at d head (length (feed_log d));
  cursor_bounded d c n : cursor_at d c n -> (n <= length (feed_log d))%nat;
  cursor_nonzero d c n : cursor_at d c n -> cursor_is_zero c = false;
  put_cursor k v d d' c n : writer_put k v d = (None, d') -> cursor_at d c n -> cursor_at d' c n;
  put_log k v d d' : writer_put k v d = (None, d') -> exists l, feed_log d' = feed_log d ++ l;
  flush_cursor d d' c n : writer_flush d = (None, d') -> cursor_at d c n -> cursor_at d' c n;
  refresh_cursor d d' c n : reader_refresh d = (None, d') -> cursor_at d c n -> cursor_at d' c n
}.

(** An object store that answers: no operation fails. *)
Class IsleDBReliable (I : IsleDB) := {
  put_reliable k v d : (writer_put k v d).1 = None;
  flush_reliable d : (writer_flush d).1 = None;
  refresh_reliable d : (reader_refresh d).1 = None;
  iter_reliable lo hi d : exists items, reader_iter lo hi d = Ok (items, None);
  bootstrap_reliable d : exists s, reader_bootstrap d = Ok s;
  snapshot_iter_reliable lo hi s : exists items, snapshot_iter lo hi s = Ok (items, None);
  change_open_reliable d : change_open d = None;
  bounds_reliable d : exists b, change_bounds d = Ok b;
  read_reliable d c : exists page, change_read d c = Ok page;
  run_once_reliable d : (maintenance_run_once d).1 = None
}.

(** ** The reference store *)

Module MemStore.

Record state := {
  kv : gmap string value;
  view : gmap string value;
  log : list Change;
  pending : list Change;
  fenced : option error       (* the error of every put and flush, once fenced *)
}.

Definition empty : state := {| kv := ∅; view := ∅; log := []; pending := []; fenced := None |}.

Definition put (k : string) (v : value) (s : state) : option error * state :=
  match fenced s with
  | Some e => (Some e, s)
  | None => (None, {| kv := <[k := v]> (kv s); view := view s; log := log s;
                      pending := pending s ++ [put_change k v]; fenced := None |})
  end.

Definition flush (s : state) : option error * state :=
  match fenced s with
  | Some e => (Some e, s)
  | None => (None, {| kv := kv s; view := view s; log := log s ++ pending s;
                      pending := []; fenced := None |})
  end.

Definition refresh (s : state) : option error * state :=
  (None, {| kv := kv s; view := kv s; log := log s; pending := pending s; fenced := fenced s |}).

Definition entry_le (x y : string * value) : Prop := String.le x.1 y.1.
#[export] Instance entry_le_dec : RelDecision entry_le.
Proof. intros x y. unfold entry_le. apply _. Defined.
#[export] Instance entry_le_trans : Transitive entry_le.
Proof. intros x y z. unfold entry_le. apply (transitivity (R := String.le)). Qed.
#[export] Instance entry_le_total : Total entry_le.
Proof. intros x y. apply (total String.le). Qed.

Definition iter (m : gmap string value) (lo hi : string) : list (string * value) :=
  merge_sort entry_le (List.filter (fun kv => in_scan lo hi kv.1) (map_to_list m)).

Definition page_size : nat := 2.

(** A cursor is a position in the log; the zero cursor is [None]. *)
Definition bounds (s : state) : option nat * option nat :=
  (if log s is [] then None else Some 0%nat, Some (length (log s))).

Definition read (s : state) (c : option nat) : ChangePage (option nat) :=
  let n := default 0%nat c in
  let page := take page_size (drop n (log s)) in
  {| pgChanges := page;
     pgNext := Some (n + length page)%nat;
     pgCaughtUp := (length (log s) <=? n + length page)%nat |}.

(** Writes go through [guard]: the identity for a store that can be fenced,
    [unfence] for one that never is. *)
Definition store (guard : state -> state) : IsleDB := {|
  db := state; cursor := option nat; snapshot := gmap string value;
  writer_put k v s := put k v (guard s); writer_flush s := flush (guard s); reader_refresh := refresh;
  reader_iter lo hi s := Ok (iter (view s) lo hi, None);
  reader_bootstrap s := Ok (kv s);
  snapshot_iter lo hi m := Ok (iter m lo hi, None);
  change_open _ := None; change_bounds s := Ok (bounds s);
  cursor_is_zero c := bool_decide (c = None); change_read s c := Ok (read s c);
  maintenance_run_once s := (None, s)
|}.

Definition isledb : IsleDB := store (fun s => s).

Definition unfence (s : state) : state :=
  {| kv := kv s; view := view s; log := log s; pending := pending s; fenced := None |}.

Definition steady : IsleDB := store unfence.

Lemma iter_iterates m lo hi : iterates m lo hi (iter m lo hi).
Proof.
  assert (Hp : iter m lo hi ≡ₚ List.filter (fun kv => in_scan lo hi kv.1) (map_to_list m))
    by apply merge_sort_Permutation.
  split.
  - assert (Hs : StronglySorted entry_le (iter m lo hi)) by (apply StronglySorted_merge_sort; apply _).
    assert (Hnd : NoDup (iter m lo hi).*1).
    { rewrite Hp. generalize (NoDup_fst_map_to_list m). generalize (map_to_list m). clear.
      intros l. induction l as [|[k v] l IH]; simpl; [done|]. intros [Hk Hnd]%NoDup_cons.
      specialize (IH Hnd). destruct (in_scan lo hi k); simpl; [|done]. constructor; [|done].
      intros Hin. apply Hk. apply list_elem_of_fmap in Hin as (x & -> & Hx).
      apply list_elem_of_In, filter_In in Hx as [Hx _]. apply list_elem_of_fmap_2. by apply list_elem_of_In. }
    revert Hnd. clear Hp. induction Hs as [|x l Hs IH Hx]; [constructor|].
    rewrite fmap_cons, NoDup_cons. intros [Hk Hnd]. apply SSorted_cons; [exact (IH Hnd)|].
    apply Forall_forall. intros y Hy. unfold key_lt. rewrite str_lt_le. split.
    + rewrite Forall_forall in Hx. by apply Hx.
    + intros E. apply Hk. rewrite E. by apply list_elem_of_fmap_2.
  - intros k v. rewrite Hp, list_elem_of_In, filter_In, <-list_elem_of_In, elem_of_map_to_list. simpl.
    naive_solver.
Qed.

Lemma store_laws guard :
  (forall s, kv (guard s) = kv s /\ log (guard s) = log s /\ pending (guard s) = pending s) -> IsleDBLaws (store guard).
Proof.
  intros Hg.
  refine (Build_IsleDBLaws (store guard) kv view log pending (fun m => m) (fun s c n => c = Some n /\ (n <= length (log s))%nat)
            _ _ _ _ _ _ _ _ _).
  - intros k v d d'. simpl. destruct (Hg d) as (H1 & H2 & H3). unfold put. destruct (fenced (guard d)); [done|].
    intros [= <-]; simpl. rewrite H1, H2, H3. by rewrite app_assoc.
  - intros d d'. simpl. destruct (Hg d) as (H1 & H2 & H3). unfold flush. destruct (fenced (guard d)); [done|].
    intros [= <-]. simpl. by rewrite H1, H2, H3.
  - intros d d'. simpl. by intros [= <-].
  - intros lo hi d items. simpl. intros [= <-]. apply iter_iterates.
  - intros d s. simpl. by intros [= <-].
  - intros lo hi s items. simpl. intros [= <-]. apply iter_iterates.
  - intros d o h. simpl. intros [= <- _]. rewrite bool_decide_eq_true. destruct (log d); split; done || (intros _; split; [done|lia]).
  - intros d c n page [-> Hn] [= <-]. cbn [read default from_option id pgChanges pgNext pgCaughtUp].
    set (l := drop n (log d)). assert (Hl : length l = (length (log d) - n)%nat) by apply length_drop.
    assert (Hm : length (take page_size l) = Nat.min page_size (length l)) by apply length_take.
    exists (length (take page_size l)). split_and!; [|done|lia|by rewrite Nat.leb_le|].
    + rewrite Hm. destruct (Nat.min_spec page_size (length l)) as [[_ ->]|[Hge ->]]; [done|]. by rewrite !take_ge.
    + rewrite Nat.leb_gt. unfold page_size in *. lia.
  - intros d d'. simpl. by intros [= <-].
Defined.

#[export] Instance laws : IsleDBLaws isledb := store_laws (fun s => s) (fun s => conj eq_refl (conj eq_refl eq_refl)).

#[export] Instance steady_laws : IsleDBLaws steady := store_laws unfence (fun s => conj eq_refl (conj eq_refl eq_refl)).

#[export] Instance steady_cursors : IsleDBCursors steady.
Proof.
  constructor; simpl.
  - intros d o h [= _ <-] _. by split.
  - by intros d c n [-> Hn].
  - by intros d c n [-> Hn].
  - intros k v d d' c n [= <-] [-> Hn]. by split.
  - intros k v d d' [= <-]. exists []. by rewrite app_nil_r.
  - intros d d' c n [= <-] [-> Hn]. split; [done|]. simpl. rewrite length_app. lia.
  - intros d d' c n [= <-] [-> Hn]. by split.
Qed.

#[export] Instance steady_reliable : IsleDBReliable steady.
Proof. constructor; intros; simpl; eauto. Qed.
End MemStore.

#[export] Existing Instance MemStore.laws.
#[export] Existing Instance MemStore.steady_laws.
#[export] Existing Instance MemStore.steady_cursors.
#[export] Existing Instance MemStore.steady_reliable.
