(* ===== verification/ChangeFeed.v ===== *)
(** * Change feeds (internal/pipeline/changefeed.go)

    Reading a prefix's mutation feed page by page, and scanning its keys.  The
    three readers of the file share one loop, [feed_loop]; it runs on fuel, and
    [feed_loop_spec] shows that one more than the number of unread changes is
    enough.  Go's pair of a value and an error is a Rocq pair. *)

From S2P Require Import Prelude GoStrings KeyRange Json IsleDB.

Section ChangeFeed.
Context {I : IsleDB}.

(** [for { page, err := cr.Read(...); ...; cursor = page.Next; if page.CaughtUp() { break } }]:
    [step] is the work on one page.  [None] is running out of fuel. *)
Fixpoint feed_loop {A} (step : A -> list Change -> A * option error)
    (fuel : nat) (d : db) (cur : cursor) (acc : A) : option (A * option error) :=
  match fuel with
  | O => None
  | S fuel' =>
      match change_read d cur with
      | Err e => Some (acc, Some e)
      | Ok page =>
          match step acc (pgChanges page) with
          | (acc', Some e) => Some (acc', Some e)
          | (acc', None) =>
              if pgCaughtUp page then Some (acc', None)
              else feed_loop step fuel' d (pgNext page) acc'
          end
      end
  end.

Definition CountChangeFeed (fuel : nat) (d : db) : option (Z * option error) :=
  match change_open d with
  | Some e => Some (0, Some e)
  | None =>
      match change_bounds d with
      | Err e => Some (0, Some e)
      | Ok (oldest, _) =>
          if cursor_is_zero oldest then Some (0, None)
          else feed_loop (fun total chs => (total + Z.of_nat (length chs), None)) fuel d oldest 0
      end
  end.

(** [for _, ch := range page.Changes { if err := apply(ch); ... }]: [f] is the
    body of the loop, on the reader's own accumulator. *)
Fixpoint run_items {A} (f : A -> Change -> A * option error) (acc : A) (chs : list Change) : A * option error :=
  match chs with
  | [] => (acc, None)
  | ch :: chs' =>
      match f acc ch with
      | (acc', Some e) => (acc', Some e)
      | (acc', None) => run_items f acc' chs'
      end
  end.

(** [apply] may change the caller's state [S] and may fail. *)
Definition drain_item {S} (apply : Change -> S -> option error * S) (acc : Z * S) (ch : Change) : (Z * S) * option error :=
  let '(total, s) := acc in
  match apply ch s with
  | (Some e, s') => ((total, s'), Some e)
  | (None, s') => ((total + 1, s'), None)
  end.

Definition DrainChangeFeed {S} (apply : Change -> S -> option error * S) (fuel : nat) (d : db) (s : S)
  : option ((Z * S) * option error) :=
  match change_open d with
  | Some e => Some ((0, s), Some e)
  | None =>
      match change_bounds d with
      | Err e => Some ((0, s), Some e)
      | Ok (oldest, _) =>
          if cursor_is_zero oldest then Some ((0, s), None)
          else feed_loop (run_items (drain_item apply)) fuel d oldest (0, s)
      end
  end.

Record ChangeFeedSummary := {
  ChangeCount : Z;
  From : Z;       (* earliest positive timestamp, 0 if unknown *)
  To : Z;         (* latest positive timestamp, 0 if unknown *)
  Empty : bool
}.

Definition no_summary : ChangeFeedSummary := {| ChangeCount := 0; From := 0; To := 0; Empty := false |}.

(** The loop body of [SummarizeChangeFeed]; [timestampNS] may be nil. *)
Definition summary_item (timestampNS : option (string -> Z)) (sum : ChangeFeedSummary) (ch : Change)
  : ChangeFeedSummary * option error :=
  if bool_decide (chOp ch = ChangePut) then
    let sum := {| ChangeCount := ChangeCount sum + 1; From := From sum; To := To sum; Empty := Empty sum |} in
    match timestampNS with
    | None => (sum, None)
    | Some tsof =>
        let ts := tsof (chKey ch) in
        if ts <=? 0 then (sum, None)
        else
          ({| ChangeCount := ChangeCount sum;
              From := if (From sum =? 0) || (ts <? From sum) then ts else From sum;
              To := if To sum <? ts then ts else To sum;
              Empty := Empty sum |}, None)
    end
  else (sum, None).

Definition SummarizeChangeFeed (timestampNS : option (string -> Z)) (fuel : nat) (d : db)
  : option (ChangeFeedSummary * option error) :=
  match change_open d with
  | Some e => Some (no_summary, Some e)
  | None =>
      match change_bounds d with
      | Err e => Some (no_summary, Some e)
      | Ok (oldest, _) =>
          if cursor_is_zero oldest
          then Some ({| ChangeCount := 0; From := 0; To := 0; Empty := true |}, None)
          else
            match feed_loop (run_items (summary_item timestampNS)) fuel d oldest no_summary with
            | None => None
            | Some (sum, Some e) => Some (sum, Some e)
            | Some (sum, None) =>
                Some ({| ChangeCount := ChangeCount sum; From := From sum; To := To sum;
                         Empty := ChangeCount sum =? 0 |}, None)
            end
      end
  end.

Definition ScanKeysIter (minKey maxKey : string) (d : db) : result (list string) * db :=
  match reader_refresh d with
  | (Some e, d') => (Err e, d')
  | (None, d') =>
      match reader_iter minKey maxKey d' with
      | Err e => (Err e, d')
      | Ok (items, Some e) => (Err e, d')
      | Ok (items, None) => (Ok items.*1, d')
      end
  end.

(** [reader] is nil when [nil] is set. *)
Definition RefreshReader (nil : bool) (d : db) : option error * db :=
  if nil then (Some (Errorf "nil reader"), d) else reader_refresh d.

(** ** The loop *)

Context {L : IsleDBLaws I}.

Lemma run_items_app {A} (f : A -> Change -> A * option error) acc l1 l2 :
  run_items f acc (l1 ++ l2) =
  match run_items f acc l1 with
  | (acc', Some e) => (acc', Some e)
  | (acc', None) => run_items f acc' l2
  end.
Proof.
  revert acc. induction l1 as [|ch l1 IH]; intros acc; simpl; [done|].
  destruct (f acc ch) as [acc' [e|]]; [done|apply IH].
Qed.

(** What a reader returns, when its page step is [run_items f]: the fold over
    every unread change, or the fold over some of them and the read's error. *)
Definition feed_result {A} (f : A -> Change -> A * option error) (acc : A) (chs : list Change)
    (r : A * option error) : Prop :=
  r = run_items f acc chs \/
  exists k d cur e, change_read d cur = Err e /\ run_items f acc (take k chs) = (r.1, None) /\ r.2 = Some e.

(** One more unit of fuel than there are unread changes is enough. *)
Lemma feed_loop_spec {A} (f : A -> Change -> A * option error) step fuel d cur n acc :
  (forall acc chs, step acc chs = run_items f acc chs) ->
  cursor_at d cur n -> (length (feed_log d) - n < fuel)%nat ->
  exists r, feed_loop step fuel d cur acc = Some r /\ feed_result f acc (drop n (feed_log d)) r.
Proof.
  intros Hstep. revert cur n acc. induction fuel as [|fuel IH]; intros cur n acc Hcur Hfuel; [lia|].
  simpl. destruct (change_read d cur) as [page|e] eqn:Hread.
  2:{ eexists. split; [done|]. right. exists 0%nat, d, cur, e. by rewrite take_0. }
  destruct (read_law d cur n page Hcur Hread) as (m & Hpage & Hnext & Hcaught & Hmore).
  rewrite Hstep, Hpage.
  assert (Hsplit : drop n (feed_log d) = take m (drop n (feed_log d)) ++ drop (n + m) (feed_log d))
    by by rewrite <-drop_drop, take_drop.
  destruct (run_items f acc (take m (drop n (feed_log d)))) as [acc' [e|]] eqn:Hrun.
  { eexists. split; [done|]. left. by rewrite Hsplit, run_items_app, Hrun. }
  destruct (pgCaughtUp page) eqn:Hc.
  - eexists. split; [done|]. left. rewrite Hsplit, run_items_app, Hrun.
    by rewrite drop_ge by (by apply Hcaught).
  - assert (Hlt : (n + m < length (feed_log d))%nat).
    { destruct (decide (length (feed_log d) <= n + m)%nat) as [Hle|]; [|lia].
      apply Hcaught in Hle. congruence. }
    specialize (Hmore eq_refl).
    destruct (IH (pgNext page) (n + m)%nat acc' Hnext) as (r & Hr & Hres); [lia|].
    exists r. split; [done|]. destruct Hres as [->|(k & d0 & cur0 & e & Hd & Hk & He)].
    + left. by rewrite Hsplit, run_items_app, Hrun.
    + right. exists (m + k)%nat, d0, cur0, e. split_and!; [done| |done].
      rewrite <-Hk, Hsplit, take_app_ge by (rewrite length_take; lia).
      rewrite run_items_app, Hrun. do 2 f_equal. rewrite length_take, length_drop. lia.
Qed.

(** The three readers start the same way. *)
Lemma feed_open d oldest head :
  change_bounds d = Ok (oldest, head) ->
  if cursor_is_zero oldest then feed_log d = [] else cursor_at d oldest 0.
Proof.
  intros Hb. apply bounds_law in Hb as [Hz Hne].
  destruct (cursor_is_zero oldest) eqn:E; [by apply Hz|].
  apply Hne. intros Hl. apply Hz in Hl. congruence.
Qed.

Lemma count_items total chs :
  (total + Z.of_nat (length chs), @None error) = run_items (fun t _ => (t + 1, None)) total chs.
Proof.
  revert total. induction chs as [|ch chs IH]; intros total; simpl; [by rewrite Z.add_0_r|].
  rewrite <-IH. f_equal. lia.
Qed.

(** ** Summaries *)

Definition puts (chs : list Change) : list Change := List.filter (fun ch => bool_decide (chOp ch = ChangePut)) chs.

(** The positive timestamps of the puts of a feed. *)
Definition put_times (timestampNS : option (string -> Z)) (chs : list Change) : list Z :=
  match timestampNS with
  | None => []
  | Some tsof => List.filter (fun t => 0 <? t) (map (fun ch => tsof (chKey ch)) (puts chs))
  end.

(** [t] is the least, or greatest, of [ts], and 0 when there is none. *)
Definition least (ts : list Z) (t : Z) : Prop :=
  ts = [] /\ t = 0 \/ t ∈ ts /\ Forall (fun x => t <= x) ts.
Definition greatest (ts : list Z) (t : Z) : Prop :=
  ts = [] /\ t = 0 \/ t ∈ ts /\ Forall (fun x => x <= t) ts.

Lemma least_snoc ts t x : 0 < x -> Forall (fun y => 0 < y) ts -> least ts t ->
  least (ts ++ [x]) (if (t =? 0) || (x <? t) then x else t).
Proof.
  intros Hx Hpos [[-> ->]|[Hin Hall]]; right.
  - simpl. split; [set_solver|by repeat constructor; lia].
  - assert (0 < t) by (rewrite Forall_forall in Hpos; auto).
    destruct (Z.eqb_spec t 0); [lia|]. simpl.
    destruct (Z.ltb_spec x t); (split; [set_solver|]); apply Forall_app; (split; [|by repeat constructor; lia]);
      (eapply Forall_impl; [exact Hall|]); simpl; lia.
Qed.

Lemma greatest_snoc ts t x : 0 < x -> greatest ts t ->
  greatest (ts ++ [x]) (if t <? x then x else t).
Proof.
  intros Hx [[-> ->]|[Hin Hall]]; right.
  - destruct (Z.ltb_spec 0 x); [|lia]. split; [set_solver|by repeat constructor; lia].
  - destruct (Z.ltb_spec t x); (split; [set_solver|]); apply Forall_app; (split; [|by repeat constructor; lia]);
      (eapply Forall_impl; [exact Hall|]); simpl; lia.
Qed.

Lemma put_times_pos tsof chs : Forall (fun y => 0 < y) (put_times tsof chs).
Proof.
  destruct tsof as [tsof|]; simpl; [|constructor]. apply Forall_forall. intros x Hx.
  apply list_elem_of_In, filter_In in Hx as [_ Hx]. lia.
Qed.

(** What a summary says of the changes read so far. *)
Definition summarises tsof (chs : list Change) (sum : ChangeFeedSummary) : Prop :=
  ChangeCount sum = Z.of_nat (length (puts chs)) /\
  least (put_times tsof chs) (From sum) /\ greatest (put_times tsof chs) (To sum).

Lemma summary_item_ok tsof seen ch sum : summarises tsof seen sum ->
  exists sum', summary_item tsof sum ch = (sum', None) /\ Empty sum' = Empty sum /\
    summarises tsof (seen ++ [ch]) sum'.
Proof.
  intros (Hc & Hl & Hg). unfold summary_item, summarises, put_times, puts in *.
  rewrite List.filter_app. simpl. destruct (bool_decide (chOp ch = ChangePut)); simpl.
  2:{ rewrite app_nil_r. by exists sum. }
  rewrite length_app. simpl. destruct tsof as [tsof|]; [|eexists; split; [done|]; simpl; split_and!; [done|lia|done..]].
  pose proof (put_times_pos (Some tsof) seen) as Hpos. unfold put_times, puts in Hpos.
  rewrite map_app, List.filter_app. simpl.
  destruct (Z.leb_spec (tsof (chKey ch)) 0), (Z.ltb_spec 0 (tsof (chKey ch))); try lia.
  - rewrite app_nil_r. eexists; split; [done|]; simpl; split_and!; [done|lia|done..].
  - eexists; split; [done|]; simpl; split_and!; [done|lia|by apply least_snoc|by apply greatest_snoc].
Qed.

Lemma summary_items_ok tsof chs seen sum : summarises tsof seen sum ->
  exists sum', run_items (summary_item tsof) sum chs = (sum', None) /\ Empty sum' = Empty sum /\
    summarises tsof (seen ++ chs) sum'.
Proof.
  revert seen sum. induction chs as [|ch chs IH]; intros seen sum Hs; simpl.
  - exists sum. by rewrite app_nil_r.
  - destruct (summary_item_ok tsof seen ch sum Hs) as (s1 & -> & He & H1).
    destruct (IH _ _ H1) as (s2 & -> & He2 & H2). exists s2. split_and!; [done|congruence|].
    by rewrite <-app_assoc in H2.
Qed.

(** ** What the readers compute *)

(** [CountChangeFeed] terminates: with more fuel than the feed has changes
    it returns, and when it returns without an error the count is the length of
    the committed feed; on a read error it has counted no more than that. *)
Lemma CountChangeFeed_spec d fuel :
  (length (feed_log d) < fuel)%nat ->
  exists n e, CountChangeFeed fuel d = Some (n, e) /\ 0 <= n <= Z.of_nat (length (feed_log d)) /\
    (e = None -> n = Z.of_nat (length (feed_log d))).
Proof.
  intros Hf. unfold CountChangeFeed.
  destruct (change_open d) as [e|]; [by exists 0, (Some e); split_and!; [|lia..|]|].
  destruct (change_bounds d) as [[oldest head]|e] eqn:Hb; [|by exists 0, (Some e); split_and!; [|lia..|]].
  apply feed_open in Hb. destruct (cursor_is_zero oldest).
  { exists 0, None. rewrite Hb. by split_and!. }
  destruct (feed_loop_spec (fun t _ => (t + 1, None)) (fun total chs => (total + Z.of_nat (length chs), None))
              fuel d oldest 0 0 (fun t c => count_items t c) Hb) as (r & -> & Hr); [lia|].
  rewrite drop_0 in Hr. destruct Hr as [->|(k & _ & _ & e & _ & Hk & He)].
  - rewrite <-count_items. eexists _, _. split; [done|]. split; [lia|]. intros _. lia.
  - rewrite <-count_items in Hk. injection Hk as Hk. destruct r as [n e']; simpl in *; subst e' n.
    eexists _, _. split; [done|]. rewrite length_take. split; [lia|done].
Qed.

Lemma CountChangeFeed_reliable `{!IsleDBReliable I} fuel d : (length (feed_log d) < fuel)%nat ->
  CountChangeFeed fuel d = Some (Z.of_nat (length (feed_log d)), None).
Proof.
  intros Hf. destruct (CountChangeFeed_spec d fuel Hf) as (n & e & Hn & _ & Hc). rewrite Hn.
  destruct e as [e|]; [|by rewrite (Hc eq_refl)]. exfalso. revert Hn. unfold CountChangeFeed.
  rewrite change_open_reliable. destruct (bounds_reliable d) as [[oldest head] ->].
  destruct (cursor_is_zero oldest); [done|]. clear Hc Hf.
  enough (H : forall acc cur, feed_loop (fun total chs => (total + Z.of_nat (length chs), None)) fuel d cur acc <> Some (n, Some e))
    by apply H.
  induction fuel as [|fuel IH]; intros acc cur; [done|]. cbn [feed_loop].
  destruct (read_reliable d cur) as [page ->]. destruct (pgCaughtUp page); [done|apply IH].
Qed.

Lemma DrainChangeFeed_spec {S} (apply : Change -> S -> option error * S) d fuel s :
  (length (feed_log d) < fuel)%nat -> change_open d = None -> (exists b, change_bounds d = Ok b) ->
  exists r, DrainChangeFeed apply fuel d s = Some r /\
    feed_result (drain_item apply) (0, s) (feed_log d) r.
Proof.
  intros Hf Ho [[oldest head] Hb]. unfold DrainChangeFeed. rewrite Ho, Hb.
  apply feed_open in Hb. destruct (cursor_is_zero oldest).
  { rewrite Hb. eexists. split; [done|]. by left. }
  destruct (feed_loop_spec (drain_item apply) (run_items (drain_item apply)) fuel d oldest 0 (0, s))
    as (r & -> & Hr); [done|done|lia|]. rewrite drop_0 in Hr. eauto.
Qed.

(** [DrainChangeFeed] terminates and applies the committed changes in
    commit order, each once: its result is that of folding [apply] over the
    whole feed, stopping at [apply]'s first error, or it stopped at a read error
    after applying a prefix of the feed without an error. *)
Theorem drain_change_feed {S} (apply : Change -> S -> option error * S) d fuel s :
  (length (feed_log d) < fuel)%nat -> change_open d = None -> (exists b, change_bounds d = Ok b) ->
  exists r, DrainChangeFeed apply fuel d s = Some r /\
    feed_result (drain_item apply) (0, s) (feed_log d) r.
Proof. exact (DrainChangeFeed_spec apply d fuel s). Qed.

Lemma SummarizeChangeFeed_spec tsof d fuel :
  (length (feed_log d) < fuel)%nat ->
  exists sum e, SummarizeChangeFeed tsof fuel d = Some (sum, e) /\
    (e = None -> summarises tsof (feed_log d) sum /\ (Empty sum = true <-> puts (feed_log d) = [])).
Proof.
  intros Hf. unfold SummarizeChangeFeed.
  destruct (change_open d) as [e|]; [by exists no_summary, (Some e)|].
  destruct (change_bounds d) as [[oldest head]|e] eqn:Hb; [|by exists no_summary, (Some e)].
  apply feed_open in Hb.
  assert (H0 : summarises tsof [] no_summary)
    by (split; [done|]; split; left; by destruct tsof).
  destruct (cursor_is_zero oldest).
  { eexists _, None. split; [done|]. intros _. rewrite Hb. by split; [split; [done|]; split; left; destruct tsof|]. }
  destruct (feed_loop_spec (summary_item tsof) (run_items (summary_item tsof)) fuel d oldest 0 no_summary)
    as ([sum e] & -> & Hr); [done|done|lia|].
  rewrite drop_0 in Hr. destruct Hr as [Hr|(k & _ & _ & e' & _ & _ & He)].
  - destruct (summary_items_ok tsof (feed_log d) [] no_summary H0) as (s' & Hs' & _ & Hsum).
    rewrite Hs' in Hr. injection Hr as -> ->. eexists _, None. split; [done|]. intros _.
    split; [exact Hsum|]. simpl. destruct Hsum as (-> & _).
    rewrite Z.eqb_eq, <-length_zero_iff_nil. apply (Nat2Z.inj_iff _ 0).
  - simpl in He. subst e. eexists _, _. by split.
Qed.

(** A summary without an error counts the puts of the feed, its [From] and
    [To] are the earliest and the latest positive timestamp of a put (0 when no
    put has one), and it is [Empty] exactly when the feed has no put. *)
Theorem summarize_change_feed tsof d fuel :
  (length (feed_log d) < fuel)%nat ->
  exists sum e, SummarizeChangeFeed tsof fuel d = Some (sum, e) /\
    (e = None -> summarises tsof (feed_log d) sum /\ (Empty sum = true <-> puts (feed_log d) = [])).
Proof. exact (SummarizeChangeFeed_spec tsof d fuel). Qed.

(** When everything put has been flushed, a scan that returns no error
    yields exactly the stored keys of the range, in strictly increasing order,
    and changes neither the stored data nor the feed. *)
Lemma ScanKeysIter_spec lo hi d keys d' :
  unflushed d = [] -> ScanKeysIter lo hi d = (Ok keys, d') ->
  StronglySorted (fun x y => str_lt x y = true) keys /\
  (forall k, k ∈ keys <-> in_scan lo hi k = true /\ is_Some (accepted_kv d !! k)) /\
  accepted_kv d' = accepted_kv d /\ feed_log d' = feed_log d /\ unflushed d' = [].
Proof.
  unfold ScanKeysIter. intros Hu.
  destruct (reader_refresh d) as [[e|] d1] eqn:Hr; [done|].
  apply refresh_law in Hr as (Hkv & Hu1 & Hl & Hv). specialize (Hv Hu).
  destruct (reader_iter lo hi d1) as [[items [e|]]|e] eqn:Hi; try done.
  intros [= <- <-]. apply iter_law in Hi as [Hs Hin]. rewrite Hv in Hin. split_and!.
  - clear Hin. induction Hs as [|x l Hs IH Hx]; simpl; constructor; [done|].
    apply Forall_fmap. exact Hx.
  - intros k. rewrite list_elem_of_fmap. split.
    + intros ([k' v] & -> & Hk). apply Hin in Hk as [H1 H2]. eauto.
    + intros [H1 [v H2]]. exists (k, v). split; [done|]. by apply Hin.
  - done.
  - done.
  - congruence.
Qed.

End ChangeFeed.

(** ** On the reference store *)

(** Three puts and a delete over two pages of the feed. *)
Definition fed : MemStore.state := {|
  MemStore.kv := {[ "b:1" := Raw "x"; "a:7" := Raw "y" ]}; MemStore.view := ∅;
  MemStore.log := [put_change "b:1" (Raw "w"); put_change "a:7" (Raw "y");
                   {| chOp := ChangeDelete; chKey := "c:2"; chValue := Raw "" |}; put_change "b:1" (Raw "x")];
  MemStore.pending := []; MemStore.fenced := None |}.

(** The number after the first byte and the colon of a key. *)
Definition key_number (k : string) : Z := fst (parse_int (String.substring 2 (String.length k) k)).

Lemma CountChangeFeed_spec_witness :
  CountChangeFeed (I := MemStore.isledb) 5 fed = Some (4, None) /\
  exists n e, CountChangeFeed (I := MemStore.isledb) 5 fed = Some (n, e) /\ 0 <= n <= 4 /\ (e = None -> n = 4).
Proof.
  split; [by vm_compute|]. apply (CountChangeFeed_spec (L := MemStore.laws) fed 5). simpl. lia.
Defined.

(** The apply function fails at a delete. *)
Definition no_deletes (ch : Change) (s : list string) : option error * list string :=
  match chOp ch with
  | ChangePut => (None, s ++ [chKey ch])
  | ChangeDelete => (Some (Errorf "delete"), s)
  end.

Lemma drain_change_feed_witness :
  DrainChangeFeed (I := MemStore.isledb) no_deletes 5 fed [] = Some ((2, ["b:1"; "a:7"]), Some (Errorf "delete")) /\
  exists r, DrainChangeFeed (I := MemStore.isledb) no_deletes 5 fed [] = Some r /\
    feed_result (I := MemStore.isledb) (drain_item no_deletes) (0, []) (MemStore.log fed) r.
Proof.
  split; [by vm_compute|]. apply (drain_change_feed (L := MemStore.laws) no_deletes fed 5 []).
  - simpl. lia.
  - done.
  - by eexists.
Defined.

Lemma summarize_change_feed_witness :
  SummarizeChangeFeed (I := MemStore.isledb) (Some key_number) 5 fed =
    Some ({| ChangeCount := 3; From := 1; To := 7; Empty := false |}, None) /\
  exists sum e, SummarizeChangeFeed (I := MemStore.isledb) (Some key_number) 5 fed = Some (sum, e) /\
    (e = None -> summarises (Some key_number) (MemStore.log fed) sum /\
                 (Empty sum = true <-> puts (MemStore.log fed) = [])).
Proof.
  split; [by vm_compute|]. apply (summarize_change_feed (L := MemStore.laws) (Some key_number) fed 5). simpl. lia.
Defined.

Lemma ScanKeysIter_spec_witness :
  exists d', ScanKeysIter (I := MemStore.isledb) "a" "b" fed = (Ok ["a:7"], d') /\
    StronglySorted (fun x y => str_lt x y = true) ["a:7"] /\
    (forall k, k ∈ ["a:7"] <-> in_scan "a" "b" k = true /\ is_Some (MemStore.kv fed !! k)) /\
    MemStore.kv d' = MemStore.kv fed /\ MemStore.log d' = MemStore.log fed /\ MemStore.pending d' = [].
Proof.
  eexists. split; [vm_compute; reflexivity|].
  apply (ScanKeysIter_spec (L := MemStore.laws) "a" "b" fed ["a:7"]); [done|vm_compute; reflexivity].
Defined.
