(* ===== verification/Tenant.v ===== *)
(** * The tenants' data plane (internal/pipeline/tenant.go, tenants.go, verify.go)

    Writing the emissions of a simulation to the prefixes of their tenants,
    flushing, compacting, counting, and checking the stores against the expected
    keys.  Opening and closing the prefixes is in PrefixDB; here a tenant is the
    state of its store. *)

From S2P Require Import Prelude GoStrings KeyRange Json Event EventGen IsleDB ChangeFeed.

Definition AllTenantIDs : list string :=
  ["tenant-alpha"; "tenant-beta"; "tenant-gamma"; "tenant-delta"; "tenant-epsilon"].

Section Tenant.
Context {I : IsleDB} {MR : MapRange}.

(** ** One tenant *)

Definition Put (ev : Event) (d : db) : option error * db :=
  match EventValueBytes ev with
  | Err e => (Some e, d)
  | Ok val => writer_put (EventKeyBytes ev) val d
  end.

Definition Flush (d : db) : option error * db :=
  match writer_flush d with
  | (Some e, d) => (Some e, d)
  | (None, d) => RefreshReader false d
  end.

Definition ScanKeys (id : string) (d : db) : result (list string) * db :=
  ScanKeysIter (TenantPrefix id) (TenantUpperBound id) d.

Definition ChangeFeedCount (fuel : nat) (d : db) : option (Z * option error) := CountChangeFeed fuel d.

(** db.go: [_, err := p.Maintenance.RunOnce(ctx)] *)
Definition RunMaintenanceOnce (d : db) : option error * db := maintenance_run_once d.

(** ** All tenants: [p.tenants] *)

Abbreviation stores := (gmap string db).

Fixpoint write_emissions_loop (emissions : list Emission) (puts : Z) (p : stores) : (Z * option error) * stores :=
  match emissions with
  | [] => ((puts, None), p)
  | em :: emissions =>
      let id := TenantID (emEvent em) in
      match p !! id with
      | None => ((puts, Some (Errorf ("unknown tenant " +:+ quote id))), p)
      | Some d =>
          match Put (emEvent em) d with
          | (Some e, d) => ((puts, Some e), <[id := d]> p)
          | (None, d) => write_emissions_loop emissions (puts + 1) (<[id := d]> p)
          end
      end
  end.

Definition WriteEmissions (emissions : list Emission) (p : stores) : (Z * option error) * stores :=
  write_emissions_loop emissions 0 p.

(** [for _, tp := range p.tenants { if err := f(tp); err != nil { return err } }] *)
Fixpoint each_tenant (f : db -> option error * db) (l : list (string * db)) (p : stores) : option error * stores :=
  match l with
  | [] => (None, p)
  | (id, d) :: l =>
      match f d with
      | (Some e, d) => (Some e, <[id := d]> p)
      | (None, d) => each_tenant f l (<[id := d]> p)
      end
  end.

Definition FlushAll (p : stores) : option error * stores := each_tenant Flush (range p) p.

Definition CompactAll (p : stores) : option error * stores := each_tenant RunMaintenanceOnce (range p) p.

Definition TenantIDs (p : stores) : list string := (range p).*1.

Definition tenant (id : string) (p : stores) : result db :=
  match p !! id with
  | None => Err (Errorf ("tenant " +:+ quote id +:+ " not found"))
  | Some d => Ok d
  end.

Fixpoint count_keys_loop (ids : list string) (total : Z) (p : stores) : (Z * option error) * stores :=
  match ids with
  | [] => ((total, None), p)
  | id :: ids =>
      match tenant id p with
      | Err e => ((total, Some e), p)
      | Ok d =>
          match ScanKeys id d with
          | (Err e, d) => ((total, Some e), <[id := d]> p)
          | (Ok keys, d) => count_keys_loop ids (total + Z.of_nat (length keys)) (<[id := d]> p)
          end
      end
  end.

Definition CountKeys (p : stores) : (Z * option error) * stores := count_keys_loop (TenantIDs p) 0 p.

(** ** Verification (verify.go) *)

Record Result := {
  PutCount : Z;
  UniqueKeysExpected : Z;
  KeysByTenant : gmap string (list string);
  TailCountByTenant : gmap string Z
}.

Definition group_step (out : gmap string (list string)) (k : string) : gmap string (list string) :=
  let t := TenantFromKey k in <[t := default [] (out !! t) ++ [k]]> out.

Definition groupKeysByTenant (keys : list string) : gmap string (list string) :=
  sort_strings <$> foldl group_step ∅ keys.

Fixpoint verifyKeyOrder (keys : list string) : option error :=
  match keys with
  | k0 :: (k1 :: _) as keys =>
      if str_lt k1 k0 then Some (Errorf ("key order violation: " +:+ quote k0 +:+ " before " +:+ quote k1))
      else verifyKeyOrder keys
  | _ => None
  end.

Fixpoint compare_keys (ws gs : list string) : option error :=
  match ws, gs with
  | w :: ws, g :: gs =>
      if bool_decide (w = g) then compare_keys ws gs
      else Some (Errorf ("missing or extra key: got " +:+ quote g +:+ " want " +:+ quote w))
  | _, _ => None
  end.

Definition verifyKeySet (want got : list string) : option error :=
  if bool_decide (length want = length got) then compare_keys (sort_strings want) (sort_strings got)
  else Some (Errorf ("key count got " +:+ itoa (Z.of_nat (length got)) +:+ " want " +:+ itoa (Z.of_nat (length want)))).

(** The loop over [expectedByTenant]; the outer option is the change feed
    running out of fuel. *)
Fixpoint verify_loop (fuel : nat) (l : list (string * list string)) (res : Result) (p : stores)
    : option ((Result * option error) * stores) :=
  match l with
  | [] => Some ((res, None), p)
  | (tenantID, wantKeys) :: l =>
      match tenant tenantID p with
      | Err e => Some ((res, Some e), p)
      | Ok d =>
          match ScanKeys tenantID d with
          | (Err e, d) => Some ((res, Some (Wrap ("scan " +:+ tenantID +:+ ": ") e)), <[tenantID := d]> p)
          | (Ok gotKeys, d) =>
              let p := <[tenantID := d]> p in
              let res := {| PutCount := PutCount res; UniqueKeysExpected := UniqueKeysExpected res;
                            KeysByTenant := <[tenantID := gotKeys]> (KeysByTenant res);
                            TailCountByTenant := TailCountByTenant res |} in
              match verifyKeyOrder gotKeys with
              | Some e => Some ((res, Some (Wrap ("tenant " +:+ tenantID +:+ ": ") e)), p)
              | None =>
                  match verifyKeySet wantKeys gotKeys with
                  | Some e => Some ((res, Some (Wrap ("tenant " +:+ tenantID +:+ ": ") e)), p)
                  | None =>
                      match ChangeFeedCount fuel d with
                      | None => None
                      | Some (_, Some e) => Some ((res, Some (Wrap ("change feed " +:+ tenantID +:+ ": ") e)), p)
                      | Some (tailN, None) =>
                          let res := {| PutCount := PutCount res; UniqueKeysExpected := UniqueKeysExpected res;
                                        KeysByTenant := KeysByTenant res;
                                        TailCountByTenant := <[tenantID := tailN]> (TailCountByTenant res) |} in
                          if tailN <? Z.of_nat (length wantKeys)
                          then Some ((res, Some (Errorf ("tenant " +:+ tenantID +:+ ": change feed saw " +:+ itoa tailN
                                       +:+ " changes, want >= " +:+ itoa (Z.of_nat (length wantKeys))))), p)
                          else verify_loop fuel l res p
                      end
                  end
              end
          end
      end
  end.

Definition Verify (fuel : nat) (emissions : list Emission) (p : stores) : option ((Result * option error) * stores) :=
  let expected := ExpectedKeys emissions in
  let res := {| PutCount := Z.of_nat (length emissions); UniqueKeysExpected := Z.of_nat (length expected);
                KeysByTenant := ∅; TailCountByTenant := ∅ |} in
  match verify_loop fuel (range (groupKeysByTenant expected)) res p with
  | None => None
  | Some ((res, Some e), p) => Some ((res, Some e), p)
  | Some ((res, None), p) =>
      if PutCount res <? UniqueKeysExpected res then
        Some ((res, Some (Errorf ("put count " +:+ itoa (PutCount res) +:+ " less than unique events "
                                  +:+ itoa (UniqueKeysExpected res)))), p)
      else if existsb emRetry emissions && (PutCount res <=? UniqueKeysExpected res) then
        Some ((res, Some (Errorf ("put count " +:+ itoa (PutCount res) +:+ " should exceed unique events "
                                  +:+ itoa (UniqueKeysExpected res) +:+ " when duplicates exist"))), p)
      else Some ((res, None), p)
  end.

(** ** Grouping and comparing keys *)

Definition keys_of (t : string) (keys : list string) : list string :=
  List.filter (fun k => bool_decide (TenantFromKey k = t)) keys.

Lemma group_step_all keys out t :
  foldl group_step out keys !! t =
    match keys_of t keys with [] => out !! t | l => Some (default [] (out !! t) ++ l) end.
Proof.
  revert out. induction keys as [|k keys IH]; intros out; [done|]. cbn [foldl]. rewrite IH.
  unfold keys_of. rewrite filter_cons_bool. unfold group_step at 1 2.
  destruct (decide (TenantFromKey k = t)) as [<-|Hne].
  - rewrite bool_decide_true, lookup_insert_eq by done. simpl.
    destruct (List.filter _ keys) as [|k' l]; [done|]. by rewrite <-app_assoc.
  - rewrite bool_decide_false, lookup_insert_ne by done. done.
Qed.

Lemma groupKeysByTenant_spec keys t :
  groupKeysByTenant keys !! t = match keys_of t keys with [] => None | l => Some (sort_strings l) end.
Proof.
  unfold groupKeysByTenant. rewrite lookup_fmap, group_step_all, lookup_empty. by destruct (keys_of t keys).
Qed.

Lemma elem_of_keys_of k t keys : k ∈ keys_of t keys <-> k ∈ keys /\ TenantFromKey k = t.
Proof.
  unfold keys_of. rewrite !list_elem_of_In, filter_In, bool_decide_eq_true. done.
Qed.

Lemma verifyKeyOrder_sorted keys : StronglySorted (fun x y => str_lt x y = true) keys -> verifyKeyOrder keys = None.
Proof.
  induction 1 as [|k l Hs IH Hk]; [done|]. destruct l as [|k1 l]; [done|]. cbn [verifyKeyOrder].
  apply Forall_cons in Hk as [Hk _]. apply str_lt_le in Hk as [Hle _]. by rewrite (proj2 (str_lt_false k1 k) Hle).
Qed.

Lemma compare_keys_spec ws gs : length ws = length gs -> (compare_keys ws gs = None <-> ws = gs).
Proof.
  revert gs. induction ws as [|w ws IH]; intros [|g gs] Hl; try discriminate Hl; [done|].
  injection Hl as Hl. cbn [compare_keys].
  case_bool_decide as Hwg; [|split; [done|intros E; by injection E]]. subst. rewrite IH by done.
  split; [by intros ->|intros E; by injection E].
Qed.

Lemma verifyKeySet_spec want got : verifyKeySet want got = None <-> want ≡ₚ got.
Proof.
  unfold verifyKeySet. split.
  - case_bool_decide as Hl; [|done]. intros Hc. apply compare_keys_spec in Hc.
    + rewrite <-(sort_strings_perm want), <-(sort_strings_perm got). by rewrite Hc.
    + by rewrite !sort_strings_perm.
  - intros Hp. rewrite bool_decide_true by by rewrite Hp. apply compare_keys_spec; [by rewrite !sort_strings_perm, Hp|].
    by apply sort_strings_unique.
Qed.

(** ** Operations that keep the data *)

Context {L : IsleDBLaws I}.

(** Same accepted data, same feed, same pending changes. *)
Definition same_data (d d' : db) : Prop :=
  accepted_kv d' = accepted_kv d /\ feed_log d' = feed_log d /\ unflushed d' = unflushed d.

#[export] Instance same_data_refl : Reflexive same_data.
Proof. by intros d. Qed.
#[export] Instance same_data_trans : Transitive same_data.
Proof. unfold same_data. intros d1 d2 d3 (? & ? & ?) (? & ? & ?). split_and!; congruence. Qed.

Definition same_stores (p p' : stores) : Prop := forall id, option_Forall2 same_data (p !! id) (p' !! id).

#[export] Instance same_stores_refl : Reflexive same_stores.
Proof. intros p id. destruct (p !! id); by constructor. Qed.
#[export] Instance same_stores_trans : Transitive same_stores.
Proof.
  intros p1 p2 p3 H12 H23 id. specialize (H12 id). specialize (H23 id).
  destruct H12 as [d1 d2 H12|]; inversion H23; subst; constructor. by etrans.
Qed.

Lemma same_stores_insert p id d d' : p !! id = Some d -> same_data d d' -> same_stores p (<[id := d']> p).
Proof.
  intros Hd Hs id'. destruct (decide (id = id')) as [<-|Hne].
  - rewrite lookup_insert_eq, Hd. by constructor.
  - rewrite lookup_insert_ne by done. destruct (p !! id'); by constructor.
Qed.

Lemma same_stores_lookup p p' id d : same_stores p p' -> p !! id = Some d ->
  exists d', p' !! id = Some d' /\ same_data d d'.
Proof. intros Hs Hd. specialize (Hs id). rewrite Hd in Hs. inversion Hs; eauto. Qed.

(** A loop over every store applies [f] to each of them. *)
Lemma each_tenant_ok f l p p' : each_tenant f l p = (None, p') -> NoDup l.*1 ->
  (forall id d, (id, d) ∈ l -> p !! id = Some d) ->
  forall id, match p !! id with
  | None => p' !! id = None
  | Some d => if bool_decide (id ∈ l.*1) then exists d', p' !! id = Some d' /\ f d = (None, d') else p' !! id = Some d
  end.
Proof.
  revert p. induction l as [|[id0 d0] l IH]; intros p; cbn [each_tenant].
  { intros [= <-] _ _ id. by destruct (p !! id). }
  destruct (f d0) as [[e|] d1] eqn:Hf; [done|]. intros Hrun [Hn0 Hnd]%NoDup_cons Hl id. simpl in Hn0.
  assert (Hd0 : p !! id0 = Some d0) by (apply Hl; by left).
  assert (Hl1 : forall id d, (id, d) ∈ l -> <[id0 := d1]> p !! id = Some d).
  { intros id' d' Hin. rewrite lookup_insert_ne; [apply Hl; by right|]. intros ->. apply Hn0.
    apply list_elem_of_fmap. by exists (id', d'). }
  specialize (IH _ Hrun Hnd Hl1 id). simpl. destruct (decide (id0 = id)) as [<-|Hne].
  - rewrite lookup_insert_eq in IH. rewrite Hd0, bool_decide_true by by left.
    rewrite bool_decide_false in IH by done. eauto.
  - rewrite lookup_insert_ne in IH by done. destruct (p !! id); [|done].
    destruct (decide (id ∈ l.*1)) as [Hin|Hin].
    + rewrite bool_decide_true in IH by done. by rewrite bool_decide_true by by right.
    + rewrite bool_decide_false in IH by done. rewrite bool_decide_false; [done|].
      by intros [->|]%elem_of_cons.
Qed.

Lemma each_tenant_range f p p' id d : each_tenant f (range p) p = (None, p') -> p !! id = Some d ->
  exists d', p' !! id = Some d' /\ f d = (None, d').
Proof.
  intros Hrun Hd. pose proof (each_tenant_ok _ _ _ _ Hrun (NoDup_range_keys p)) as H.
  specialize (H ltac:(intros ??; by rewrite elem_of_range) id). rewrite Hd, bool_decide_true in H; [done|].
  apply list_elem_of_fmap. exists (id, d). by rewrite elem_of_range.
Qed.

Lemma each_tenant_none f p p' id : each_tenant f (range p) p = (None, p') -> p !! id = None -> p' !! id = None.
Proof.
  intros Hrun Hd. pose proof (each_tenant_ok _ _ _ _ Hrun (NoDup_range_keys p)) as H.
  specialize (H ltac:(intros ??; by rewrite elem_of_range) id). by rewrite Hd in H.
Qed.

Lemma Flush_spec d d' : Flush d = (None, d') ->
  accepted_kv d' = accepted_kv d /\ unflushed d' = [] /\ feed_log d' = feed_log d ++ unflushed d.
Proof.
  unfold Flush. destruct (writer_flush d) as [[e|] d1] eqn:Hf; [done|]. apply flush_law in Hf as (H1 & H2 & H3).
  simpl. intros (R1 & R2 & R3 & _)%refresh_law. split_and!; congruence.
Qed.

Lemma CompactAll_same p p' : CompactAll p = (None, p') -> same_stores p p'.
Proof.
  intros Hrun id. destruct (p !! id) as [d|] eqn:Hd.
  - apply (each_tenant_range _ _ _ _ _ Hrun) in Hd as (d' & -> & Hm). apply run_once_law in Hm as (? & ? & ?). by constructor.
  - rewrite (each_tenant_none _ _ _ _ Hrun Hd). constructor.
Qed.

Lemma ScanKeys_same id d keys d' : unflushed d = [] -> ScanKeys id d = (Ok keys, d') ->
  same_data d d' /\ StronglySorted (fun x y => str_lt x y = true) keys /\
  forall k, k ∈ keys <-> has_prefix k (TenantPrefix id) = true /\ is_Some (accepted_kv d !! k).
Proof.
  intros Hu Hs. apply ScanKeysIter_spec in Hs as (Hso & Hin & ? & ? & ?); [|done]. split_and!; [|done|].
  - split_and!; congruence.
  - intros k. by rewrite Hin, tenant_scan.
Qed.

Lemma strictly_sorted_NoDup keys : StronglySorted (fun x y => str_lt x y = true) keys -> NoDup keys.
Proof.
  induction 1 as [|k l Hs IH Hk]; constructor; [|done]. intros Hin.
  rewrite Forall_forall in Hk. specialize (Hk k Hin). by rewrite str_lt_irrefl in Hk.
Qed.

(** ** A store that answers *)

Lemma ScanKeys_reliable `{!IsleDBReliable I} id d : exists keys d', ScanKeys id d = (Ok keys, d').
Proof.
  unfold ScanKeys, ScanKeysIter. pose proof (refresh_reliable d) as Hr.
  destruct (reader_refresh d) as [e d1]. simpl in Hr. subst e.
  destruct (iter_reliable (TenantPrefix id) (TenantUpperBound id) d1) as [items ->]. eauto.
Qed.

(** ** Verification *)

(** The keys [want] are exactly the stored keys of the tenant, each once, and
    the feed holds at least as many changes, [tail] in all. *)
Definition tenant_holds (t : string) (want : list string) (tail : option Z) (d : db) : Prop :=
  NoDup want /\
  (forall k, k ∈ want <-> has_prefix k (TenantPrefix t) = true /\ is_Some (accepted_kv d !! k)) /\
  tail = Some (Z.of_nat (length (feed_log d))) /\ (length want <= length (feed_log d))%nat.

Lemma tenant_holds_same t want tail d d' : same_data d d' -> tenant_holds t want tail d' -> tenant_holds t want tail d.
Proof. intros (Hkv & Hl & _). unfold tenant_holds. by rewrite Hkv, Hl. Qed.

Lemma same_stores_unflushed p p' : same_stores p p' -> (forall id d, p !! id = Some d -> unflushed d = []) ->
  forall id d, p' !! id = Some d -> unflushed d = [].
Proof.
  intros Hs Hu id d' Hd'. specialize (Hs id). rewrite Hd' in Hs. inversion Hs as [d ? [_ [_ Hsame]] Hd|]; subst.
  symmetry in Hd. by rewrite Hsame, (Hu id d).
Qed.

(** With fuel for the feeds the loop returns; without an error every tenant it
    went through holds its expected keys. *)
Lemma verify_loop_sound fuel l res p :
  (forall id d, p !! id = Some d -> unflushed d = [] /\ (length (feed_log d) < fuel)%nat) -> NoDup l.*1 ->
  exists res' e p', verify_loop fuel l res p = Some ((res', e), p') /\
    (e = None -> same_stores p p' /\ PutCount res' = PutCount res /\ UniqueKeysExpected res' = UniqueKeysExpected res /\
       (forall t, t ∉ l.*1 -> TailCountByTenant res' !! t = TailCountByTenant res !! t) /\
       forall t want, (t, want) ∈ l -> exists d, p !! t = Some d /\
         tenant_holds t want (TailCountByTenant res' !! t) d).
Proof.
  revert res p. induction l as [|[t want] l IH]; intros res p Hp Hnd; cbn [verify_loop].
  { exists res, None, p. split_and!; try done. intros _. split_and!; try done. by intros ?? ?%not_elem_of_nil. }
  apply NoDup_cons in Hnd as [Hnt Hnd]. simpl in Hnt. unfold tenant.
  destruct (p !! t) as [d|] eqn:Hd; [|by eexists _, (Some _), _].
  destruct (Hp t d Hd) as [Hu Hfuel].
  destruct (ScanKeys t d) as [[got|e] d1] eqn:Hscan; [|by eexists _, (Some _), _].
  apply ScanKeys_same in Hscan as (Hsame & Hsorted & Hgot); [|done].
  destruct (verifyKeyOrder got); [by eexists _, (Some _), _|].
  destruct (verifyKeySet want got) eqn:Hset; [by eexists _, (Some _), _|]. apply verifyKeySet_spec in Hset.
  pose proof Hsame as (_ & Hfeed & Hun).
  destruct (CountChangeFeed_spec d1 fuel) as (n & e & Hn & _ & Hcount); [by rewrite Hfeed|].
  unfold ChangeFeedCount. rewrite Hn. destruct e as [e|]; [by eexists _, (Some _), _|].
  specialize (Hcount eq_refl). rewrite Hfeed in Hcount.
  destruct (Z.ltb_spec n (Z.of_nat (length want))) as [|Hlen]; [by eexists _, (Some _), _|].
  set (res1 := {| TailCountByTenant := _ |}). pose proof (same_stores_insert _ _ _ _ Hd Hsame) as Hss.
  destruct (IH res1 (<[t := d1]> p)) as (res' & e & p' & Hrun & Hok); [|done|].
  { intros id d' [[<- <-]|[_ Hid]]%lookup_insert_Some; [by rewrite Hun, Hfeed|by apply (Hp id)]. }
  exists res', e, p'. split; [exact Hrun|]. intros He. destruct (Hok He) as (Hs & Hput & Huniq & Htail & Hall).
  split_and!; [by etrans|done|done| |].
  - intros t' Ht'. rewrite Htail by (intros ?; apply Ht'; by right). simpl. rewrite lookup_insert_ne; [done|].
    intros ->. apply Ht'. by left.
  - intros t' want' [[= -> ->]|Hin]%elem_of_cons.
    + exists d. split; [done|]. unfold tenant_holds. rewrite Htail by done. simpl. rewrite lookup_insert_eq. split_and!.
      * rewrite Hset. by apply strictly_sorted_NoDup.
      * intros k. by rewrite Hset, Hgot.
      * by rewrite Hcount.
      * lia.
    + destruct (Hall _ _ Hin) as (d' & Hd' & Hh). destruct (decide (t' = t)) as [->|Hne].
      { exfalso. apply Hnt. apply list_elem_of_fmap. by exists (t, want'). }
      rewrite lookup_insert_ne in Hd' by done. eauto.
Qed.

(** A store that answers and holds the expected keys passes. *)
Lemma verify_loop_passes `{!IsleDBReliable I} fuel l res p :
  (forall id d, p !! id = Some d -> unflushed d = [] /\ (length (feed_log d) < fuel)%nat) -> NoDup l.*1 ->
  (forall t want, (t, want) ∈ l -> exists d tail, p !! t = Some d /\ tenant_holds t want tail d) ->
  exists res' p', verify_loop fuel l res p = Some ((res', None), p').
Proof.
  revert res p. induction l as [|[t want] l IH]; intros res p Hp Hnd Hl; cbn [verify_loop]; [eauto|].
  apply NoDup_cons in Hnd as [Hnt Hnd]. simpl in Hnt. unfold tenant.
  destruct (Hl t want) as (d & tail & Hd & Hnw & Hw & _ & Hlen); [by left|]. rewrite Hd. destruct (Hp t d Hd) as [Hu Hfuel].
  destruct (ScanKeys_reliable t d) as (got & d1 & Hscan). rewrite Hscan.
  apply ScanKeys_same in Hscan as (Hsame & Hsorted & Hgot); [|done].
  rewrite verifyKeyOrder_sorted by done.
  rewrite (proj2 (verifyKeySet_spec want got)).
  2:{ apply NoDup_Permutation; [done|by apply strictly_sorted_NoDup|]. intros k. by rewrite Hw, Hgot. }
  pose proof Hsame as (_ & Hfeed & Hun). unfold ChangeFeedCount.
  rewrite CountChangeFeed_reliable by by rewrite Hfeed. rewrite Hfeed.
  rewrite (proj2 (Z.ltb_ge _ _)) by lia. apply IH; [|done|].
  - intros id d' [[<- <-]|[_ Hid]]%lookup_insert_Some; [by rewrite Hun, Hfeed|by apply (Hp id)].
  - intros t' want' Hin. destruct (Hl t' want') as (d' & tail' & Hd' & Hh); [by right|].
    exists d', tail'. split; [|done]. rewrite lookup_insert_ne; [done|]. intros <-.
    apply Hnt. apply list_elem_of_fmap. by exists (t, want').
Qed.

Lemma verify_loop_counts fuel l res p res' p' : verify_loop fuel l res p = Some ((res', None), p') ->
  PutCount res' = PutCount res /\ UniqueKeysExpected res' = UniqueKeysExpected res.
Proof.
  revert res p. induction l as [|[t want] l IH]; intros res p; cbn [verify_loop]; [by intros [= <- <-]|].
  repeat (case_match; try done). intros Hrun. by apply IH in Hrun.
Qed.

(** ** Writing *)

(** [d'] is [d] after the puts of [evs]. *)
Definition wrote (evs : list Event) (d d' : db) : Prop :=
  (forall k, is_Some (accepted_kv d' !! k) <-> is_Some (accepted_kv d !! k) \/ k ∈ EventKey <$> evs) /\
  length (feed_log d' ++ unflushed d') = (length (feed_log d ++ unflushed d) + length evs)%nat.

Lemma wrote_nil d : wrote [] d d.
Proof. split; [|simpl; lia]. intros k. split; [by left|]. by intros [?|?%not_elem_of_nil]. Qed.

Lemma wrote_cons ev evs d1 d2 d3 : wrote [ev] d1 d2 -> wrote evs d2 d3 -> wrote (ev :: evs) d1 d3.
Proof.
  intros [K1 L1] [K2 L2]. split; [|simpl in *; lia]. intros k. rewrite K2, K1, !fmap_cons, !elem_of_cons.
  change (EventKey <$> []) with (@nil string). rewrite elem_of_nil. tauto.
Qed.

Lemma Put_wrote ev d d' : Put ev d = (None, d') -> wrote [ev] d d'.
Proof.
  unfold Put. destruct (EventValueBytes ev) as [val|]; [|done]. intros [Hkv Hlog]%put_law. split.
  - intros k. rewrite Hkv. simpl. rewrite list_elem_of_singleton. unfold EventKeyBytes.
    destruct (decide (EventKey ev = k)) as [<-|Hne].
    + rewrite lookup_insert_eq. split; [by right|eauto].
    + rewrite lookup_insert_ne by done. split; [by left|]. intros [?|E]; [done|by subst].
  - rewrite Hlog, app_assoc, length_app. simpl. lia.
Qed.

(** The emissions of tenant [id], in order. *)
Definition for_tenant (id : string) (ems : list Emission) : list Event :=
  List.filter (fun ev => bool_decide (TenantID ev = id)) (emEvent <$> ems).

Lemma write_emissions_wrote ems puts p n p' : write_emissions_loop ems puts p = ((n, None), p') ->
  n = puts + Z.of_nat (length ems) /\
  forall id, match p !! id with
             | None => p' !! id = None
             | Some d => exists d', p' !! id = Some d' /\ wrote (for_tenant id ems) d d'
             end.
Proof.
  revert puts p. induction ems as [|em ems IH]; intros puts p; cbn [write_emissions_loop].
  { intros [= <- <-]. split; [simpl; lia|]. intros id. destruct (p !! id); [|done]. eauto using wrote_nil. }
  destruct (p !! TenantID (emEvent em)) as [d|] eqn:Hd; [|done].
  destruct (Put (emEvent em) d) as [[e|] d1] eqn:Hput; [done|]. intros [-> Hids]%IH. split; [simpl length; lia|].
  intros id. specialize (Hids id). unfold for_tenant. rewrite fmap_cons, filter_cons_bool.
  destruct (decide (TenantID (emEvent em) = id)) as [<-|Hne].
  - rewrite lookup_insert_eq in Hids. rewrite Hd, bool_decide_true by done. destruct Hids as (d' & Hd' & Hw).
    exists d'. split; [done|]. apply (wrote_cons _ _ _ d1); [by apply Put_wrote|done].
  - rewrite lookup_insert_ne in Hids by done. by rewrite bool_decide_false.
Qed.

Lemma write_emissions_reliable `{!IsleDBReliable I} ems puts p :
  Forall (fun em => is_Some (p !! TenantID (emEvent em)) /\ exists v, EventValueBytes (emEvent em) = Ok v) ems ->
  (write_emissions_loop ems puts p).1.2 = None.
Proof.
  revert puts p. induction ems as [|em ems IH]; intros puts p Hall; cbn [write_emissions_loop]; [done|].
  apply Forall_cons in Hall as [[[d Hd] [v Hv]] Hall]. rewrite Hd. unfold Put. rewrite Hv.
  pose proof (put_reliable (EventKeyBytes (emEvent em)) v d) as Hput.
  destruct (writer_put (EventKeyBytes (emEvent em)) v d) as [e d1]. simpl in Hput. subst e.
  apply IH. eapply Forall_impl; [exact Hall|]. intros em' [Hs ?]. split; [|done].
  rewrite lookup_insert_is_Some. destruct (decide (TenantID (emEvent em) = TenantID (emEvent em'))); auto.
Qed.

Lemma each_tenant_reliable f l p : (forall d, (f d).1 = None) -> (each_tenant f l p).1 = None.
Proof.
  intros Hf. revert p. induction l as [|[id d] l IH]; intros p; [done|]. cbn [each_tenant].
  specialize (Hf d) as Hd. destruct (f d) as [e d1]. simpl in Hd. subst e. apply IH.
Qed.

Lemma Flush_reliable `{!IsleDBReliable I} d : (Flush d).1 = None.
Proof.
  unfold Flush. pose proof (flush_reliable d) as H. destruct (writer_flush d) as [e d1]. simpl in H. subst e.
  apply refresh_reliable.
Qed.

(** ** Counting *)

Lemma count_keys_loop_spec ids total p :
  (forall id d, p !! id = Some d -> unflushed d = []) ->
  match count_keys_loop ids total p with
  | ((n, None), p') => same_stores p p' /\
      forall cnt : string -> nat, (forall id d keys d', id ∈ ids -> p !! id = Some d -> ScanKeys id d = (Ok keys, d') -> length keys = cnt id) ->
        NoDup ids -> n = total + Z.of_nat (sum_list (cnt <$> ids))
  | _ => True
  end.
Proof.
  revert total p. induction ids as [|id ids IH]; intros total p Hu; cbn [count_keys_loop].
  { split; [done|]. intros cnt _ _. simpl. lia. }
  unfold tenant. destruct (p !! id) as [d|] eqn:Hd; [|done].
  destruct (ScanKeys id d) as [[keys|e] d1] eqn:Hscan; [|done].
  pose proof (ScanKeys_same _ _ _ _ (Hu _ _ Hd) Hscan) as (Hsame & _).
  pose proof (same_stores_insert _ _ _ _ Hd Hsame) as Hss.
  specialize (IH (total + Z.of_nat (length keys)) (<[id := d1]> p)).
  destruct (count_keys_loop ids _ _) as [[n [e|]] p']; [done|]. destruct IH as [Hs Hn].
  { by eapply same_stores_unflushed. }
  split; [by etrans|]. intros cnt Hcnt [Hni Hnd]%NoDup_cons. rewrite (Hn cnt); [| |done].
  - rewrite (Hcnt id d keys d1) by (done || by left). 
    assert (sum_list (cnt <$> id :: ids) = cnt id + sum_list (cnt <$> ids))%nat as -> by done. lia.
  - intros id' d' keys' d'' Hin. rewrite lookup_insert_ne by (intros ->; done). apply Hcnt. by right.
Qed.

Lemma count_keys_reliable `{!IsleDBReliable I} ids total p : (forall id, id ∈ ids -> is_Some (p !! id)) ->
  (count_keys_loop ids total p).1.2 = None.
Proof.
  revert total p. induction ids as [|id ids IH]; intros total p Hin; cbn [count_keys_loop]; [done|].
  unfold tenant. destruct (Hin id) as [d ->]; [by left|]. destruct (ScanKeys_reliable id d) as (keys & d1 & ->).
  apply IH. intros id' Hid'. rewrite lookup_insert_is_Some. destruct (decide (id = id')); [by left|right; split; [done|]].
  apply Hin. by right.
Qed.

(** A store that the loop has no keys for is neither read nor changed. *)
Lemma verify_loop_insert fuel l res p t d : t ∉ l.*1 ->
  verify_loop fuel l res (<[t := d]> p) = (fun x => (x.1, <[t := d]> x.2)) <$> verify_loop fuel l res p.
Proof.
  revert res p. induction l as [|[t' want] l IH]; intros res p Ht; cbn [verify_loop]; [done|].
  rewrite fmap_cons in Ht. apply not_elem_of_cons in Ht as [Hne Ht]. cbn [fst] in Hne.
  unfold tenant. rewrite lookup_insert_ne by done. destruct (p !! t') as [d'|]; [|done].
  destruct (ScanKeys t' d') as [[got|e] d1]; rewrite insert_insert_ne by done; [|done].
  destruct (verifyKeyOrder got); [done|]. destruct (verifyKeySet want got); [done|].
  destruct (ChangeFeedCount fuel d1) as [[n [e|]]|]; [done| |done].
  destruct (n <? _); [done|]. by apply IH.
Qed.

(** ** Properties *)

(** C11: what a successful verification means, for the tenants that the expected
    keys name.  On flushed stores [Verify] returns, and when it returns without an
    error: every tenant that an expected key names has a store; the expected keys
    of that tenant are distinct and are exactly the stored keys under the
    tenant's prefix; its change feed holds at least as many changes and the
    reported tail count is its length; the stored data is as before; and when some
    emission is a retry there were more puts than expected keys.  Of any other
    tenant nothing is learnt ([stray_tenant_unseen]). *)
Theorem verify_sound fuel ems p :
  (forall id d, p !! id = Some d -> unflushed d = [] /\ (length (feed_log d) < fuel)%nat) ->
  exists res e p', Verify fuel ems p = Some ((res, e), p') /\
    (e = None -> same_stores p p' /\
       PutCount res = Z.of_nat (length ems) /\ UniqueKeysExpected res = Z.of_nat (length (ExpectedKeys ems)) /\
       (forall t, keys_of t (ExpectedKeys ems) <> [] -> exists d, p !! t = Some d /\
          tenant_holds t (keys_of t (ExpectedKeys ems)) (TailCountByTenant res !! t) d) /\
       (existsb emRetry ems = true -> (length (ExpectedKeys ems) < length ems)%nat)).
Proof.
  intros Hp. unfold Verify. set (res0 := {| PutCount := _ |}). set (groups := groupKeysByTenant (ExpectedKeys ems)).
  destruct (verify_loop_sound fuel (range groups) res0 p Hp (NoDup_range_keys _)) as (res & e & p' & -> & Hok).
  destruct e as [e|]; [by eexists _, (Some _), _|].
  destruct (Hok eq_refl) as (Hs & Hput & Huniq & _ & Hall). simpl in Hput, Huniq.
  destruct (Z.ltb_spec (PutCount res) (UniqueKeysExpected res)) as [|Hle]; [by eexists _, (Some _), _|].
  destruct (existsb emRetry ems && (PutCount res <=? UniqueKeysExpected res)) eqn:Hretry; [by eexists _, (Some _), _|].
  exists res, None, p'. split; [done|]. intros _. split_and!; [done..| |].
  - intros t Ht. pose proof (groupKeysByTenant_spec (ExpectedKeys ems) t) as Hg. fold groups in Hg.
    assert (Hin : (t, sort_strings (keys_of t (ExpectedKeys ems))) ∈ range groups).
    { apply elem_of_range. rewrite Hg. by destruct (keys_of t (ExpectedKeys ems)). }
    destruct (Hall _ _ Hin) as (d & Hd & Hnd & Hkeys & Htail & Hlen). exists d. split; [done|].
    rewrite sort_strings_perm in Hnd, Hlen. split_and!; [done| |done|done].
    intros k. by rewrite <-Hkeys, sort_strings_perm.
  - intros Hr. rewrite Hr in Hretry. simpl in Hretry. apply Z.leb_gt in Hretry. lia.
Qed.

(** A tenant that no expected key names is not looked at: whatever its store
    holds, [Verify] returns the same, and it reports no keys of it. *)
Theorem stray_tenant_unseen fuel ems p t d : keys_of t (ExpectedKeys ems) = [] ->
  Verify fuel ems (<[t := d]> p) = (fun x => (x.1, <[t := d]> x.2)) <$> Verify fuel ems p.
Proof.
  intros Ht. unfold Verify. rewrite verify_loop_insert.
  - destruct (verify_loop _ _ _ p) as [[[res [e|]] p']|]; [done| |done]. simpl. by repeat case_match.
  - intros Hin. apply list_elem_of_fmap in Hin as ([t' ks] & -> & Hin%elem_of_range). simpl in Ht.
    pose proof (groupKeysByTenant_spec (ExpectedKeys ems) t') as Hg. rewrite Ht, Hin in Hg. discriminate Hg.
Qed.
End Tenant.

(** ** On the reference store *)

Definition retried : list Emission :=
  [first_of sample_event;
   {| emEvent := retry_of sample_event (evTimestamp sample_event); emRetry := true; emUnique := false |}].

(** The store of tenant-alpha after the two puts and a flush. *)
Definition alpha : MemStore.state := (Flush (I := MemStore.steady)
  (Put (I := MemStore.steady) (emEvent (List.nth 1 retried (first_of sample_event)))
    (Put (I := MemStore.steady) sample_event MemStore.empty).2).2).2.

Definition alpha_only : gmap string MemStore.state := {[ "tenant-alpha" := alpha ]}.

Lemma verify_sound_witness : exists res p',
  Verify (I := MemStore.steady) (MR := canonical_range) 3 retried alpha_only = Some ((res, None), p') /\
  UniqueKeysExpected res = 1 /\ TailCountByTenant res !! "tenant-alpha" = Some 2.
Proof.
  assert (Hp : forall id d, alpha_only !! id = Some d ->
    unflushed (I := MemStore.steady) d = [] /\ (length (feed_log (I := MemStore.steady) d) < 3)%nat).
  { intros id d. unfold alpha_only. intros [<- <-]%lookup_singleton_Some. split; [by vm_compute|]. apply Nat.ltb_lt. by vm_compute. }
  destruct (verify_sound (I := MemStore.steady) (MR := canonical_range) (L := MemStore.steady_laws) 3 retried alpha_only Hp)
    as (res & e & p' & Hrun & Hok).
  assert (He : e = None).
  { enough (match Verify (I := MemStore.steady) (MR := canonical_range) 3 retried alpha_only with
            | Some ((_, None), _) => true | _ => false end = true) as H by (rewrite Hrun in H; by destruct e).
    by vm_compute. }
  subst e. exists res, p'. destruct (Hok eq_refl) as (_ & _ & Hu & Hall & _). split; [exact Hrun|]. split.
  - rewrite Hu. by vm_compute.
  - destruct (Hall "tenant-alpha") as (d & Hd & _ & _ & -> & _); [by vm_compute|].
    unfold alpha_only in Hd. apply lookup_singleton_Some in Hd as [_ <-]. by vm_compute.
Defined.

(** A stray key of a tenant without events goes unnoticed. *)
Lemma stray_tenant_unseen_witness : keys_of "tenant-zulu" (ExpectedKeys retried) = [] /\ exists res p',
  Verify (I := MemStore.steady) (MR := canonical_range) 3 retried (<["tenant-zulu" := alpha]> alpha_only) = Some ((res, None), p').
Proof.
  assert (Hk : keys_of "tenant-zulu" (ExpectedKeys retried) = []) by (by vm_compute). split; [exact Hk|].
  pose proof (stray_tenant_unseen (I := MemStore.steady) (MR := canonical_range) 3 retried alpha_only "tenant-zulu" alpha Hk) as Hs.
  assert (H : match Verify (I := MemStore.steady) (MR := canonical_range) 3 retried alpha_only with
            | Some ((_, None), _) => true | _ => false end = true) by (by vm_compute).
  destruct (Verify (I := MemStore.steady) (MR := canonical_range) 3 retried alpha_only) as [[[res [e|]] p']|]; try discriminate H.
  eexists _, _. exact Hs.
Defined.
