(* ===== verification/Store.v ===== *)
(** * Store configuration (internal/pipeline/store.go)

    Backends, the environment the configuration is read from, retention bounds,
    prefixes, bucket URLs and cache directories.  The process environment is a
    [gmap] from names to values; an unset variable reads as "". *)

From S2P Require Import Prelude GoStrings GoTime.

(** [type Backend string]. *)
Definition Backend := string.
Definition BackendMemory : Backend := "memory".
Definition BackendMinIO : Backend := "minio".
Definition BackendTigris : Backend := "tigris".

Definition DefaultChangeFeedRetainFor : Z := 30 * 24 * hour.
Definition MaxChangeFeedRetainFor : Z := 365 * 24 * hour.

Definition DefaultCacheRoot : string := "data/cache/gedung-peristiwa".

Record StoreConfig := {
  cfgBackend : Backend;
  PrefixRoot : string;
  CacheRoot : string;
  MinEndpoint : string;
  MinBucket : string;
  TigrisBucket : string;
  ChangeFeedRetainFor : Z
}.

Abbreviation environ := (gmap string string).
Definition Getenv (env : environ) (key : string) : string := default "" (env !! key).
Definition Setenv (key v : string) (env : environ) : environ := <[key := v]> env.

Definition NormalizeChangeFeedRetainFor (d : Z) : Z :=
  if d <=? 0 then DefaultChangeFeedRetainFor
  else if MaxChangeFeedRetainFor <? d then MaxChangeFeedRetainFor
  else d.

Definition changeFeedRetainForFromEnv (env : environ) (key : string) : Z :=
  let v := Getenv env key in
  if bool_decide (v = "") then DefaultChangeFeedRetainFor
  else match ParseDuration v with
       | None => DefaultChangeFeedRetainFor
       | Some d => NormalizeChangeFeedRetainFor d
       end.

Definition envOr (env : environ) (key def : string) : string :=
  let v := Getenv env key in
  if bool_decide (v = "") then def else v.

Definition StoreConfigFromEnv (env : environ) (backend : Backend) (prefixSuffix : string) : StoreConfig := {|
  cfgBackend := backend;
  PrefixRoot := prefixSuffix;
  CacheRoot := DefaultCacheRoot;
  MinEndpoint := envOr env "MINIO_ENDPOINT" "localhost:9000";
  MinBucket := envOr env "MINIO_BUCKET" "gedung-peristiwa";
  TigrisBucket := envOr env "TIGRIS_BUCKET" (envOr env "MINIO_BUCKET" "gedung-peristiwa");
  ChangeFeedRetainFor := changeFeedRetainForFromEnv env "CHANGEFEED_RETAIN_FOR"
|}.

Definition tenantPrefix (tenantID suffix : string) : string :=
  if bool_decide (suffix = "") then tenantID else tenantID +:+ "-" +:+ suffix.

(** [if os.Getenv(dst) == "" { if v := os.Getenv(src); v != "" { os.Setenv(dst, v) } }] *)
Definition copy_unset (dst src : string) (env : environ) : environ :=
  if bool_decide (Getenv env dst = "") then
    let v := Getenv env src in
    if bool_decide (v = "") then env else Setenv dst v env
  else env.

Definition ensureS3Env (cfg : StoreConfig) (env : environ) : environ :=
  let env := copy_unset "AWS_ACCESS_KEY_ID" "MINIO_ACCESS_KEY" env in
  let env := copy_unset "AWS_SECRET_ACCESS_KEY" "MINIO_SECRET_KEY" env in
  let env :=
    if bool_decide (cfgBackend cfg = BackendMinIO) then
      let env := Setenv "AWS_S3_USE_PATH_STYLE" "true" env in
      if bool_decide (Getenv env "AWS_REGION" = "") then Setenv "AWS_REGION" "us-east-1" env else env
    else env in
  if bool_decide (Getenv env "AWS_REGION" = "") && bool_decide (cfgBackend cfg = BackendTigris)
  then Setenv "AWS_REGION" "auto" env else env.

Definition minioBucketURL (env : environ) (bucket endpoint : string) : string :=
  let region := envOr env "AWS_REGION" "us-east-1" in
  let ep := if negb (has_prefix endpoint "http://") && negb (has_prefix endpoint "https://")
            then "http://" +:+ endpoint else endpoint in
  "s3://" +:+ bucket +:+ "?endpoint=" +:+ ep +:+ "&region=" +:+ region +:+ "&use_path_style=true".

Definition tigrisBucketURL (env : environ) (bucket : string) : string :=
  let region := envOr env "AWS_REGION" "auto" in
  "s3://" +:+ bucket +:+ "?region=" +:+ region.

Definition cacheDir (cfg : StoreConfig) (tenantID : string) : string :=
  Join [CacheRoot cfg; tenantPrefix tenantID (PrefixRoot cfg)].

Definition AgencyCacheDir (cfg : StoreConfig) (agencyID : string) : string := cacheDir cfg agencyID.

(** ** Properties *)

Lemma Normalize_cases d :
  NormalizeChangeFeedRetainFor d =
    if decide (0 < d) then Z.min d MaxChangeFeedRetainFor else DefaultChangeFeedRetainFor.
Proof. unfold NormalizeChangeFeedRetainFor. destruct (decide (0 < d)); repeat case_match; bool_to_prop; lia. Qed.

(** Whatever the environment holds, the retention of a configuration read
    from it is positive and at most one year; the bounds are idempotent; and a
    positive duration below the 30-day default is kept as it is, not raised to
    the default. *)
Theorem retention_bounds env backend suffix d :
  0 < ChangeFeedRetainFor (StoreConfigFromEnv env backend suffix) <= MaxChangeFeedRetainFor /\
  NormalizeChangeFeedRetainFor (NormalizeChangeFeedRetainFor d) = NormalizeChangeFeedRetainFor d /\
  (NormalizeChangeFeedRetainFor d < DefaultChangeFeedRetainFor <-> 0 < d < DefaultChangeFeedRetainFor).
Proof.
  unfold StoreConfigFromEnv, changeFeedRetainForFromEnv; simpl ChangeFeedRetainFor.
  split_and!.
  1,2: repeat case_match; rewrite ?Normalize_cases; repeat case_decide;
    unfold MaxChangeFeedRetainFor, DefaultChangeFeedRetainFor, hour, minute, second; lia.
  all: rewrite ?Normalize_cases; repeat case_decide;
    unfold MaxChangeFeedRetainFor, DefaultChangeFeedRetainFor, hour, minute, second in *; lia.
Qed.

Lemma Getenv_Setenv k k' v env : Getenv (Setenv k v env) k' = if decide (k = k') then v else Getenv env k'.
Proof. unfold Getenv, Setenv. rewrite lookup_insert. by repeat case_decide. Qed.

Lemma Getenv_copy_unset dst src env k :
  Getenv (copy_unset dst src env) k =
    if decide (k = dst /\ Getenv env dst = "") then Getenv env src else Getenv env k.
Proof.
  unfold copy_unset. repeat case_bool_decide; rewrite ?Getenv_Setenv; repeat case_decide; subst; intuition congruence.
Qed.

(** The environment [ensureS3Env] leaves, variable by variable. *)
Definition ensured (cfg : StoreConfig) (env : environ) (k : string) : string :=
  let v := Getenv env k in
  if bool_decide (k = "AWS_S3_USE_PATH_STYLE") then
    if bool_decide (cfgBackend cfg = BackendMinIO) then "true" else v
  else if negb (bool_decide (v = "")) then v
  else if bool_decide (k = "AWS_ACCESS_KEY_ID") then Getenv env "MINIO_ACCESS_KEY"
  else if bool_decide (k = "AWS_SECRET_ACCESS_KEY") then Getenv env "MINIO_SECRET_KEY"
  else if bool_decide (k = "AWS_REGION") then
    if bool_decide (cfgBackend cfg = BackendMinIO) then "us-east-1"
    else if bool_decide (cfgBackend cfg = BackendTigris) then "auto" else v
  else v.

Lemma Getenv_ensureS3Env cfg env k : Getenv (ensureS3Env cfg env) k = ensured cfg env k.
Proof.
  unfold ensureS3Env, ensured.
  set (env2 := copy_unset "AWS_SECRET_ACCESS_KEY" _ _).
  assert (H2 : forall k, Getenv env2 k =
    if decide (k = "AWS_SECRET_ACCESS_KEY" /\ Getenv env k = "") then Getenv env "MINIO_SECRET_KEY"
    else if decide (k = "AWS_ACCESS_KEY_ID" /\ Getenv env k = "") then Getenv env "MINIO_ACCESS_KEY"
    else Getenv env k).
  { intros k'. unfold env2. rewrite !Getenv_copy_unset. repeat case_decide; naive_solver. }
  clearbody env2.
  assert (HR : Getenv env2 "AWS_REGION" = Getenv env "AWS_REGION") by by rewrite H2.
  assert (HB : BackendMinIO <> BackendTigris) by done.
  destruct (decide (cfgBackend cfg = BackendMinIO)) as [Em|Em], (decide (cfgBackend cfg = BackendTigris)) as [Et|Et];
    rewrite ?(bool_decide_eq_true_2 _ Em), ?(bool_decide_eq_false_2 _ Em), ?(bool_decide_eq_true_2 _ Et),
      ?(bool_decide_eq_false_2 _ Et), ?andb_false_r, ?andb_true_r; [congruence|..].
  all: rewrite ?Getenv_Setenv, ?HR; case_bool_decide as Hr; rewrite ?Getenv_Setenv, ?HR, ?H2;
    repeat (case_bool_decide; simpl); repeat case_decide; simplify_eq; intuition congruence.
Qed.

(** [ensureS3Env] never overrides a credential or a region that is set,
    takes unset credentials from the MinIO variables, leaves a region set for
    the two S3 backends, touches no other variable, and running it again changes
    nothing. *)
Theorem ensure_s3_env cfg env :
  (forall k, Getenv env k <> "" -> k <> "AWS_S3_USE_PATH_STYLE" -> Getenv (ensureS3Env cfg env) k = Getenv env k) /\
  (Getenv env "AWS_ACCESS_KEY_ID" = "" ->
     Getenv (ensureS3Env cfg env) "AWS_ACCESS_KEY_ID" = Getenv env "MINIO_ACCESS_KEY") /\
  (Getenv env "AWS_SECRET_ACCESS_KEY" = "" ->
     Getenv (ensureS3Env cfg env) "AWS_SECRET_ACCESS_KEY" = Getenv env "MINIO_SECRET_KEY") /\
  (cfgBackend cfg = BackendMinIO \/ cfgBackend cfg = BackendTigris -> Getenv (ensureS3Env cfg env) "AWS_REGION" <> "") /\
  (forall k, k ∉ ["AWS_ACCESS_KEY_ID"; "AWS_SECRET_ACCESS_KEY"; "AWS_S3_USE_PATH_STYLE"; "AWS_REGION"] ->
     Getenv (ensureS3Env cfg env) k = Getenv env k) /\
  (forall k, Getenv (ensureS3Env cfg (ensureS3Env cfg env)) k = Getenv (ensureS3Env cfg env) k).
Proof.
  repeat setoid_rewrite Getenv_ensureS3Env. unfold ensured. split_and!.
  - intros k Hv Hk. by repeat (case_bool_decide; simpl).
  - intros ->. done.
  - intros ->. done.
  - unfold BackendMinIO, BackendTigris. intros H. repeat (case_bool_decide; simpl); naive_solver.
  - intros k Hk. repeat (case_bool_decide; simpl); set_solver.
  - intros k. fold (ensured cfg (ensureS3Env cfg env) k). fold (ensured cfg env k).
    assert (HM : forall m, m ∈ ["MINIO_ACCESS_KEY"; "MINIO_SECRET_KEY"] ->
              Getenv (ensureS3Env cfg env) m = Getenv env m).
    { intros m Hm. rewrite Getenv_ensureS3Env. unfold ensured. repeat (case_bool_decide; simpl); set_solver. }
    unfold ensured at 1. rewrite (HM "MINIO_ACCESS_KEY"), (HM "MINIO_SECRET_KEY") by set_solver.
    rewrite Getenv_ensureS3Env. unfold ensured. repeat (case_bool_decide; simpl in *); congruence.
Qed.

Definition minio_env : environ := {[ "MINIO_ACCESS_KEY" := "minioadmin"; "AWS_SECRET_ACCESS_KEY" := "kept" ]}.

Lemma ensure_s3_env_witness :
  Getenv (ensureS3Env (StoreConfigFromEnv minio_env BackendMinIO "") minio_env) "AWS_ACCESS_KEY_ID" = "minioadmin" /\
  Getenv (ensureS3Env (StoreConfigFromEnv minio_env BackendMinIO "") minio_env) "AWS_SECRET_ACCESS_KEY" = "kept".
Proof.
  destruct (ensure_s3_env (StoreConfigFromEnv minio_env BackendMinIO "") minio_env) as (Hkeep & Hid & _).
  split; [rewrite Hid by (vm_compute; reflexivity); vm_compute; reflexivity|].
  rewrite Hkeep by (vm_compute; discriminate). vm_compute; reflexivity.
Defined.
