(* ===== verification/PrefixDB.v ===== *)
(** * Opening and closing prefixes (internal/pipeline/db.go, tenant.go)

    The life cycle of the handles of an IsleDB prefix.  Every call on IsleDB,
    the blob store or the file system is recorded with its outcome, and the
    outcome is any function [answer] of the calls so far and the call: a theorem
    of this file holds whatever fails, and whenever.  [live] reads the open
    handles off the record of calls. *)

From S2P Require Import Prelude GoStrings GoTime Store.

(** ** Handles and calls *)

Inductive kind := KBucket | KDB | KWriter | KReader | KMaintenance | KLoop.

#[export] Instance kind_eq_dec : EqDecision kind.
Proof. solve_decision. Defined.

#[export] Instance kind_countable : Countable kind.
Proof.
  refine (inj_countable' (fun k => match k with KBucket => 0 | KDB => 1 | KWriter => 2 | KReader => 3
                                          | KMaintenance => 4 | KLoop => 5 end%nat)
            (fun n => match n with 0 => KBucket | 1 => KDB | 2 => KWriter | 3 => KReader
                                 | 4 => KMaintenance | _ => KLoop end%nat) _).
  by intros [].
Defined.

(** A handle of the prefix with the given id; [KLoop] is the goroutine that
    runs [Maintenance.Run]. *)
Definition handle : Type := kind * string.

Inductive call :=
  | EnsureS3Bucket (url : string)
  | Open (h : handle) (arg : string)   (* arg: URL, directory or options, as text *)
  | MkdirAll (dir : string)
  | WriterFlush (id : string)
  | MaintenanceRunOnce (id : string)
  | CloseH (h : handle).

Record world := { wEnv : environ; wCalls : list (call * option error) }.

Definition live_step (s : gset handle) (c : call * option error) : gset handle :=
  match c with
  | (Open h _, None) => s ∪ {[h]}
  | (CloseH h, _) => s ∖ {[h]}
  | _ => s
  end.

(** The handles that are open after the recorded calls. *)
Definition live (w : world) : gset handle := foldl live_step ∅ (wCalls w).

Section Lifecycle.
Variable answer : list (call * option error) -> call -> option error.

Definition do_call (c : call) (w : world) : option error * world :=
  let e := answer (wCalls w) c in
  (e, {| wEnv := wEnv w; wCalls := wCalls w ++ [(c, e)] |}).

(** A call that cannot fail. *)
Definition note_call (c : call) (w : world) : world :=
  {| wEnv := wEnv w; wCalls := wCalls w ++ [(c, None)] |}.

Definition with_env (f : environ -> environ) (w : world) : world :=
  {| wEnv := f (wEnv w); wCalls := wCalls w |}.

(** ** Opening *)

(** bucket.go: [ensureS3Bucket] reads the bucket's name back from the URL, sets
    the environment up, and talks to S3 in one call.  Bucket has the reading and
    the conversation; here a URL that does not parse is left out. *)
Definition ensureS3Bucket (cfg : StoreConfig) (url bucket : string) (w : world) : option error * world :=
  if bool_decide (bucket = "") then (Some (Errorf ("bucket name missing in url " +:+ quote url)), w)
  else do_call (EnsureS3Bucket url) (with_env (ensureS3Env cfg) w).

Definition ensureBucket (cfg : StoreConfig) (w : world) : option error * world :=
  if bool_decide (cfgBackend cfg = BackendMemory) then (None, w)
  else if bool_decide (cfgBackend cfg = BackendMinIO) then
    ensureS3Bucket cfg (minioBucketURL (wEnv w) (MinBucket cfg) (MinEndpoint cfg)) (MinBucket cfg) w
  else if bool_decide (cfgBackend cfg = BackendTigris) then
    ensureS3Bucket cfg (tigrisBucketURL (wEnv w) (TigrisBucket cfg)) (TigrisBucket cfg) w
  else (Some (Errorf ("unknown backend " +:+ quote (cfgBackend cfg))), w).

(** The two S3 cases: [ensureS3Env], [ensureBucket], [isledb.Open]. *)
Definition open_s3 (cfg : StoreConfig) (prefixID : string) (url : environ -> string) (w : world) : result bool * world :=
  let w := with_env (ensureS3Env cfg) w in
  match ensureBucket cfg w with
  | (Some e, w) => (Err (Wrap "ensure bucket: " e), w)
  | (None, w) =>
      match do_call (Open (KDB, prefixID) (url (wEnv w))) w with
      | (Some e, w) => (Err e, w)
      | (None, w) => (Ok false, w)
      end
  end.

(** The result says whether a [closeBucket] function is returned. *)
Definition openIsleDB (cfg : StoreConfig) (prefixID : string) (w : world) : result bool * world :=
  if bool_decide (cfgBackend cfg = BackendMemory) then
    let w := note_call (Open (KBucket, prefixID) "memory") w in
    match do_call (Open (KDB, prefixID) (tenantPrefix prefixID (PrefixRoot cfg))) w with
    | (Some e, w) => let '(_, w) := do_call (CloseH (KBucket, prefixID)) w in (Err e, w)
    | (None, w) => (Ok true, w)
    end
  else if bool_decide (cfgBackend cfg = BackendMinIO) then
    open_s3 cfg prefixID (fun env => minioBucketURL env (MinBucket cfg) (MinEndpoint cfg)) w
  else if bool_decide (cfgBackend cfg = BackendTigris) then
    open_s3 cfg prefixID (fun env => tigrisBucketURL env (TigrisBucket cfg)) w
  else (Err (Errorf ("unknown backend " +:+ quote (cfgBackend cfg))), w).

Record PrefixOpenConfig := {
  ocStore : StoreConfig;
  ocPrefixID : string;
  FlushEvery : Z;
  Retention : bool;
  RunMaint : bool
}.

(** The handles are booleans: non-nil or nil. *)
Record PrefixDB := {
  pID : string;
  pPrefix : string;
  pDB : bool;
  pWriter : bool;
  pReader : bool;
  pMaintenance : bool;
  pCacheDir : string;
  pCloseBucket : bool;
  pMaintCancel : bool
}.

(** [_ = h.Close()], when there is something to close. *)
Definition close_ignored (present : bool) (h : handle) (w : world) : world :=
  if present then snd (do_call (CloseH h) w) else w.

(** The change-feed retention the maintenance is opened with. *)
Definition retain_for (cfg : PrefixOpenConfig) : string :=
  if Retention cfg then itoa (NormalizeChangeFeedRetainFor (ChangeFeedRetainFor (ocStore cfg))) else "".

Definition OpenPrefixDB (cfg : PrefixOpenConfig) (w : world) : result PrefixDB * world :=
  let id := ocPrefixID cfg in
  match openIsleDB (ocStore cfg) id w with
  | (Err e, w) => (Err (Wrap ("open db " +:+ id +:+ ": ") e), w)
  | (Ok closeBucket, w) =>
    let cache := cacheDir (ocStore cfg) id in
    let close_db w := close_ignored closeBucket (KBucket, id) (close_ignored true (KDB, id) w) in
    match do_call (MkdirAll cache) w with
    | (Some e, w) => (Err e, close_db w)
    | (None, w) =>
      match do_call (Open (KWriter, id) (itoa (FlushEvery cfg))) w with
      | (Some e, w) => (Err (Wrap ("open writer " +:+ id +:+ ": ") e), close_db w)
      | (None, w) =>
        match do_call (Open (KReader, id) cache) w with
        | (Some e, w) =>
            (Err (Wrap ("open reader " +:+ id +:+ ": ") e), close_db (close_ignored true (KWriter, id) w))
        | (None, w) =>
          match do_call (Open (KMaintenance, id) (retain_for cfg)) w with
          | (Some e, w) =>
              (Err (Wrap ("open maintenance " +:+ id +:+ ": ") e),
               close_db (close_ignored true (KWriter, id) (close_ignored true (KReader, id) w)))
          | (None, w) =>
              let w := if RunMaint cfg then note_call (Open (KLoop, id) "") w else w in
              (Ok {| pID := id; pPrefix := tenantPrefix id (PrefixRoot (ocStore cfg));
                     pDB := true; pWriter := true; pReader := true; pMaintenance := true;
                     pCacheDir := cache; pCloseBucket := closeBucket; pMaintCancel := RunMaint cfg |}, w)
          end
        end
      end
    end
  end.

(** [OpenReaderDB]: the result is the [closeBucket] flag its closer captures. *)
Definition OpenReaderDB (cfg : StoreConfig) (prefixID : string) (w : world) : result bool * world :=
  match openIsleDB cfg prefixID w with
  | (Err e, w) => (Err e, w)
  | (Ok closeBucket, w) =>
    let cache := cacheDir cfg prefixID in
    let close_db w := close_ignored closeBucket (KBucket, prefixID) (close_ignored true (KDB, prefixID) w) in
    match do_call (MkdirAll cache) w with
    | (Some e, w) => (Err e, close_db w)
    | (None, w) =>
      match do_call (Open (KReader, prefixID) cache) w with
      | (Some e, w) => (Err e, close_db w)
      | (None, w) => (Ok closeBucket, w)
      end
    end
  end.

(** The function [OpenReaderDB] returns: it stops at the first error. *)
Definition reader_closer (prefixID : string) (closeBucket : bool) (w : world) : option error * world :=
  match do_call (CloseH (KReader, prefixID)) w with
  | (Some e, w) => (Some e, w)
  | (None, w) =>
    match do_call (CloseH (KDB, prefixID)) w with
    | (Some e, w) => (Some e, w)
    | (None, w) => if closeBucket then do_call (CloseH (KBucket, prefixID)) w else (None, w)
    end
  end.

(** ** Closing *)

(** [if present { keep(c) }] *)
Definition keep (present : bool) (c : call) (s : option error * world) : option error * world :=
  if present then let '(e, w) := do_call c (snd s) in (keep_first (fst s) e, w) else s.

(** [if present { _, _ = c }] *)
Definition run_ignored (present : bool) (c : call) (s : option error * world) : option error * world :=
  if present then (fst s, snd (do_call c (snd s))) else s.

Definition Close (p : PrefixDB) (w : world) : option error * world :=
  let w := if pMaintCancel p then note_call (CloseH (KLoop, pID p)) w else w in
  let s := (None, w) in
  let s := keep (pWriter p) (WriterFlush (pID p)) s in
  let s := run_ignored (pMaintenance p) (MaintenanceRunOnce (pID p)) s in
  let s := keep (pMaintenance p) (CloseH (KMaintenance, pID p)) s in
  let s := keep (pWriter p) (CloseH (KWriter, pID p)) s in
  let s := keep (pReader p) (CloseH (KReader, pID p)) s in
  let s := keep (pDB p) (CloseH (KDB, pID p)) s in
  keep (pCloseBucket p) (CloseH (KBucket, pID p)) s.

(** ** All tenants (tenant.go) *)

Definition tenantFlushInterval : Z := 2 * second.

Definition openTenant (cfg : StoreConfig) (tenantID : string) (w : world) : result PrefixDB * world :=
  OpenPrefixDB {|
    ocStore := cfg; ocPrefixID := tenantID; FlushEvery := tenantFlushInterval;
    Retention := negb (bool_decide (cfgBackend cfg = BackendMemory));
    RunMaint := negb (bool_decide (cfgBackend cfg = BackendMemory))
  |} w.

Context {MR : MapRange}.

(** [for _, tp := range p.tenants { if err := tp.Close(ctx); err != nil && first == nil { first = err } }] *)
Definition CloseAll (tenants : gmap string PrefixDB) (w : world) : option error * world :=
  foldl (fun s (kv : string * PrefixDB) =>
           let '(e, w) := Close (snd kv) (snd s) in (keep_first (fst s) e, w))
        (None, w) (range tenants).

(** Opening one prefix after the other into a map; when one fails to open, those
    opened before it are closed. *)
Fixpoint open_all (open : string -> world -> result PrefixDB * world) (ids : list string) (opened : gmap string PrefixDB) (w : world)
  : result (gmap string PrefixDB) * world :=
  match ids with
  | [] => (Ok opened, w)
  | id :: ids =>
      match open id w with
      | (Err e, w) => let '(_, w) := CloseAll opened w in (Err e, w)
      | (Ok tp, w) => open_all open ids (<[id := tp]> opened) w
      end
  end.

Definition open_tenants (cfg : StoreConfig) (tenantIDs : list string) (tenants : gmap string PrefixDB) (w : world)
  : result (gmap string PrefixDB) * world := open_all (openTenant cfg) tenantIDs tenants w.

Definition New (cfg : StoreConfig) (tenantIDs : list string) (w : world) : result (gmap string PrefixDB) * world :=
  open_tenants cfg tenantIDs ∅ w.

(** ** The handles that stay open *)

Lemma live_app w c env : live {| wEnv := env; wCalls := wCalls w ++ [c] |} = live_step (live w) c.
Proof. unfold live. simpl. by rewrite foldl_app. Qed.

Lemma do_call_live c w e w' : do_call c w = (e, w') -> live w' = live_step (live w) (c, e).
Proof. unfold do_call. intros [= <- <-]. apply live_app. Qed.

Lemma note_call_calls c w : wCalls (note_call c w) = wCalls w ++ [(c, None)].
Proof. done. Qed.

Lemma do_call_answer c w e w' : do_call c w = (e, w') ->
  answer (wCalls w) c = e /\ wCalls w' = wCalls w ++ [(c, e)].
Proof. unfold do_call. by intros [= <- <-]. Qed.

Lemma note_call_live c w : live (note_call c w) = live_step (live w) (c, None).
Proof. apply live_app. Qed.

Lemma live_with_env f w : live (with_env f w) = live w.
Proof. done. Qed.

Lemma close_ignored_live b h w : live (close_ignored b h w) = if b then live w ∖ {[h]} else live w.
Proof. unfold close_ignored. destruct b; [|done]. by apply live_app. Qed.

#[local] Opaque do_call note_call close_ignored.

Ltac step_call :=
  match goal with
  | |- context [do_call ?c ?w] =>
      let e := fresh "e" in let w' := fresh "w" in let H := fresh "Hlive" in
      destruct (do_call c w) as [e w'] eqn:H; apply do_call_live in H; simpl in H
  end.

(** No handle of the prefix is open. *)
Definition closed (id : string) (w : world) : Prop := forall k, (k, id) ∉ live w.

Lemma ensureBucket_live cfg w : live (snd (ensureBucket cfg w)) = live w.
Proof.
  assert (Hb : forall url b, live (snd (ensureS3Bucket cfg url b w)) = live w).
  { intros url b. unfold ensureS3Bucket. case_bool_decide; [done|]. step_call. by rewrite live_with_env in Hlive. }
  unfold ensureBucket. repeat case_bool_decide; simpl; by rewrite ?Hb.
Qed.

(** What [openIsleDB] leaves open. *)
Definition db_handles (closeBucket : bool) (id : string) : gset handle :=
  {[ (KDB, id) ]} ∪ (if closeBucket then {[ (KBucket, id) ]} else ∅).

Lemma openIsleDB_live cfg id w : closed id w ->
  match openIsleDB cfg id w with
  | (Ok b, w') => live w' = live w ∪ db_handles b id
  | (Err _, w') => live w' = live w
  end.
Proof.
  intros Hc. unfold openIsleDB, open_s3, db_handles. pose proof (Hc KBucket). pose proof (Hc KDB).
  repeat case_bool_decide; [| | |done].
  1: { step_call. rewrite note_call_live in Hlive. simpl in Hlive.
       destruct e; simpl in *; [step_call|]; set_solver. }
  all: match goal with |- context [ensureBucket ?c ?w0] => pose proof (ensureBucket_live c w0) as Hb;
         destruct (ensureBucket c w0) as [[e|] w1] end; simpl in Hb; rewrite live_with_env in Hb; [done|];
    step_call; destruct e; simpl in *; set_solver.
Qed.

(** Equality of sets of handles, one handle at a time; [Hc] says that none of a
    prefix was open at the start. *)
Ltac handle_sets Hc :=
  repeat match goal with H : live _ = _ |- _ => rewrite H; clear H end;
  apply set_eq; intros [k i]; specialize (Hc k);
  rewrite ?elem_of_union, ?elem_of_difference, ?elem_of_union, ?elem_of_difference, ?elem_of_singleton, ?elem_of_empty;
  repeat rewrite ?elem_of_union, ?elem_of_difference, ?elem_of_singleton, ?elem_of_empty;
  match type of Hc with (_, ?id) ∉ _ => destruct (decide (i = id)) as [->|]; [destruct k|] end;
  intuition congruence.

(** The handles a [PrefixDB] holds. *)
Definition handles (p : PrefixDB) : gset handle :=
  (if pDB p then {[ (KDB, pID p) ]} else ∅) ∪ (if pWriter p then {[ (KWriter, pID p) ]} else ∅) ∪
  (if pReader p then {[ (KReader, pID p) ]} else ∅) ∪ (if pMaintenance p then {[ (KMaintenance, pID p) ]} else ∅) ∪
  (if pCloseBucket p then {[ (KBucket, pID p) ]} else ∅) ∪ (if pMaintCancel p then {[ (KLoop, pID p) ]} else ∅).

Lemma handles_id p k id : (k, id) ∈ handles p -> id = pID p.
Proof. unfold handles. repeat case_match; set_solver. Qed.

Lemma OpenPrefixDB_live cfg w : closed (ocPrefixID cfg) w ->
  match OpenPrefixDB cfg w with
  | (Ok p, w') => pID p = ocPrefixID cfg /\ live w' = live w ∪ handles p
  | (Err _, w') => live w' = live w
  end.
Proof.
  intros Hc. unfold closed in Hc. pose proof (openIsleDB_live (ocStore cfg) (ocPrefixID cfg) w Hc) as Ho. unfold OpenPrefixDB.
  destruct (openIsleDB _ _ w) as [[b|e] w1]; [|done]. unfold db_handles in Ho.
  step_call. destruct e; rewrite ?close_ignored_live; [by destruct b; handle_sets Hc|].
  step_call. destruct e; rewrite ?close_ignored_live; [by destruct b; handle_sets Hc|].
  step_call. destruct e; rewrite ?close_ignored_live; [by destruct b; handle_sets Hc|].
  step_call. destruct e; rewrite ?close_ignored_live; [by destruct b; handle_sets Hc|].
  split; [done|]. unfold handles; simpl.
  destruct (RunMaint cfg), b; rewrite ?note_call_live; simpl; handle_sets Hc.
Qed.

(** ** Closing runs every step *)

(** The steps of [Close] on the handles that are present, in order. *)
Definition close_steps (p : PrefixDB) : list call :=
  (if pWriter p then [WriterFlush (pID p)] else []) ++
  (if pMaintenance p then [MaintenanceRunOnce (pID p); CloseH (KMaintenance, pID p)] else []) ++
  (if pWriter p then [CloseH (KWriter, pID p)] else []) ++
  (if pReader p then [CloseH (KReader, pID p)] else []) ++
  (if pDB p then [CloseH (KDB, pID p)] else []) ++
  (if pCloseBucket p then [CloseH (KBucket, pID p)] else []).

Definition close_step (s : option error * world) (c : call) : option error * world :=
  match c with
  | MaintenanceRunOnce _ => run_ignored true c s
  | _ => keep true c s
  end.

(** The errors [Close] looks at: all but that of the maintenance pass. *)
Definition kept_errors (outs : list (call * option error)) : list error :=
  omap (fun ce => match fst ce with MaintenanceRunOnce _ => None | _ => snd ce end) outs.

Lemma Close_steps p w :
  Close p w = foldl close_step (None, if pMaintCancel p then note_call (CloseH (KLoop, pID p)) w else w) (close_steps p).
Proof.
  unfold Close, close_steps. generalize (if pMaintCancel p then note_call (CloseH (KLoop, pID p)) w else w).
  intros w'. by destruct (pWriter p), (pMaintenance p), (pReader p), (pDB p), (pCloseBucket p).
Qed.

Lemma close_steps_run cs first w :
  exists outs, wCalls (snd (foldl close_step (first, w) cs)) = wCalls w ++ outs /\ outs.*1 = cs /\
    fst (foldl close_step (first, w) cs) = (if first is Some _ then first else head (kept_errors outs)) /\
    live (snd (foldl close_step (first, w) cs)) = foldl live_step (live w) outs.
Proof.
  revert first w. induction cs as [|c cs IH]; intros first w; simpl.
  { exists []. rewrite app_nil_r. by destruct first. }
  destruct (do_call c w) as [e w1] eqn:Hd.
  assert (Hs : close_step (first, w) c =
            (match c with MaintenanceRunOnce _ => first | _ => keep_first first e end, w1)).
  { unfold close_step, keep, run_ignored. destruct c; simpl; by rewrite Hd. }
  rewrite Hs. clear Hs.
  destruct (IH (match c with MaintenanceRunOnce _ => first | _ => keep_first first e end) w1) as (outs & Hw & Hc & Hf & Hl).
  exists ((c, e) :: outs). pose proof (do_call_live c w e w1 Hd) as Hl1.
  apply do_call_answer in Hd as [_ Hw1].
  split_and!.
  - by rewrite Hw, Hw1, <-app_assoc.
  - by rewrite fmap_cons, Hc.
  - rewrite Hf. unfold kept_errors. simpl. by destruct c, first, e.
  - rewrite Hl. simpl. by rewrite Hl1.
Qed.

Lemma Close_run p w :
  exists outs, wCalls (snd (Close p w)) =
      wCalls w ++ (if pMaintCancel p then [(CloseH (KLoop, pID p), None)] else []) ++ outs /\
    outs.*1 = close_steps p /\
    fst (Close p w) = head (kept_errors outs) /\ live (snd (Close p w)) = live w ∖ handles p.
Proof.
  rewrite Close_steps. set (w1 := if pMaintCancel p then _ else _).
  destruct (close_steps_run (close_steps p) None w1) as (outs & Hw & Hc & Hf & Hl).
  exists outs. split_and!; [|done..|].
  { rewrite Hw, app_assoc. f_equal. unfold w1. destruct (pMaintCancel p); [apply note_call_calls|by rewrite app_nil_r]. }
  rewrite Hl.
  assert (Hw1 : live w1 = live w ∖ (if pMaintCancel p then {[ (KLoop, pID p) ]} else ∅)).
  { unfold w1. destruct (pMaintCancel p); [by rewrite note_call_live|set_solver]. }
  assert (Hg : forall l s, foldl live_step s l = foldl (fun s c => if c is CloseH h then s ∖ {[h]} else s) s l.*1 \/
                           exists h a, (Open h a) ∈ l.*1).
  { induction l as [|[c e] l IH]; intros s; [by left|]. rewrite !fmap_cons. cbn [foldl].
    destruct (IH (live_step s (c, e))) as [->|(h & a & ?)]; [|right; set_solver].
    destruct c as [|h a|?|?|?|h]; [by left|right; set_solver|by left..]. }
  destruct (Hg outs (live w1)) as [->|(h & a & Ho)].
  2:{ exfalso. rewrite Hc in Ho. revert Ho. unfold close_steps. clear. repeat case_match; set_solver. }
  rewrite Hc, Hw1. unfold close_steps, handles. clear. apply set_eq. intros x.
  destruct (pWriter p), (pMaintenance p), (pReader p), (pDB p), (pCloseBucket p), (pMaintCancel p); simpl; set_solver.
Qed.

(** ** All tenants *)

(** [h] belongs to one of the open tenants. *)
Definition held (tenants : gmap string PrefixDB) (h : handle) : Prop :=
  exists id p, tenants !! id = Some p /\ h ∈ handles p.

Lemma CloseAll_live tenants w h :
  h ∈ live (snd (CloseAll tenants w)) <-> h ∈ live w /\ ~ held tenants h.
Proof.
  assert (Hh : held tenants h <-> exists kv, kv ∈ range tenants /\ h ∈ handles (snd kv)).
  { unfold held. split.
    - intros (id & p & Hp & Hin). exists (id, p). by rewrite elem_of_range.
    - intros ([id p] & Hp & Hin). exists id, p. by rewrite elem_of_range in Hp. }
  rewrite Hh. unfold CloseAll. generalize (range tenants) (@None error). clear Hh.
  intros l. revert w. induction l as [|kv l IH]; intros w first; cbn [foldl].
  { simpl. split; [|tauto]. intros Hw. split; [done|]. intros (? & ?%elem_of_nil & _). done. }
  simpl. destruct (Close_run (snd kv) w) as (_ & _ & _ & _ & Hl).
  destruct (Close (snd kv) w) as [e w1]. simpl in Hl. rewrite IH, Hl. clear IH.
  rewrite elem_of_difference. split.
  - intros [[Hw Hn] Hl']. split; [done|]. intros (kv' & [->|Hin]%elem_of_cons & Hk); [done|eauto].
  - intros [Hw Hn]. split_and!; [done| |]; [intros Hk|intros (kv' & Hin & Hk)]; apply Hn;
      eexists; (split; [|exact Hk]); by (left || right).
Qed.

Lemma held_insert tenants id p h : tenants !! id = None ->
  held (<[id := p]> tenants) h <-> h ∈ handles p \/ held tenants h.
Proof.
  intros Hn. unfold held. split.
  - intros (id' & p' & [[_ <-]|[_ Hp]]%lookup_insert_Some & Hh); [by left|right; eauto].
  - intros [Hh|(id' & p' & Hp & Hh)]; [exists id, p|exists id', p']; (split; [|done]).
    + by rewrite lookup_insert_eq.
    + rewrite lookup_insert_ne; [done|]. intros ->. congruence.
Qed.

(** The tenants opened so far, over a world whose open handles were [base]. *)
Definition tenants_ok (base : gset handle) (tenants : gmap string PrefixDB) (w : world) : Prop :=
  (forall id p, tenants !! id = Some p -> pID p = id) /\
  (forall id p k, tenants !! id = Some p -> (k, id) ∉ base) /\
  (forall h, h ∈ live w <-> h ∈ base \/ held tenants h).

Lemma tenants_ok_close base tenants w : tenants_ok base tenants w -> live (snd (CloseAll tenants w)) = base.
Proof.
  intros (Hid & Hfresh & Hl). apply set_eq. intros h. rewrite CloseAll_live, Hl. split; [tauto|].
  intros Hb. split; [by left|]. intros (id & p & Hp & Hh). destruct h as [k i].
  apply handles_id in Hh as ->. rewrite (Hid id p Hp) in Hb. by apply (Hfresh id p k).
Qed.

(** An operation that opens the prefix it is given, or nothing. *)
Definition opens (open : string -> world -> result PrefixDB * world) : Prop := forall id w, closed id w ->
  match open id w with
  | (Ok p, w') => pID p = id /\ live w' = live w ∪ handles p
  | (Err _, w') => live w' = live w
  end.

Lemma open_all_ok open base ids tenants w : opens open ->
  tenants_ok base tenants w -> NoDup ids ->
  (forall id, id ∈ ids -> tenants !! id = None /\ forall k, (k, id) ∉ base) ->
  match open_all open ids tenants w with
  | (Ok tenants', w') => tenants_ok base tenants' w' /\ dom tenants' = dom tenants ∪ list_to_set ids
  | (Err _, w') => live w' = base
  end.
Proof.
  intros Hopen. revert tenants w. induction ids as [|id ids IH]; intros tenants w Hok Hnd Hids; cbn [open_all].
  { split; [done|]. set_solver. }
  apply NoDup_cons in Hnd as [Hnew Hnd]. destruct (Hids id) as [Hnone Hbase]; [left|].
  destruct Hok as (Hid & Hfresh & Hl).
  assert (Hc : closed id w).
  { intros k Hk. apply Hl in Hk as [Hk|(id' & p & Hp & Hh)]; [by apply (Hbase k)|].
    apply handles_id in Hh. rewrite (Hid _ _ Hp) in Hh. congruence. }
  pose proof (Hopen id w Hc) as Ho. destruct (open id w) as [[p|e] w1].
  - destruct Ho as [Hp Hl1].
    assert (Hok : tenants_ok base (<[id := p]> tenants) w1).
    { split_and!.
      - intros id' p' [[<- <-]|[? ?]]%lookup_insert_Some; [done|by apply Hid].
      - intros id' p' k [[<- <-]|[? ?]]%lookup_insert_Some; [apply Hbase|by eapply Hfresh].
      - intros h. rewrite Hl1, elem_of_union, Hl. rewrite held_insert by done. tauto. }
    specialize (IH _ w1 Hok Hnd). rewrite dom_insert_L in IH.
    assert (Hrest : forall id', id' ∈ ids -> <[id := p]> tenants !! id' = None /\ forall k, (k, id') ∉ base).
    { intros id' Hin. rewrite lookup_insert_ne by (intros ->; done). apply Hids. by right. }
    specialize (IH Hrest). destruct (open_all open ids _ w1) as [[t|e] w2]; [|done].
    destruct IH as [IH Hdom]. split; [done|]. rewrite Hdom. set_solver.
  - match goal with |- context [CloseAll tenants w1] =>
      pose proof (tenants_ok_close base tenants w1) as Hcl; destruct (CloseAll tenants w1) as [e' w2] end.
    apply Hcl. split_and!; [done..|]. intros h. rewrite Ho. apply Hl.
Qed.

(** Opening all prefixes from nothing. *)
Lemma open_all_no_leak open ids w : opens open -> NoDup ids -> (forall id, id ∈ ids -> closed id w) ->
  match open_all open ids ∅ w with
  | (Ok tenants, w') => dom tenants = list_to_set ids /\ live (snd (CloseAll tenants w')) = live w
  | (Err _, w') => live w' = live w
  end.
Proof.
  intros Ho Hnd Hc. assert (H0 : tenants_ok (live w) ∅ w).
  { split_and!; [done..|]. intros h. split; [by left|]. intros [?|(? & ? & ? & _)]; done. }
  pose proof (open_all_ok open (live w) ids ∅ w Ho H0 Hnd (fun id Hid => conj (lookup_empty id) (Hc id Hid))) as H.
  destruct (open_all open ids ∅ w) as [[t|e] w']; [|done]. destruct H as [Hok Hdom].
  split; [set_solver|by apply tenants_ok_close].
Qed.

(** Whatever call fails, and wherever: [OpenPrefixDB] either opens all the
    handles of its [PrefixDB], or returns an error with every handle it had
    opened closed again. *)
Theorem open_prefix_no_leak cfg w : closed (ocPrefixID cfg) w ->
  match OpenPrefixDB cfg w with
  | (Ok p, w') =>
      pID p = ocPrefixID cfg /\ live w' = live w ∪ handles p /\
      {[ (KDB, pID p); (KWriter, pID p); (KReader, pID p); (KMaintenance, pID p) ]} ⊆ handles p
  | (Err _, w') => live w' = live w
  end.
Proof.
  intros Hc. pose proof (OpenPrefixDB_live cfg w Hc) as Ho.
  destruct (OpenPrefixDB cfg w) as [[p|e] w'] eqn:E; [|done]. destruct Ho as [Hid Hl]. split_and!; [done..|].
  revert E. unfold OpenPrefixDB. repeat case_match; intros [= <- <-]; unfold handles; simpl; set_solver.
Qed.

(** C15: [Close] runs every shutdown step on the handles it has, in order and
    whatever fails before it; it returns the first error of a step, the
    maintenance pass apart, whose error is dropped; and afterwards none of its
    handles is open. *)
Theorem close_runs_every_step p w :
  exists outs, wCalls (snd (Close p w)) =
      wCalls w ++ (if pMaintCancel p then [(CloseH (KLoop, pID p), None)] else []) ++ outs /\
    outs.*1 = close_steps p /\
    fst (Close p w) = head (kept_errors outs) /\ live (snd (Close p w)) = live w ∖ handles p.
Proof. exact (Close_run p w). Qed.

(** When only the maintenance pass fails, [Close] returns nil, although its
    comment says that it returns the first error seen. *)
Theorem maintenance_error_dropped p w :
  (forall calls c, match c with MaintenanceRunOnce _ => False | _ => True end -> answer calls c = None) ->
  fst (Close p w) = None.
Proof.
  intros Ha. rewrite Close_steps. generalize (if pMaintCancel p then note_call (CloseH (KLoop, pID p)) w else w).
  induction (close_steps p) as [|c cs IH]; intros w'; [done|]. cbn [foldl].
  assert (Hs : exists w1, close_step (None, w') c = (None, w1)); [|destruct Hs as [w1 ->]; apply IH].
  unfold close_step, keep, run_ignored. cbn [fst snd]. destruct (do_call c w') as [e w1] eqn:Hd.
  apply do_call_answer in Hd as [He _]. exists w1. destruct c; try done; rewrite Ha in He by done; by subst.
Qed.

Lemma New_no_leak cfg ids w :
  NoDup ids -> (forall id, id ∈ ids -> closed id w) ->
  match New cfg ids w with
  | (Ok tenants, w') => dom tenants = list_to_set ids /\ live (snd (CloseAll tenants w')) = live w
  | (Err _, w') => live w' = live w
  end.
Proof.
  intros Hnd Hc. apply open_all_no_leak; [|done..]. intros id w0 Hid. unfold openTenant.
  match goal with |- context [OpenPrefixDB ?c w0] => exact (OpenPrefixDB_live c w0 Hid) end.
Qed.

(** C14: [New] opens one prefix per tenant, and closing the pipeline returns to
    the handles open before; when one tenant fails to open, the tenants opened
    before it are closed and nothing of the pipeline stays open. *)
Theorem new_pipeline_no_leak cfg ids w :
  NoDup ids -> (forall id, id ∈ ids -> closed id w) ->
  match New cfg ids w with
  | (Ok tenants, w') => dom tenants = list_to_set ids /\ live (snd (CloseAll tenants w')) = live w
  | (Err _, w') => live w' = live w
  end.
Proof. exact (New_no_leak cfg ids w). Qed.

(** The closer of a reader-only handle stops at the first error, unlike
    [Close]: when closing the reader fails, the database and the bucket stay
    open; it releases everything when the reader and the database close. *)
Theorem reader_closer_stops_early id b w :
  let '(e, w') := reader_closer id b w in
  (e = None -> live w' = live w ∖ ({[ (KReader, id) ]} ∪ db_handles b id)) /\
  (is_Some (answer (wCalls w) (CloseH (KReader, id))) -> is_Some e /\ live w' = live w ∖ {[ (KReader, id) ]}).
Proof.
  unfold reader_closer, db_handles.
  destruct (do_call (CloseH (KReader, id)) w) as [e w1] eqn:E.
  assert (He : answer (wCalls w) (CloseH (KReader, id)) = e) by exact (proj1 (do_call_answer _ _ _ _ E)).
  apply do_call_live in E; simpl in E. rewrite He.
  destruct e as [e|]; [by split|].
  step_call. destruct e as [e|]; [split; [done|by intros []%is_Some_None]|].
  destruct b; [step_call; destruct e|]; (split; [intros _ || done|by intros []%is_Some_None]); set_solver.
Qed.
End Lifecycle.

(** ** Concrete runs *)

Definition memory_store : StoreConfig := StoreConfigFromEnv ∅ BackendMemory "run1".
Definition minio_store : StoreConfig := StoreConfigFromEnv ∅ BackendMinIO "".

Definition start : world := {| wEnv := ∅; wCalls := [] |}.

(** Opening the reader of tenant-b fails, and so does closing any writer. *)
Definition flaky (_ : list (call * option error)) (c : call) : option error :=
  match c with
  | Open (KReader, "tenant-b") _ => Some (Errorf "no reader")
  | CloseH (KWriter, _) => Some (Errorf "fenced")
  | _ => None
  end.

Definition tenant_open (id : string) : PrefixOpenConfig :=
  {| ocStore := minio_store; ocPrefixID := id; FlushEvery := tenantFlushInterval; Retention := true; RunMaint := true |}.

Lemma open_prefix_no_leak_witness :
  closed "tenant-b" start /\
  live (snd (OpenPrefixDB flaky (tenant_open "tenant-b") start)) = live start.
Proof.
  assert (Hc : closed "tenant-b" start) by (intros k; apply not_elem_of_empty).
  split; [exact Hc|]. pose proof (open_prefix_no_leak flaky (tenant_open "tenant-b") start Hc) as H.
  destruct (OpenPrefixDB flaky (tenant_open "tenant-b") start) as [[p|e] w'] eqn:E; [|exact H].
  vm_compute in E. discriminate E.
Defined.

Lemma new_pipeline_no_leak_witness :
  fst (New flaky (MR := canonical_range) memory_store ["tenant-a"; "tenant-b"; "tenant-c"] start) =
    Err (Wrap "open reader tenant-b: " (Errorf "no reader")) /\
  live (snd (New flaky (MR := canonical_range) memory_store ["tenant-a"; "tenant-b"; "tenant-c"] start)) = ∅.
Proof.
  assert (Hnd : NoDup ["tenant-a"; "tenant-b"; "tenant-c"]) by (apply (bool_decide_unpack _); by vm_compute).
  assert (Hc : forall id, id ∈ ["tenant-a"; "tenant-b"; "tenant-c"] -> closed id start)
    by (intros id _ k; apply not_elem_of_empty).
  pose proof (new_pipeline_no_leak flaky (MR := canonical_range) memory_store _ start Hnd Hc) as H.
  destruct (New flaky memory_store ["tenant-a"; "tenant-b"; "tenant-c"] start) as [[p|e] w'] eqn:E.
  - vm_compute in E. discriminate E.
  - split; [vm_compute in E; injection E as <- _; reflexivity|exact H].
Defined.

(** Only the maintenance pass fails, and it is run. *)
Definition stale_maintenance (_ : list (call * option error)) (c : call) : option error :=
  match c with MaintenanceRunOnce _ => Some (Errorf "fenced") | _ => None end.

Definition maintenance_failed (ce : call * option error) : bool :=
  match ce with (MaintenanceRunOnce _, Some _) => true | _ => false end.

Lemma maintenance_error_dropped_witness :
  let w := snd (OpenPrefixDB stale_maintenance (tenant_open "tenant-a") start) in
  match fst (OpenPrefixDB stale_maintenance (tenant_open "tenant-a") start) with
  | Ok p => fst (Close stale_maintenance p w) = None /\
      existsb maintenance_failed (wCalls (snd (Close stale_maintenance p w))) = true
  | Err _ => False
  end.
Proof.
  intros w.
  assert (H : match fst (OpenPrefixDB stale_maintenance (tenant_open "tenant-a") start) with
    | Ok p => existsb maintenance_failed (wCalls (snd (Close stale_maintenance p w))) | Err _ => false end = true)
    by (vm_compute; reflexivity).
  destruct (fst (OpenPrefixDB stale_maintenance (tenant_open "tenant-a") start)) as [p|e]; [|discriminate H].
  split; [|exact H]. apply (maintenance_error_dropped stale_maintenance). by intros calls [].
Defined.
