(* ===== verification/Bucket.v ===== *)
(** * Creating the bucket (internal/pipeline/bucket.go)

    [ensureS3Bucket] reads the bucket, the endpoint and the region back from the
    URL that store.go prints, and asks S3 to create the bucket.  What it uses of
    [net/url] is spelled out, hosts in brackets apart (no bucket has such a name);
    the AWS client is a parameter.  PrefixDB has the
    same function with this conversation as one call. *)

From Stdlib Require Import Ascii.
From S2P Require Import Prelude GoStrings GoTime Store PrefixDB.

(** ** net/url *)

Definition code (c : ascii) : N := N_of_ascii c.
Definition in_codes (lo hi : N) (c : ascii) : bool := ((lo <=? code c) && (code c <=? hi))%N.
Definition alnum (c : ascii) : bool := in_codes 48 57 c || in_codes 65 90 c || in_codes 97 122 c.
Definition one_of (chars : string) (c : ascii) : bool := has_byte c chars.

Definition unhex (c : ascii) : option N :=
  if in_codes 48 57 c then Some (code c - 48)%N
  else if in_codes 97 102 c then Some (code c - 87)%N
  else if in_codes 65 70 c then Some (code c - 55)%N
  else None.

(** [unescape] of a query component ([plus]: a plus is a space) or of a path. *)
Fixpoint unescape (plus : bool) (s : string) : option string :=
  match s with
  | "" => Some ""
  | String c r =>
      if bool_decide (c = "%"%char) then
        match r with
        | String a (String b r) =>
            match unhex a, unhex b, unescape plus r with
            | Some x, Some y, Some r => Some (String (ascii_of_N (16 * x + y)) r)
            | _, _, _ => None
            end
        | _ => None
        end
      else match unescape plus r with
           | Some r => Some (String (if plus && bool_decide (c = "+"%char) then " "%char else c) r)
           | None => None
           end
  end.

(** [unescape] of a host: of the ASCII characters only [%25] may be escaped, and
    some may not occur. *)
Fixpoint unescape_host (s : string) : option string :=
  match s with
  | "" => Some ""
  | String c r =>
      if bool_decide (c = "%"%char) then
        match r with
        | String a (String b r) =>
            match unhex a, unhex b, unescape_host r with
            | Some x, Some y, Some r =>
                if ((x <? 8) && negb ((x =? 2) && (y =? 5)))%N then None
                else Some (String (ascii_of_N (16 * x + y)) r)
            | _, _, _ => None
            end
        | _ => None
        end
      else if in_codes 128 255 c || alnum c || one_of "-_.~!$&'()*+,;=:[]<>" c || bool_decide (code c = 34%N)
      then match unescape_host r with Some r => Some (String c r) | None => None end
      else None
  end.

(** [strings.LastIndex(s, c)], as the parts before and after. *)
Fixpoint cut_last (c : ascii) (s : string) : option (string * string) :=
  match s with
  | "" => None
  | String d r =>
      match cut_last c r with
      | Some (a, b) => Some (String d a, b)
      | None => if bool_decide (d = c) then Some ("", r) else None
      end
  end.

(** [parseHost].  A host in brackets, an IPv6 address, is outside the model: it
    is refused here, where [net/url] would check the address. *)
Definition parseHost (host : string) : option string :=
  if has_prefix host "[" then None else
  match cut_last ":" host with
  | Some (_, port) => if all_bytes (in_codes 48 57) port then unescape_host host else None
  | None => unescape_host host
  end.

Definition valid_userinfo (s : string) : bool :=
  all_bytes (fun c => alnum c || one_of "-._:~!$&'()*+,;=%@" c) s &&
  match unescape false s with Some _ => true | None => false end.

Definition parseAuthority (authority : string) : option string :=
  match cut_last "@" authority with
  | None => parseHost authority
  | Some (userinfo, host) =>
      match parseHost host with
      | Some h => if valid_userinfo userinfo then Some h else None
      | None => None
      end
  end.

(** A URL that begins with [s3://], as those of store.go do: host and query. *)
Record URL := { uHost : string; RawQuery : string }.

Definition url_error (url : string) : result URL := Err (Errorf ("parse " +:+ quote url)).

Definition strip_s3 (url : string) : string := String.substring 5 (String.length url - 5) url.

(** What [stringContainsCTLByte] looks for, in what precedes the fragment. *)
Definition no_control (c : ascii) : bool := negb (in_codes 0 31 c || bool_decide (code c = 127%N)).

Definition Parse (url : string) : result URL :=
  let '(u, frag) := str_cut "#" url in
  if negb (all_bytes no_control u) then url_error url else
  let '(rest, query) := str_cut "?" (strip_s3 u) in
  let '(authority, path) := str_cut "/" rest in
  match parseAuthority authority, unescape false (default "" path), unescape false (default "" frag) with
  | Some host, Some _, Some _ => Ok {| uHost := host; RawQuery := default "" query |}
  | _, _, _ => url_error url
  end.

(** [u.Query()]: the pairs that parse. *)
Definition query_pair (s : string) : option (string * string) :=
  if has_byte ";" s || bool_decide (s = "") then None else
  let '(k, v) := str_cut "=" s in
  match unescape true k, unescape true (default "" v) with
  | Some k, Some v => Some (k, v)
  | _, _ => None
  end.
Definition Query (u : URL) : list (string * string) := omap query_pair (split_all "&" (RawQuery u)).

(** [Values.Get]: the first value. *)
Fixpoint Get (key : string) (pairs : list (string * string)) : string :=
  match pairs with
  | [] => ""
  | (k, v) :: pairs => if bool_decide (k = key) then v else Get key pairs
  end.

(** ** bucket.go *)

(** The settings of the client. *)
Record s3_options := {
  optRegion : string;
  optKeyID : string;
  optSecret : string;
  BaseEndpoint : option string;
  UsePathStyle : bool
}.

Section bucket.

(** The AWS library: loading the default configuration for a region and
    credentials, creating a bucket, and the code of an API error. *)
Variable LoadDefaultConfig : string -> string -> string -> option error.
Variable CreateBucket : s3_options -> string -> option error.
Variable ErrorCode : error -> option string.

Definition config_of (b : Backend) : StoreConfig :=
  {| cfgBackend := b; PrefixRoot := ""; CacheRoot := ""; MinEndpoint := ""; MinBucket := ""; TigrisBucket := "";
     ChangeFeedRetainFor := 0 |}.

Definition owned (e : error) : bool :=
  match ErrorCode e with
  | Some c => bool_decide (c = "BucketAlreadyOwnedByYou") || bool_decide (c = "BucketAlreadyExists")
  | None => false
  end.

(** From the client's configuration on. *)
Definition create_bucket (region endpoint bucket : string) (env : environ) : option error :=
  match LoadDefaultConfig region (Getenv env "AWS_ACCESS_KEY_ID") (Getenv env "AWS_SECRET_ACCESS_KEY") with
  | Some e => Some (Wrap "load aws config: " e)
  | None =>
      let client := {| optRegion := region; optKeyID := Getenv env "AWS_ACCESS_KEY_ID";
                       optSecret := Getenv env "AWS_SECRET_ACCESS_KEY";
                       BaseEndpoint := if bool_decide (endpoint = "") then None else Some endpoint;
                       UsePathStyle := true |} in
      match CreateBucket client bucket with
      | None => None
      | Some e => if owned e then None else Some (Wrap ("create bucket " +:+ quote bucket +:+ ": ") e)
      end
  end.

Definition ensureS3Bucket (bucketURL : string) (backend : Backend) (env : environ) : option error * environ :=
  match Parse bucketURL with
  | Err e => (Some (Wrap "parse bucket url: " e), env)
  | Ok u =>
      if bool_decide (uHost u = "") then (Some (Errorf ("bucket name missing in url " +:+ quote bucketURL)), env) else
      let env := ensureS3Env (config_of backend) env in
      let endpoint := Get "endpoint" (Query u) in
      let region := Get "region" (Query u) in
      let region := if bool_decide (region = "") then envOr env "AWS_REGION" "us-east-1" else region in
      (create_bucket region endpoint (uHost u) env, env)
  end.

Definition ensureBucket (cfg : StoreConfig) (env : environ) : option error * environ :=
  if bool_decide (cfgBackend cfg = BackendMemory) then (None, env)
  else if bool_decide (cfgBackend cfg = BackendMinIO) then
    ensureS3Bucket (minioBucketURL env (MinBucket cfg) (MinEndpoint cfg)) BackendMinIO env
  else if bool_decide (cfgBackend cfg = BackendTigris) then
    ensureS3Bucket (tigrisBucketURL env (TigrisBucket cfg)) BackendTigris env
  else (Some (Errorf ("unknown backend " +:+ quote (cfgBackend cfg))), env).

End bucket.

(** ** The URLs of store.go are read back *)

(** A bucket's name: letters, digits, dots, dashes and underscores. *)
Definition bucket_name (s : string) : Prop := s <> "" /\ all_bytes (fun c => alnum c || one_of "-._" c) s = true.

(** A value that means itself in a query. *)
Definition query_value (s : string) : Prop :=
  all_bytes (fun c => no_control c && negb (one_of "&;%+#" c)) s = true.

Lemma cut_last_none c s : has_byte c s = false -> cut_last c s = None.
Proof. induction s as [|d s IH]; [done|]. simpl. intros [Hd Hs]%orb_false_iff. rewrite IH by done. by rewrite Hd. Qed.

Lemma unescape_plain plus s : has_byte "%" s = false -> (plus = true -> has_byte "+" s = false) -> unescape plus s = Some s.
Proof.
  induction s as [|c s IH]; [done|]. simpl. intros [Hc Hs]%orb_false_iff Hp.
  assert (Hp' : plus = true -> bool_decide (c = "+"%char) = false /\ has_byte "+" s = false) by (intros H; by apply orb_false_iff, Hp).
  rewrite Hc, IH by (done || intros H; by apply Hp'). destruct plus; [|done]. by rewrite (proj1 (Hp' eq_refl)).
Qed.

Lemma one_of_sub a b c : one_of a c = true -> all_bytes (one_of b) a = true -> one_of b c = true.
Proof.
  unfold one_of. induction a as [|d a IH]; [done|]. simpl.
  intros [Hd%bool_decide_eq_true|Hc]%orb_true_iff [Hb Ha]%andb_true_iff; [by subst|by apply IH].
Qed.

Lemma unescape_host_plain s : all_bytes (fun c => alnum c || one_of "-._" c) s = true -> unescape_host s = Some s.
Proof.
  induction s as [|c s IH]; [done|]. cbn [unescape_host all_bytes]. intros [Hc Hs]%andb_true_iff. rewrite IH by done.
  assert (Hn : bool_decide (c = "%"%char) = false) by (apply bool_decide_eq_false; intros ->; done).
  rewrite Hn. replace (_ || _ || _ || _) with true; [done|]. symmetry.
  apply orb_true_iff in Hc as [->|Hc]; [by rewrite orb_true_r|].
  rewrite (one_of_sub "-._" _ c Hc) by (by vm_compute). by rewrite orb_true_r.
Qed.

Lemma strip_s3_app x : strip_s3 ("s3://" +:+ x) = x.
Proof.
  unfold strip_s3. change (String.length ("s3://" +:+ x)) with (5 + String.length x)%nat.
  replace (5 + String.length x - 5)%nat with (String.length x) by lia.
  change (String.substring 5 (String.length x) ("s3://" +:+ x)) with (String.substring 0 (String.length x) x).
  induction x as [|c x IH]; [done|]. cbn [String.length String.substring]. by rewrite IH.
Qed.

Lemma name_no_control c : alnum c || one_of "-._" c = true -> no_control c = true.
Proof.
  unfold no_control, alnum, in_codes, one_of. cbn [has_byte].
  rewrite !orb_true_iff, !andb_true_iff, !N.leb_le, negb_true_iff, orb_false_iff, andb_false_iff, !N.leb_gt, !bool_decide_eq_true, bool_decide_eq_false.
  intros [[[H|H]|H]|[<-|[<-|[<-|H]]]]; [lia..|vm_compute|vm_compute|vm_compute|done]; split; (by right || done).
Qed.

Lemma parse_bucket_url b q : bucket_name b ->
  all_bytes no_control q = true -> has_byte "#" q = false ->
  Parse ("s3://" +:+ b +:+ "?" +:+ q) = Ok {| uHost := b; RawQuery := q |}.
Proof.
  intros [Hne Hb] Hq Hh. unfold Parse.
  rewrite (str_cut_none "#") by (rewrite !has_byte_app, Hh, (all_bytes_absent _ "#" b Hb) by done; done).
  rewrite !all_bytes_app, Hq, (all_bytes_impl _ _ _ name_no_control Hb). simpl negb.
  rewrite strip_s3_app. change (b +:+ "?" +:+ q) with (b +:+ String "?" q).
  rewrite str_cut_app by (by eapply all_bytes_absent). rewrite (str_cut_none "/") by (by eapply all_bytes_absent).
  unfold parseAuthority. rewrite cut_last_none by (by eapply all_bytes_absent).
  unfold parseHost. replace (has_prefix b "[") with false.
  - rewrite cut_last_none by (by eapply all_bytes_absent). by rewrite unescape_host_plain.
  - destruct b as [|c b]; [done|]. rewrite has_prefix_cons. simpl in Hb. apply andb_true_iff in Hb as [Hc _].
    destruct (N.eqb_spec (N_of_ascii "[") (N_of_ascii c)) as [He|]; [|done]. apply N_of_ascii_inj in He as <-. done.
Qed.

Lemma query_value_parts s : query_value s ->
  all_bytes no_control s = true /\
  has_byte "&" s = false /\ has_byte ";" s = false /\ has_byte "%" s = false /\ has_byte "+" s = false /\ has_byte "#" s = false.
Proof.
  intros Hs. split; [|repeat split; by eapply all_bytes_absent].
  eapply all_bytes_impl; [|exact Hs]. simpl. intros c [Hc _]%andb_true_iff. done.
Qed.

Lemma query_pair_value k v : query_value v -> has_byte "=" k = false -> has_byte ";" k = false ->
  has_byte "%" k = false -> has_byte "+" k = false -> query_pair (k +:+ "=" +:+ v) = Some (k, v).
Proof.
  intros (_ & _ & H1 & H2 & H3 & _)%query_value_parts Hk Hk1 Hk2 Hk3. unfold query_pair.
  replace (has_byte ";" (k +:+ "=" +:+ v)) with false by (by rewrite !has_byte_app, Hk1, H1).
  replace (bool_decide (k +:+ "=" +:+ v = "")) with false by (symmetry; apply bool_decide_eq_false; by destruct k).
  change (k +:+ "=" +:+ v) with (k +:+ String "=" v). rewrite str_cut_app by done. cbn [orb default].
  by rewrite !unescape_plain.
Qed.

Lemma split_pair k v rest : has_byte "&" k = false -> query_value v ->
  split_all "&" (k +:+ "=" +:+ v +:+ "&" +:+ rest) = (k +:+ "=" +:+ v) :: split_all "&" rest.
Proof.
  intros Hk (_ & Hv & _)%query_value_parts.
  replace (k +:+ "=" +:+ v +:+ "&" +:+ rest) with ((k +:+ "=" +:+ v) +:+ String "&" rest) by (by rewrite !str_app_assoc).
  by rewrite split_all_app, (split_all_none "&" (k +:+ "=" +:+ v)) by (by rewrite !has_byte_app, Hk, Hv).
Qed.

(** ** The request that is made *)

Section request.
Variable LoadDefaultConfig : string -> string -> string -> option error.
Variable CreateBucket : s3_options -> string -> option error.
Variable ErrorCode : error -> option string.

#[local] Abbreviation create := (create_bucket LoadDefaultConfig CreateBucket ErrorCode).

(** The endpoint of MinIO with its scheme. *)
Definition with_scheme (endpoint : string) : string :=
  if negb (has_prefix endpoint "http://") && negb (has_prefix endpoint "https://")
  then "http://" +:+ endpoint else endpoint.

(** What a configuration asks of S3: region, endpoint and bucket. *)
Definition requested (cfg : StoreConfig) (env : environ) : string * string * string :=
  if bool_decide (cfgBackend cfg = BackendMinIO)
  then (envOr env "AWS_REGION" "us-east-1", with_scheme (MinEndpoint cfg), MinBucket cfg)
  else (envOr env "AWS_REGION" "auto", "", TigrisBucket cfg).

Definition well_named (cfg : StoreConfig) (env : environ) : Prop :=
  (cfgBackend cfg = BackendMinIO \/ cfgBackend cfg = BackendTigris) /\
  let '(region, endpoint, bucket) := requested cfg env in
  bucket_name bucket /\ query_value region /\ query_value endpoint.

Lemma ensureS3Env_backend cfg env b : cfgBackend cfg = b -> ensureS3Env (config_of b) env = ensureS3Env cfg env.
Proof. intros <-. reflexivity. Qed.

Lemma envOr_ne env k d : d <> "" -> envOr env k d <> "".
Proof. intros Hd. unfold envOr. cbv zeta. by case_bool_decide. Qed.

Lemma ensureS3Bucket_url url bucket b env query :
  Parse url = Ok {| uHost := bucket; RawQuery := query |} -> bucket <> "" ->
  Get "region" (Query {| uHost := bucket; RawQuery := query |}) <> "" ->
  ensureS3Bucket LoadDefaultConfig CreateBucket ErrorCode url b env =
    (create (Get "region" (Query {| uHost := bucket; RawQuery := query |}))
       (Get "endpoint" (Query {| uHost := bucket; RawQuery := query |})) bucket (ensureS3Env (config_of b) env),
     ensureS3Env (config_of b) env).
Proof. intros Hp Hb Hr. unfold ensureS3Bucket. rewrite Hp. cbn [uHost]. by rewrite !bool_decide_false. Qed.

Lemma no_control_value s : query_value s -> all_bytes no_control s = true.
Proof. by intros [? _]%query_value_parts. Qed.

Lemma no_hash_value s : query_value s -> has_byte "#" s = false.
Proof. by intros (_ & _ & _ & _ & _ & ?)%query_value_parts. Qed.

(** The URL that store.go prints for Tigris. *)
Lemma tigris_url_read bucket region env : bucket_name bucket -> query_value region -> region <> "" ->
  ensureS3Bucket LoadDefaultConfig CreateBucket ErrorCode ("s3://" +:+ bucket +:+ "?region=" +:+ region) BackendTigris env =
    (create region "" bucket (ensureS3Env (config_of BackendTigris) env), ensureS3Env (config_of BackendTigris) env).
Proof.
  intros Hb Hr Hne. set (q := "region" +:+ "=" +:+ region).
  assert (Hq : Query {| uHost := bucket; RawQuery := q |} = [("region", region)]).
  { unfold Query. cbn [RawQuery]. rewrite split_all_none.
    - cbn [omap list_omap]. unfold q. by rewrite query_pair_value.
    - unfold q. rewrite !has_byte_app. by destruct (query_value_parts _ Hr) as (_ & -> & _). }
  rewrite (ensureS3Bucket_url _ bucket _ _ q).
  - by rewrite Hq.
  - apply (parse_bucket_url bucket q Hb); unfold q; rewrite ?all_bytes_app, ?has_byte_app.
    + by rewrite (no_control_value region).
    + by rewrite (no_hash_value region).
  - by destruct Hb.
  - by rewrite Hq.
Qed.

(** The URL that it prints for MinIO. *)
Lemma minio_url_read bucket endpoint region env :
  bucket_name bucket -> query_value endpoint -> query_value region -> region <> "" ->
  ensureS3Bucket LoadDefaultConfig CreateBucket ErrorCode
    ("s3://" +:+ bucket +:+ "?endpoint=" +:+ endpoint +:+ "&region=" +:+ region +:+ "&use_path_style=true") BackendMinIO env =
    (create region endpoint bucket (ensureS3Env (config_of BackendMinIO) env), ensureS3Env (config_of BackendMinIO) env).
Proof.
  intros Hb He Hr Hne.
  set (q := "endpoint" +:+ "=" +:+ endpoint +:+ "&" +:+ "region" +:+ "=" +:+ region +:+ "&" +:+ "use_path_style=true").
  assert (Hq : Query {| uHost := bucket; RawQuery := q |} = [("endpoint", endpoint); ("region", region); ("use_path_style", "true")]).
  { unfold Query. cbn [RawQuery]. unfold q. rewrite !split_pair by done. cbn [omap list_omap]. by rewrite !query_pair_value. }
  rewrite (ensureS3Bucket_url _ bucket _ _ q).
  - by rewrite Hq.
  - apply (parse_bucket_url bucket q Hb); unfold q; rewrite ?all_bytes_app, ?has_byte_app.
    + by rewrite (no_control_value region), (no_control_value endpoint).
    + by rewrite (no_hash_value region), (no_hash_value endpoint).
  - by destruct Hb.
  - by rewrite Hq.
Qed.

Lemma ensure_requested cfg env : well_named cfg env ->
  let '(region, endpoint, bucket) := requested cfg env in
  let env' := ensureS3Env cfg env in
  ensureBucket LoadDefaultConfig CreateBucket ErrorCode cfg env = (create region endpoint bucket env', env').
Proof.
  intros [[Hback|Hback] Hnames]; unfold requested, ensureBucket in *; rewrite Hback in *; cbv zeta.
  - change (bool_decide (BackendMinIO = BackendMinIO)) with true in *.
    change (bool_decide (BackendMinIO = BackendMemory)) with false. destruct Hnames as (Hb & Hr & He).
    unfold minioBucketURL. cbv zeta. fold (with_scheme (MinEndpoint cfg)). cbv iota.
    rewrite minio_url_read by (done || by apply envOr_ne). by rewrite (ensureS3Env_backend cfg _ _ Hback).
  - change (bool_decide (BackendTigris = BackendMinIO)) with false in *.
    change (bool_decide (BackendTigris = BackendMemory)) with false.
    change (bool_decide (BackendTigris = BackendTigris)) with true. destruct Hnames as (Hb & Hr & He).
    unfold tigrisBucketURL. cbv zeta. cbv iota.
    rewrite tigris_url_read by (done || by apply envOr_ne). by rewrite (ensureS3Env_backend cfg _ _ Hback).
Qed.

(** The step of PrefixDB, for any answers that agree with this file on URLs. *)
Lemma prefix_step answer cfg w : well_named cfg (wEnv w) ->
  (forall url, answer (wCalls w) (EnsureS3Bucket url) =
    (ensureS3Bucket LoadDefaultConfig CreateBucket ErrorCode url (cfgBackend cfg) (wEnv w)).1) ->
  (PrefixDB.ensureBucket answer cfg w).1 = (ensureBucket LoadDefaultConfig CreateBucket ErrorCode cfg (wEnv w)).1 /\
  wEnv (PrefixDB.ensureBucket answer cfg w).2 = ensureS3Env cfg (wEnv w).
Proof.
  intros [[Hback|Hback] Hnames] Ha; unfold requested, ensureBucket, PrefixDB.ensureBucket, PrefixDB.ensureS3Bucket in *;
    rewrite Hback in *.
  - change (bool_decide (BackendMinIO = BackendMinIO)) with true in *.
    change (bool_decide (BackendMinIO = BackendMemory)) with false. cbv iota.
    destruct Hnames as ([Hb _] & _). rewrite bool_decide_false by done. split; [apply Ha|done].
  - change (bool_decide (BackendTigris = BackendMinIO)) with false in *.
    change (bool_decide (BackendTigris = BackendMemory)) with false.
    change (bool_decide (BackendTigris = BackendTigris)) with true. cbv iota.
    destruct Hnames as ([Hb _] & _). rewrite bool_decide_false by done. split; [apply Ha|done].
Qed.

(** C38: The bucket the pipeline ensures is the configured one.  For a bucket
    named with letters, digits, dots, dashes and underscores, and an endpoint
    and region without the characters a query gives a meaning, the URL printed
    by store.go is read back as exactly the configured bucket, endpoint (with
    http:// put before one without scheme) and region, and these are what S3 is
    asked for, in the environment that store.go completes; an existing bucket
    is no error.  The one step by which the model of the prefixes' life cycle
    takes this conversation has the same error and the same environment. *)
Theorem bucket_request answer cfg w : well_named cfg (wEnv w) ->
  (forall url, answer (wCalls w) (EnsureS3Bucket url) =
    (ensureS3Bucket LoadDefaultConfig CreateBucket ErrorCode url (cfgBackend cfg) (wEnv w)).1) ->
  let '(region, endpoint, bucket) := requested cfg (wEnv w) in
  let env := ensureS3Env cfg (wEnv w) in
  ensureBucket LoadDefaultConfig CreateBucket ErrorCode cfg (wEnv w) = (create region endpoint bucket env, env) /\
  let '(e, w') := PrefixDB.ensureBucket answer cfg w in e = create region endpoint bucket env /\ wEnv w' = env.
Proof.
  intros Hn Ha. pose proof (ensure_requested cfg (wEnv w) Hn) as He. pose proof (prefix_step answer cfg w Hn Ha) as Hp.
  destruct (requested cfg (wEnv w)) as [[region endpoint] bucket]. cbv zeta in *.
  destruct (PrefixDB.ensureBucket answer cfg w) as [e w']. rewrite He in Hp. by destruct Hp.
Qed.
End request.

(** ** A concrete bucket *)

Definition aws_env : environ := {[ "AWS_REGION" := "eu-west-1"; "MINIO_ACCESS_KEY" := "minioadmin" ]}.

Definition minio_config : StoreConfig :=
  {| cfgBackend := BackendMinIO; PrefixRoot := ""; CacheRoot := ""; MinEndpoint := "localhost:9000"; MinBucket := "gedung-peristiwa";
     TigrisBucket := ""; ChangeFeedRetainFor := 0 |}.

(** A server that has the bucket already, and knows one set of options. *)
Definition taken (o : s3_options) (bucket : string) : option error :=
  Some (Errorf (if bool_decide (optRegion o = "eu-west-1" /\ BaseEndpoint o = Some "http://localhost:9000" /\ bucket = "gedung-peristiwa")
                then "BucketAlreadyOwnedByYou" else "NoSuchHost")).

Definition code_of (e : error) : option string := match e with Errorf s => Some s | _ => None end.

Example percent_in_region_splits : Query {| uHost := "b"; RawQuery := "region=a%26b;&region=x+y" |} = [("region", "x y")].
Proof. by vm_compute. Qed.

Example host_with_port : Parse "s3://user@bucket:90/p?q" = Ok {| uHost := "bucket:90"; RawQuery := "q" |} /\
  (exists e, Parse "s3://bucket:9x" = Err e) /\ (exists e, Parse "s3://buc ket" = Err e).
Proof. split_and!; [by vm_compute|eexists; by vm_compute..]. Qed.

Lemma bucket_request_witness :
  well_named minio_config aws_env /\
  (ensureBucket (fun _ _ _ => None) taken code_of minio_config aws_env).1 = None.
Proof.
  assert (Hn : well_named minio_config aws_env) by (split; [by left|by vm_compute]).
  split; [exact Hn|].
  pose (w := {| wEnv := aws_env; wCalls := [] |}).
  pose proof (bucket_request (fun _ _ _ => None) taken code_of
    (fun _ c => match c with EnsureS3Bucket url => (ensureS3Bucket (fun _ _ _ => None) taken code_of url BackendMinIO aws_env).1 | _ => None end)
    minio_config w Hn (fun url => eq_refl)) as H.
  destruct H as [H _]. apply (f_equal fst) in H. etransitivity; [exact H|by vm_compute].
Defined.
