(* ===== verification/Simulation.v ===== *)
(** * A simulation run (internal/simulation/run.go)

    [Run] generates traffic, opens the tenants' prefixes, writes, flushes,
    counts, compacts, counts again, verifies and closes.  The life cycle of the
    handles is PrefixDB's, the stores' contents are Tenant's, the traffic is
    EventGen's. *)

From S2P Require Import Prelude GoStrings KeyRange Json Floats Event EventGen IsleDB ChangeFeed Tenant Store PrefixDB.

Record Options := {
  oBackend : Backend;
  oDuration : Z;
  oEvents : Z;
  oPrefixSuffix : string;
  oFast : bool;
  oCacheRoot : string
}.

Definition DefaultOptions (backend : Backend) : Options := {|
  oBackend := backend; oDuration := 60 * second; oEvents := 1000; oPrefixSuffix := "";
  oFast := false; oCacheRoot := DefaultCacheRoot |}.

Definition DevOptions (backend : Backend) : Options :=
  let o := DefaultOptions backend in
  {| oBackend := oBackend o; oDuration := oDuration o; oEvents := 100; oPrefixSuffix := oPrefixSuffix o;
     oFast := true; oCacheRoot := oCacheRoot o |}.

Record Result := {
  rBackend : Backend;
  StartedAt : time;
  FinishedAt : time;
  rOK : bool;
  rError : string;
  rPutCount : Z;
  UniqueExpected : Z;
  PreCompactKeys : Z;
  PostCompactKeys : Z;
  TailByTenant : gmap string Z
}.

Section Simulation.
Context {I : IsleDB} {MR : MapRange} {R : RandSource}.

(** The outcome of the calls on handles; what each prefix holds when it is
    opened; [math.Sin], the uuids and the context; [now n] is the [n]-th reading
    of the wall clock. *)
Variable answer : list (call * option error) -> call -> option error.
Variable prefix_db : StoreConfig -> string -> db.
Variable sin : float64 -> float64.
Variable uuid_NewV7 : nat -> result string.
Variable ctx_Err : nat -> option error.
Variable now : nat -> time.

(** [if opts.CacheRoot != "" { cfg.CacheRoot = opts.CacheRoot }] *)
Definition store_config (env : environ) (opts : Options) : StoreConfig :=
  let cfg := StoreConfigFromEnv env (oBackend opts) (oPrefixSuffix opts) in
  if bool_decide (oCacheRoot opts = "") then cfg
  else {| cfgBackend := cfgBackend cfg; PrefixRoot := PrefixRoot cfg; CacheRoot := oCacheRoot opts;
          MinEndpoint := MinEndpoint cfg; MinBucket := MinBucket cfg; TigrisBucket := TigrisBucket cfg;
          ChangeFeedRetainFor := ChangeFeedRetainFor cfg |}.

Definition gen_config (opts : Options) : Config := {|
  TotalUnique := oEvents opts; Duration := oDuration opts;
  DuplicateRate := DuplicateRate DefaultConfig; NoDelay := oFast opts |}.

(** The emissions, and the number of the next reading of the wall clock; the
    source is seeded with 42, and reading 0 was [StartedAt]. *)
Definition generate (opts : Options) : (list Emission * option error) * nat :=
  let g := {| gRand := NewSource 42; gUuids := 0; gNow := 1; gCtx := 0 |} in
  if oFast opts
  then let '(r, _) := FastRun sin uuid_NewV7 ctx_Err (gen_config opts) g in (r, 1%nat)
  else let '(r, g) := EventGen.Run sin uuid_NewV7 ctx_Err (gen_config opts) now g in (r, gNow g).

(** The stores behind the opened prefixes. *)
Definition open_stores (cfg : StoreConfig) (tenants : gmap string PrefixDB) : gmap string db :=
  map_imap (fun id _ => Some (prefix_db cfg id)) tenants.

(** The assignments to the fields of [res]. *)
Definition set_puts (n : Z) (r : Result) : Result :=
  {| rBackend := rBackend r; StartedAt := StartedAt r; FinishedAt := FinishedAt r; rOK := rOK r; rError := rError r;
     rPutCount := n; UniqueExpected := UniqueExpected r; PreCompactKeys := PreCompactKeys r;
     PostCompactKeys := PostCompactKeys r; TailByTenant := TailByTenant r |}.
Definition set_pre (n : Z) (r : Result) : Result :=
  {| rBackend := rBackend r; StartedAt := StartedAt r; FinishedAt := FinishedAt r; rOK := rOK r; rError := rError r;
     rPutCount := rPutCount r; UniqueExpected := UniqueExpected r; PreCompactKeys := n;
     PostCompactKeys := PostCompactKeys r; TailByTenant := TailByTenant r |}.
Definition set_post (n : Z) (r : Result) : Result :=
  {| rBackend := rBackend r; StartedAt := StartedAt r; FinishedAt := FinishedAt r; rOK := rOK r; rError := rError r;
     rPutCount := rPutCount r; UniqueExpected := UniqueExpected r; PreCompactKeys := PreCompactKeys r;
     PostCompactKeys := n; TailByTenant := TailByTenant r |}.
Definition set_unique (n : Z) (r : Result) : Result :=
  {| rBackend := rBackend r; StartedAt := StartedAt r; FinishedAt := FinishedAt r; rOK := rOK r; rError := rError r;
     rPutCount := rPutCount r; UniqueExpected := n; PreCompactKeys := PreCompactKeys r;
     PostCompactKeys := PostCompactKeys r; TailByTenant := TailByTenant r |}.
Definition set_tail (m : gmap string Z) (r : Result) : Result :=
  {| rBackend := rBackend r; StartedAt := StartedAt r; FinishedAt := FinishedAt r; rOK := rOK r; rError := rError r;
     rPutCount := rPutCount r; UniqueExpected := UniqueExpected r; PreCompactKeys := PreCompactKeys r;
     PostCompactKeys := PostCompactKeys r; TailByTenant := m |}.
Definition finish (fin : time) (ok : bool) (msg : string) (r : Result) : Result :=
  {| rBackend := rBackend r; StartedAt := StartedAt r; FinishedAt := fin; rOK := ok; rError := msg;
     rPutCount := rPutCount r; UniqueExpected := UniqueExpected r; PreCompactKeys := PreCompactKeys r;
     PostCompactKeys := PostCompactKeys r; TailByTenant := TailByTenant r |}.

(** From [WriteEmissions] to the result, with the prefixes open. *)
Definition run_opened (fuel : nat) (emissions : list Emission) (p : gmap string db) (res : Result) (fin : time)
    : option (Result * gmap string db) :=
  let failed msg e res := finish fin false (msg +:+ Error e) res in
  match WriteEmissions emissions p with
  | ((_, Some e), p) => Some (failed "write: " e res, p)
  | ((puts, None), p) =>
    let res := set_puts puts res in
    match FlushAll p with
    | (Some e, p) => Some (failed "flush: " e res, p)
    | (None, p) =>
      match CountKeys p with
      | ((_, Some e), p) => Some (failed "pre-compact scan: " e res, p)
      | ((pre, None), p) =>
        let res := set_pre pre res in
        match CompactAll p with
        | (Some e, p) => Some (failed "compact: " e res, p)
        | (None, p) =>
          match CountKeys p with
          | ((_, Some e), p) => Some (failed "post-compact scan: " e res, p)
          | ((post, None), p) =>
            let res := set_post post res in
            match Verify fuel emissions p with
            | None => None
            | Some ((v, Some e), p) => Some (finish fin false (Error e) (set_unique (UniqueKeysExpected v) res), p)
            | Some ((v, None), p) =>
                Some (finish fin true (rError res) (set_tail (TailCountByTenant v) (set_unique (UniqueKeysExpected v) res)), p)
            end
          end
        end
      end
    end
  end.

(** The result, the stores (none if nothing was opened) and the handles. *)
Definition Run (fuel : nat) (opts : Options) (w : world) : option ((Result * gmap string db) * world) :=
  let res := {| rBackend := oBackend opts; StartedAt := now 0; FinishedAt := zero_time; rOK := false; rError := "";
                rPutCount := 0; UniqueExpected := 0; PreCompactKeys := 0; PostCompactKeys := 0; TailByTenant := ∅ |} in
  let cfg := store_config (wEnv w) opts in
  match generate opts with
  | ((_, Some e), n) => Some ((finish (now n) false (Error e) res, ∅), w)
  | ((emissions, None), n) =>
    match New answer cfg AllTenantIDs w with
    | (Err e, w) => Some ((finish (now n) false ("pipeline init: " +:+ Error e) res, ∅), w)
    | (Ok tenants, w) =>
      match run_opened fuel emissions (open_stores cfg tenants) res (now n) with
      | None => None
      | Some (r, p) => let '(_, w) := CloseAll answer tenants w in Some ((r, p), w)   (* deferred *)
      end
    end
  end.

(** ** Stores that hold the expected keys *)

Context {L : IsleDBLaws I}.

Definition loaded (ids : list string) (keys : list string) (changes : string -> nat) (p : gmap string db) : Prop :=
  (forall id, is_Some (p !! id) <-> id ∈ ids) /\
  forall id d, p !! id = Some d ->
    unflushed d = [] /\ (forall k, is_Some (accepted_kv d !! k) <-> k ∈ keys_of id keys) /\
    length (feed_log d) = changes id.

Lemma loaded_same ids keys changes p p' : loaded ids keys changes p -> same_stores p p' -> loaded ids keys changes p'.
Proof.
  intros [Hids Hall] Hs. split.
  - intros id. rewrite <-Hids. specialize (Hs id). destruct Hs; split; eauto; by intros []%is_Some_None.
  - intros id d' Hd'. specialize (Hs id). rewrite Hd' in Hs.
    inversion Hs as [d ? (Hkv & Hl & Hu) Hd|]; subst. symmetry in Hd.
    destruct (Hall id d Hd) as (H1 & H2 & H3). rewrite Hkv, Hl, Hu. done.
Qed.

(** Well-formed keys: their tenant is one of [ids] and prefixes them. *)
Definition keys_ok (ids keys : list string) : Prop :=
  NoDup keys /\ forall k, k ∈ keys -> TenantFromKey k ∈ ids /\ has_prefix k (TenantPrefix (TenantFromKey k)) = true.

Lemma keys_of_NoDup id keys : NoDup keys -> NoDup (keys_of id keys).
Proof. intros Hnd. apply NoDup_ListNoDup, List.NoDup_filter. by apply NoDup_ListNoDup. Qed.

Lemma keys_of_sum ids keys : NoDup ids -> (forall k, k ∈ keys -> TenantFromKey k ∈ ids) ->
  sum_list ((fun id => length (keys_of id keys)) <$> ids) = length keys.
Proof.
  intros Hnd. induction keys as [|k keys IH]; intros Hk.
  { clear. induction ids; [done|]. simpl. done. }
  assert (Hin : TenantFromKey k ∈ ids) by (apply Hk; by left). change (length (k :: keys)) with (S (length keys)).
  rewrite <-IH by (intros ??; apply Hk; by right). clear IH Hk.
  assert (Hcons : forall id, length (keys_of id (k :: keys)) =
    ((if bool_decide (TenantFromKey k = id) then 1 else 0) + length (keys_of id keys))%nat).
  { intros id. unfold keys_of. rewrite filter_cons_bool. by case_bool_decide. }
  assert (Hout : forall l, TenantFromKey k ∉ l ->
    sum_list ((fun id => length (keys_of id (k :: keys))) <$> l) = sum_list ((fun id => length (keys_of id keys)) <$> l)).
  { intros l Hl. f_equal. apply list_fmap_ext. intros i id Hid%list_elem_of_lookup_2. rewrite Hcons.
    rewrite bool_decide_false; [done|]. intros E; by subst. }
  apply list_elem_of_split in Hin as (l1 & l2 & ->). apply NoDup_app in Hnd as (_ & Hd & [Hn2 _]%NoDup_cons).
  assert (Hn1 : TenantFromKey k ∉ l1) by (intros ?; eapply Hd; [done|by left]).
  rewrite !fmap_app, !fmap_cons, !sum_list_with_app. change (sum_list_with id) with sum_list.
  assert (Hsum : forall x l, sum_list (x :: l) = (x + sum_list l)%nat) by done.
  rewrite (Hout l1 Hn1), !Hsum, (Hout l2 Hn2), Hcons, bool_decide_true by done. lia.
Qed.

Lemma scan_loaded ids keys changes p id d got d' : loaded ids keys changes p -> keys_ok ids keys ->
  p !! id = Some d -> ScanKeys id d = (Ok got, d') -> got ≡ₚ keys_of id keys.
Proof.
  intros [_ Hall] [Hnd Hk] Hd Hs. destruct (Hall _ _ Hd) as (Hu & Hkv & _).
  apply ScanKeys_same in Hs as (_ & Hso & Hgot); [|done].
  apply NoDup_Permutation; [by apply strictly_sorted_NoDup|by apply keys_of_NoDup|].
  intros k. rewrite Hgot, Hkv. split; [by intros []|]. intros Hin. split; [|done].
  apply elem_of_keys_of in Hin as [Hin <-]. by apply Hk.
Qed.

Lemma CountKeys_loaded `{!IsleDBReliable I} ids keys changes p : NoDup ids -> loaded ids keys changes p -> keys_ok ids keys ->
  exists p', CountKeys p = ((Z.of_nat (length keys), None), p') /\ loaded ids keys changes p'.
Proof.
  intros Hndi Hl Hok. unfold CountKeys. set (tids := TenantIDs p).
  assert (Htids : NoDup tids) by apply NoDup_range_keys.
  assert (Hmem : forall id, id ∈ tids <-> id ∈ ids).
  { intros id. rewrite <-(proj1 Hl). unfold tids, TenantIDs. rewrite list_elem_of_fmap. split.
    - intros ([? d] & -> & Hin%elem_of_range). eauto.
    - intros [d Hd]. exists (id, d). by rewrite elem_of_range. }
  pose proof (count_keys_loop_spec tids 0 p (fun id d Hd => proj1 (proj2 Hl id d Hd))) as Hspec.
  pose proof (count_keys_reliable tids 0 p (fun id Hid => proj2 (proj1 Hl id) (proj1 (Hmem id) Hid))) as Hnone.
  destruct (count_keys_loop tids 0 p) as [[n e] p']. simpl in Hnone. subst e. destruct Hspec as [Hs Hn].
  exists p'. split; [|by eapply loaded_same].
  rewrite (Hn (fun id => length (keys_of id keys))); [|by intros; erewrite <-scan_loaded|done].
  rewrite keys_of_sum; [done|done|]. intros k Hk. apply Hmem. by apply Hok.
Qed.

Lemma Verify_loaded `{!IsleDBReliable I} fuel ids ems changes p :
  loaded ids (ExpectedKeys ems) changes p -> keys_ok ids (ExpectedKeys ems) ->
  (forall id, (length (keys_of id (ExpectedKeys ems)) <= changes id < fuel)%nat) ->
  (length (ExpectedKeys ems) <= length ems)%nat ->
  (existsb emRetry ems = true -> (length (ExpectedKeys ems) < length ems)%nat) ->
  exists v p', Verify fuel ems p = Some ((v, None), p') /\
    UniqueKeysExpected v = Z.of_nat (length (ExpectedKeys ems)) /\
    forall id, keys_of id (ExpectedKeys ems) <> [] -> TailCountByTenant v !! id = Some (Z.of_nat (changes id)).
Proof.
  intros Hl Hok Hch Hle Hre. unfold Verify. set (res0 := {| Tenant.PutCount := _ |}).
  set (groups := groupKeysByTenant (ExpectedKeys ems)).
  assert (Hp : forall id d, p !! id = Some d -> unflushed d = [] /\ (length (feed_log d) < fuel)%nat).
  { intros id d Hd. destruct (proj2 Hl id d Hd) as (H1 & _ & ->). split; [done|]. apply Hch. }
  assert (Hrange : forall t want, (t, want) ∈ range groups <->
    keys_of t (ExpectedKeys ems) <> [] /\ want = sort_strings (keys_of t (ExpectedKeys ems))).
  { intros t want. rewrite elem_of_range. unfold groups. rewrite groupKeysByTenant_spec.
    destruct (keys_of t (ExpectedKeys ems)); naive_solver. }
  assert (Hpass : forall t want, (t, want) ∈ range groups -> exists d tail, p !! t = Some d /\ tenant_holds t want tail d).
  { intros t want [Hne ->]%Hrange. assert (Hin : exists k, k ∈ keys_of t (ExpectedKeys ems)).
    { destruct (keys_of t (ExpectedKeys ems)) as [|k ?]; [done|]. exists k. by left. }
    destruct Hin as [k [Hk <-]%elem_of_keys_of]. destruct (proj2 (proj1 Hl (TenantFromKey k))) as [d Hd]; [by apply Hok|].
    destruct (proj2 Hl _ _ Hd) as (_ & Hkv & Hlen). exists d. eexists. split; [done|]. split_and!; [| |reflexivity|].
    - rewrite sort_strings_perm. apply keys_of_NoDup, Hok.
    - intros k'. rewrite sort_strings_perm, Hkv. split; [|by intros []]. intros Hin'. split; [|done].
      apply elem_of_keys_of in Hin' as [Hin' <-]. by apply Hok.
    - rewrite sort_strings_perm, Hlen. apply Hch. }
  destruct (verify_loop_passes fuel (range groups) res0 p Hp (NoDup_range_keys _) Hpass) as (v & p' & Hrun).
  destruct (verify_loop_sound fuel (range groups) res0 p Hp (NoDup_range_keys _)) as (v' & e & p'' & Hrun' & Hsound).
  rewrite Hrun in Hrun'. injection Hrun' as <- <- <-. destruct (Hsound eq_refl) as (_ & Hput & Huniq & _ & Hall).
  rewrite Hrun, Hput, Huniq. simpl. rewrite (proj2 (Z.ltb_ge _ _)) by lia.
  replace (existsb emRetry ems && _) with false.
  2:{ destruct (existsb emRetry ems); [|done]. simpl. symmetry. apply Z.leb_gt. specialize (Hre eq_refl). lia. }
  exists v, p'. split_and!; [done|done|]. intros id Hne.
  destruct (Hall id (sort_strings (keys_of id (ExpectedKeys ems)))) as (d & Hd & _ & _ & -> & _); [by apply Hrange|].
  by destruct (proj2 Hl _ _ Hd) as (_ & _ & ->).
Qed.

(** ** The generated traffic *)

Definition clock_ok (f : nat -> time) : Prop := forall n, json_time_ok (f n) = true.

Lemma fast_clock_ok : clock_ok fast_now.
Proof.
  intros n. unfold fast_now, json_time_ok. pose proof (wrap64_range (Z.of_nat n * millisecond)) as H.
  unfold in_int64, int64_min, int64_max in H. rewrite andb_true_iff, Z.leb_le, Z.ltb_lt. unfold second. lia.
Qed.

Lemma AllTenantIDs_NoDup : NoDup AllTenantIDs.
Proof. apply (bool_decide_unpack _). by vm_compute. Qed.

Lemma tenants_ids : (EventGen.tenants).*1 = AllTenantIDs.
Proof. reflexivity. Qed.

Lemma emissions_storable f u evs : clock_ok f -> generated_from uuid_NewV7 f u evs ->
  Forall (fun em => TenantID (emEvent em) ∈ AllTenantIDs /\ exists v, EventValueBytes (emEvent em) = Ok v) (emissions_of evs).
Proof.
  intros Hc Hg. apply Forall_forall. intros em (ev & rt & Hin & Hem)%elem_of_emissions.
  apply list_elem_of_lookup in Hin as [i Hi]. destruct (Hg i ev rt Hi) as ((Ht & _ & _ & Hf) & _ & (m & Hm) & Hr).
  rewrite tenants_ids in Ht. destruct Hem as [->|(t & -> & ->)]; simpl; (split; [done|]); apply EventValueBytes_stored; simpl; try done.
  - by rewrite Hm.
  - destruct (Hr t eq_refl) as [m' ->]. done.
Qed.

Lemma emissions_keys f u evs id k : generated_from uuid_NewV7 f u evs ->
  (k ∈ EventKey <$> for_tenant id (emissions_of evs) <-> k ∈ keys_of id (ExpectedKeys (emissions_of evs))).
Proof.
  intros Hg. rewrite elem_of_keys_of, ExpectedKeys_emissions, !list_elem_of_fmap.
  assert (Ht : forall ev rt, (ev, rt) ∈ evs -> TenantFromKey (EventKey ev) = TenantID ev).
  { intros ev rt [i Hi]%list_elem_of_lookup. destruct (Hg i ev rt Hi) as [Hgen _].
    apply generated_no_sep in Hgen as (? & ? & ?). by apply TenantFromKey_EventKey. }
  unfold for_tenant. split.
  - intros (ev & -> & Hev). rewrite list_elem_of_In, filter_In, bool_decide_eq_true, <-list_elem_of_In, list_elem_of_fmap in Hev.
    destruct Hev as [(em & -> & (ev0 & rt & Hin & Hem)%elem_of_emissions) <-].
    assert (EventKey (emEvent em) = EventKey ev0 /\ TenantID (emEvent em) = TenantID ev0) as [-> ->]
      by by destruct Hem as [->|(t & -> & ->)].
    split; [exists (ev0, rt); done|by eapply Ht].
  - intros [([ev rt] & -> & Hin) Hid]. simpl in *. rewrite (Ht ev rt Hin) in Hid. exists ev. split; [done|].
    rewrite list_elem_of_In, filter_In, bool_decide_eq_true, <-list_elem_of_In, list_elem_of_fmap. split; [|done].
    exists (first_of ev). split; [done|]. apply elem_of_emissions. exists ev, rt. split; [done|by left].
Qed.

Lemma emissions_keys_ok f u evs : generated_from uuid_NewV7 f u evs -> uuids_distinct uuid_NewV7 ->
  keys_ok AllTenantIDs (ExpectedKeys (emissions_of evs)).
Proof.
  intros Hg Hd. rewrite ExpectedKeys_emissions. split; [by eapply generated_keys_NoDup|].
  intros k ([ev rt] & -> & [i Hi]%list_elem_of_lookup)%list_elem_of_fmap. destruct (Hg i ev rt Hi) as [Hgen _].
  pose proof Hgen as (Ht & _). apply generated_no_sep in Hgen as (? & ? & ?). rewrite tenants_ids in Ht. simpl.
  rewrite TenantFromKey_EventKey by done. split; [done|]. apply EventKey_prefix.
Qed.

(** The emissions as [generate] returns them. *)
Lemma generate_spec opts out e n : generate opts = ((out, e), n) ->
  exists evs f, out = emissions_of evs /\ Z.of_nat (length evs) <= Z.max 0 (oEvents opts) /\
    (f = fast_now \/ f = now) /\ generated_from uuid_NewV7 f 0 evs /\
    (forall err, e = Some err -> (exists m, ctx_Err m = Some err) \/ (exists m, uuid_NewV7 m = Err err)).
Proof.
  unfold generate, FastRun. destruct (oFast opts).
  - destruct (EventGen.Run _ _ _ _ fast_now _) as [[out' e'] g'] eqn:Hr. intros [= -> -> _].
    apply Run_spec in Hr as (evs & -> & Hl & Hg & _ & _ & He). exists evs, fast_now.
    split_and!; [done|exact Hl|by left|exact Hg|by intros err ->].
  - destruct (EventGen.Run _ _ _ _ now _) as [[out' e'] g'] eqn:Hr. intros [= -> -> _].
    apply Run_spec in Hr as (evs & -> & Hl & Hg & _ & _ & He). exists evs, now.
    split_and!; [done|exact Hl|by right|exact Hg|by intros err ->].
Qed.

(** A prefix nothing was ever written to. *)
Definition fresh_db (d : db) : Prop := accepted_kv d = ∅ /\ feed_log d = [] /\ unflushed d = [].

Lemma open_stores_lookup cfg tenants id : open_stores cfg tenants !! id = (fun _ => prefix_db cfg id) <$> tenants !! id.
Proof. unfold open_stores. rewrite map_lookup_imap. by destruct (tenants !! id). Qed.

(** Writing generated traffic to fresh stores and flushing it loads them. *)
Lemma write_flush_loaded f u evs p0 n p1 p2 : generated_from uuid_NewV7 f u evs ->
  (forall id, match p0 !! id with Some d => id ∈ AllTenantIDs /\ fresh_db d | None => id ∉ AllTenantIDs end) ->
  WriteEmissions (emissions_of evs) p0 = ((n, None), p1) -> FlushAll p1 = (None, p2) ->
  loaded AllTenantIDs (ExpectedKeys (emissions_of evs)) (fun id => length (for_tenant id (emissions_of evs))) p2.
Proof.
  intros Hg H0 [_ Hids]%write_emissions_wrote Hf. split.
  - intros id. specialize (Hids id). specialize (H0 id). destruct (p0 !! id) as [d0|].
    + destruct H0 as [Hin _], Hids as (d1 & Hd1 & _).
      destruct (each_tenant_range _ _ _ _ _ Hf Hd1) as (d2 & -> & _). split; eauto.
    + rewrite (each_tenant_none _ _ _ _ Hf Hids). split; [by intros []%is_Some_None|done].
  - intros id d2 Hd2. specialize (Hids id). specialize (H0 id). destruct (p0 !! id) as [d0|].
    2:{ by rewrite (each_tenant_none _ _ _ _ Hf Hids) in Hd2. }
    destruct H0 as [_ (Hkv0 & Hl0 & Hu0)], Hids as (d1 & Hd1 & Hkeys & Hlen).
    destruct (each_tenant_range _ _ _ _ _ Hf Hd1) as (d2' & Hd2' & Hfl). rewrite Hd2' in Hd2. injection Hd2 as ->.
    apply Flush_spec in Hfl as (Hkv & Hu & Hl). split_and!; [done| |].
    + intros k. rewrite Hkv, Hkeys, Hkv0, lookup_empty, <-(emissions_keys f u) by done.
      split; [by intros [[]%is_Some_None|]|by right].
    + rewrite Hl, Hlen, Hl0, Hu0. done.
Qed.

Lemma for_tenant_length f u evs id : generated_from uuid_NewV7 f u evs -> uuids_distinct uuid_NewV7 ->
  (length (keys_of id (ExpectedKeys (emissions_of evs))) <= length (for_tenant id (emissions_of evs)) <= length (emissions_of evs))%nat.
Proof.
  intros Hg Hd. split.
  - rewrite <-(length_fmap EventKey). apply submseteq_length, NoDup_submseteq.
    + by apply keys_of_NoDup, (emissions_keys_ok f u).
    + intros k Hk. by apply (emissions_keys f u).
  - unfold for_tenant. etrans; [apply List.filter_length_le|]. by rewrite length_fmap.
Qed.

(** What [run_opened] returns on stores that answer and hold nothing. *)
Lemma run_opened_ok `{!IsleDBReliable I} fuel f evs p0 res fin :
  generated_from uuid_NewV7 f 0 evs -> uuids_distinct uuid_NewV7 -> clock_ok f ->
  (forall id, match p0 !! id with Some d => id ∈ AllTenantIDs /\ fresh_db d | None => id ∉ AllTenantIDs end) ->
  (length (emissions_of evs) < fuel)%nat ->
  let out := emissions_of evs in
  exists tail p, run_opened fuel out p0 res fin =
      Some (finish fin true (rError res) (set_tail tail (set_unique (Z.of_nat (length (ExpectedKeys out)))
        (set_post (Z.of_nat (length (ExpectedKeys out))) (set_pre (Z.of_nat (length (ExpectedKeys out)))
          (set_puts (Z.of_nat (length out)) res))))), p) /\
    forall id, keys_of id (ExpectedKeys out) <> [] -> tail !! id = Some (Z.of_nat (length (for_tenant id out))).
Proof.
  intros Hg Hdist Hclock H0 Hfuel. cbv zeta. pose proof (emissions_length evs) as [Hle Hretry].
  assert (Hexp : length (ExpectedKeys (emissions_of evs)) = length evs) by (by rewrite ExpectedKeys_emissions, length_fmap).
  assert (Hw : (WriteEmissions (emissions_of evs) p0).1.2 = None).
  { apply write_emissions_reliable. eapply Forall_impl; [by apply (emissions_storable f 0)|].
    intros em [Hin ?]. split; [|done]. specialize (H0 (TenantID (emEvent em))). by destruct (p0 !! _). }
  unfold run_opened. destruct (WriteEmissions (emissions_of evs) p0) as [[puts e] p1] eqn:Ew. simpl in Hw. subst e.
  pose proof Ew as [Hputs _]%write_emissions_wrote. rewrite Z.add_0_l in Hputs.
  pose proof (each_tenant_reliable Flush (range p1) p1 Flush_reliable) as Hfl. fold (FlushAll p1) in Hfl.
  destruct (FlushAll p1) as [e p2] eqn:Ef. simpl in Hfl. subst e.
  pose proof (write_flush_loaded f 0 evs p0 _ p1 p2 Hg H0 Ew Ef) as Hload.
  pose proof (emissions_keys_ok f 0 evs Hg Hdist) as Hok.
  pose proof AllTenantIDs_NoDup as Hnd.
  destruct (CountKeys_loaded _ _ _ _ Hnd Hload Hok) as (p3 & -> & Hload3).
  pose proof (each_tenant_reliable RunMaintenanceOnce (range p3) p3 run_once_reliable) as Hco. fold (CompactAll p3) in Hco.
  destruct (CompactAll p3) as [e p4] eqn:Ec. simpl in Hco. subst e. apply CompactAll_same in Ec.
  destruct (CountKeys_loaded _ _ _ _ Hnd (loaded_same _ _ _ _ _ Hload3 Ec) Hok) as (p5 & -> & Hload5).
  destruct (Verify_loaded fuel _ _ _ _ Hload5 Hok) as (v & p6 & -> & -> & Htail); [|lia|intros Hr; specialize (Hretry Hr); lia|].
  { intros id. pose proof (for_tenant_length f 0 evs id Hg Hdist). lia. }
  exists (TailCountByTenant v), p6. by rewrite Hputs.
Qed.

Lemma Run_ok `{!IsleDBReliable I} fuel opts w tenants w1 :
  uuids_distinct uuid_NewV7 -> (forall n, exists a, uuid_NewV7 n = Ok a) -> (forall n, ctx_Err n = None) ->
  clock_ok now ->
  New answer (store_config (wEnv w) opts) AllTenantIDs w = (Ok tenants, w1) ->
  (forall id, id ∈ AllTenantIDs -> closed id w) ->
  (forall id, id ∈ AllTenantIDs -> fresh_db (prefix_db (store_config (wEnv w) opts) id)) ->
  2 * Z.max 0 (oEvents opts) < Z.of_nat fuel ->
  exists out n r p w2, generate opts = ((out, None), n) /\ Run fuel opts w = Some ((r, p), w2) /\
    rOK r = true /\ rError r = "" /\ rPutCount r = Z.of_nat (length out) /\
    PreCompactKeys r = Z.of_nat (length (ExpectedKeys out)) /\ PostCompactKeys r = PreCompactKeys r /\
    UniqueExpected r = PreCompactKeys r /\
    forall id, keys_of id (ExpectedKeys out) <> [] -> TailByTenant r !! id = Some (Z.of_nat (length (for_tenant id out))).
Proof.
  intros Hdist Huuid Hctx Hclock HNew Hclosed Hfresh Hfuel.
  pose proof AllTenantIDs_NoDup as Hnd.
  pose proof (New_no_leak answer (store_config (wEnv w) opts) AllTenantIDs w Hnd Hclosed) as Hdom.
  rewrite HNew in Hdom. destruct Hdom as [Hdom _].
  destruct (generate opts) as [[out e] n] eqn:Hgen.
  destruct (generate_spec _ _ _ _ Hgen) as (evs & f & -> & Hlen & Hf & Hg & He).
  destruct e as [e|].
  { destruct (He e eq_refl) as [[m Hm]|[m Hm]]; [by rewrite Hctx in Hm|]. destruct (Huuid m). congruence. }
  unfold Run. rewrite Hgen, HNew. set (p0 := open_stores _ tenants).
  assert (H0 : forall id, match p0 !! id with Some d => id ∈ AllTenantIDs /\ fresh_db d | None => id ∉ AllTenantIDs end).
  { intros id. unfold p0. rewrite open_stores_lookup.
    assert (Hid : is_Some (tenants !! id) <-> id ∈ AllTenantIDs) by by rewrite <-elem_of_dom, Hdom, elem_of_list_to_set.
    destruct (tenants !! id); simpl; [|by intros []%Hid%is_Some_None].
    assert (id ∈ AllTenantIDs) by (apply Hid; eauto). auto. }
  set (res := {| rBackend := _ |}). pose proof (emissions_length evs) as [Hle _].
  destruct (run_opened_ok fuel f evs p0 res (now n) Hg Hdist) as (tail & p & -> & Htail); [|done|lia|].
  { destruct Hf as [->| ->]; [apply fast_clock_ok|done]. }
  destruct (CloseAll answer tenants w1) as [e w2]. eexists _, _, _, _, _. split; [reflexivity|]. split; [reflexivity|].
  by split_and!.
Qed.

(** ** Properties *)

(** C2: the simulation succeeds.  On stores that answer and hold nothing yet,
    with distinct uuids, a context that is not cancelled and prefixes that open,
    a run of any number of events ends with [OK] set and no error; the keys
    counted before and after the compaction and the expected ones are the number
    of unique events, the puts are all the emissions, and the change feed of a
    tenant with events holds one change per emission of it. *)
Theorem simulation_ok `{!IsleDBReliable I} fuel opts w tenants w1 :
  uuids_distinct uuid_NewV7 -> (forall n, exists a, uuid_NewV7 n = Ok a) -> (forall n, ctx_Err n = None) ->
  clock_ok now ->
  New answer (store_config (wEnv w) opts) AllTenantIDs w = (Ok tenants, w1) ->
  (forall id, id ∈ AllTenantIDs -> closed id w) ->
  (forall id, id ∈ AllTenantIDs -> fresh_db (prefix_db (store_config (wEnv w) opts) id)) ->
  2 * Z.max 0 (oEvents opts) < Z.of_nat fuel ->
  exists out n r p w2, generate opts = ((out, None), n) /\ Run fuel opts w = Some ((r, p), w2) /\
    rOK r = true /\ rError r = "" /\ rPutCount r = Z.of_nat (length out) /\
    PreCompactKeys r = Z.of_nat (length (ExpectedKeys out)) /\ PostCompactKeys r = PreCompactKeys r /\
    UniqueExpected r = PreCompactKeys r /\
    forall id, keys_of id (ExpectedKeys out) <> [] -> TailByTenant r !! id = Some (Z.of_nat (length (for_tenant id out))).
Proof. exact (Run_ok fuel opts w tenants w1). Qed.

(** A run leaves nothing open.  Whatever the generator, the handles or the
    stores answer, a run that returns has closed every handle it opened. *)
Theorem simulation_no_leak fuel opts w r w' :
  (forall id, id ∈ AllTenantIDs -> closed id w) -> Run fuel opts w = Some (r, w') -> live w' = live w.
Proof.
  intros Hclosed. unfold Run. destruct (generate opts) as [[out [e|]] n]; [by intros [= _ <-]|].
  pose proof AllTenantIDs_NoDup as Hnd.
  pose proof (New_no_leak answer (store_config (wEnv w) opts) AllTenantIDs w Hnd Hclosed) as Hnew.
  destruct (New answer _ AllTenantIDs w) as [[tenants|e] w1]; [|by intros [= _ <-]]. destruct Hnew as [_ Hlive].
  destruct (run_opened fuel out _ _ _) as [[res p]|]; [|done].
  destruct (CloseAll answer tenants w1) as [e w2]. by intros [= _ <-].
Qed.
End Simulation.

(** ** A concrete run *)

Definition no_failure (_ : list (call * option error)) (_ : call) : option error := None.
Definition empty_prefix (_ : StoreConfig) (_ : string) : MemStore.state := MemStore.empty.
Definition epoch (_ : nat) : time := 0.

(** Two events on the in-memory backend, without pacing. *)
Definition two_events : Options := {|
  oBackend := BackendMemory; oDuration := 60 * second; oEvents := 2; oPrefixSuffix := "t"; oFast := true; oCacheRoot := "" |}.

Local Abbreviation simulated := (Run (I := MemStore.steady) (MR := canonical_range) (R := walk)
  no_failure empty_prefix no_wave serial_uuid never_done epoch).

Lemma new_ends (r : result (gmap string PrefixDB) * world) :
  match r with (Ok _, _) => true | _ => false end = true -> exists tenants w, r = (Ok tenants, w).
Proof. destruct r as [[tenants|e] w]; [eauto|done]. Qed.

Lemma nothing_open id : closed id start.
Proof. intros k. apply not_elem_of_empty. Qed.

Lemma simulation_ok_witness : exists r p w2,
  simulated 5 two_events start = Some ((r, p), w2) /\ rOK r = true /\ rError r = "".
Proof.
  destruct (new_ends (New (MR := canonical_range) no_failure (store_config (wEnv start) two_events) AllTenantIDs start))
    as (tenants & w1 & Hnew); [by vm_compute|].
  destruct (simulation_ok (I := MemStore.steady) (MR := canonical_range) (R := walk) (L := MemStore.steady_laws)
    no_failure empty_prefix no_wave serial_uuid never_done epoch 5 two_events start tenants w1)
    as (out & n & r & p & w2 & _ & Hrun & Hok & Herr & _).
  - exact serial_uuids_distinct.
  - intros n. eexists. reflexivity.
  - intros n. reflexivity.
  - intros n. vm_compute. reflexivity.
  - exact Hnew.
  - intros id _. apply nothing_open.
  - intros id _. split; [|split]; reflexivity.
  - vm_compute. reflexivity.
  - exists r, p, w2. split; [exact Hrun|]. split; [exact Hok|exact Herr].
Defined.

Lemma some_ends {A B} (o : option (A * B)) : match o with Some _ => true | None => false end = true ->
  exists a b, o = Some (a, b).
Proof. destruct o as [[a b]|]; [eauto|done]. Qed.

Lemma simulation_no_leak_witness : exists r w', simulated 5 two_events start = Some (r, w') /\ live w' = ∅.
Proof.
  destruct (some_ends (simulated 5 two_events start)) as (r & w' & Hrun); [by vm_compute|].
  exists r, w'. split; [exact Hrun|].
  etrans; [apply (simulation_no_leak (I := MemStore.steady) (MR := canonical_range) (R := walk)
    no_failure empty_prefix no_wave serial_uuid never_done epoch 5 two_events start r w'
    (fun id _ => nothing_open id) Hrun)|]. reflexivity.
Defined.

