(* ===== verification/Status.v ===== *)
(** * Backend status (internal/pipeline/status.go, bucket.go)

    The dashboard's read-only probe: it ensures the bucket, opens a reader on
    every tenant prefix, counts its keys and closes it again. *)

From S2P Require Import Prelude GoStrings KeyRange Json Event IsleDB ChangeFeed Tenant Store PrefixDB.

Record BackendStatus := {
  stBackend : Backend;
  stOK : bool;
  stError : string;
  Bucket : string;
  Endpoint : string;
  TotalKeys : Z;
  stKeysByTenant : gmap string Z
}.

Definition isBucketMissingErr (err : error) : bool :=
  let msg := Error err in
  str_contains msg "NoSuchBucket" || (str_contains msg "NotFound" && str_contains msg "ListObjects").

Section Status.
Context {I : IsleDB}.
Variable answer : list (call * option error) -> call -> option error.
Variable prefix_db : StoreConfig -> string -> db.   (* what a prefix holds *)

(** The count comes with the scan's error, if any; the closer's result is
    dropped ([defer closer()]). *)
Definition probeTenantKeyCount (cfg : StoreConfig) (tenantID : string) (w : world) : (Z * option error) * world :=
  match OpenReaderDB answer cfg tenantID w with
  | (Err e, w) => ((0, Some e), w)
  | (Ok closeBucket, w) =>
      let r := match fst (ScanKeysIter (TenantPrefix tenantID) (TenantUpperBound tenantID) (prefix_db cfg tenantID)) with
               | Ok keys => (Z.of_nat (length keys), None)
               | Err e => (0, Some e)
               end in
      (r, snd (reader_closer answer tenantID closeBucket w))
  end.

Definition fail_status (msg : string) (st : BackendStatus) : BackendStatus :=
  {| stBackend := stBackend st; stOK := false; stError := msg; Bucket := Bucket st; Endpoint := Endpoint st;
     TotalKeys := TotalKeys st; stKeysByTenant := stKeysByTenant st |}.

Definition add_count (id : string) (n : Z) (st : BackendStatus) : BackendStatus :=
  {| stBackend := stBackend st; stOK := stOK st; stError := stError st; Bucket := Bucket st; Endpoint := Endpoint st;
     TotalKeys := TotalKeys st + n; stKeysByTenant := <[id := n]> (stKeysByTenant st) |}.

Fixpoint probe_loop (cfg : StoreConfig) (ids : list string) (st : BackendStatus) (w : world) : BackendStatus * world :=
  match ids with
  | [] => ({| stBackend := stBackend st; stOK := true; stError := stError st; Bucket := Bucket st;
              Endpoint := Endpoint st; TotalKeys := TotalKeys st; stKeysByTenant := stKeysByTenant st |}, w)
  | id :: ids =>
      match probeTenantKeyCount cfg id w with
      | ((_, Some e), w) =>
          (fail_status
             (if isBucketMissingErr e
              then "bucket " +:+ quote (Bucket st) +:+ " not found — run mise run minio-setup or check MINIO_BUCKET"
              else "tenant " +:+ id +:+ ": " +:+ Error e) st, w)
      | ((n, None), w) => probe_loop cfg ids (add_count id n st) w
      end
  end.

Definition initial_status (cfg : StoreConfig) : BackendStatus :=
  let st bucket endpoint := {| stBackend := cfgBackend cfg; stOK := false; stError := ""; Bucket := bucket;
                               Endpoint := endpoint; TotalKeys := 0; stKeysByTenant := ∅ |} in
  if bool_decide (cfgBackend cfg = BackendMinIO) then st (MinBucket cfg) (MinEndpoint cfg)
  else if bool_decide (cfgBackend cfg = BackendTigris) then st (TigrisBucket cfg) "tigris (s3 api)"
  else st "memory" "".

Definition Probe (cfg : StoreConfig) (w : world) : BackendStatus * world :=
  let st := initial_status cfg in
  if bool_decide (cfgBackend cfg = BackendMinIO \/ cfgBackend cfg = BackendTigris) then
    match ensureBucket answer cfg w with
    | (Some e, w) => (fail_status ("bucket setup: " +:+ Error e) st, w)
    | (None, w) => probe_loop cfg AllTenantIDs st w
    end
  else probe_loop cfg AllTenantIDs st w.

(** ** Properties *)

Context {L : IsleDBLaws I}.

(** The number of keys a flushed store holds for its tenant. *)
Definition holds_keys (id : string) (n : Z) (d : db) : Prop :=
  exists keys, NoDup keys /\ n = Z.of_nat (length keys) /\
    forall k, k ∈ keys <-> has_prefix k (TenantPrefix id) = true /\ is_Some (accepted_kv d !! k).

Lemma probeTenantKeyCount_ok cfg id w n w' : unflushed (prefix_db cfg id) = [] ->
  probeTenantKeyCount cfg id w = ((n, None), w') -> holds_keys id n (prefix_db cfg id).
Proof.
  intros Hu. unfold probeTenantKeyCount. destruct (OpenReaderDB answer cfg id w) as [[b|e] w1]; [|done].
  destruct (ScanKeysIter _ _ _) as [[keys|e] d'] eqn:Hs; simpl; [|done]. intros [= <- _].
  apply ScanKeys_same in Hs as (_ & Hso & Hk); [|done]. exists keys. split; [by apply strictly_sorted_NoDup|done].
Qed.

Lemma probe_loop_ok cfg ids st w : (forall id, unflushed (prefix_db cfg id) = []) -> NoDup ids ->
  stOK st = false -> (forall id, id ∈ ids -> stKeysByTenant st !! id = None) ->
  let st' := (probe_loop cfg ids st w).1 in
  stOK st' = true ->
    TotalKeys st' = TotalKeys st + foldr Z.add 0 ((fun id => default 0 (stKeysByTenant st' !! id)) <$> ids) /\
    (forall id, id ∈ ids -> exists n, stKeysByTenant st' !! id = Some n /\ holds_keys id n (prefix_db cfg id)) /\
    (forall id, id ∉ ids -> stKeysByTenant st' !! id = stKeysByTenant st !! id) /\ stError st' = stError st.
Proof.
  intros Hu. revert st w. induction ids as [|id ids IH]; intros st w Hnd Hok Hnew; cbn [probe_loop]; cbv zeta.
  { intros _. simpl. split_and!; [lia|by intros ? ?%not_elem_of_nil|done|done]. }
  apply NoDup_cons in Hnd as [Hni Hnd].
  destruct (probeTenantKeyCount cfg id w) as [[n [e|]] w1] eqn:Hp; [done|].
  apply probeTenantKeyCount_ok in Hp; [|done]. intros Hok'.
  destruct (IH (add_count id n st) w1 Hnd Hok) as (Htot & Hall & Hrest & Herr); [|done|].
  { intros id' Hid'. simpl. rewrite lookup_insert_ne; [apply Hnew; by right|]. by intros ->. }
  simpl in Htot, Hrest, Herr. assert (Hid : stKeysByTenant (probe_loop cfg ids (add_count id n st) w1).1 !! id = Some n).
  { rewrite Hrest by done. by rewrite lookup_insert_eq. }
  split_and!; [| | |done].
  - rewrite Htot, fmap_cons. simpl. rewrite Hid. simpl. lia.
  - intros id' [->|Hin]%elem_of_cons; [eauto|by apply Hall].
  - intros id' [Hne Hin]%not_elem_of_cons. rewrite Hrest by done. by rewrite lookup_insert_ne.
Qed.

(** A status that is [OK] reports, for every tenant, the number of keys its
    prefix holds, and their sum. *)
Lemma probe_counts cfg w : (forall id, unflushed (prefix_db cfg id) = []) ->
  let st := (Probe cfg w).1 in
  stOK st = true ->
    stError st = "" /\
    TotalKeys st = foldr Z.add 0 ((fun id => default 0 (stKeysByTenant st !! id)) <$> AllTenantIDs) /\
    forall id, id ∈ AllTenantIDs -> exists n, stKeysByTenant st !! id = Some n /\ holds_keys id n (prefix_db cfg id).
Proof.
  intros Hu. unfold Probe. cbv zeta.
  assert (Hnd : NoDup AllTenantIDs) by (apply (bool_decide_unpack _); by vm_compute).
  assert (Hini : stOK (initial_status cfg) = false /\ stError (initial_status cfg) = "" /\
    TotalKeys (initial_status cfg) = 0 /\ stKeysByTenant (initial_status cfg) = ∅)
    by (unfold initial_status; by repeat case_bool_decide).
  destruct Hini as (Hok & Herr & Htot & Hkeys).
  assert (Hloop : forall w, stOK (probe_loop cfg AllTenantIDs (initial_status cfg) w).1 = true ->
    stError (probe_loop cfg AllTenantIDs (initial_status cfg) w).1 = "" /\
    TotalKeys (probe_loop cfg AllTenantIDs (initial_status cfg) w).1 = foldr Z.add 0
      ((fun id => default 0 (stKeysByTenant (probe_loop cfg AllTenantIDs (initial_status cfg) w).1 !! id)) <$> AllTenantIDs) /\
    forall id, id ∈ AllTenantIDs -> exists n,
      stKeysByTenant (probe_loop cfg AllTenantIDs (initial_status cfg) w).1 !! id = Some n /\ holds_keys id n (prefix_db cfg id)).
  { intros w0 H. destruct (probe_loop_ok cfg AllTenantIDs (initial_status cfg) w0 Hu Hnd Hok) as (H1 & H2 & _ & H4); [|done|].
    - intros id _. by rewrite Hkeys.
    - rewrite Htot in H1. rewrite Herr in H4. done. }
  case_bool_decide; [|apply Hloop]. destruct (ensureBucket answer cfg w) as [[e|] w1]; [done|apply Hloop].
Qed.
End Status.
