(* ===== verification/Session.v ===== *)
(** * Browser sessions (internal/demo/session.go, and the poll choices of poll.go)

    The session store as a state monad over a [World]: the store, the disk and
    a counter of effects.  [clock n] is what the n-th effect reads when it is a
    [time.Now()], and [disk n] what the operating system answers when it is a
    [persistLocked]: both are arbitrary, so the clock may advance between two
    readings of one operation and any write may fail.  Operations hold the
    store's mutex, so each is one transition. *)

From S2P Require Import Prelude GoStrings Json Regions.

(** ** Poll intervals (poll.go) *)

Definition DefaultPollSeconds : Z := 10.
Definition DefaultPollInterval : Z := DefaultPollSeconds * second.
Definition PollTickInterval : Z := 10 * second.
Definition AllowedPollSeconds : list Z := [10; 20; 30].

Definition NormalizePollSeconds (seconds : Z) : result Z :=
  if bool_decide (seconds ∈ AllowedPollSeconds) then Ok seconds
  else Err (Errorf "poll interval must be 10, 20, or 30 seconds").

Definition storedPollSeconds (n : Z) : Z :=
  match NormalizePollSeconds n with Ok v => v | Err _ => DefaultPollSeconds end.

(** ** State *)

Definition DefaultSessionStorePath : string := "data/demo-sessions.json".
Definition SessionIdleTTL : Z := 5 * minute.
Definition SessionHeartbeatInterval : Z := minute.

Record sessionState := { sRegion : string; sPollSeconds : Z; LastSeen : time }.

#[export] Instance sessionState_eq_dec : EqDecision sessionState.
Proof. solve_decision. Defined.

Record SessionStore := {
  sessions : gmap string sessionState;
  live : gmap string Z;
  path : string
}.

Definition set_sessions (m : gmap string sessionState) (s : SessionStore) : SessionStore :=
  {| sessions := m; live := live s; path := path s |}.
Definition set_live (m : gmap string Z) (s : SessionStore) : SessionStore :=
  {| sessions := sessions s; live := m; path := path s |}.

Definition NewSessionStore : SessionStore := {| sessions := ∅; live := ∅; path := "" |}.

(** Outcomes of one persist: of [MkdirAll], of writing the temporary file (on
    an error, what it holds then), of [Rename]. *)
Record disk_io := {
  io_mkdir : option error;
  io_write : option (error * option value);
  io_rename : option error
}.
Definition disk_ok : disk_io := {| io_mkdir := None; io_write := None; io_rename := None |}.

Record World := { store : SessionStore; files : gmap string value; ticks : nat }.

Definition M (A : Type) : Type := World -> A * World.
#[export] Instance M_ret : MRet M := fun A a w => (a, w).
#[export] Instance M_bind : MBind M := fun A B f m w => let '(a, w) := m w in f a w.

Definition gets {A} (f : SessionStore -> A) : M A := fun w => (f (store w), w).
Definition modify (f : SessionStore -> SessionStore) : M unit := fun w =>
  (tt, {| store := f (store w); files := files w; ticks := ticks w |}).

Section Store.
Context {MR : MapRange}.
Variable clock : nat -> time.
Variable disk : nat -> disk_io.

Definition Now : M time := fun w =>
  (clock (ticks w), {| store := store w; files := files w; ticks := S (ticks w) |}).

(** ** Expiry *)

Definition sessionExpired (st : sessionState) (now : time) : bool :=
  if is_zero (LastSeen st) then true else SessionIdleTTL <=? time_sub now (LastSeen st).

Definition prune_step (now : time) (acc : bool * gmap string sessionState) (kv : string * sessionState) :=
  if sessionExpired kv.2 now then (true, delete kv.1 acc.2) else acc.

Definition pruneExpiredLocked (now : time) : M bool := fun w =>
  let '(removed, m) := foldl (prune_step now) (false, sessions (store w)) (range (sessions (store w))) in
  (removed, {| store := set_sessions m (store w); files := files w; ticks := ticks w |}).

(** ** Persistence *)

(** [json.Marshal(st)], with a zero interval replaced by the default. *)
Definition enc_state (st : sessionState) : result json :=
  let poll := if sPollSeconds st =? 0 then DefaultPollSeconds else sPollSeconds st in
  t ← enc_time (LastSeen st);
  Ok (JObj ([("region", enc_str (sRegion st))] ++ omit_if (poll =? 0) "pollSeconds" (JInt poll) ++ [("lastSeen", t)])).

(** The loop that fills [file.Sessions]. *)
Fixpoint enc_sessions (l : list (string * sessionState)) (m : gmap string json) : result (gmap string json) :=
  match l with
  | [] => Ok m
  | (sid, st) :: l => b ← enc_state st; enc_sessions l (<[sid := b]> m)
  end.

(** [json.Marshal(file)]. *)
Definition enc_file (m : gmap string json) : value := Doc (JObj [("sessions", enc_map m)]).

Definition tmp_path (p : string) : string := p +:+ ".tmp".

Definition write_file (p : string) (v : option value) (fs : gmap string value) : gmap string value :=
  match v with Some v => <[p := v]> fs | None => fs end.

(** [os.WriteFile] then [os.Rename]. *)
Definition write_rename (io : disk_io) (p : string) (b : value) (fs : gmap string value) : option error * gmap string value :=
  match io_write io with
  | Some (e, partial) => (Some e, write_file (tmp_path p) partial fs)
  | None =>
      let fs := write_file (tmp_path p) (Some b) fs in
      match io_rename io with
      | Some e => (Some e, fs)
      | None => (None, <[p := b]> (delete (tmp_path p) fs))
      end
  end.

Definition persistLocked : M (option error) := fun w =>
  let io := disk (ticks w) in
  let s := store w in
  let done e fs := (e, {| store := s; files := fs; ticks := S (ticks w) |}) in
  if bool_decide (path s = "") then (None, w)
  else match io_mkdir io with
       | Some e => done (Some e) (files w)
       | None =>
           match enc_sessions (range (sessions s)) ∅ with
           | Err e => done (Some e) (files w)
           | Ok m => let '(e, fs) := write_rename io (path s) (enc_file m) (files w) in done e fs
           end
       end.

(** ** Loading *)

Definition dec_state (j : json) : result sessionState :=
  fs ← dec_obj (Doc j);
  r ← dec_field "" dec_str "region" fs;
  p ← dec_field 0 dec_int "pollSeconds" fs;
  t ← dec_field zero_time dec_time "lastSeen" fs;
  Ok {| sRegion := r; sPollSeconds := p; LastSeen := t |}.

Definition parseSessionValue (raw : json) : option sessionState :=
  let legacy := match raw with JNull => "" | JStr s => s | _ => "" end in
  if bool_decide (legacy <> "") then
    Some {| sRegion := legacy; sPollSeconds := DefaultPollSeconds; LastSeen := zero_time |}
  else match dec_state raw with
       | Err _ => None
       | Ok st =>
           if bool_decide (sRegion st = "") then None
           else Some {| sRegion := sRegion st; sPollSeconds := storedPollSeconds (sPollSeconds st); LastSeen := LastSeen st |}
       end.

(** What one entry of the file loads as. *)
Definition load_entry (now : time) (raw : json) : option sessionState :=
  match parseSessionValue raw with
  | None => None
  | Some st =>
      match RegionByID (sRegion st) with
      | Err _ => None
      | Ok _ => if sessionExpired st now then None else Some st
      end
  end.

Definition load_step (now : time) (m : gmap string sessionState) (kv : string * json) : gmap string sessionState :=
  match load_entry now kv.2 with Some st => <[kv.1 := st]> m | None => m end.

Definition dec_file (b : value) : result (gmap string json) :=
  fs ← dec_obj b;
  dec_field ∅ dec_map "sessions" fs.

(** [load] at the time [now]; [read] is the outcome of [os.ReadFile], where
    [Ok None] is [os.ErrNotExist]; an empty file is [Raw ""]. *)
Definition load (now : time) (read : result (option value)) (s : SessionStore) : result SessionStore :=
  if bool_decide (path s = "") then Ok s
  else match read with
       | Err e => Err e
       | Ok None => Ok s
       | Ok (Some (Raw "")) => Ok s
       | Ok (Some b) =>
           file ← dec_file b;
           Ok (set_sessions (foldl (load_step now) (sessions s) (range file)) s)
       end.

Definition OpenSessionStore (now : time) (read : result (option value)) (p : string) : result SessionStore :=
  load now read {| sessions := ∅; live := ∅; path := p |}.

(** ** Operations *)

Definition defaultState (now : time) : sessionState :=
  {| sRegion := DefaultRegionID; sPollSeconds := DefaultPollSeconds; LastSeen := now |}.

(** [time.Now()] is read for a session that is not stored only. *)
Definition stateLocked (sessionID : string) : M sessionState :=
  m ← gets sessions;
  match m !! sessionID with
  | Some st =>
      mret (if sPollSeconds st =? 0
            then {| sRegion := sRegion st; sPollSeconds := DefaultPollSeconds; LastSeen := LastSeen st |} else st)
  | None => now ← Now; mret (defaultState now)
  end.

(** [if s.pruneExpiredLocked(time.Now()) { _ = s.persistLocked() }] *)
Definition prune_persist : M unit :=
  now ← Now;
  removed ← pruneExpiredLocked now;
  if removed : bool then _ ← persistLocked; mret tt else mret tt.

Definition put_session (sid : string) (st : sessionState) : M unit :=
  modify (fun s => set_sessions (<[sid := st]> (sessions s)) s).

Definition Touch (sessionID : string) : M unit :=
  if bool_decide (sessionID = "") then mret tt
  else
    now ← Now;
    m ← gets sessions;
    st ← match m !! sessionID with
         | Some st => mret st
         | None => now' ← Now; mret (defaultState now')
         end;
    _ ← put_session sessionID {| sRegion := sRegion st; sPollSeconds := sPollSeconds st; LastSeen := now |};
    pruned ← pruneExpiredLocked now;
    if negb (bool_decide (is_Some (m !! sessionID))) || pruned
    then _ ← persistLocked; mret tt else mret tt.

(** An absent counter reads as 0. *)
Definition viewers (s : SessionStore) (sid : string) : Z := default 0 (live s !! sid).

Definition AcquireLive (sessionID : string) : M unit :=
  if bool_decide (sessionID = "") then mret tt
  else modify (fun s => set_live (<[sessionID := viewers s sessionID + 1]> (live s)) s).

Definition ReleaseLive (sessionID : string) : M unit :=
  if bool_decide (sessionID = "") then mret tt
  else modify (fun s =>
         let n := viewers s sessionID - 1 in
         if n <=? 0 then set_live (delete sessionID (live s)) s
         else set_live (<[sessionID := n]> (live s)) s).

(** The loop over [s.live] of [LiveRegionIDs]. *)
Fixpoint live_regions_loop (l : list (string * Z)) (seen : gset string) (ids : list string) : M (list string) :=
  match l with
  | [] => mret ids
  | (sid, n) :: l =>
      if n <=? 0 then live_regions_loop l seen ids
      else
        m ← gets sessions;
        match m !! sid with
        | None => live_regions_loop l seen ids
        | Some st =>
            if bool_decide (sRegion st = "") then live_regions_loop l seen ids
            else
              now ← Now;
              if sessionExpired st now then live_regions_loop l seen ids
              else if bool_decide (sRegion st ∈ seen) then live_regions_loop l seen ids
              else live_regions_loop l ({[sRegion st]} ∪ seen) (ids ++ [sRegion st])
        end
  end.

Definition LiveRegionIDs : M (list string) :=
  _ ← prune_persist;
  lv ← gets live;
  live_regions_loop (range lv) ∅ [].

Definition Region (sessionID : string) : M string :=
  _ ← prune_persist;
  st ← stateLocked sessionID;
  mret (sRegion st).

Definition SetRegion (sessionID regionID : string) : M (option error) :=
  match RegionByID regionID with
  | Err e => mret (Some e)
  | Ok _ =>
      st ← stateLocked sessionID;
      now ← Now;
      _ ← put_session sessionID {| sRegion := regionID; sPollSeconds := sPollSeconds st; LastSeen := now |};
      _ ← pruneExpiredLocked now;
      persistLocked
  end.

Definition PollSeconds (sessionID : string) : M Z :=
  _ ← prune_persist;
  st ← stateLocked sessionID;
  mret (sPollSeconds st).

Definition SetPollSeconds (sessionID : string) (seconds : Z) : M (option error) :=
  match NormalizePollSeconds seconds with
  | Err e => mret (Some e)
  | Ok n =>
      st ← stateLocked sessionID;
      now ← Now;
      _ ← put_session sessionID {| sRegion := sRegion st; sPollSeconds := n; LastSeen := now |};
      _ ← pruneExpiredLocked now;
      persistLocked
  end.

(** The loop of [MinPollIntervalForRegion]; a duration of zero is "none yet". *)
Definition min_poll_step (m : gmap string sessionState) (regionID : string) (min : Z) (kv : string * Z) : Z :=
  if kv.2 <=? 0 then min
  else match m !! kv.1 with
       | None => min
       | Some st =>
           if bool_decide (sRegion st <> regionID) then min
           else let d := storedPollSeconds (sPollSeconds st) * second in
                if (min =? 0) || (d <? min) then d else min
       end.

Definition MinPollIntervalForRegion (regionID : string) : M Z :=
  _ ← prune_persist;
  lv ← gets live;
  m ← gets sessions;
  mret (foldl (min_poll_step m regionID) 0 (range lv)).

(** The loop over the sessions of [ActiveRegionIDs]. *)
Definition active_step (acc : gset string * list string) (kv : string * sessionState) : gset string * list string :=
  if bool_decide (sRegion kv.2 ∈ acc.1) then acc
  else ({[sRegion kv.2]} ∪ acc.1, acc.2 ++ [sRegion kv.2]).

Definition ActiveRegionIDs : M (list string) :=
  _ ← prune_persist;
  m ← gets sessions;
  mret (foldl active_step (∅, []) (range m)).2.

(** poll.go: the sessions per region. *)
Definition RegionViewerCounts : M (gmap string Z) :=
  _ ← prune_persist;
  m ← gets sessions;
  mret (foldl (fun counts kv => <[sRegion kv.2 := default 0 (counts !! sRegion kv.2) + 1]> counts) ∅ (range m)).

Definition FeedsToPoll : M (result (list Feed)) :=
  ids ← LiveRegionIDs;
  mret (FeedsForRegions ids).

(** The zero region when the session's region is unknown. *)
Definition ActiveRegion (sessionID : string) : M MapRegion :=
  id ← Region sessionID;
  mret (match RegionByID id with Ok r => r | Err _ => zero_region end).

Definition ActiveFeeds (sessionID : string) : M (result (list Feed)) :=
  id ← Region sessionID;
  mret (FeedsForRegion id).

Definition ActiveAgencies (sessionID : string) : M (result (gset string)) :=
  id ← Region sessionID;
  mret (ids ← AgenciesForRegion id; Ok (AgencySet ids)).

(** ** Triples: an invariant kept by every effect *)

Definition triple {A} (P : World -> Prop) (m : M A) (Q : A -> Prop) : Prop :=
  forall w, P w -> P (m w).2 /\ Q (m w).1.

Lemma triple_ret {A} P (a : A) (Q : A -> Prop) : Q a -> triple P (mret a) Q.
Proof. by intros Ha w Hw. Qed.

Lemma triple_bind {A B} P (m : M A) (f : A -> M B) (Q : A -> Prop) R :
  triple P m Q -> (forall a, Q a -> triple P (f a) R) -> triple P (a ← m; f a) R.
Proof.
  intros Hm Hf w Hw. unfold mbind, M_bind. destruct (Hm w Hw) as [Hw' Ha].
  destruct (m w) as [a w']. simpl in *. by apply Hf.
Qed.

Lemma triple_weaken {A} P (m : M A) (Q Q' : A -> Prop) :
  triple P m Q -> (forall a, Q a -> Q' a) -> triple P m Q'.
Proof. intros Hm HQ w Hw. destruct (Hm w Hw). auto. Qed.

(** ** Pruning and persisting *)

Definition unexpired (now : time) (m : gmap string sessionState) : gmap string sessionState :=
  filter (fun kv => sessionExpired kv.2 now = false) m.

Lemma unexpired_Some now m sid st :
  unexpired now m !! sid = Some st <-> m !! sid = Some st /\ sessionExpired st now = false.
Proof. unfold unexpired. by rewrite map_lookup_filter_Some. Qed.

Lemma prune_fold now l b m r : foldl (prune_step now) (b, m) l = r ->
  (forall sid st, r.2 !! sid = Some st <->
     m !! sid = Some st /\ forall st', (sid, st') ∈ l -> sessionExpired st' now = false) /\
  (r.1 = false -> b = false /\ r.2 = m).
Proof.
  revert b m. induction l as [|[sid0 st0] l IH]; intros b m; cbn [foldl].
  { intros <-. split; [|done]. intros sid st. split; [|tauto]. intros H. split; [done|]. by intros st' Hin%elem_of_nil. }
  assert (Hs : prune_step now (b, m) (sid0, st0) = if sessionExpired st0 now then (true, delete sid0 m) else (b, m))
    by done.
  rewrite Hs. clear Hs. destruct (sessionExpired st0 now) eqn:E; intros [H1 H2]%IH; (split; [|naive_solver]).
  - intros sid st. rewrite H1, lookup_delete_Some. split.
    + intros [[Hne Hm] Hl]. split; [done|]. intros st' [[= -> ->]|Hin]%elem_of_cons; [done|eauto].
    + intros [Hm Hl]. split; [split; [|done]|intros st' Hin; apply Hl; by right].
      intros <-. rewrite (Hl st0) in E; [done|left].
  - intros sid st. rewrite H1. split.
    + intros [Hm Hl]. split; [done|]. intros st' [[= -> ->]|Hin]%elem_of_cons; [done|eauto].
    + intros [Hm Hl]. split; [done|]. intros st' Hin. apply Hl. by right.
Qed.

(** Pruning deletes the expired sessions, and nothing else. *)
Lemma prune_spec now w : exists removed,
  pruneExpiredLocked now w =
    (removed, {| store := set_sessions (unexpired now (sessions (store w))) (store w); files := files w; ticks := ticks w |}) /\
  (removed = false -> unexpired now (sessions (store w)) = sessions (store w)).
Proof.
  unfold pruneExpiredLocked. destruct (foldl _ _ _) as [b m] eqn:E. apply prune_fold in E as [H1 H2].
  simpl in *. exists b.
  assert (m = unexpired now (sessions (store w))) as ->.
  { apply map_eq. intros sid. apply option_eq. intros st. rewrite H1, unexpired_Some. split.
    - intros [Hm Hl]. split; [done|]. apply Hl. by apply elem_of_range.
    - intros [Hm He]. split; [done|]. intros st' Hin%elem_of_range. congruence. }
  split; [done|]. intros Hb. by apply H2.
Qed.

(** Persisting leaves the store alone. *)
Lemma persist_store w : store (persistLocked w).2 = store w.
Proof. unfold persistLocked. repeat case_match; done. Qed.

(** [prune_persist] reads the clock once and prunes by that reading. *)
Lemma prune_persist_store w :
  store (prune_persist w).2 = set_sessions (unexpired (clock (ticks w)) (sessions (store w))) (store w).
Proof.
  unfold prune_persist, mbind, M_bind. simpl.
  match goal with |- context [pruneExpiredLocked ?n ?w'] => destruct (prune_spec n w') as (b & -> & _) end.
  destruct b; simpl; [|done].
  match goal with |- context [persistLocked ?w'] => pose proof (persist_store w') as Hp; destruct (persistLocked w') end.
  exact Hp.
Qed.

Lemma tmp_path_ne p : tmp_path p <> p.
Proof.
  unfold tmp_path. induction p as [|c p IH]; [done|]. simpl. by intros [= E].
Qed.

(** The file at the store's path after a persist is the file from before or
    the whole encoding of the store's sessions. *)
Lemma persist_file w : let w' := (persistLocked w).2 in
  files w' !! path (store w) = files w !! path (store w) \/
  exists m, enc_sessions (range (sessions (store w))) ∅ = Ok m /\ files w' !! path (store w) = Some (enc_file m).
Proof.
  unfold persistLocked. case_bool_decide; [by left|]. destruct (io_mkdir _); [by left|].
  destruct (enc_sessions _ _) as [m|e] eqn:E; [|by left].
  unfold write_rename. destruct (io_write _) as [[e [left|]]|]; simpl.
  - left. apply lookup_insert_ne, tmp_path_ne.
  - by left.
  - destruct (io_rename _); simpl.
    + left. apply lookup_insert_ne, tmp_path_ne.
    + right. exists m. by rewrite lookup_insert_eq.
Qed.

(** ** The invariant *)

(** Every stored session is on a known region with an allowed interval, and
    every counter of connected viewers is positive. *)
Definition session_ok (st : sessionState) : Prop :=
  (exists r, RegionByID (sRegion st) = Ok r) /\ sPollSeconds st ∈ AllowedPollSeconds.

Definition store_ok (s : SessionStore) : Prop :=
  map_Forall (fun _ st => session_ok st) (sessions s) /\ map_Forall (fun _ n => 0 < n) (live s).

(** Loading the file again cannot fail. *)
Definition loadable (p : string) (v : option value) : Prop :=
  forall now s, path s = p -> exists s', load now (Ok v) s = Ok s'.

Lemma loadable_none p : loadable p None.
Proof. intros now s _. unfold load. case_bool_decide; eauto. Qed.

Lemma loadable_enc p m : loadable p (Some (enc_file m)).
Proof. intros now s _. unfold load. case_bool_decide; eauto. Qed.

Definition inv (p : string) (w : World) : Prop :=
  store_ok (store w) /\ path (store w) = p /\ loadable p (files w !! p).

Lemma storedPollSeconds_allowed n : storedPollSeconds n ∈ AllowedPollSeconds.
Proof.
  unfold storedPollSeconds, NormalizePollSeconds. case_bool_decide; [done|]. unfold DefaultPollSeconds. set_solver.
Qed.

Lemma storedPollSeconds_id n : n ∈ AllowedPollSeconds -> storedPollSeconds n = n.
Proof. intros Hn. unfold storedPollSeconds, NormalizePollSeconds. by rewrite bool_decide_true. Qed.

Lemma allowed_pos n : n ∈ AllowedPollSeconds -> 10 <= n <= 30.
Proof. unfold AllowedPollSeconds. set_solver by lia. Qed.

Lemma inv_Now p : triple (inv p) Now (fun _ => True).
Proof. by intros w Hw. Qed.

Lemma inv_gets {A} p (f : SessionStore -> A) (Q : A -> Prop) :
  (forall s, store_ok s -> Q (f s)) -> triple (inv p) (gets f) Q.
Proof. intros HQ w Hw. split; [done|]. apply HQ, Hw. Qed.

Lemma inv_modify p f :
  (forall s, store_ok s -> store_ok (f s) /\ path (f s) = path s) -> triple (inv p) (modify f) (fun _ => True).
Proof.
  intros Hf w (Hok & Hp & Hl). destruct (Hf _ Hok) as [H1 H2]. split; [|done]. split_and!; simpl; [done|congruence|done].
Qed.

Lemma inv_prune p now : triple (inv p) (pruneExpiredLocked now) (fun _ => True).
Proof.
  intros w ([Hs Hv] & Hp & Hl). destruct (prune_spec now w) as (b & -> & _). split; [|done].
  split_and!; simpl; [|done..]. split; simpl; [|done]. intros sid st [Hm _]%unexpired_Some. by apply (Hs sid).
Qed.

Lemma inv_persist p : triple (inv p) persistLocked (fun _ => True).
Proof.
  intros w (Hok & Hp & Hl). split; [|done]. unfold inv. rewrite persist_store. split_and!; [done..|].
  destruct (persist_file w) as [Hf|(m & _ & Hf)]; rewrite Hp in Hf; rewrite Hf; [done|apply loadable_enc].
Qed.

Lemma inv_prune_persist p : triple (inv p) prune_persist (fun _ => True).
Proof.
  eapply triple_bind; [apply inv_Now|]. intros now _.
  eapply triple_bind; [apply inv_prune|]. intros [] _; [|by apply triple_ret].
  eapply triple_bind; [apply inv_persist|]. intros ? _. by apply triple_ret.
Qed.

Lemma default_session_ok now : session_ok (defaultState now).
Proof. split; [by eexists|]. unfold AllowedPollSeconds; simpl. set_solver. Qed.

Lemma inv_stateLocked p sid : triple (inv p) (stateLocked sid) session_ok.
Proof.
  apply (triple_bind _ _ _ (map_Forall (fun _ st => session_ok st))); [apply inv_gets; by intros s []|].
  intros m Hm. destruct (m !! sid) as [st|] eqn:E.
  - apply triple_ret. destruct (Hm sid st E) as [Hr Hp]. case_match; [|done]. split; [done|]. set_solver.
  - eapply triple_bind; [apply inv_Now|]. intros now _. apply triple_ret, default_session_ok.
Qed.

Lemma inv_put_session p sid st : session_ok st -> triple (inv p) (put_session sid st) (fun _ => True).
Proof.
  intros Hst. apply inv_modify. intros s [Hs Hv]. split; [|done]. split; [|done]. by apply map_Forall_insert_2.
Qed.

Lemma inv_live_loop p l seen ids : triple (inv p) (live_regions_loop l seen ids) (fun _ => True).
Proof.
  revert seen ids. induction l as [|[sid n] l IH]; intros seen ids; simpl; [by apply triple_ret|].
  case_match; [apply IH|]. apply (triple_bind _ _ _ (fun _ => True)); [by apply inv_gets|]. intros m _.
  destruct (m !! sid); [|apply IH]. case_bool_decide; [apply IH|].
  eapply triple_bind; [apply inv_Now|]. intros now _. repeat case_match; apply IH.
Qed.

(** ** All operations *)

Inductive operation :=
  | OTouch (sid : string)
  | OAcquireLive (sid : string)
  | OReleaseLive (sid : string)
  | OLiveRegionIDs
  | ORegion (sid : string)
  | OSetRegion (sid region : string)
  | OPollSeconds (sid : string)
  | OSetPollSeconds (sid : string) (seconds : Z)
  | OMinPollInterval (region : string)
  | OActiveRegionIDs
  | ORegionViewerCounts.

(** The world after one operation. *)
Definition step (o : operation) (w : World) : World :=
  match o with
  | OTouch sid => (Touch sid w).2
  | OAcquireLive sid => (AcquireLive sid w).2
  | OReleaseLive sid => (ReleaseLive sid w).2
  | OLiveRegionIDs => (LiveRegionIDs w).2
  | ORegion sid => (Region sid w).2
  | OSetRegion sid r => (SetRegion sid r w).2
  | OPollSeconds sid => (PollSeconds sid w).2
  | OSetPollSeconds sid n => (SetPollSeconds sid n w).2
  | OMinPollInterval r => (MinPollIntervalForRegion r w).2
  | OActiveRegionIDs => (ActiveRegionIDs w).2
  | ORegionViewerCounts => (RegionViewerCounts w).2
  end.

Ltac after_prune :=
  eapply triple_bind; [apply inv_prune_persist|]; intros [] _.
Ltac with_gets :=
  apply (triple_bind _ _ _ (fun _ => True)); [by apply inv_gets|]; intros ? _.

Lemma inv_set p sid (f : sessionState -> sessionState) :
  (forall st, session_ok st -> session_ok (f st)) ->
  triple (inv p)
    (st ← stateLocked sid;
     now ← Now;
     _ ← put_session sid (let st' := f st in {| sRegion := sRegion st'; sPollSeconds := sPollSeconds st'; LastSeen := now |});
     _ ← pruneExpiredLocked now;
     persistLocked) (fun _ => True).
Proof.
  intros Hf. eapply triple_bind; [apply inv_stateLocked|]. intros st Hst.
  eapply triple_bind; [apply inv_Now|]. intros now _.
  eapply triple_bind; [apply inv_put_session; exact (Hf st Hst)|]. intros _ _.
  eapply triple_bind; [apply inv_prune|]. intros _ _. apply inv_persist.
Qed.

Lemma inv_Touch p sid : triple (inv p) (Touch sid) (fun _ => True).
Proof.
  unfold Touch. case_bool_decide; [by apply triple_ret|].
  eapply triple_bind; [apply inv_Now|]. intros now _.
  apply (triple_bind _ _ _ (map_Forall (fun _ st => session_ok st))); [apply inv_gets; by intros s []|]. intros m Hm.
  apply (triple_bind _ _ _ session_ok).
  { destruct (m !! sid) as [st|] eqn:E; [apply triple_ret; by apply (Hm sid)|].
    eapply triple_bind; [apply inv_Now|]. intros now' _. apply triple_ret, default_session_ok. }
  intros st Hst. eapply triple_bind; [apply inv_put_session; exact Hst|]. intros _ _.
  eapply triple_bind; [apply inv_prune|]. intros pruned _. case_match; [|by apply triple_ret].
  eapply triple_bind; [apply inv_persist|]. intros ? _. by apply triple_ret.
Qed.

Lemma inv_SetRegion p sid r : triple (inv p) (SetRegion sid r) (fun _ => True).
Proof.
  unfold SetRegion. destruct (RegionByID r) eqn:E; [|by apply triple_ret].
  apply (inv_set p sid (fun st => {| sRegion := r; sPollSeconds := sPollSeconds st; LastSeen := LastSeen st |})).
  intros st [_ Hp]. split; [eauto|done].
Qed.

Lemma inv_SetPollSeconds p sid n : triple (inv p) (SetPollSeconds sid n) (fun _ => True).
Proof.
  unfold SetPollSeconds, NormalizePollSeconds. case_bool_decide; [|by apply triple_ret].
  apply (inv_set p sid (fun st => {| sRegion := sRegion st; sPollSeconds := n; LastSeen := LastSeen st |})).
  intros st [Hr _]. by split.
Qed.

Lemma inv_AcquireLive p sid : triple (inv p) (AcquireLive sid) (fun _ => True).
Proof.
  unfold AcquireLive. case_bool_decide; [by apply triple_ret|]. apply inv_modify. intros s [Hs Hv].
  split; [|done]. split; [done|]. apply map_Forall_insert_2; [|done]. unfold viewers.
  destruct (live s !! sid) as [n|] eqn:E; simpl; [|lia]. specialize (Hv sid n E). simpl in Hv. lia.
Qed.

Lemma inv_ReleaseLive p sid : triple (inv p) (ReleaseLive sid) (fun _ => True).
Proof.
  unfold ReleaseLive. case_bool_decide; [by apply triple_ret|]. apply inv_modify. intros s [Hs Hv]. cbn zeta.
  destruct (Z.leb_spec (viewers s sid - 1) 0); (split; [|done]); (split; [done|]).
  - by apply map_Forall_delete.
  - apply map_Forall_insert_2; [lia|done].
Qed.

Lemma inv_step p o w : inv p w -> inv p (step o w).
Proof.
  revert w. destruct o; simpl; intros w Hw.
  - by apply inv_Touch.
  - by apply inv_AcquireLive.
  - by apply inv_ReleaseLive.
  - refine (proj1 (_ w Hw)). unfold LiveRegionIDs. after_prune. with_gets. apply inv_live_loop.
  - refine (proj1 (_ w Hw)). unfold Region. after_prune.
    eapply triple_bind; [apply inv_stateLocked|]. intros ? _. by apply (triple_ret _ _ (fun _ => True)).
  - by apply inv_SetRegion.
  - refine (proj1 (_ w Hw)). unfold PollSeconds. after_prune.
    eapply triple_bind; [apply inv_stateLocked|]. intros ? _. by apply (triple_ret _ _ (fun _ => True)).
  - by apply inv_SetPollSeconds.
  - refine (proj1 (_ w Hw)). unfold MinPollIntervalForRegion. after_prune. do 2 with_gets.
    by apply (triple_ret _ _ (fun _ => True)).
  - refine (proj1 (_ w Hw)). unfold ActiveRegionIDs. after_prune. with_gets. by apply (triple_ret _ _ (fun _ => True)).
  - refine (proj1 (_ w Hw)). unfold RegionViewerCounts. after_prune. with_gets. by apply (triple_ret _ _ (fun _ => True)).
Qed.

Lemma inv_steps p os w : inv p w -> inv p (foldl (fun w o => step o w) w os).
Proof. revert w. induction os as [|o os IH]; intros w Hw; simpl; [done|]. by apply IH, inv_step. Qed.

(** Loading gives a store that satisfies the invariant. *)
Lemma load_entry_ok now raw st : load_entry now raw = Some st -> session_ok st /\ sessionExpired st now = false.
Proof.
  unfold load_entry. destruct (parseSessionValue raw) as [st'|] eqn:Hp; [|done].
  destruct (RegionByID (sRegion st')) as [r|] eqn:Hr; [|done].
  destruct (sessionExpired st' now) eqn:He; [done|]. intros [= ->]. split; [|done]. split; [eauto|].
  revert Hp. unfold parseSessionValue. repeat case_match; intros [= <-]; simpl;
    (apply storedPollSeconds_allowed || by left).
Qed.

Lemma load_fold now l m sid st : NoDup l.*1 ->
  foldl (load_step now) m l !! sid = Some st <->
  (exists raw, (sid, raw) ∈ l /\ load_entry now raw = Some st) \/
  (m !! sid = Some st /\ forall raw, (sid, raw) ∈ l -> load_entry now raw = None).
Proof.
  revert m. induction l as [|[k raw] l IH]; intros m Hnd; cbn [foldl].
  { split; [intros H; right; split; [done|]|intros [(raw & Hin & _)|[H _]]; [|done]]; intros; by apply elem_of_nil in Hin || set_solver. }
  apply NoDup_cons in Hnd as [Hk Hnd]. rewrite IH by done. unfold load_step. simpl.
  assert (Hkl : forall raw', (k, raw') ∉ l).
  { intros raw' Hin. apply Hk. by apply (list_elem_of_fmap_2 fst) in Hin. }
  setoid_rewrite elem_of_cons. destruct (load_entry now raw) as [st0|] eqn:E.
  - destruct (decide (k = sid)) as [->|Hne]; [rewrite lookup_insert_eq|rewrite lookup_insert_ne by done]; naive_solver.
  - destruct (decide (k = sid)) as [->|Hne]; naive_solver.
Qed.

(** ** What the readers return *)

(** A connected viewer of [region] in the store [s]. *)
Definition watches (s : SessionStore) (sid region : string) (st : sessionState) : Prop :=
  (exists n, live s !! sid = Some n /\ 0 < n) /\ sessions s !! sid = Some st /\ sRegion st = region /\ region <> "".

Lemma prune_persist_ticks w : (ticks w < ticks (prune_persist w).2)%nat.
Proof.
  unfold prune_persist, mbind, M_bind. simpl.
  match goal with |- context [pruneExpiredLocked ?n ?w'] => destruct (prune_spec n w') as (b & -> & _) end.
  destruct b; simpl; [|lia]. unfold persistLocked. repeat case_match; simplify_eq/=; lia.
Qed.

(** An entry of [l] that names a region, and a clock reading in an interval at
    which the session is not expired. *)
Definition candidate (l : list (string * Z)) (s : SessionStore) (sid : string) (st : sessionState) (x : string) : Prop :=
  (exists n, (sid, n) ∈ l /\ 0 < n) /\ sessions s !! sid = Some st /\ sRegion st = x /\ x <> "".
Definition alive_at (st : sessionState) (w w' : World) (k : nat) : Prop :=
  (ticks w <= k < ticks w')%nat /\ sessionExpired st (clock k) = false.

Definition loop_sound l (ids : list string) w w' (r : list string) : Prop :=
  forall x, x ∈ r -> x ∈ ids \/ exists sid st k, candidate l (store w) sid st x /\ alive_at st w w' k.
Definition loop_complete l w w' (r : list string) : Prop :=
  forall sid st x, candidate l (store w) sid st x ->
    (forall k, (ticks w <= k < ticks w')%nat -> alive_at st w w' k) -> x ∈ r.
Definition loop_spec l (ids : list string) w w' (r : list string) : Prop :=
  store w' = store w /\ (ticks w <= ticks w')%nat /\ NoDup r /\ ids ⊆ r /\
  loop_sound l ids w w' r /\ loop_complete l w w' r.

Lemma candidate_cons kv l s sid st x : candidate l s sid st x -> candidate (kv :: l) s sid st x.
Proof. intros ((n & Hin & Hn) & H). split; [|done]. exists n. split; [by right|done]. Qed.

Lemma candidate_inv sid0 n0 l s sid st x : candidate ((sid0, n0) :: l) s sid st x ->
  candidate l s sid st x \/ sid = sid0 /\ 0 < n0 /\ sessions s !! sid = Some st /\ sRegion st = x /\ x <> "".
Proof. intros ((n & [[= -> ->]|Hin]%elem_of_cons & Hn) & H); [by right|left]. split; [eauto|done]. Qed.

(** An entry that is not a candidate is passed over. *)
Lemma loop_spec_skip sid n l ids w w' r :
  (forall st, 0 < n -> sessions (store w) !! sid = Some st -> sRegion st = "") ->
  loop_spec l ids w w' r -> loop_spec ((sid, n) :: l) ids w w' r.
Proof.
  intros Hno (H1 & H2 & H3 & H4 & H5 & H6). split_and!; [done..| |].
  - intros x Hx. destruct (H5 x Hx) as [|(sid' & st & k & Hc & Hk)]; [by left|right].
    exists sid', st, k. split; [by apply candidate_cons|done].
  - intros sid' st x [Hc|(-> & Hn & Hst & <- & Hx)]%candidate_inv Hk; [by eapply H6|]. by destruct (Hx (Hno st Hn Hst)).
Qed.

(** A candidate costs a reading of the clock, and is listed when alive then. *)
Lemma loop_spec_next sid n st l ids ids1 w w' r :
  0 < n -> sessions (store w) !! sid = Some st -> sRegion st <> "" ->
  ids ⊆ ids1 -> (forall x, x ∈ ids1 -> x ∈ ids \/ x = sRegion st /\ sessionExpired st (clock (ticks w)) = false) ->
  (sessionExpired st (clock (ticks w)) = false -> sRegion st ∈ ids1) ->
  loop_spec l ids1 {| store := store w; files := files w; ticks := S (ticks w) |} w' r ->
  loop_spec ((sid, n) :: l) ids w w' r.
Proof.
  intros Hn Hst Hr Hsub Hnew Hin1 (H1 & H2 & H3 & H4 & H5 & H6). unfold loop_sound, loop_complete, alive_at in *. simpl in *.
  split_and!; [done|lia|done|set_solver| |].
  - intros x Hx. destruct (H5 x Hx) as [Hx1|(sid' & st' & k & Hc & Hk & He)].
    + destruct (Hnew x Hx1) as [|[-> He]]; [by left|right]. exists sid, st, (ticks w).
      split; [|split; [lia|done]]. split; [|done]. exists n. split; [by left|done].
    + right. exists sid', st', k. split; [by apply candidate_cons|]. split; [lia|done].
  - intros sid' st' x [Hc|(-> & _ & Hst' & <- & Hx)]%candidate_inv Hk.
    + eapply H6; [done|]. intros k Hk'. split; [done|]. apply Hk. lia.
    + simplify_eq. apply H4, Hin1, Hk. lia.
Qed.

Lemma live_loop_spec l seen ids w r w' :
  live_regions_loop l seen ids w = (r, w') -> seen = list_to_set ids -> NoDup ids -> loop_spec l ids w w' r.
Proof.
  revert seen ids w. induction l as [|[sid n] l IH]; intros seen ids w; cbn [live_regions_loop].
  { intros [= <- <-] -> Hnd. split_and!; [done..|by left|]. intros ??? ((? & ?%elem_of_nil & _) & _). done. }
  destruct (Z.leb_spec n 0) as [Hn|Hn]; [intros; apply loop_spec_skip; [lia|by eapply IH]|].
  unfold mbind at 1, M_bind at 1, gets at 1. destruct (sessions (store w) !! sid) as [st|] eqn:Est.
  2:{ intros; apply loop_spec_skip; [congruence|by eapply IH]. }
  case_bool_decide as Hr; [intros; apply loop_spec_skip; [congruence|by eapply IH]|].
  unfold mbind, M_bind, Now. intros Hl Hs Hnd. destruct (sessionExpired st (clock (ticks w))) eqn:E.
  - apply (loop_spec_next _ _ st _ _ ids); [done..|by left|congruence|by eapply IH].
  - case_bool_decide as Hseen.
    + apply (loop_spec_next _ _ st _ _ ids); [done..|by left|set_solver|by eapply IH].
    + apply (loop_spec_next _ _ st _ _ (ids ++ [sRegion st])); [done..|set_solver| |set_solver|].
      * intros x [Hx|Hx]%elem_of_app; [by left|right; set_solver].
      * eapply IH; [done|set_solver|]. apply NoDup_app. split_and!; [done|set_solver|apply NoDup_singleton].
Qed.

(** The regions listed are watched. *)
Lemma live_loop_watched w ids w' : LiveRegionIDs w = (ids, w') ->
  forall r, r ∈ ids -> exists sid st, watches (store w) sid r st /\ sessionExpired st (clock (ticks w)) = false.
Proof.
  unfold LiveRegionIDs, mbind, M_bind. pose proof (prune_persist_store w) as Hs.
  destruct (prune_persist w) as [[] w1]. simpl in *. intros Hl.
  apply live_loop_spec in Hl as (_ & _ & _ & _ & Hsound & _); [|done|constructor].
  intros r Hr. destruct (Hsound r Hr) as [?%elem_of_nil|(sid & st & k & ((n & Hin & Hn) & Hst & Hreg & Hne) & _)]; [done|].
  rewrite Hs in Hst, Hin. simpl in *. apply unexpired_Some in Hst as [Hst He]. apply elem_of_range in Hin.
  exists sid, st. split; [|done]. split_and!; eauto.
Qed.

(** [LiveRegionIDs] lists every region once; each is the region of a
    connected viewer whose session had not expired when the operation began, and
    every such viewer that stays unexpired while the operation runs has its
    region listed, whatever the order in which the viewers are visited. *)
Theorem live_region_ids w ids w' : LiveRegionIDs w = (ids, w') ->
  NoDup ids /\
  (forall r, r ∈ ids -> exists sid st, watches (store w) sid r st /\ sessionExpired st (clock (ticks w)) = false) /\
  (forall sid r st, watches (store w) sid r st ->
     (forall k, (ticks w <= k < ticks w')%nat -> sessionExpired st (clock k) = false) -> r ∈ ids) /\
  sessions (store w') = unexpired (clock (ticks w)) (sessions (store w)) /\ live (store w') = live (store w).
Proof.
  intros Hl0. pose proof (live_loop_watched w ids w' Hl0) as Hwatched. revert Hl0.
  unfold LiveRegionIDs, mbind, M_bind. pose proof (prune_persist_store w) as Hs. pose proof (prune_persist_ticks w) as Ht.
  destruct (prune_persist w) as [[] w1]. simpl in *.
  intros Hl. apply live_loop_spec in Hl as (Hs' & Ht' & Hnd & _ & Hsound & Hcomp); [|done|constructor].
  unfold loop_sound, loop_complete, candidate, alive_at in *. rewrite Hs in Hs', Hsound, Hcomp. simpl in *.
  rewrite Hs'. split_and!; [done| | |done..].
  - exact Hwatched.
  - intros sid r st ((n & Hlv & Hn) & Hst & <- & Hne) He. apply (Hcomp sid st).
    + split_and!; [exists n; by rewrite elem_of_range| |done..]. apply unexpired_Some. split; [done|]. apply He. lia.
    + intros k Hk. split; [done|]. apply He. lia.
Qed.

(** ** Loading what was written *)

Lemma load_store_ok now l s : store_ok s -> NoDup l.*1 ->
  store_ok (set_sessions (foldl (load_step now) (sessions s) l) s).
Proof.
  intros [Hs Hv] Hnd. split; [|done]. intros sid st. simpl. rewrite load_fold by done.
  intros [(raw & _ & [Hok _]%load_entry_ok)|[Hm _]]; [done|by apply (Hs sid)].
Qed.

Lemma load_doc now b s : path s <> "" -> b <> Raw "" ->
  load now (Ok (Some b)) s = (file ← dec_file b; Ok (set_sessions (foldl (load_step now) (sessions s) (range file)) s)).
Proof. intros Hp Hb. unfold load. rewrite bool_decide_false by done. by destruct b as [|[|]]. Qed.

Lemma load_skip now v s : path s = "" \/ v = None \/ v = Some (Raw "") -> load now (Ok v) s = Ok s.
Proof. unfold load. intros Hc. case_bool_decide; [done|]. by destruct Hc as [?|[-> | ->]]. Qed.

Lemma open_inv now fs p s : OpenSessionStore now (Ok (fs !! p)) p = Ok s ->
  inv p {| store := s; files := fs; ticks := 0 |}.
Proof.
  unfold OpenSessionStore, inv. set (s0 := {| sessions := ∅; live := ∅; path := p |}). cbn [store files].
  assert (H0 : store_ok s0) by (split; apply map_Forall_empty).
  assert (Hdec : (p = "" \/ fs !! p = None \/ fs !! p = Some (Raw "")) \/
                 ~ (p = "" \/ fs !! p = None \/ fs !! p = Some (Raw ""))).
  { destruct (decide (p = "")), (fs !! p) as [[|[|]]|]; naive_solver. }
  destruct Hdec as [Hc|Hc].
  { rewrite load_skip by done. intros [= <-]. split_and!; [done..|].
    intros now' s' Hs'. exists s'. apply load_skip. by rewrite Hs'. }
  destruct (fs !! p) as [b|] eqn:Hb; [|tauto].
  assert (p <> "") by tauto. assert (b <> Raw "") by (intros ->; tauto).
  rewrite load_doc by done. destruct (dec_file b) as [f|e] eqn:Hf; [|done]. intros [= <-]. split_and!; [|done|].
  - apply (load_store_ok now (range f) s0); [done|auto with gedung].
  - intros now' s' Hs'. rewrite load_doc by congruence. rewrite Hf. by eexists.
Qed.

(** Nobody is connected at start-up. *)
Lemma open_live now rd p s : OpenSessionStore now rd p = Ok s -> live s = ∅.
Proof.
  unfold OpenSessionStore, load. destruct (bool_decide _); [by intros [= <-]|].
  destruct rd as [[b|]|]; [|by intros [= <-]|done].
  assert (Hb : (file ← dec_file b; Ok (set_sessions (foldl (load_step now) ∅ (range file)) {| sessions := ∅; live := ∅; path := p |})) = Ok s ->
    live s = ∅) by (destruct (dec_file b); [by intros [= <-]|done]).
  destruct b as [j|[|]]; [exact Hb|by intros [= <-]|exact Hb].
Qed.

Lemma persist_ok w w' : path (store w) <> "" -> persistLocked w = (None, w') ->
  exists m, enc_sessions (range (sessions (store w))) ∅ = Ok m /\ files w' !! path (store w) = Some (enc_file m).
Proof.
  intros Hp. unfold persistLocked. rewrite bool_decide_false by done.
  destruct (io_mkdir _); [done|]. destruct (enc_sessions _ _) as [m|]; [|done].
  unfold write_rename. destruct (io_write _) as [[]|]; [done|]. destruct (io_rename _); [done|].
  intros [= <-]. exists m. split; [done|]. simpl. by rewrite lookup_insert_eq.
Qed.

Lemma enc_sessions_spec l m m' : enc_sessions l m = Ok m' -> NoDup l.*1 -> forall sid raw,
  m' !! sid = Some raw <->
  (exists st, (sid, st) ∈ l /\ enc_state st = Ok raw) \/ (m !! sid = Some raw /\ sid ∉ l.*1).
Proof.
  revert m. induction l as [|[k st] l IH]; intros m; cbn [enc_sessions].
  { intros [= <-] _ sid raw. split; [intros H; right; split; [done|apply not_elem_of_nil]|].
    intros [(? & ?%elem_of_nil & _)|[? _]]; done. }
  destruct (enc_state st) as [b|] eqn:E; [|done]. intros Hm [Hk Hnd]%NoDup_cons sid raw.
  assert (Hkl : forall st', (k, st') ∉ l).
  { intros st' Hin. apply Hk. by apply (list_elem_of_fmap_2 fst) in Hin. }
  rewrite (IH _ Hm Hnd), fmap_cons, not_elem_of_cons, lookup_insert_Some. simpl. split.
  - intros [(st' & Hin & He)|[[[<- <-]|[Hne Hl]] Hn]]; [left; exists st'; by rewrite elem_of_cons; auto|left|right; auto].
    exists st. split; [by left|done].
  - intros [(st' & [[= -> ->]|Hin]%elem_of_cons & He)|(Hl & Hne & Hn)]; [right; split; [|done]; left; split; congruence|left; eauto|right; auto].
Qed.

Lemma enc_sessions_all l m m' : enc_sessions l m = Ok m' -> forall sid st, (sid, st) ∈ l -> exists raw, enc_state st = Ok raw.
Proof.
  revert m. induction l as [|[k st0] l IH]; intros m; cbn [enc_sessions].
  { intros _ sid st Hin. by apply elem_of_nil in Hin. }
  destruct (enc_state st0) as [b|] eqn:E; [|done]. intros Hm sid st [[= -> ->]|Hin]%elem_of_cons; eauto.
Qed.

Lemma region_ids_utf8 : forallb (fun r => utf8_valid (rID r)) mapRegions = true.
Proof. by vm_compute. Qed.

(** An encoded session loads as itself, unless it has expired. *)
Lemma load_enc_state now st raw : session_ok st -> enc_state st = Ok raw ->
  load_entry now raw = if sessionExpired st now then None else Some st.
Proof.
  intros [[r Hr] Hp]. unfold enc_state. pose proof (allowed_pos _ Hp) as Hpos.
  destruct (Z.eqb_spec (sPollSeconds st) 0); [lia|].
  destruct (enc_time (LastSeen st)) as [t|] eqn:Ht; [|done]. apply enc_time_ok in Ht as [_ ->].
  simpl. rewrite (proj2 (Z.eqb_neq _ _)) by lia. simpl. intros [= <-].
  pose proof (RegionByID_ok _ _ Hr) as [Hin Hid].
  assert (Hu : utf8_coerce (sRegion st) = sRegion st).
  { apply utf8_valid_coerce. rewrite <-Hid. pose proof region_ids_utf8 as Hall. rewrite forallb_forall in Hall.
    apply Hall. by apply list_elem_of_In. }
  assert (Hdec : dec_int (JInt (sPollSeconds st)) = Ok (sPollSeconds st)).
  { simpl. rewrite bool_decide_true; [done|]. unfold int64_min, int64_max. lia. }
  unfold enc_str. rewrite Hu.
  assert (Hd : dec_state (JObj [("region", JStr (sRegion st)); ("pollSeconds", JInt (sPollSeconds st));
                                ("lastSeen", JTime (LastSeen st))]) = Ok st).
  { unfold dec_state, dec_field. simpl. simpl in Hdec. rewrite Hdec. simpl. by destruct st. }
  unfold load_entry, parseSessionValue. rewrite Hd. rewrite bool_decide_false by (by intros []).
  rewrite bool_decide_false by (by eapply RegionByID_nonempty). simpl.
  rewrite storedPollSeconds_id by done. rewrite Hr. by destruct st.
Qed.

(** C1: after a store is opened from a file, any sequence of operations, any
    clock and any failure of the disk at any step of any write: every stored
    session is on a known region with an allowed interval, every viewer counter
    is positive, and the file can be opened again. *)
Theorem session_invariant now fs p s os :
  OpenSessionStore now (Ok (fs !! p)) p = Ok s ->
  let w := foldl (fun w o => step o w) {| store := s; files := fs; ticks := 0 |} os in
  store_ok (store w) /\ path (store w) = p /\
  forall now', exists s', OpenSessionStore now' (Ok (files w !! p)) p = Ok s'.
Proof.
  intros Ho w. destruct (inv_steps p os {| store := s; files := fs; ticks := 0 |}) as (Hok & Hp & Hl).
  - by apply open_inv in Ho.
  - split_and!; [done..|]. intros now'. by apply Hl.
Qed.

(** C24: a persist that reports success has written a file from which a restart
    at [now] recovers exactly the sessions that are not expired by then, with
    nobody connected. *)
Theorem session_restart now w w' :
  store_ok (store w) -> path (store w) <> "" ->
  (forall sid, is_Some (sessions (store w) !! sid) -> utf8_valid sid = true) ->
  persistLocked w = (None, w') ->
  OpenSessionStore now (Ok (files w' !! path (store w))) (path (store w)) =
    Ok {| sessions := unexpired now (sessions (store w)); live := ∅; path := path (store w) |}.
Proof.
  intros [Hok _] Hp Hu Hw. unfold OpenSessionStore.
  destruct (persist_ok w w' Hp Hw) as (m & Hm & ->). rewrite load_doc by done.
  assert (Hk : forall sid raw, m !! sid = Some raw <-> exists st, sessions (store w) !! sid = Some st /\ enc_state st = Ok raw).
  { intros sid raw. rewrite (enc_sessions_spec _ _ _ Hm) by (auto with gedung). setoid_rewrite elem_of_range.
    rewrite lookup_empty. naive_solver. }
  assert (Hf : dec_file (enc_file m) = Ok m).
  { apply dec_enc_map. intros sid [raw (st & Hst & _)%Hk]. eauto. }
  rewrite Hf. simpl. unfold set_sessions. do 2 f_equal. apply map_eq. intros sid. apply option_eq. intros st.
  rewrite load_fold by (auto with gedung). setoid_rewrite elem_of_range. setoid_rewrite Hk. rewrite lookup_empty, unexpired_Some.
  split.
  - intros [(raw & (st' & Hst & He) & Hl)|[? _]]; [|done].
    rewrite (load_enc_state now st' raw) in Hl by (eauto || by apply (Hok sid)).
    destruct (sessionExpired st' now) eqn:E; [done|]. by simplify_eq.
  - intros [Hst He]. left. destruct (enc_sessions_all _ _ _ Hm sid st) as [raw Hraw]; [by apply elem_of_range|].
    exists raw. split; [eauto|]. rewrite (load_enc_state now st raw) by (done || by apply (Hok sid)). by rewrite He.
Qed.

(** The interval a session asks for, as a duration. *)
Definition asked (st : sessionState) : Z := storedPollSeconds (sPollSeconds st) * second.

Lemma asked_range st : asked st ∈ [10 * second; 20 * second; 30 * second].
Proof.
  unfold asked. pose proof (storedPollSeconds_allowed (sPollSeconds st)) as H. unfold AllowedPollSeconds in H.
  rewrite !elem_of_cons, elem_of_nil in H |- *. destruct H as [->|[->|[->|[]]]]; auto.
Qed.

(** [d] is the least interval asked for in [l], and zero when there is none. *)
Definition min_asked (ds : list Z) (d : Z) : Prop :=
  ds = [] /\ d = 0 \/ d ∈ ds /\ Forall (fun x => d <= x) ds.

Definition asks (m : gmap string sessionState) (regionID : string) (kv : string * Z) : option Z :=
  if kv.2 <=? 0 then None
  else st ← m !! kv.1; if bool_decide (sRegion st = regionID) then Some (asked st) else None.

Lemma min_poll_fold m regionID l ds d :
  Forall (fun x => 0 < x) ds -> min_asked ds d ->
  min_asked (ds ++ omap (asks m regionID) l) (foldl (min_poll_step m regionID) d l).
Proof.
  revert ds d. induction l as [|[sid n] l IH]; intros ds d Hpos Hd; cbn [foldl omap list_omap].
  { by rewrite app_nil_r. }
  unfold min_poll_step at 2, asks at 1. simpl. destruct (n <=? 0); [by apply IH|].
  destruct (m !! sid) as [st|]; simpl; [|by apply IH].
  destruct (decide (sRegion st = regionID)) as [Hr|Hr].
  2:{ rewrite (bool_decide_true (sRegion st <> regionID)), bool_decide_false by done. by apply IH. }
  rewrite (bool_decide_false (sRegion st <> regionID)), bool_decide_true by (done || by intros []). fold (asked st).
  assert (Ha : 0 < asked st).
  { pose proof (asked_range st) as H. rewrite !elem_of_cons, elem_of_nil in H. unfold second in H. lia. }
  rewrite cons_middle, app_assoc. apply IH; [apply Forall_app; by repeat constructor|].
  right. destruct Hd as [[-> ->]|[Hin Hall]].
  - simpl. split; [by left|by repeat constructor; lia].
  - assert (d <> 0) by (rewrite Forall_forall in Hpos; specialize (Hpos d Hin); lia).
    rewrite (proj2 (Z.eqb_neq d 0)) by done. simpl.
    destruct (Z.ltb_spec (asked st) d); (split; [set_solver|]); apply Forall_app; (split; [|by repeat constructor; lia]);
      (eapply Forall_impl; [exact Hall|]); simpl; lia.
Qed.

(** What [MinPollIntervalForRegion] returns, with the sessions left after
    pruning. *)
Lemma min_poll_result regionID w d w' : MinPollIntervalForRegion regionID w = (d, w') ->
  store w' = set_sessions (unexpired (clock (ticks w)) (sessions (store w))) (store w) /\
  min_asked (omap (asks (sessions (store w')) regionID) (range (live (store w)))) d.
Proof.
  unfold MinPollIntervalForRegion, mbind, M_bind. pose proof (prune_persist_store w) as Hs.
  destruct (prune_persist w) as [[] w1]. simpl in *. intros [= <- <-]. split; [done|]. rewrite Hs. simpl.
  apply (min_poll_fold _ regionID (range (live (store w))) []); [constructor|by left].
Qed.

Lemma min_poll_values regionID w d w' : MinPollIntervalForRegion regionID w = (d, w') ->
  d ∈ [0; 10 * second; 20 * second; 30 * second].
Proof.
  intros [_ [[_ ->]|[Hin _]]]%min_poll_result; [by left|].
  apply list_elem_of_omap in Hin as (kv & _ & Ha). unfold asks in Ha.
  destruct (kv.2 <=? 0); [done|]. destruct (_ !! kv.1) as [st|]; [|done]. simpl in Ha. case_bool_decide; [|done].
  injection Ha as <-. right. apply asked_range.
Qed.

(** [MinPollIntervalForRegion] is the least of the intervals chosen by the
    unexpired sessions with a connected viewer on the region, and 0 exactly when
    there is no such session. *)
Theorem min_poll_interval regionID w d w' : MinPollIntervalForRegion regionID w = (d, w') ->
  let viewer sid st := (exists n, live (store w) !! sid = Some n /\ 0 < n) /\
    sessions (store w) !! sid = Some st /\ sessionExpired st (clock (ticks w)) = false /\ sRegion st = regionID in
  (d = 0 <-> ~ exists sid st, viewer sid st) /\
  (forall sid st, viewer sid st -> d <= asked st) /\
  (d <> 0 -> exists sid st, viewer sid st /\ asked st = d).
Proof.
  intros Hr viewer. pose proof (min_poll_values _ _ _ _ Hr) as Hv. apply min_poll_result in Hr as [Hs Hmin].
  assert (Hask : forall x, x ∈ omap (asks (sessions (store w')) regionID) (range (live (store w))) <->
            exists sid st, viewer sid st /\ asked st = x).
  { intros x. rewrite list_elem_of_omap. split.
    - intros ([sid n] & Hin%elem_of_range & Ha). unfold asks in Ha. simpl in Ha.
      destruct (Z.leb_spec n 0); [done|]. destruct (sessions (store w') !! sid) as [st|] eqn:E; [|done]. simpl in Ha.
      case_bool_decide; [|done]. rewrite Hs in E. simpl in E. apply unexpired_Some in E as [E He].
      exists sid, st. split; [|congruence]. split_and!; eauto.
    - intros (sid & st & ((n & Hn & Hpos) & Hst & He & Hreg) & <-). exists (sid, n). split; [by apply elem_of_range|].
      unfold asks. simpl. rewrite (proj2 (Z.leb_gt n 0)) by done.
      assert (sessions (store w') !! sid = Some st) as -> by (rewrite Hs; by apply unexpired_Some).
      simpl. by rewrite bool_decide_true. }
  assert (Hpos : forall x, x ∈ omap (asks (sessions (store w')) regionID) (range (live (store w))) -> 0 < x).
  { intros x (sid & st & _ & <-)%Hask. pose proof (asked_range st) as H. rewrite !elem_of_cons, elem_of_nil in H.
    unfold second in H. lia. }
  destruct Hmin as [[Hnil ->]|[Hin Hall]].
  - rewrite Hnil in Hask. split_and!; [|intros sid st Hw|done].
    + split; [|done]. intros _ (sid & st & Hw). eapply not_elem_of_nil, Hask. eauto.
    + exfalso. eapply not_elem_of_nil, Hask. eauto.
  - split_and!.
    + split; [intros ->; by specialize (Hpos 0 Hin)|]. intros Hno. exfalso. apply Hno. apply Hask in Hin as (sid & st & ? & _). eauto.
    + intros sid st Hw. rewrite Forall_forall in Hall. apply Hall, Hask. eauto.
    + intros _. by apply Hask.
Qed.

(** The viewer counter of a session goes up by one when a viewer connects
    and down by one, never below zero, when one disconnects; other sessions'
    counters, the sessions and the disk are untouched, and connecting then
    disconnecting restores the counter. *)
Theorem viewer_refcount sid sid' w :
  sid <> "" ->
  let acquired := (AcquireLive sid w).2 in
  let released := (ReleaseLive sid w).2 in
  viewers (store acquired) sid' = viewers (store w) sid' + (if bool_decide (sid' = sid) then 1 else 0) /\
  (store_ok (store w) ->
   viewers (store released) sid' =
     if bool_decide (sid' = sid) then Z.max 0 (viewers (store w) sid' - 1) else viewers (store w) sid') /\
  (store_ok (store w) -> live (store (ReleaseLive sid acquired).2) = live (store w)) /\
  sessions (store acquired) = sessions (store w) /\ sessions (store released) = sessions (store w) /\
  files acquired = files w /\ files released = files w.
Proof.
  intros Hne. unfold AcquireLive, ReleaseLive, viewers. rewrite !bool_decide_false by done. cbn -[Z.leb].
  split_and!.
  - case_bool_decide as E; [subst; rewrite lookup_insert_eq; simpl; lia|]. rewrite lookup_insert_ne by done. lia.
  - intros [_ Hv]. destruct (Z.leb_spec (default 0 (live (store w) !! sid) - 1) 0); simpl;
      (case_bool_decide as E; [subst; rewrite ?lookup_insert_eq, ?lookup_delete_eq; simpl; lia|]);
      by rewrite ?lookup_insert_ne, ?lookup_delete_ne by done.
  - intros [_ Hv]. rewrite lookup_insert_eq. simpl.
    replace (default 0 (live (store w) !! sid) + 1 - 1) with (default 0 (live (store w) !! sid)) by lia.
    destruct (live (store w) !! sid) as [n|] eqn:E; simpl.
    + pose proof (Hv sid n E) as Hn. simpl in Hn. rewrite (proj2 (Z.leb_gt n 0)) by done. simpl.
      by rewrite insert_insert_eq, insert_id.
    + by rewrite delete_insert_id.
  - done.
  - by case_match.
  - done.
  - done.
Qed.

Lemma stateLocked_store sid w : store (stateLocked sid w).2 = store w.
Proof. unfold stateLocked, mbind, M_bind, gets. destruct (sessions (store w) !! sid); done. Qed.

(** Switching a session to an unknown region changes nothing; switching to
    a known one takes effect, even when the write to disk fails, until the
    session has been idle for five minutes, after which it reads as the default
    region. *)
Theorem session_region_lifecycle sid r w :
  (forall n, is_zero (clock n) = false) ->
  match RegionByID r with
  | Err e => SetRegion sid r w = (Some e, w)
  | Ok _ =>
      let w1 := (SetRegion sid r w).2 in
      exists st, sessions (store w1) !! sid = Some st /\ sRegion st = r /\
        (Region sid w1).1 = if SessionIdleTTL <=? time_sub (clock (ticks w1)) (LastSeen st) then DefaultRegionID else r
  end.
Proof.
  intros Hclock. unfold SetRegion. destruct (RegionByID r) as [reg|e]; [|done]. cbn zeta.
  set (w1 := snd _). assert (Hw1 : exists st, sessions (store w1) !! sid = Some st /\ sRegion st = r /\ is_zero (LastSeen st) = false).
  { unfold w1, mbind, M_bind. pose proof (stateLocked_store sid w) as Hs. destruct (stateLocked sid w) as [st w2]. simpl in Hs.
    unfold Now, put_session, modify. cbn -[pruneExpiredLocked persistLocked].
    match goal with |- context [pruneExpiredLocked ?n ?w'] => destruct (prune_spec n w') as (b & -> & _) end.
    rewrite persist_store. cbn -[unexpired]. eexists. split; [apply unexpired_Some; split; [apply lookup_insert_eq|]|].
    - unfold sessionExpired. simpl. rewrite Hclock. apply Z.leb_gt. unfold time_sub. rewrite Z.sub_diag.
      unfold SessionIdleTTL, minute, second, int64_min, int64_max. lia.
    - split; [done|]. simpl. apply Hclock. }
  destruct Hw1 as (st & Hst & Hr & Hz). exists st. split_and!; [done..|]. clearbody w1.
  unfold Region, mbind, M_bind. pose proof (prune_persist_store w1) as Hs. destruct (prune_persist w1) as [[] w2]. simpl in Hs.
  unfold stateLocked, mbind, M_bind, gets. rewrite Hs. cbn -[unexpired].
  assert (He : sessionExpired st (clock (ticks w1)) = (SessionIdleTTL <=? time_sub (clock (ticks w1)) (LastSeen st))).
  { unfold sessionExpired. by rewrite Hz. }
  destruct (unexpired (clock (ticks w1)) (sessions (store w1)) !! sid) as [st'|] eqn:E.
  - apply unexpired_Some in E as [E1 E2]. simplify_eq. rewrite He in E2. rewrite E2. simpl. by case_match.
  - assert (Ht : sessionExpired st (clock (ticks w1)) = true).
    { apply not_false_iff_true. intros Hf. assert (H := proj2 (unexpired_Some _ _ _ _) (conj Hst Hf)). congruence. }
    rewrite He in Ht. by rewrite Ht.
Qed.
(** ** The viewer counters *)

(** Only connecting and disconnecting viewers moves the counters. *)
Section Counters.
Variable L : gmap string Z.
Let P (w : World) : Prop := live (store w) = L.

Lemma live_Now : triple P Now (fun _ => True).
Proof. by intros w Hw. Qed.

Lemma live_gets {A} (f : SessionStore -> A) : triple P (gets f) (fun _ => True).
Proof. by intros w Hw. Qed.

Lemma live_prune now : triple P (pruneExpiredLocked now) (fun _ => True).
Proof. intros w Hw. destruct (prune_spec now w) as (b & -> & _). by split. Qed.

Lemma live_persist : triple P persistLocked (fun _ => True).
Proof. intros w Hw. split; [|done]. unfold P. by rewrite persist_store. Qed.

Lemma live_put sid st : triple P (put_session sid st) (fun _ => True).
Proof. by intros w Hw. Qed.

Lemma live_prune_persist : triple P prune_persist (fun _ => True).
Proof. intros w Hw. split; [|done]. unfold P. by rewrite prune_persist_store. Qed.

Lemma live_stateLocked sid : triple P (stateLocked sid) (fun _ => True).
Proof. intros w Hw. split; [|done]. unfold P. by rewrite stateLocked_store. Qed.

Lemma live_live_loop l seen ids : triple P (live_regions_loop l seen ids) (fun _ => True).
Proof.
  revert seen ids. induction l as [|[sid n] l IH]; intros seen ids; simpl; [by apply triple_ret|].
  case_match; [apply IH|]. eapply triple_bind; [apply live_gets|]. intros m _.
  destruct (m !! sid); [|apply IH]. case_bool_decide; [apply IH|].
  eapply triple_bind; [apply live_Now|]. intros now _. repeat case_match; apply IH.
Qed.

Ltac live_walk :=
  repeat match goal with
  | |- triple _ (mret _) _ => by apply triple_ret
  | |- triple _ (_ ≫= _) _ => apply (triple_bind _ _ _ (fun _ => True)); [|intros ? _]
  | |- triple _ Now _ => apply live_Now
  | |- triple _ (gets _) _ => apply live_gets
  | |- triple _ (pruneExpiredLocked _) _ => apply live_prune
  | |- triple _ persistLocked _ => apply live_persist
  | |- triple _ (put_session _ _) _ => apply live_put
  | |- triple _ prune_persist _ => apply live_prune_persist
  | |- triple _ (stateLocked _) _ => apply live_stateLocked
  | |- triple _ (live_regions_loop _ _ _) _ => apply live_live_loop
  | |- triple _ (match ?x with _ => _ end) _ => destruct x
  end.

Lemma live_step o w : match o with OAcquireLive _ | OReleaseLive _ => False | _ => True end -> P w -> P (step o w).
Proof.
  intros Ho Hw. assert (Ht : forall A (m : M A), triple P m (fun _ => True) -> P (m w).2) by (intros A m Hm; by apply Hm).
  destruct o; try done; cbn [step]; apply Ht;
    unfold Touch, LiveRegionIDs, Region, SetRegion, PollSeconds, SetPollSeconds, MinPollIntervalForRegion, ActiveRegionIDs, RegionViewerCounts;
    live_walk.
Qed.
End Counters.
End Store.

(** ** A concrete run *)

Definition noon : time := 1785000000 * second.

(** The clock advances one second per effect; every second write fails. *)
Definition tick_clock (n : nat) : time := noon + Z.of_nat n * second.
Definition bad_disk (n : nat) : disk_io :=
  if Nat.even n then disk_ok
  else {| io_mkdir := None; io_write := Some (Errorf "no space", Some (Raw "{")); io_rename := None |}.

Definition session_file : value :=
  Doc (JObj [("sessions", JObj [
    ("a", JObj [("region", JStr "johor"); ("pollSeconds", JInt 20); ("lastSeen", JTime (noon - minute))]);
    ("b", JStr "penang");
    ("c", JObj [("region", JStr "atlantis"); ("lastSeen", JTime noon)])])]).

Definition opened : SessionStore :=
  {| sessions := {[ "a" := {| sRegion := "johor"; sPollSeconds := 20; LastSeen := noon - minute |} ]};
     live := ∅; path := "s.json" |}.

Definition session_ops : list operation :=
  [OTouch "b"; OAcquireLive "b"; OAcquireLive "a"; OSetRegion "b" "penang"; OSetPollSeconds "b" 30; OLiveRegionIDs].

Lemma session_invariant_witness :
  OpenSessionStore (MR := canonical_range) noon (Ok (Some session_file)) "s.json" = Ok opened /\
  let w := foldl (fun w o => step (MR := canonical_range) tick_clock bad_disk o w)
             {| store := opened; files := {[ "s.json" := session_file ]}; ticks := 0 |} session_ops in
  store_ok (store w) /\ path (store w) = "s.json" /\
  forall now', exists s', OpenSessionStore (MR := canonical_range) now' (Ok (files w !! "s.json")) "s.json" = Ok s'.
Proof.
  split; [by vm_compute|].
  apply (session_invariant (MR := canonical_range) tick_clock bad_disk noon {[ "s.json" := session_file ]} "s.json" opened session_ops).
  by vm_compute.
Defined.

Definition two_viewers : World :=
  {| store := {| sessions := {[ "a" := {| sRegion := "johor"; sPollSeconds := 20; LastSeen := noon - minute |};
                                "b" := {| sRegion := "penang"; sPollSeconds := 30; LastSeen := noon - 10 * minute |} ]};
                 live := {[ "a" := 1; "b" := 2 ]}; path := "s.json" |};
     files := ∅; ticks := 0 |}.

Lemma live_region_ids_witness : exists w',
  LiveRegionIDs (MR := canonical_range) tick_clock bad_disk two_viewers = (["johor"], w') /\
  NoDup ["johor"] /\
  (forall r, r ∈ ["johor"] -> exists sid st, watches (store two_viewers) sid r st /\ sessionExpired st (tick_clock 0) = false) /\
  (forall sid r st, watches (store two_viewers) sid r st ->
     (forall k, (0 <= k < ticks w')%nat -> sessionExpired st (tick_clock k) = false) -> r ∈ ["johor"]) /\
  sessions (store w') = unexpired (tick_clock 0) (sessions (store two_viewers)) /\
  live (store w') = live (store two_viewers).
Proof.
  eexists. split; [vm_compute; reflexivity|].
  apply (live_region_ids (MR := canonical_range) tick_clock bad_disk two_viewers). by vm_compute.
Defined.

Lemma session_restart_witness :
  OpenSessionStore (MR := canonical_range) noon
    (Ok (files (persistLocked (MR := canonical_range) bad_disk two_viewers).2 !! "s.json")) "s.json" =
    Ok {| sessions := unexpired noon (sessions (store two_viewers)); live := ∅; path := "s.json" |}.
Proof.
  apply (session_restart (MR := canonical_range) bad_disk noon two_viewers).
  - split; intros sid x Hx; simpl in Hx.
    + apply lookup_insert_Some in Hx as [[_ <-]|[_ [_ <-]%lookup_singleton_Some]];
        (split; [eexists; by vm_compute|apply (bool_decide_unpack _); by vm_compute]).
    + apply lookup_insert_Some in Hx as [[_ <-]|[_ [_ <-]%lookup_singleton_Some]]; done.
  - done.
  - intros sid [st Hst]. simpl in Hst. by apply lookup_insert_Some in Hst as [[<- _]|[_ [<- _]%lookup_singleton_Some]].
  - by vm_compute.
Defined.

Lemma min_poll_interval_witness : exists w',
  MinPollIntervalForRegion (MR := canonical_range) tick_clock bad_disk "johor" two_viewers = (20 * second, w') /\
  20 * second <> 0 /\ exists sid st,
    ((exists n, live (store two_viewers) !! sid = Some n /\ 0 < n) /\ sessions (store two_viewers) !! sid = Some st /\
     sessionExpired st (tick_clock 0) = false /\ sRegion st = "johor") /\ asked st = 20 * second.
Proof.
  eexists. split; [vm_compute; reflexivity|]. split; [done|].
  edestruct (min_poll_interval (MR := canonical_range) tick_clock bad_disk "johor" two_viewers (20 * second))
    as (_ & _ & H); [vm_compute; reflexivity|]. exact (H ltac:(done)).
Defined.

Lemma viewer_refcount_witness :
  viewers (store (AcquireLive "a" two_viewers).2) "a" = 2 /\
  viewers (store (AcquireLive "a" two_viewers).2) "b" = 2.
Proof.
  assert (Hne : "a" <> "") by done. split.
  - exact (proj1 (viewer_refcount "a" "a" two_viewers Hne)).
  - exact (proj1 (viewer_refcount "a" "b" two_viewers Hne)).
Defined.

Lemma session_region_lifecycle_witness :
  exists st, sessions (store (SetRegion (MR := canonical_range) tick_clock bad_disk "b" "sarawak" two_viewers).2) !! "b" = Some st /\
    sRegion st = "sarawak" /\
    (Region (MR := canonical_range) tick_clock bad_disk "b"
       (SetRegion (MR := canonical_range) tick_clock bad_disk "b" "sarawak" two_viewers).2).1 =
    if SessionIdleTTL <=? time_sub (tick_clock (ticks (SetRegion (MR := canonical_range) tick_clock bad_disk "b" "sarawak" two_viewers).2)) (LastSeen st)
    then DefaultRegionID else "sarawak".
Proof.
  assert (Hc : forall n, is_zero (tick_clock n) = false).
  { intros n. unfold is_zero, tick_clock, noon, zero_time, unix_to_internal, second. apply Z.eqb_neq. lia. }
  exact (session_region_lifecycle (MR := canonical_range) tick_clock bad_disk "b" "sarawak" two_viewers Hc).
Defined.
