(* ===== verification/Coordinator.v ===== *)
(** * The poll coordinator (internal/demo/poll.go)

    Which region the scheduler fetches next.  The coordinator asks the session
    store for the regions in use and for their intervals; it runs in the same
    state monad, and holds its own mutex throughout a call.  [due], [priority]
    and [pick] are the specification its planning refines
    ([nextDueRegion_pick]); the theorems are about [nextDueRegion] and the two
    planning calls ([serve_all]). *)

From S2P Require Import Prelude GoStrings Json Regions Poller Session.

Record PollCoordinator := { interval : Z; lastPoll : gmap string time }.

Definition NewPollCoordinator (interval : Z) : PollCoordinator :=
  {| interval := if interval <=? 0 then DefaultPollInterval else interval; lastPoll := ∅ |}.

Definition MarkPolled (regionIDs : list string) (at_ : time) (c : PollCoordinator) : PollCoordinator :=
  {| interval := interval c; lastPoll := foldl (fun m id => <[id := at_]> m) (lastPoll c) regionIDs |}.

Definition pollPriorityKlangValley : Z := 0.
Definition pollPriorityPenang : Z := 1.
Definition pollPriorityOther : Z := 2.

Definition regionPollPriority (regionID : string) : Z :=
  if bool_decide (regionID = DefaultRegionID) then pollPriorityKlangValley
  else if bool_decide (regionID = "penang") then pollPriorityPenang
  else pollPriorityOther.

(** A due region with what the scheduler compares. *)
Record due_entry := { dID : string; dLast : time; dSeen : bool; dPri : Z }.

Definition preferDueRegion (a best : due_entry) : bool :=
  if negb (dPri a =? dPri best) then dPri a <? dPri best
  else if negb (dSeen a) && dSeen best then true
  else if dSeen a && negb (dSeen best) then false
  else if negb (dSeen a) && negb (dSeen best) then str_lt (dID a) (dID best)
  else if time_equal (dLast a) (dLast best) then str_lt (dID a) (dID best)
  else time_before (dLast a) (dLast best).

Section Coordinator.
Context {MR : MapRange}.
Variable clock : nat -> time.
Variable disk : nat -> disk_io.

Definition intervalLocked (c : PollCoordinator) (regionID : string) : M Z :=
  d ← MinPollIntervalForRegion clock disk regionID;
  let i := if d <=? 0 then interval c else d in
  mret (if i <? UpstreamRefreshInterval then UpstreamRefreshInterval else i).

Definition effectivePollPriorityLocked (c : PollCoordinator) (regionID : string) (now : time) : M Z :=
  let pri := regionPollPriority regionID in
  if pri <? pollPriorityOther then mret pri
  else match lastPoll c !! regionID with
       | None => mret pri
       | Some last =>
           i ← intervalLocked c regionID;
           mret (if wrap64 (2 * i) <=? time_sub now last then pollPriorityKlangValley else pri)
       end.

Definition isStaleLocked (c : PollCoordinator) (regionID : string) (now : time) : M bool :=
  match lastPoll c !! regionID with
  | None => mret true
  | Some last => i ← intervalLocked c regionID; mret (i <=? time_sub now last)
  end.

Definition isStale := isStaleLocked.

(** [last, ok := c.lastPoll[id]] and the priority, as one entry. *)
Definition entry_of (c : PollCoordinator) (id : string) (pri : Z) : due_entry :=
  {| dID := id; dLast := default zero_time (lastPoll c !! id); dSeen := bool_decide (is_Some (lastPoll c !! id)); dPri := pri |}.

Definition no_entry : due_entry := {| dID := ""; dLast := zero_time; dSeen := false; dPri := 0 |}.

Fixpoint next_due_loop (c : PollCoordinator) (now : time) (candidates : list string) (best : due_entry) : M due_entry :=
  match candidates with
  | [] => mret best
  | id :: candidates =>
      stale ← isStaleLocked c id now;
      if negb stale then next_due_loop c now candidates best
      else
        pri ← effectivePollPriorityLocked c id now;
        let e := entry_of c id pri in
        if bool_decide (dID best = "") then next_due_loop c now candidates e
        else if preferDueRegion e best then next_due_loop c now candidates e
        else next_due_loop c now candidates best
  end.

Definition nextDueRegion (c : PollCoordinator) (now : time) : M string :=
  candidates ← LiveRegionIDs clock disk;
  if bool_decide (candidates = []) then mret ""
  else best ← next_due_loop c now candidates no_entry; mret (dID best).

(** The feeds to fetch and the regions to mark; nil when there is nothing due. *)
Definition FeedsForScheduledPoll (c : PollCoordinator) (now : time) : M (result (list Feed * list string)) :=
  id ← nextDueRegion c now;
  mret (if bool_decide (id = "") then Ok ([], [])
        else feeds ← FeedsForRegion id; Ok (feeds, [id])).

Definition FeedsForRegionSwitch (c : PollCoordinator) (now : time) (regionID : string) : M (result (list Feed * list string)) :=
  if bool_decide (regionID = "") then FeedsForScheduledPoll c now
  else
    stale ← isStale c regionID now;
    mret (if negb stale then Ok ([], [])
          else feeds ← FeedsForRegion regionID; Ok (feeds, [regionID])).

(** ** The interval *)

(** The interval is never below the upstream's refresh interval, and it is that
    interval when the coordinator's own one does not exceed it. *)
Lemma intervalLocked_bounds c id w :
  UpstreamRefreshInterval <= (intervalLocked c id w).1 /\
  (interval c <= UpstreamRefreshInterval -> (intervalLocked c id w).1 = UpstreamRefreshInterval).
Proof.
  unfold intervalLocked, mbind, M_bind.
  destruct (MinPollIntervalForRegion clock disk id w) as [d w'] eqn:E. apply min_poll_values in E.
  assert (Hd : d <= UpstreamRefreshInterval).
  { rewrite !elem_of_cons, elem_of_nil in E. unfold UpstreamRefreshInterval, second in *. lia. }
  simpl. destruct (Z.leb_spec d 0); repeat case_match; bool_to_prop; lia.
Qed.

(** ** The specification of the planning *)

Definition due (c : PollCoordinator) (now : time) (id : string) : bool :=
  match lastPoll c !! id with
  | None => true
  | Some last => UpstreamRefreshInterval <=? time_sub now last
  end.

Definition priority (c : PollCoordinator) (now : time) (id : string) : Z :=
  if regionPollPriority id <? pollPriorityOther then regionPollPriority id
  else match lastPoll c !! id with
       | Some last => if 2 * UpstreamRefreshInterval <=? time_sub now last then pollPriorityKlangValley else pollPriorityOther
       | None => pollPriorityOther
       end.

Definition entry (c : PollCoordinator) (now : time) (id : string) : due_entry := entry_of c id (priority c now id).

Definition pick_step (c : PollCoordinator) (now : time) (best : due_entry) (id : string) : due_entry :=
  if due c now id then
    if bool_decide (dID best = "") || preferDueRegion (entry c now id) best then entry c now id else best
  else best.

(** The region to fetch among [ids], or "". *)
Definition pick (c : PollCoordinator) (now : time) (ids : list string) : string :=
  dID (foldl (pick_step c now) no_entry ids).

Lemma stale_due c id now w : interval c <= UpstreamRefreshInterval -> (isStaleLocked c id now w).1 = due c now id.
Proof.
  intros Hi. unfold isStaleLocked, due. destruct (lastPoll c !! id) as [last|]; [|done].
  unfold mbind, M_bind. destruct (intervalLocked_bounds c id w) as [_ H]. specialize (H Hi).
  destruct (intervalLocked c id w). simpl in *. by subst.
Qed.

Lemma effective_priority c id now w : interval c <= UpstreamRefreshInterval ->
  (effectivePollPriorityLocked c id now w).1 = priority c now id.
Proof.
  intros Hi. unfold effectivePollPriorityLocked, priority. destruct (regionPollPriority id <? pollPriorityOther) eqn:E; [done|].
  assert (Hp : regionPollPriority id = pollPriorityOther).
  { revert E. unfold regionPollPriority. by repeat case_bool_decide. }
  destruct (lastPoll c !! id) as [last|]; [|done].
  unfold mbind, M_bind. destruct (intervalLocked_bounds c id w) as [_ H]. specialize (H Hi).
  destruct (intervalLocked c id w). simpl in *. subst. by rewrite Hp.
Qed.

Lemma next_due_loop_pick c now ids best w : interval c <= UpstreamRefreshInterval ->
  (next_due_loop c now ids best w).1 = foldl (pick_step c now) best ids.
Proof.
  intros Hi. revert best w. induction ids as [|id ids IH]; intros best w; cbn [next_due_loop foldl]; [done|].
  unfold mbind at 1, M_bind at 1. pose proof (stale_due c id now w Hi) as Hs.
  destruct (isStaleLocked c id now w) as [s w1]. simpl in Hs. subst s.
  unfold pick_step at 2. destruct (due c now id); simpl; [|apply IH].
  unfold mbind, M_bind. pose proof (effective_priority c id now w1 Hi) as He.
  destruct (effectivePollPriorityLocked c id now w1) as [p w2]. simpl in He. subst p.
  fold (entry c now id). case_bool_decide; simpl; [apply IH|]. case_match; apply IH.
Qed.

(** [nextDueRegion] refines [pick] on the regions in use. *)
Lemma nextDueRegion_pick c now w : interval c <= UpstreamRefreshInterval ->
  (nextDueRegion c now w).1 = pick c now (LiveRegionIDs clock disk w).1.
Proof.
  intros Hi. unfold nextDueRegion, mbind, M_bind. destruct (LiveRegionIDs clock disk w) as [ids w1]. simpl.
  case_bool_decide as E; [by rewrite E|]. unfold pick.
  pose proof (next_due_loop_pick c now ids no_entry w1 Hi) as H. destruct (next_due_loop c now ids no_entry w1). simpl in *. by subst.
Qed.

End Coordinator.

(** ** The preference order *)

Lemma prefer_irrefl a : preferDueRegion a a = false.
Proof.
  unfold preferDueRegion. rewrite Z.eqb_refl. simpl. destruct (dSeen a); simpl; [|apply str_lt_irrefl].
  unfold time_equal. rewrite Z.eqb_refl. apply str_lt_irrefl.
Qed.

Lemma prefer_total a b : dID a <> dID b -> preferDueRegion a b = true \/ preferDueRegion b a = true.
Proof.
  intros Hne. pose proof (str_lt_total _ _ Hne) as Hs. unfold preferDueRegion, time_equal, time_before.
  rewrite (Z.eqb_sym (dPri b)), (Z.eqb_sym (dLast b)).
  destruct (Z.eqb_spec (dPri a) (dPri b)); simpl; [|rewrite !Z.ltb_lt; lia].
  destruct (dSeen a), (dSeen b); simpl; auto. destruct (Z.eqb_spec (dLast a) (dLast b)); [done|rewrite !Z.ltb_lt; lia].
Qed.

Lemma prefer_trans a b c : preferDueRegion a b = true -> preferDueRegion b c = true -> preferDueRegion a c = true.
Proof.
  unfold preferDueRegion, time_equal, time_before.
  destruct (Z.eqb_spec (dPri a) (dPri b)) as [E1|E1], (Z.eqb_spec (dPri b) (dPri c)) as [E2|E2]; simpl;
    rewrite ?Z.ltb_lt; intros H1 H2; destruct (Z.eqb_spec (dPri a) (dPri c)); simpl; rewrite ?Z.ltb_lt; try lia.
  destruct (dSeen a), (dSeen b), (dSeen c); simpl in *; try done; try (by eapply str_lt_trans).
  revert H1 H2. destruct (Z.eqb_spec (dLast a) (dLast b)), (Z.eqb_spec (dLast b) (dLast c)), (Z.eqb_spec (dLast a) (dLast c));
    rewrite ?Z.ltb_lt; intros; try lia; by eapply str_lt_trans.
Qed.

(** [best] is the preferred due region of [ids]. *)
Definition best_due (c : PollCoordinator) (now : time) (ids : list string) (id : string) : Prop :=
  id ∈ ids /\ due c now id = true /\
  forall id', id' ∈ ids -> due c now id' = true -> id' <> id -> preferDueRegion (entry c now id) (entry c now id') = true.

Lemma pick_fold c now ids : Forall (fun id => id <> "") ids ->
  (forall b seen, best_due c now seen b -> Forall (fun id => id <> "") seen ->
     exists b', foldl (pick_step c now) (entry c now b) ids = entry c now b' /\ best_due c now (seen ++ ids) b').
Proof.
  induction ids as [|id ids IH]; intros Hne b seen Hb Hseen; cbn [foldl].
  { exists b. by rewrite app_nil_r. }
  apply Forall_cons in Hne as [Hid Hne]. destruct Hb as (Hin & Hdue & Hbest).
  assert (Hbne : b <> "") by (rewrite Forall_forall in Hseen; by apply Hseen).
  rewrite cons_middle, app_assoc. unfold pick_step at 2. rewrite bool_decide_false by done. simpl.
  assert (Hseen' : Forall (fun id => id <> "") (seen ++ [id])) by (apply Forall_app; by repeat constructor).
  destruct (due c now id) eqn:Hd.
  2:{ apply IH; [done| |done]. split_and!; [set_solver|done|].
      intros id' [Hid'|Hid'%list_elem_of_singleton]%elem_of_app; [by apply Hbest|congruence]. }
  destruct (preferDueRegion (entry c now id) (entry c now b)) eqn:Hp; (apply IH; [done| |done]); split_and!; [set_solver|done| |set_solver|done|].
  - intros id' [Hid'|Hid'%list_elem_of_singleton]%elem_of_app Hd' Hne'; [|done].
    destruct (decide (id' = b)) as [->|]; [done|]. eapply prefer_trans; [exact Hp|by apply Hbest].
  - intros id' [Hid'|Hid'%list_elem_of_singleton]%elem_of_app Hd' Hne'; [by apply Hbest|]. subst id'.
    destruct (prefer_total (entry c now id) (entry c now b)) as [?|?]; [done|congruence|done].
Qed.

Lemma pick_spec c now ids : Forall (fun id => id <> "") ids ->
  (pick c now ids = "" /\ (forall id, id ∈ ids -> due c now id = false)) \/
  (pick c now ids <> "" /\ best_due c now ids (pick c now ids)).
Proof.
  unfold pick. induction ids as [|id ids IH]; intros Hne; cbn [foldl].
  { left. split; [done|]. by intros id Hin%elem_of_nil. }
  apply Forall_cons in Hne as [Hid Hne].
  assert (Hstep : pick_step c now no_entry id = if due c now id then entry c now id else no_entry) by done.
  rewrite Hstep. destruct (due c now id) eqn:Hd.
  - right. assert (Hb : best_due c now [id] id).
    { split_and!; [by left|done|]. intros id' ->%list_elem_of_singleton; done. }
    destruct (pick_fold c now ids Hne id [id] Hb) as (b' & Hf & Hbest); [by constructor|].
    simpl. rewrite Hf. split; [|done]. simpl. destruct Hbest as (Hin & _). intros ->.
    apply elem_of_cons in Hin as [?|Hin]; [congruence|]. rewrite Forall_forall in Hne. by apply (Hne "").
  - destruct (IH Hne) as [[Hp Hno]|[Hp (Hin & Hdue & Hbest)]]; [left|right].
    + split; [done|]. intros id' [->|Hin]%elem_of_cons; auto.
    + split; [done|]. split_and!; [by right|done|]. intros id' [->|Hin']%elem_of_cons; [congruence|auto].
Qed.

(** The pick does not depend on the order of the regions. *)
Lemma pick_order c now ids1 ids2 : Forall (fun id => id <> "") ids1 -> ids1 ≡ₚ ids2 -> pick c now ids1 = pick c now ids2.
Proof.
  intros Hne Hp.
  assert (Hm : forall x, x ∈ ids1 <-> x ∈ ids2) by (intros x; by rewrite Hp).
  assert (Hne2 : Forall (fun id => id <> "") ids2) by by rewrite <-Hp.
  destruct (pick_spec c now ids1 Hne) as [[-> H1]|[H1 (Hi1 & Hd1 & Hb1)]],
    (pick_spec c now ids2 Hne2) as [[H2 H2']|[H2 (Hi2 & Hd2 & Hb2)]].
  - done.
  - apply Hm in Hi2. by rewrite (H1 _ Hi2) in Hd2.
  - apply Hm in Hi1. by rewrite (H2' _ Hi1) in Hd1.
  - destruct (decide (pick c now ids1 = pick c now ids2)) as [|Hne']; [done|exfalso].
    assert (P1 := Hb1 (pick c now ids2)). assert (P2 := Hb2 (pick c now ids1)).
    apply Hm in Hi1, Hi2.
    pose proof (prefer_trans _ _ _ (P1 Hi2 Hd2 ltac:(congruence)) (P2 Hi1 Hd1 Hne')) as Hc.
    by rewrite prefer_irrefl in Hc.
Qed.

Section Theorems.
Context {MR : MapRange}.
Variable clock : nat -> time.
Variable disk : nat -> disk_io.

(** C8: with a coordinator interval of at most 30 seconds, [nextDueRegion]
    returns a region that an unexpired connected viewer watches, that has not
    been polled for 30 seconds or ever, and that is preferred to every other
    such region in use; it returns "" exactly when no region in use is due. *)
Theorem next_due_region c now w id w' :
  interval c <= UpstreamRefreshInterval -> nextDueRegion clock disk c now w = (id, w') ->
  exists ids w1, LiveRegionIDs clock disk w = (ids, w1) /\
    (id = "" <-> forall r, r ∈ ids -> due c now r = false) /\
    (id <> "" -> best_due c now ids id /\
       exists sid st, watches (store w) sid id st /\ sessionExpired st (clock (ticks w)) = false).
Proof.
  intros Hi Hn. destruct (LiveRegionIDs clock disk w) as [ids w1] eqn:Hl. exists ids, w1. split; [done|].
  pose proof (nextDueRegion_pick clock disk c now w Hi) as Hp. rewrite Hn, Hl in Hp. simpl in Hp. subst id.
  pose proof (live_loop_watched clock disk w ids w1 Hl) as Hw. clear Hl.
  assert (Hne : Forall (fun r => r <> "") ids).
  { apply Forall_forall. intros r (sid & st & (_ & _ & _ & Hr) & _)%Hw. done. }
  destruct (pick_spec c now ids Hne) as [[-> Hno]|[Hp Hb]].
  - split; [done|]. done.
  - split; [|intros _; split; [done|]; apply Hw; by destruct Hb].
    split; [done|]. intros Hno. destruct Hb as (Hin & Hd & _). rewrite (Hno _ Hin) in Hd. done.
Qed.

(** ** Spacing of the fetches *)

(** One planning call and the poll it leads to: [rMark] is the time at which the
    poll is marked, [None] when it is not (a failed write returns before
    [MarkPolled]).  Between two calls the sessions may change in any way. *)
Record request := { rNow : time; rSwitch : option string; rMark : option time; rWorld : World }.

Definition plan (c : PollCoordinator) (q : request) : result (list Feed * list string) :=
  match rSwitch q with
  | None => (FeedsForScheduledPoll clock disk c (rNow q) (rWorld q)).1
  | Some id => (FeedsForRegionSwitch clock disk c (rNow q) id (rWorld q)).1
  end.

(** The regions fetched, and the coordinator after the call. *)
Definition serve (c : PollCoordinator) (q : request) : list string * PollCoordinator :=
  match plan c q with
  | Err _ => ([], c)
  | Ok (feeds, ids) =>
      if bool_decide (feeds = []) then ([], c)
      else (ids, match rMark q with Some t => MarkPolled ids t c | None => c end)
  end.

Fixpoint serve_all (c : PollCoordinator) (qs : list request) : list (list string) :=
  match qs with
  | [] => []
  | q :: qs => let '(ids, c') := serve c q in ids :: serve_all c' qs
  end.

(** Time does not run backwards over the calls. *)
Fixpoint in_order (t : time) (qs : list request) : Prop :=
  match qs with
  | [] => True
  | q :: qs => t <= rNow q /\ (forall m, rMark q = Some m -> rNow q <= m) /\ in_order (default (rNow q) (rMark q)) qs
  end.

(** A region found stale was polled 30 seconds ago or earlier, if ever. *)
Lemma stale_interval c id now w : (isStaleLocked clock disk c id now w).1 = true ->
  forall last : time, lastPoll c !! id = Some last -> UpstreamRefreshInterval <= now - last.
Proof.
  unfold isStaleLocked. intros Hs last Hl. rewrite Hl in Hs. revert Hs. unfold mbind, M_bind.
  destruct (intervalLocked_bounds clock disk c id w) as [H _]. destruct (intervalLocked clock disk c id w) as [i w'].
  simpl in *. rewrite Z.leb_le. intros Hi. assert (UpstreamRefreshInterval <= time_sub now last) by lia.
  apply time_sub_ge in H0; [done|]. unfold UpstreamRefreshInterval, int64_min, int64_max, second. lia.
Qed.

Definition fresh_enough (c : PollCoordinator) (now : time) (id : string) : Prop :=
  forall last : time, lastPoll c !! id = Some last -> UpstreamRefreshInterval <= now - last.

Lemma loop_stale c now ids best w : (dID best <> "" -> fresh_enough c now (dID best)) ->
  dID (next_due_loop clock disk c now ids best w).1 <> "" ->
  fresh_enough c now (dID (next_due_loop clock disk c now ids best w).1).
Proof.
  revert best w. induction ids as [|id ids IH]; intros best w Hb; cbn [next_due_loop]; [done|].
  unfold mbind, M_bind. pose proof (stale_interval c id now w) as Hs.
  destruct (isStaleLocked clock disk c id now w) as [[] w1]; simpl in Hs; cbn [negb]; [|by apply IH].
  destruct (effectivePollPriorityLocked clock disk c id now w1) as [p w2].
  assert (He : dID (entry_of c id p) <> "" -> fresh_enough c now (dID (entry_of c id p))) by (intros _; exact (Hs eq_refl)).
  cbn zeta. case_bool_decide; [by apply IH|]. case_match; by apply IH.
Qed.

Lemma scheduled_fetch c now w feeds ids : (FeedsForScheduledPoll clock disk c now w).1 = Ok (feeds, ids) ->
  feeds <> [] -> exists id, ids = [id] /\ fresh_enough c now id.
Proof.
  unfold FeedsForScheduledPoll, nextDueRegion, mbind, M_bind. destruct (LiveRegionIDs clock disk w) as [cands w1].
  case_bool_decide; simpl; [by intros [= <- <-]|].
  pose proof (loop_stale c now cands no_entry w1) as Hl. destruct (next_due_loop clock disk c now cands no_entry w1) as [e w2].
  simpl in *. case_bool_decide as He; [by intros [= <- <-]|]. destruct (FeedsForRegion (dID e)); [|done].
  intros [= <- <-] _. exists (dID e). split; [done|]. by apply Hl.
Qed.

Lemma plan_fetch c q feeds ids : plan c q = Ok (feeds, ids) -> feeds <> [] ->
  exists id, ids = [id] /\ fresh_enough c (rNow q) id.
Proof.
  unfold plan. destruct (rSwitch q) as [id|]; [|apply scheduled_fetch].
  unfold FeedsForRegionSwitch. case_bool_decide; [apply scheduled_fetch|]. unfold mbind, M_bind, isStale.
  pose proof (stale_interval c id (rNow q) (rWorld q)) as Hs. destruct (isStaleLocked clock disk c id (rNow q) (rWorld q)) as [[] w1]; simpl in *.
  - destruct (FeedsForRegion id); [|done]. intros [= <- <-] _. exists id. split; [done|exact (Hs eq_refl)].
  - by intros [= <- <-].
Qed.

Lemma serve_one c q ids c' : serve c q = (ids, c') ->
  (ids = [] /\ c' = c) \/
  exists id, ids = [id] /\ fresh_enough c (rNow q) id /\ c' = match rMark q with Some t => MarkPolled [id] t c | None => c end.
Proof.
  unfold serve. destruct (plan c q) as [[feeds ids0]|] eqn:E; [|intros [= <- <-]; by left].
  case_bool_decide; [intros [= <- <-]; by left|]. apply plan_fetch in E as (id & -> & Hf); [|done].
  intros [= <- <-]. right. by exists id.
Qed.

(** A region marked at [m] or later is not fetched before [m] + 30s. *)
Lemma serve_spacing c t qs id m : in_order t qs -> m <= t ->
  (exists last : time, lastPoll c !! id = Some last /\ m <= last) ->
  forall j q, qs !! j = Some q -> id ∈ default [] (serve_all c qs !! j) -> UpstreamRefreshInterval <= rNow q - m.
Proof.
  revert c t. induction qs as [|q0 qs IH]; intros c t Ho Hm (last & Hl & Hml) j q Hj; [done|].
  destruct Ho as (Ht & Hmark & Ho). cbn [serve_all]. destruct (serve c q0) as [ids c'] eqn:Hs. apply serve_one in Hs.
  destruct j as [|j]; simpl in *.
  - injection Hj as <-. destruct Hs as [[-> _]|(id' & -> & Hf & _)]; [by intros ?%elem_of_nil|].
    intros <-%list_elem_of_singleton. specialize (Hf last Hl). lia.
  - intros Hin. eapply IH; [exact Ho| |..|exact Hj|exact Hin].
    { destruct (rMark q0) as [t0|]; simpl; [specialize (Hmark t0 eq_refl)|]; lia. }
    destruct Hs as [[_ ->]|(id' & _ & _ & ->)]; [eauto|]. destruct (rMark q0) as [t0|]; [|eauto].
    specialize (Hmark t0 eq_refl). unfold MarkPolled. simpl. destruct (decide (id' = id)) as [->|].
    + exists t0. rewrite lookup_insert_eq. split; [done|lia].
    + exists last. by rewrite lookup_insert_ne.
Qed.

(** C10: over any sequence of scheduled polls and region switches, with any
    sessions, clock readings and disk, at most one region is fetched per call,
    and after a poll of a region is marked the region is not fetched again for
    30 seconds, the upstream's refresh interval. *)
Theorem fetch_spacing c t qs : in_order t qs ->
  Forall (fun ids => (length ids <= 1)%nat) (serve_all c qs) /\
  forall i j qi qj id m, (i < j)%nat -> qs !! i = Some qi -> qs !! j = Some qj -> rMark qi = Some m ->
    id ∈ default [] (serve_all c qs !! i) -> id ∈ default [] (serve_all c qs !! j) ->
    UpstreamRefreshInterval <= rNow qj - m.
Proof.
  revert c t. induction qs as [|q0 qs IH]; intros c t Ho; cbn [serve_all]; [split; [constructor|done]|].
  destruct Ho as (Ht & Hmark & Ho). destruct (serve c q0) as [ids c'] eqn:Hs. apply serve_one in Hs.
  destruct (IH c' _ Ho) as [Hone Hsp]. split.
  { constructor; [|done]. destruct Hs as [[-> _]|(id & -> & _)]; simpl; lia. }
  intros [|i] [|j] qi qj id m Hij Hi Hj Hm Hini Hinj; simpl in *; [lia| |lia|].
  - injection Hi as ->. destruct Hs as [[-> _]|(id' & -> & _ & ->)]; [by apply elem_of_nil in Hini|].
    apply list_elem_of_singleton in Hini as ->. rewrite Hm in Ho, Hinj. simpl in Ho.
    eapply serve_spacing; [exact Ho|reflexivity| |exact Hj|exact Hinj]. exists m. simpl. by rewrite lookup_insert_eq.
  - eapply (Hsp i j); eauto. lia.
Qed.

End Theorems.

(** ** Fairness *)

Definition region_ids : list string := rID <$> mapRegions.

Definition mark_picked (c : PollCoordinator) (id : string) (at_ : time) : PollCoordinator :=
  if bool_decide (id = "") then c else MarkPolled [id] at_ c.

(** [x] may still be preferred to a promoted region last polled at [t0]. *)
Definition blocker (c : PollCoordinator) (t0 : time) (x : string) : Prop :=
  match lastPoll c !! x with None => True | Some last => last <= t0 end.

#[export] Instance blocker_dec c t0 x : Decision (blocker c t0 x).
Proof. unfold blocker. destruct (lastPoll c !! x); apply _. Defined.

Definition blockers (c : PollCoordinator) (t0 : time) (r : string) : gset string :=
  filter (fun x => blocker c t0 x /\ x <> r) (list_to_set region_ids).

Lemma region_ids_nonempty : Forall (fun id => id <> "") region_ids.
Proof. by apply (bool_decide_unpack _); vm_compute. Qed.

Lemma region_ids_size : size (list_to_set region_ids : gset string) = 8%nat.
Proof. by vm_compute. Qed.

(** A region of the catalogue has feeds. *)
Lemma region_feeds id : id ∈ region_ids -> exists feeds, FeedsForRegion id = Ok feeds /\ feeds <> [].
Proof.
  assert (Hall : forallb (fun id => match FeedsForRegion id with Ok (_ :: _) => true | _ => false end) region_ids = true).
  { vm_compute. reflexivity. }
  rewrite forallb_forall in Hall. intros Hid%list_elem_of_In%Hall. destruct (FeedsForRegion id) as [[|f fs]|]; [done| |done]. by exists (f :: fs).
Qed.

Lemma session_region st : session_ok st -> sRegion st ∈ region_ids.
Proof. intros [[rg [Hin <-]%RegionByID_ok] _]. apply list_elem_of_fmap. by exists rg. Qed.

#[local] Opaque region_ids.

Lemma blockers_elem c t0 r x : x ∈ blockers c t0 r <-> blocker c t0 x /\ x <> r /\ x ∈ region_ids.
Proof. unfold blockers. rewrite elem_of_filter, elem_of_list_to_set. tauto. Qed.

#[local] Opaque blockers.

(** A promoted region loses only to blockers. *)
Lemma promoted_pick c (now : time) ids r (t0 : time) :
  lastPoll c !! r = Some t0 -> r <> "penang" -> 2 * UpstreamRefreshInterval <= now - t0 ->
  r ∈ ids -> ids ⊆ region_ids ->
  let x := pick c now ids in x <> "" /\ (x = r \/ x ∈ blockers c t0 r).
Proof.
  intros Hr Hpen Hw Hin Hsub x.
  assert (Hne : Forall (fun id => id <> "") ids).
  { apply Forall_forall. intros y Hy. pose proof region_ids_nonempty as H. rewrite Forall_forall in H. by apply H, Hsub. }
  assert (Hw2 : 2 * UpstreamRefreshInterval <= time_sub now t0).
  { apply time_sub_ge; [|done]. unfold UpstreamRefreshInterval, int64_min, int64_max, second. lia. }
  assert (Hdue : due c now r = true).
  { unfold due. rewrite Hr. apply Z.leb_le. unfold UpstreamRefreshInterval, second in *. lia. }
  destruct (pick_spec c now ids Hne) as [[_ Hno]|[Hx (Hxin & _ & Hbest)]]; [by rewrite (Hno r Hin) in Hdue|].
  fold x in Hx, Hxin, Hbest. clearbody x. split; [done|]. destruct (decide (x = r)) as [|Hxr]; [by left|right].
  specialize (Hbest r Hin Hdue ltac:(congruence)). apply blockers_elem. split; [|by auto].
  unfold blocker. destruct (lastPoll c !! x) as [last|] eqn:El; [|done].
  assert (Hpri : priority c now r = pollPriorityKlangValley).
  { unfold priority, regionPollPriority. rewrite (bool_decide_false (r = "penang")) by done. rewrite Hr.
    rewrite (proj2 (Z.leb_le _ _) Hw2). by case_bool_decide. }
  assert (Hpos : 0 <= priority c now x).
  { unfold priority, regionPollPriority. repeat case_match; by vm_compute. }
  revert Hbest. unfold preferDueRegion, entry, entry_of, time_equal, time_before. simpl. rewrite Hpri, Hr, El. simpl.
  unfold pollPriorityKlangValley. destruct (Z.eqb_spec (priority c now x) 0); simpl; [|rewrite Z.ltb_lt; lia].
  destruct (Z.eqb_spec last t0); [lia|]. rewrite Z.ltb_lt. lia.
Qed.

Lemma blocker_marked c t0 x y m : t0 < m -> blocker (MarkPolled [x] m c) t0 y <-> blocker c t0 y /\ y <> x.
Proof.
  intros Hm. unfold blocker, MarkPolled. cbn [lastPoll foldl]. destruct (decide (y = x)) as [->|Hyx].
  - rewrite lookup_insert_eq. split; [lia|by intros [_ ?]].
  - rewrite lookup_insert_ne by done. tauto.
Qed.

Lemma blockers_marked c t0 r x m : t0 < m -> blockers (MarkPolled [x] m c) t0 r = blockers c t0 r ∖ {[ x ]}.
Proof.
  intros Hm. apply set_eq. intros y. rewrite elem_of_difference, elem_of_singleton, !blockers_elem, blocker_marked by done. tauto.
Qed.

Section Fairness.
Context {MR : MapRange}.
Variable clock : nat -> time.
Variable disk : nat -> disk_io.

(** The regions in use are those of the catalogue, in a well-formed store. *)
Lemma live_regions_known w : store_ok (store w) -> (LiveRegionIDs clock disk w).1 ⊆ region_ids.
Proof.
  intros [Hok _] x Hx. destruct (LiveRegionIDs clock disk w) as [ids w1] eqn:E.
  destruct (live_loop_watched clock disk w ids w1 E x Hx) as (sid & st & (_ & Hst & <- & _) & _).
  apply session_region. exact (Hok sid st Hst).
Qed.

(** What a scheduled poll asks for while a region waits. *)
Lemma scheduled_serves c q r (t0 : time) : interval c <= UpstreamRefreshInterval ->
  lastPoll c !! r = Some t0 -> r <> "penang" -> 2 * UpstreamRefreshInterval <= rNow q - t0 -> rSwitch q = None ->
  store_ok (store (rWorld q)) -> r ∈ (LiveRegionIDs clock disk (rWorld q)).1 ->
  exists x, serve clock disk c q = ([x], match rMark q with Some t => MarkPolled [x] t c | None => c end) /\
    (x = r \/ x ∈ blockers c t0 r).
Proof.
  intros Hi Hr Hpen Hw Hsw Hok Hin. pose proof (live_regions_known (rWorld q) Hok) as Hsub.
  pose proof (nextDueRegion_pick clock disk c (rNow q) (rWorld q) Hi) as Hp.
  destruct (promoted_pick c (rNow q) _ r t0 Hr Hpen Hw Hin Hsub) as [Hx Hcase]. rewrite <-Hp in Hx, Hcase.
  assert (Hxr : (nextDueRegion clock disk c (rNow q) (rWorld q)).1 ∈ region_ids).
  { destruct Hcase as [->|Hb]; [by apply Hsub|]. by apply blockers_elem in Hb as (_ & _ & ?). }
  unfold serve, plan. rewrite Hsw. unfold FeedsForScheduledPoll, mbind, M_bind.
  destruct (nextDueRegion clock disk c (rNow q) (rWorld q)) as [x w1]. cbn [fst] in *. exists x. split; [|done].
  destruct (region_feeds x Hxr) as (feeds & Hf & Hne). unfold mret, M_ret. cbn [fst]. rewrite (bool_decide_false (x = "")) by done.
  rewrite Hf. unfold mbind, result_bind, mret, result_ret. by rewrite bool_decide_false.
Qed.

(** A served call marks another region or leaves the waiting one's mark alone. *)
Lemma serve_other c q ids c' r (t0 : time) : serve clock disk c q = (ids, c') -> r ∉ ids ->
  (forall m, rMark q = Some m -> t0 < m) -> lastPoll c !! r = Some t0 ->
  lastPoll c' !! r = Some t0 /\ interval c' = interval c /\ blockers c' t0 r ⊆ blockers c t0 r.
Proof.
  intros Hs Hr Hm Ht. apply serve_one in Hs as [[-> ->]|(x & -> & _ & ->)]; [done|].
  destruct (rMark q) as [m|]; [|done]. apply not_elem_of_cons in Hr as [Hne _]. split_and!; [|done|].
  - cbn. by rewrite lookup_insert_ne.
  - rewrite blockers_marked by auto. set_solver.
Qed.

(** A scheduled poll that succeeds. *)
Definition scheduled_poll (q : request) : bool := bool_decide (rSwitch q = None) && bool_decide (is_Some (rMark q)).

(** C28: a region that has been polled before, Penang apart, does not starve.
    Over any sequence of scheduled polls and region switches, succeeding or not,
    with any sessions in well-formed stores, any clock and any disk: when a
    minute has passed since the region's last poll and it stays in use, it is
    among the regions fetched before eight scheduled polls have succeeded. *)
Theorem polled_region_served c r (t0 : time) qs : interval c <= UpstreamRefreshInterval ->
  lastPoll c !! r = Some t0 -> r <> "penang" ->
  Forall (fun q => 2 * UpstreamRefreshInterval <= rNow q - t0 /\ (forall m, rMark q = Some m -> rNow q <= m) /\
                   store_ok (store (rWorld q)) /\ r ∈ (LiveRegionIDs clock disk (rWorld q)).1) qs ->
  (8 <= length (filter scheduled_poll qs))%nat ->
  exists ids, ids ∈ serve_all clock disk c qs /\ r ∈ ids.
Proof.
  intros Hi Hr Hpen Hqs Hlen.
  assert (Hsize : (size (blockers c t0 r) < length (filter scheduled_poll qs))%nat).
  { apply Nat.lt_le_trans with 8%nat; [|exact Hlen].
    assert (Hb : blockers c t0 r ⊆ list_to_set region_ids ∖ {[ r ]}) by (intros x (_ & Hxr & Hx)%blockers_elem; set_solver).
    apply subseteq_size in Hb. eapply Nat.le_lt_trans; [exact Hb|].
    destruct qs as [|q qs]; [simpl in Hlen; lia|]. apply Forall_cons in Hqs as [(_ & _ & Hok & Hin) _].
    rewrite size_difference by (apply singleton_subseteq_l, elem_of_list_to_set, (live_regions_known _ Hok), Hin).
    rewrite size_singleton, region_ids_size. lia. }
  clear Hlen. revert c Hi Hr Hsize. induction qs as [|q qs IH]; intros c Hi Hr Hsize; [simpl in Hsize; lia|].
  apply Forall_cons in Hqs as [(Hw & Hm & Hok & Hin) Hqs]. specialize (IH Hqs). cbn [serve_all].
  destruct (serve clock disk c q) as [ids c'] eqn:Hs. destruct (decide (r ∈ ids)) as [Hri|Hri].
  { exists ids. split; [by left|done]. }
  assert (Hm0 : forall m, rMark q = Some m -> t0 < m).
  { intros m Em%Hm. unfold UpstreamRefreshInterval, second in Hw. lia. }
  destruct (serve_other c q ids c' r t0 Hs Hri Hm0 Hr) as (Hr' & Hi' & Hsub).
  enough (Hsz : (size (blockers c' t0 r) < length (filter scheduled_poll qs))%nat).
  { destruct (IH c') as (ids' & H1 & H2); [by rewrite Hi'|done|done|]. exists ids'. split; [by right|done]. }
  rewrite filter_cons in Hsize. destruct (decide (scheduled_poll q)) as [Hsp|_]; [|apply subseteq_size in Hsub; lia].
  unfold scheduled_poll in Hsp. apply Is_true_true, andb_true_iff in Hsp as [Hsw%bool_decide_eq_true [m Em]%bool_decide_eq_true].
  destruct (scheduled_serves c q r t0 Hi Hr Hpen Hw Hsw Hok Hin) as (x & Hs' & Hx).
  rewrite Hs in Hs'. injection Hs' as -> ->. rewrite Em. destruct Hx as [->|Hx]; [by destruct Hri; left|].
  rewrite blockers_marked by auto. rewrite size_difference, size_singleton by (by apply singleton_subseteq_l).
  assert (size (blockers c t0 r) <> 0%nat) by (intros E%size_empty_inv; by apply (E x), not_elem_of_empty in Hx).
  simpl in Hsize. lia.
Qed.
End Fairness.

(** ** Starvation *)

(** Ticks every [PollTickInterval] with the same regions in use; every poll is
    marked [delay] after its tick. *)
Fixpoint tick_run (delay : Z) (ids : list string) (n : nat) (now : time) (c : PollCoordinator) : list string * PollCoordinator :=
  match n with
  | O => ([], c)
  | S n =>
      let id := pick c now ids in
      let '(l, c') := tick_run delay ids n (now + PollTickInterval) (mark_picked c id (now + delay)) in
      (id :: l, c')
  end.

Definition shift (d : Z) (c : PollCoordinator) : PollCoordinator :=
  {| interval := interval c; lastPoll := (fun t => t + d) <$> lastPoll c |}.

Definition shift_entry (d : Z) (e : due_entry) : due_entry :=
  {| dID := dID e; dLast := if dSeen e then dLast e + d else dLast e; dSeen := dSeen e; dPri := dPri e |}.

Lemma time_sub_shift t u d : time_sub (t + d) (u + d) = time_sub t u.
Proof. unfold time_sub. by replace (t + d - (u + d)) with (t - u) by lia. Qed.

Lemma shift_lookup d c id : lastPoll (shift d c) !! id = (fun t => t + d) <$> lastPoll c !! id.
Proof. apply lookup_fmap. Qed.

Lemma due_shift d c now id : due (shift d c) (now + d) id = due c now id.
Proof. unfold due. rewrite shift_lookup. destruct (lastPoll c !! id); simpl; [|done]. by rewrite time_sub_shift. Qed.

Lemma entry_shift d c now id : entry (shift d c) (now + d) id = shift_entry d (entry c now id).
Proof.
  unfold entry, entry_of, shift_entry, priority. rewrite shift_lookup. destruct (lastPoll c !! id); simpl; [|done].
  by rewrite time_sub_shift.
Qed.

Lemma prefer_shift d a b : preferDueRegion (shift_entry d a) (shift_entry d b) = preferDueRegion a b.
Proof.
  unfold preferDueRegion, shift_entry, time_equal, time_before. simpl. destruct (dSeen a), (dSeen b); simpl; try done.
  assert (He : (dLast a + d =? dLast b + d) = (dLast a =? dLast b))
    by (destruct (Z.eqb_spec (dLast a + d) (dLast b + d)), (Z.eqb_spec (dLast a) (dLast b)); lia).
  assert (Hl : (dLast a + d <? dLast b + d) = (dLast a <? dLast b))
    by (destruct (Z.ltb_spec (dLast a + d) (dLast b + d)), (Z.ltb_spec (dLast a) (dLast b)); lia).
  by rewrite He, Hl.
Qed.

Lemma pick_shift d c now ids : pick (shift d c) (now + d) ids = pick c now ids.
Proof.
  unfold pick. assert (H : forall e, foldl (pick_step (shift d c) (now + d)) (shift_entry d e) ids = shift_entry d (foldl (pick_step c now) e ids)).
  { induction ids as [|id ids IH]; intros e; cbn [foldl]; [done|]. rewrite <-IH. f_equal. unfold pick_step.
    rewrite due_shift, entry_shift, prefer_shift. simpl. by repeat case_match. }
  exact (f_equal dID (H no_entry)).
Qed.

Lemma mark_picked_shift d c id t : mark_picked (shift d c) id (t + d) = shift d (mark_picked c id t).
Proof.
  unfold mark_picked. case_bool_decide; [done|]. unfold MarkPolled, shift. simpl. f_equal. by rewrite fmap_insert.
Qed.

Lemma tick_run_shift d delay ids n now c :
  tick_run delay ids n (now + d) (shift d c) =
  ((tick_run delay ids n now c).1, shift d (tick_run delay ids n now c).2).
Proof.
  revert now c. induction n as [|n IH]; intros now c; cbn [tick_run]; [done|]. rewrite pick_shift.
  replace (now + d + delay) with (now + delay + d) by lia. replace (now + d + PollTickInterval) with (now + PollTickInterval + d) by lia.
  rewrite mark_picked_shift, IH. by destruct (tick_run delay ids n _ _).
Qed.

Lemma tick_run_app delay ids n m now c :
  (tick_run delay ids (n + m) now c).1 =
  (tick_run delay ids n now c).1 ++
  (tick_run delay ids m (now + Z.of_nat n * PollTickInterval) (tick_run delay ids n now c).2).1.
Proof.
  revert now c. induction n as [|n IH]; intros now c.
  { by rewrite Z.add_0_r. }
  rewrite Nat.add_succ_l. cbn [tick_run]. specialize (IH (now + PollTickInterval) (mark_picked c (pick c now ids) (now + delay))).
  destruct (tick_run delay ids (n + m) _ _) as [l1 c1], (tick_run delay ids n _ _) as [l2 c2]. simpl in *. rewrite IH.
  do 3 f_equal. f_equal. lia.
Qed.

(** When a block of [p] ticks ends in the state it began in, shifted by the time
    it took, every run is made of the regions of that block. *)
Lemma periodic_run delay ids p now c : (0 < p)%nat ->
  (tick_run delay ids p now c).2 = shift (Z.of_nat p * PollTickInterval) c ->
  forall n id, id ∈ (tick_run delay ids n now c).1 -> id ∈ (tick_run delay ids p now c).1.
Proof.
  intros Hp Hper n. induction n as [n IH] using lt_wf_ind. intros id Hin.
  destruct (le_lt_dec n p) as [Hle|Hlt].
  - replace p with (n + (p - n))%nat by lia. rewrite tick_run_app. set_solver.
  - replace n with (p + (n - p))%nat in Hin by lia. rewrite tick_run_app in Hin.
    apply elem_of_app in Hin as [|Hin]; [done|]. rewrite Hper, tick_run_shift in Hin. simpl in Hin.
    apply (IH (n - p)%nat); [lia|done].
Qed.

(** A run that reaches such a block after [k] ticks. *)
Lemma eventually_periodic delay ids k p now c l c1 l' c2 : (0 < p)%nat ->
  tick_run delay ids k now c = (l, c1) ->
  tick_run delay ids p (now + Z.of_nat k * PollTickInterval) c1 = (l', c2) ->
  c2 = shift (Z.of_nat p * PollTickInterval) c1 ->
  forall n id, id ∈ (tick_run delay ids n now c).1 -> id ∈ l ++ l'.
Proof.
  intros Hp E1 E2 Hper n id Hin. assert (Hin' : id ∈ (tick_run delay ids (k + n) now c).1).
  { rewrite Nat.add_comm, tick_run_app. set_solver. }
  rewrite tick_run_app, E1 in Hin'. simpl in Hin'. apply elem_of_app in Hin' as [?|Hin']; [set_solver|].
  apply elem_of_app. right. replace l' with (tick_run delay ids p (now + Z.of_nat k * PollTickInterval) c1).1 by by rewrite E2.
  eapply periodic_run; [exact Hp| |exact Hin']. by rewrite E2.
Qed.

Section Starvation.
Context {MR : MapRange}.
Variable clock : nat -> time.
Variable disk : nat -> disk_io.

(** The scheduler's ticks from a fresh coordinator: at the n-th the sessions are
    [ws n], and every poll is marked [delay] after its tick. *)
Fixpoint schedule (ws : nat -> World) (delay : Z) (n i : nat) (now : time) (c : PollCoordinator) : list string :=
  match n with
  | O => []
  | S n =>
      let id := (nextDueRegion clock disk c now (ws i)).1 in
      id :: schedule ws delay n (S i) (now + PollTickInterval) (mark_picked c id (now + delay))
  end.

(** All eight regions are in use at every tick. *)
Definition all_watched (ws : nat -> World) : Prop :=
  forall i, (LiveRegionIDs clock disk (ws i)).1 ≡ₚ region_ids.

Lemma mark_picked_interval c id t : interval (mark_picked c id t) = interval c.
Proof. unfold mark_picked. by case_bool_decide. Qed.

Lemma schedule_run ws delay n i now c : all_watched ws -> interval c <= UpstreamRefreshInterval ->
  schedule ws delay n i now c = (tick_run delay region_ids n now c).1.
Proof.
  intros Hw. revert i now c. induction n as [|n IH]; intros i now c Hi; cbn [schedule tick_run]; [done|].
  rewrite nextDueRegion_pick by done. rewrite (pick_order c now _ region_ids); [|rewrite (Hw i); apply region_ids_nonempty|apply Hw].
  rewrite IH by (by rewrite mark_picked_interval). by destruct (tick_run delay region_ids n _ _).
Qed.

(** A region that has never been polled can starve: with all eight regions
    watched, the default coordinator and a tick every 10 seconds, four regions
    are never fetched when a poll takes no time, and two are never fetched when
    it takes a second, however long the scheduler runs. *)
Theorem unpolled_regions_starve ws t0 n :
  all_watched ws ->
  let c := NewPollCoordinator DefaultPollInterval in
  Forall (fun id => id ∈ ["klang-valley"; "penang"; "central"; "east-coast"]) (schedule ws 0 n 0 t0 c) /\
  Forall (fun id => id ∉ ["northern"; "sarawak"]) (schedule ws second n 0 t0 c).
Proof.
  intros Hw c. rewrite !schedule_run by done.
  assert (Hshift : forall delay, (tick_run delay region_ids n t0 c).1 = (tick_run delay region_ids n 0 c).1).
  { intros delay. pose proof (tick_run_shift t0 delay region_ids n 0 c) as H. apply (f_equal fst) in H. exact H. }
  rewrite !Hshift. clear Hshift. split; apply Forall_forall; intros id Hid.
  - eapply (eventually_periodic 0 region_ids 6 6) in Hid;
      [|lia|vm_compute; reflexivity|vm_compute; reflexivity|vm_compute; reflexivity].
    set_solver.
  - eapply (eventually_periodic second region_ids 16 14) in Hid;
      [|lia|vm_compute; reflexivity|vm_compute; reflexivity|vm_compute; reflexivity].
    set_solver.
Qed.

End Starvation.

(** ** Concrete runs *)

Definition watch (regions : list string) : World :=
  {| store := {| sessions := list_to_map ((fun r => (r, {| sRegion := r; sPollSeconds := 10; LastSeen := noon |})) <$> regions);
                 live := list_to_map ((fun r => (r, 1)) <$> regions); path := "" |};
     files := ∅; ticks := 0 |}.

Definition still_clock (_ : nat) : time := noon.

Definition polled_johor : PollCoordinator := MarkPolled ["johor"] (noon - 40 * second) (NewPollCoordinator 0).

Definition three_regions : World := watch ["johor"; "penang"; "sarawak"].

Lemma next_due_region_witness : exists w',
  interval polled_johor <= UpstreamRefreshInterval /\
  nextDueRegion (MR := canonical_range) still_clock bad_disk polled_johor noon three_regions = ("penang", w') /\
  exists ids w1,
    LiveRegionIDs (MR := canonical_range) still_clock bad_disk three_regions = (ids, w1) /\
    ("penang" = "" <-> forall r, r ∈ ids -> due polled_johor noon r = false) /\
    ("penang" <> "" -> best_due polled_johor noon ids "penang" /\
       exists sid st, watches (store three_regions) sid "penang" st /\ sessionExpired st (still_clock (ticks three_regions)) = false).
Proof.
  eexists. assert (Hi : interval polled_johor <= UpstreamRefreshInterval) by (by vm_compute).
  split; [exact Hi|]. split; [vm_compute; reflexivity|].
  eapply (next_due_region (MR := canonical_range) still_clock bad_disk polled_johor noon three_regions _ _ Hi).
  vm_compute; reflexivity.
Defined.

(** Johor is fetched, its write fails, it is fetched again and marked, skipped
    while fresh, and fetched 30 seconds after the mark. *)
Definition johor_requests : list request :=
  let q at_ sw mark := {| rNow := noon + at_ * second; rSwitch := sw; rMark := mark; rWorld := watch ["johor"] |} in
  [q 0 None None; q 10 None (Some (noon + 12 * second)); q 20 (Some "johor") None;
   q 42 (Some "johor") (Some (noon + 43 * second))].

Lemma fetch_spacing_witness :
  in_order noon johor_requests /\
  serve_all (MR := canonical_range) still_clock bad_disk (NewPollCoordinator 0) johor_requests = [["johor"]; ["johor"]; []; ["johor"]] /\
  UpstreamRefreshInterval <= (noon + 42 * second) - (noon + 12 * second).
Proof.
  assert (Ho : in_order noon johor_requests).
  { simpl. unfold noon, second. split_and!; try lia; try done; intros m [= <-]; lia. }
  assert (Hs : serve_all (MR := canonical_range) still_clock bad_disk (NewPollCoordinator 0) johor_requests =
    [["johor"]; ["johor"]; []; ["johor"]]) by (vm_compute; reflexivity).
  split; [exact Ho|]. split; [exact Hs|].
  pose proof (proj2 (fetch_spacing (MR := canonical_range) still_clock bad_disk (NewPollCoordinator 0) noon johor_requests Ho)
                1%nat 3%nat _ _ "johor" (noon + 12 * second) ltac:(lia) eq_refl eq_refl eq_refl) as H.
  rewrite Hs in H. apply H; by left.
Defined.

(** Ten planning calls every ten seconds: the third is a switch to Sarawak, the
    fifth poll fails. *)
Definition busy_requests : list request :=
  (fun n => {| rNow := noon + (60 + 10 * Z.of_nat n) * second; rSwitch := if decide (n = 2%nat) then Some "sarawak" else None;
               rMark := if decide (n = 4%nat) then None else Some (noon + (62 + 10 * Z.of_nat n) * second);
               rWorld := watch ["johor"; "klang-valley"; "sarawak"] |}) <$> seq 0 10.

Lemma busy_in_use : forallb (fun q => bool_decide ("johor" ∈ (LiveRegionIDs (MR := canonical_range) still_clock bad_disk (rWorld q)).1))
  busy_requests = true.
Proof. by vm_compute. Qed.

Lemma watched_store_ok : store_ok (store (watch ["johor"; "klang-valley"; "sarawak"])).
Proof.
  split; [|by apply (bool_decide_unpack _); vm_compute].
  apply map_Forall_lookup. intros sid st Hst. apply elem_of_list_to_map_2 in Hst. apply list_elem_of_fmap in Hst as (r & [= -> ->] & Hr).
  split; [|by left]. unfold sRegion.
  repeat (apply elem_of_cons in Hr as [->|Hr]; [eexists; reflexivity|]). by apply elem_of_nil in Hr.
Qed.

Lemma polled_region_served_witness :
  exists ids, ids ∈ serve_all (MR := canonical_range) still_clock bad_disk (MarkPolled ["johor"] noon (NewPollCoordinator 0)) busy_requests /\
    "johor" ∈ ids.
Proof.
  apply (polled_region_served (MR := canonical_range) still_clock bad_disk (MarkPolled ["johor"] noon (NewPollCoordinator 0)) "johor" noon busy_requests).
  - by vm_compute.
  - reflexivity.
  - done.
  - apply Forall_forall. intros q Hq. pose proof busy_in_use as Hu. rewrite forallb_forall in Hu.
    assert (Hin := Hu q (proj1 (list_elem_of_In _ _) Hq)). apply bool_decide_eq_true in Hin.
    unfold busy_requests in Hq. apply list_elem_of_fmap in Hq as (n & -> & _). split_and!.
    + unfold UpstreamRefreshInterval, noon, second. cbn [rNow]. lia.
    + intros m. cbn [rMark rNow]. destruct (decide (n = 4%nat)); [done|]. intros [= <-]. unfold second. lia.
    + exact watched_store_ok.
    + exact Hin.
  - apply Nat.leb_le. vm_compute. reflexivity.
Defined.

Lemma unpolled_regions_starve_witness :
  all_watched (MR := canonical_range) still_clock bad_disk (fun _ => watch region_ids) /\
  Forall (fun id => id ∈ ["klang-valley"; "penang"; "central"; "east-coast"])
    (schedule (MR := canonical_range) still_clock bad_disk (fun _ => watch region_ids) 0 1000 0 noon (NewPollCoordinator DefaultPollInterval)).
Proof.
  assert (Hw : all_watched (MR := canonical_range) still_clock bad_disk (fun _ => watch region_ids)).
  { intros _. transitivity (sort_strings region_ids); [|apply sort_strings_perm].
    transitivity (sort_strings (LiveRegionIDs (MR := canonical_range) still_clock bad_disk (watch region_ids)).1);
      [symmetry; apply sort_strings_perm|].
    assert (E : sort_strings (LiveRegionIDs (MR := canonical_range) still_clock bad_disk (watch region_ids)).1 = sort_strings region_ids)
      by (vm_compute; reflexivity).
    rewrite E. reflexivity. }
  split; [exact Hw|].
  exact (proj1 (unpolled_regions_starve (MR := canonical_range) still_clock bad_disk _ noon 1000 Hw)).
Defined.
