(* ===== verification/LivePipeline.v ===== *)
(** * The live pipeline (internal/demo/pipeline.go)

    The per-agency stores, the latest position of every vehicle in memory, the
    ingest ring buffer, and the two ways the latest positions are read back from
    storage: hydration at start-up and [ScanLatest].  The stores are the
    interface of [IsleDB]; the handles' life cycle is in [PrefixDB].  A method
    that returns a value and an error returns both. *)

From S2P Require Import Prelude GoStrings KeyRange Json Vehicle Regions IsleDB ChangeFeed.

Definition flushInterval : Z := 5 * second.
Definition ingestCap : nat := 10.
Definition LiveMapFreshWindow : Z := 5 * minute.
Definition LiveMapVisibleWindow : Z := 30 * minute.

Record IngestRecord := {
  igAgency : string;
  igBucketID : string;
  igBucketLabel : string;
  igVehicleID : string;
  igLat : float64;
  igLng : float64;
  igAt : time
}.

Section LivePipeline.
Context {MR : MapRange} {I : IsleDB}.

(** [agencies] maps an agency to its store; the prefix id of the store is the
    agency. *)
Record Pipeline := {
  agencies : gmap string db;
  eventCount : Z;
  lastPollAt : time;
  vehicleSeen : gmap string VehiclePosition;
  ingestBuf : list IngestRecord;
  lastPolled : list string
}.

Definition set_agencies (m : gmap string db) (p : Pipeline) : Pipeline :=
  {| agencies := m; eventCount := eventCount p; lastPollAt := lastPollAt p; vehicleSeen := vehicleSeen p;
     ingestBuf := ingestBuf p; lastPolled := lastPolled p |}.
Definition set_vehicleSeen (m : gmap string VehiclePosition) (p : Pipeline) : Pipeline :=
  {| agencies := agencies p; eventCount := eventCount p; lastPollAt := lastPollAt p; vehicleSeen := m;
     ingestBuf := ingestBuf p; lastPolled := lastPolled p |}.

Definition vehicle_key (pos : VehiclePosition) : string := Agency pos +:+ ":" +:+ VehicleID pos.

(** [if prev, ok := m[key]; !ok || pos.Timestamp.After(prev.Timestamp) { m[key] = pos }] *)
Definition keep_latest (key : string) (pos : VehiclePosition) (m : gmap string VehiclePosition) : gmap string VehiclePosition :=
  match m !! key with
  | None => <[key := pos]> m
  | Some prev => if time_after (Timestamp pos) (Timestamp prev) then <[key := pos]> m else m
  end.

(** ** Writing *)

Definition ingest_record (pos : VehiclePosition) : IngestRecord :=
  let '(bucketID, bucketLabel) :=
    match RegionForAgency (Agency pos) with
    | Some r => (rID r, rLabel r)
    | None => ("", "Unknown")
    end in
  {| igAgency := Agency pos; igBucketID := bucketID; igBucketLabel := bucketLabel; igVehicleID := VehicleID pos;
     igLat := Lat pos; igLng := Lng pos; igAt := Timestamp pos |}.

(** The slice is cut when it exceeds the capacity. *)
Definition recordIngest (pos : VehiclePosition) (buf : list IngestRecord) : list IngestRecord :=
  let buf := ingest_record pos :: buf in
  if bool_decide (ingestCap < length buf)%nat then take ingestCap buf else buf.

(** The critical section of [Write]. *)
Definition record_write (pos : VehiclePosition) (p : Pipeline) : Pipeline :=
  {| agencies := agencies p; eventCount := wrap64 (eventCount p + 1); lastPollAt := lastPollAt p;
     vehicleSeen := keep_latest (vehicle_key pos) pos (vehicleSeen p);
     ingestBuf := recordIngest pos (ingestBuf p); lastPolled := lastPolled p |}.

Fixpoint write_loop (positions : list VehiclePosition) (puts : Z) (p : Pipeline) : (Z * option error) * Pipeline :=
  match positions with
  | [] => ((puts, None), p)
  | pos :: positions =>
      match agencies p !! Agency pos with
      | None => ((puts, Some (Errorf ("unknown agency " +:+ quote (Agency pos)))), p)
      | Some aw =>
          match ValueBytes pos with
          | Err e => ((puts, Some e), p)
          | Ok val =>
              match writer_put (KeyBytes pos) val aw with
              | (Some e, aw) => ((puts, Some e), set_agencies (<[Agency pos := aw]> (agencies p)) p)
              | (None, aw) =>
                  write_loop positions (puts + 1) (record_write pos (set_agencies (<[Agency pos := aw]> (agencies p)) p))
              end
          end
      end
  end.

Definition Write (positions : list VehiclePosition) (p : Pipeline) : (Z * option error) * Pipeline :=
  write_loop positions 0 p.

(** [for _, aw := range p.agencies { Flush; RefreshReader }], stopping at the
    first error. *)
Fixpoint flush_loop (l : list (string * db)) (p : Pipeline) : option error * Pipeline :=
  match l with
  | [] => (None, p)
  | (id, aw) :: l =>
      match writer_flush aw with
      | (Some e, aw) => (Some e, set_agencies (<[id := aw]> (agencies p)) p)
      | (None, aw) =>
          match RefreshReader false aw with
          | (Some e, aw) => (Some e, set_agencies (<[id := aw]> (agencies p)) p)
          | (None, aw) => flush_loop l (set_agencies (<[id := aw]> (agencies p)) p)
          end
      end
  end.

Definition FlushAll (p : Pipeline) : option error * Pipeline := flush_loop (range (agencies p)) p.

(** ** Reading positions back *)

(** The loop over an agency's iterator; values that do not parse are skipped. *)
Definition latest_item (latest : gmap string VehiclePosition) (item : string * value) : gmap string VehiclePosition :=
  match ParseVehiclePosition item.2 with
  | Err _ => latest
  | Ok pos => keep_latest (VehicleIDFromKey item.1) pos latest
  end.

Definition bootstrapLatest (id : string) (aw : db) : result (gmap string VehiclePosition) :=
  snap ← reader_bootstrap aw;
  items ← snapshot_iter (AgencyPrefix id) (AgencyUpperBound id) snap;
  match items with
  | (_, Some e) => Err e
  | (items, None) => Ok (foldl latest_item ∅ items)
  end.

(** [key := pos.Agency + ":" + pos.VehicleID] and [keep_latest]. *)
Definition merge_latest (m : gmap string VehiclePosition) (pos : VehiclePosition) : gmap string VehiclePosition :=
  keep_latest (vehicle_key pos) pos m.

Fixpoint hydrate_loop (l : list (string * db)) (seen : gmap string VehiclePosition) : option error * gmap string VehiclePosition :=
  match l with
  | [] => (None, seen)
  | (id, aw) :: l =>
      match bootstrapLatest id aw with
      | Err e => (Some (Wrap ("hydrate " +:+ id +:+ ": ") e), seen)
      | Ok latest => hydrate_loop l (foldl merge_latest seen (range latest).*2)
      end
  end.

Definition hydrateFromSnapshot (p : Pipeline) : option error * Pipeline :=
  let '(e, seen) := hydrate_loop (range (agencies p)) (vehicleSeen p) in
  (e, set_vehicleSeen seen p).

(** [NewPipeline] on agencies whose stores are open: the zero values, then
    hydration; its error closes every store. *)
Definition zero_pipeline (stores : gmap string db) : Pipeline :=
  {| agencies := stores; eventCount := 0; lastPollAt := zero_time; vehicleSeen := ∅; ingestBuf := []; lastPolled := [] |}.

Definition NewPipeline (stores : gmap string db) : result Pipeline :=
  match hydrateFromSnapshot (zero_pipeline stores) with
  | (Some e, _) => Err e
  | (None, p) => Ok p
  end.

(** [scanLatest] refreshes the reader and returns the values of its map, in an
    order the language leaves open. *)
Definition scanLatest (id : string) (aw : db) : result (list VehiclePosition) * db :=
  match RefreshReader false aw with
  | (Some e, aw) => (Err e, aw)
  | (None, aw) =>
      match reader_iter (AgencyPrefix id) (AgencyUpperBound id) aw with
      | Err e => (Err e, aw)
      | Ok (_, Some e) => (Err e, aw)
      | Ok (items, None) => (Ok (range (foldl latest_item ∅ items)).*2, aw)
      end
  end.

Fixpoint scan_loop (l : list (string * db)) (latest : gmap string VehiclePosition) (p : Pipeline)
  : result (gmap string VehiclePosition) * Pipeline :=
  match l with
  | [] => (Ok latest, p)
  | (id, aw) :: l =>
      match scanLatest id aw with
      | (Err e, aw) => (Err (Wrap ("scan " +:+ id +:+ ": ") e), set_agencies (<[id := aw]> (agencies p)) p)
      | (Ok positions, aw) =>
          scan_loop l (foldl merge_latest latest positions) (set_agencies (<[id := aw]> (agencies p)) p)
      end
  end.

Definition ScanLatest (p : Pipeline) : result (list VehiclePosition) * Pipeline :=
  match scan_loop (range (agencies p)) ∅ p with
  | (Err e, p) => (Err e, p)
  | (Ok latest, p) => (Ok (range latest).*2, p)
  end.

(** ** Queries *)

Definition LatestPositions (p : Pipeline) : list VehiclePosition := (range (vehicleSeen p)).*2.

Definition SetLastPoll (t : time) (p : Pipeline) : Pipeline :=
  {| agencies := agencies p; eventCount := eventCount p; lastPollAt := t; vehicleSeen := vehicleSeen p;
     ingestBuf := ingestBuf p; lastPolled := lastPolled p |}.

Definition Stats (p : Pipeline) : Z * time * Z := (Z.of_nat (size (vehicleSeen p)), lastPollAt p, eventCount p).

Definition SetLastPolledAgencies (ids : list string) (p : Pipeline) : Pipeline :=
  {| agencies := agencies p; eventCount := eventCount p; lastPollAt := lastPollAt p; vehicleSeen := vehicleSeen p;
     ingestBuf := ingestBuf p; lastPolled := ids |}.

Definition LastPolledAgencies (p : Pipeline) : list string := lastPolled p.

Definition RecentIngestGrouped (p : Pipeline) : gmap string (list IngestRecord) :=
  foldl (fun groups rec => <[igBucketLabel rec := default [] (groups !! igBucketLabel rec) ++ [rec]]> groups) ∅ (ingestBuf p).

Definition RecentIngestForRegion (regionID : string) (p : Pipeline) : list IngestRecord :=
  List.filter (fun rec => bool_decide (igBucketID rec = regionID)) (ingestBuf p).

Definition LatestPositionsFor (ids : gset string) (p : Pipeline) : list VehiclePosition :=
  List.filter (fun pos => bool_decide (Agency pos ∈ ids)) (range (vehicleSeen p)).*2.

(** A vehicle drawn on the live map. *)
Definition visible_at (ids : gset string) (now : time) (pos : VehiclePosition) : bool :=
  bool_decide (Agency pos ∈ ids) && (time_sub now (Timestamp pos) <=? LiveMapVisibleWindow).

Definition LivePositionsFor (ids : gset string) (now : time) (p : Pipeline) : list VehiclePosition :=
  List.filter (visible_at ids now) (range (vehicleSeen p)).*2.

Definition StatsFor (ids : gset string) (now : time) (p : Pipeline) : Z * time * Z :=
  (foldl (fun n pos => if visible_at ids now pos then n + 1 else n) 0 (range (vehicleSeen p)).*2, lastPollAt p, eventCount p).

(** ** Folds of [keep_latest] *)

Definition keep_all (m : gmap string VehiclePosition) (l : list (string * VehiclePosition)) : gmap string VehiclePosition :=
  foldl (fun m kp => keep_latest kp.1 kp.2 m) m l.

Lemma keep_latest_spec key pos m k :
  keep_latest key pos m !! k =
    if decide (k = key) then
      match m !! key with
      | Some prev => if time_after (Timestamp pos) (Timestamp prev) then Some pos else Some prev
      | None => Some pos
      end
    else m !! k.
Proof.
  unfold keep_latest. destruct (decide (k = key)) as [->|Hne].
  - destruct (m !! key) as [prev|] eqn:E; [case_match|]; by rewrite ?lookup_insert_eq.
  - destruct (m !! key); [case_match|]; by rewrite ?lookup_insert_ne.
Qed.

(** The entry kept under a key is one of those offered, and the latest. *)
Lemma keep_all_spec m l k :
  match keep_all m l !! k with
  | None => m !! k = None /\ forall pos, (k, pos) ∉ l
  | Some q => (m !! k = Some q \/ (k, q) ∈ l) /\
      (forall pos, (k, pos) ∈ l -> Timestamp pos <= Timestamp q) /\
      (forall q0, m !! k = Some q0 -> Timestamp q0 <= Timestamp q)
  end.
Proof.
  revert m. induction l as [|[key pos] l IH]; intros m.
  { change (keep_all m []) with m. destruct (m !! k) as [q|]; [|split; [done|intros ?; apply not_elem_of_nil]].
    split_and!; [by left|by intros ? ?%elem_of_nil|intros q0 [= ->]; lia]. }
  specialize (IH (keep_latest key pos m)). change (keep_all m ((key, pos) :: l)) with (keep_all (keep_latest key pos m) l).
  assert (Hc : forall pos', (k, pos') ∈ (key, pos) :: l <-> (k = key /\ pos' = pos) \/ (k, pos') ∈ l).
  { intros pos'. rewrite elem_of_cons. naive_solver. }
  rewrite keep_latest_spec in IH. destruct (keep_all (keep_latest key pos m) l !! k) as [q|].
  - destruct IH as (Hin & Hall & Hm). setoid_rewrite Hc. destruct (decide (k = key)) as [->|Hne].
    + assert (Hnew : Timestamp pos <= Timestamp q /\ forall q0, m !! key = Some q0 -> Timestamp q0 <= Timestamp q).
      { unfold time_after in Hm. destruct (m !! key) as [prev|].
        - destruct (Z.ltb_spec (Timestamp prev) (Timestamp pos)); specialize (Hm _ eq_refl); (split; [lia|intros q0 [= <-]; lia]).
        - split; [by apply Hm|done]. }
      destruct Hnew as [Hp Hq]. split_and!; [|intros pos' [[_ ->]|?]; auto|done].
      destruct Hin as [Hin|?]; [|by right; right]. destruct (m !! key) as [prev|]; [case_match|]; simplify_eq; auto.
    + split_and!; [tauto|intros pos' [[? ->]|?]; [done|auto]|done].
  - destruct IH as [H1 H2]. setoid_rewrite Hc. destruct (decide (k = key)) as [->|Hne].
    + destruct (m !! key); [case_match|]; done.
    + split; [done|]. intros pos' [[? ->]|?]; [done|by apply (H2 pos')].
Qed.

Lemma merge_latest_all seen l : foldl merge_latest seen l = keep_all seen ((fun pos => (vehicle_key pos, pos)) <$> l).
Proof. revert seen. induction l as [|pos l IH]; intros seen; simpl; [done|]. by rewrite IH. Qed.

Definition parsed_item (item : string * value) : option (string * VehiclePosition) :=
  match ParseVehiclePosition item.2 with
  | Ok pos => Some (VehicleIDFromKey item.1, pos)
  | Err _ => None
  end.

Lemma latest_item_all m items : foldl latest_item m items = keep_all m (omap parsed_item items).
Proof.
  revert m. induction items as [|item items IH]; intros m; cbn [foldl omap list_omap]; [done|].
  rewrite IH. unfold latest_item, parsed_item at 2. by destruct (ParseVehiclePosition item.2).
Qed.

(** ** Writing *)

Definition ingest_ok (p : Pipeline) : Prop := (length (ingestBuf p) <= ingestCap)%nat.

Lemma recordIngest_take pos buf : recordIngest pos (take ingestCap buf) = take ingestCap (ingest_record pos :: buf).
Proof.
  unfold recordIngest. case_bool_decide as Hl.
  - unfold ingestCap. simpl. by rewrite !take_take.
  - rewrite length_cons, length_take in Hl. assert (length buf < ingestCap)%nat by lia.
    rewrite !take_ge; [done|simpl; lia|lia].
Qed.

Lemma wrap64_add a b : wrap64 (wrap64 a + b) = wrap64 (a + b).
Proof.
  unfold wrap64. f_equal.
  replace ((a + 2 ^ 63) mod 2 ^ 64 - 2 ^ 63 + b + 2 ^ 63) with ((a + 2 ^ 63) mod 2 ^ 64 + b) by lia.
  rewrite Zplus_mod_idemp_l. f_equal. lia.
Qed.

(** What a write leaves, given the number of positions it stored. *)
Lemma write_loop_spec ps puts p n e p' buf :
  write_loop ps puts p = ((n, e), p') -> ingestBuf p = take ingestCap buf ->
  exists k, n = puts + Z.of_nat k /\ (k <= length ps)%nat /\ (e = None <-> k = length ps) /\
    eventCount p' = (if decide (k = 0%nat) then eventCount p else wrap64 (eventCount p + Z.of_nat k)) /\
    vehicleSeen p' = foldl merge_latest (vehicleSeen p) (take k ps) /\
    ingestBuf p' = take ingestCap (rev (ingest_record <$> take k ps) ++ buf) /\
    dom (agencies p') = dom (agencies p) /\ lastPollAt p' = lastPollAt p /\ lastPolled p' = lastPolled p.
Proof.
  revert puts p buf. induction ps as [|pos ps IH]; intros puts p buf; cbn [write_loop].
  { intros [= <- <- <-] Hb. exists 0%nat. split_and!; [lia|done..]. }
  assert (Hstop : forall e0 p0, (puts, Some e0, p0) = (n, e, p') -> ingestBuf p = take ingestCap buf ->
    eventCount p0 = eventCount p -> vehicleSeen p0 = vehicleSeen p -> ingestBuf p0 = ingestBuf p ->
    dom (agencies p0) = dom (agencies p) -> lastPollAt p0 = lastPollAt p -> lastPolled p0 = lastPolled p ->
    exists k, n = puts + Z.of_nat k /\ (k <= length (pos :: ps))%nat /\ (e = None <-> k = length (pos :: ps)) /\
      eventCount p' = (if decide (k = 0%nat) then eventCount p else wrap64 (eventCount p + Z.of_nat k)) /\
      vehicleSeen p' = foldl merge_latest (vehicleSeen p) (take k (pos :: ps)) /\
      ingestBuf p' = take ingestCap (rev (ingest_record <$> take k (pos :: ps)) ++ buf) /\
      dom (agencies p') = dom (agencies p) /\ lastPollAt p' = lastPollAt p /\ lastPolled p' = lastPolled p).
  { intros e0 p0 [= <- <- <-] Hb. intros. exists 0%nat. simpl. split_and!; try done; [lia|lia|congruence]. }
  destruct (agencies p !! Agency pos) as [aw|] eqn:Ha; [|intros E Hb; by eapply Hstop].
  destruct (ValueBytes pos) as [v|]; [|intros E Hb; by eapply Hstop].
  destruct (writer_put (KeyBytes pos) v aw) as [[e0|] aw'].
  { intros E Hb; eapply Hstop; try done. simpl. rewrite dom_insert_L. apply elem_of_dom_2 in Ha. set_solver. }
  clear Hstop. intros E Hb. apply (IH _ _ (ingest_record pos :: buf)) in E as (k & -> & Hk & He & Hc & Hs & Hi & Hd & Hl1 & Hl2).
  - exists (S k). cbn [eventCount vehicleSeen ingestBuf agencies lastPollAt lastPolled record_write set_agencies] in *.
    split_and!; [lia|simpl; lia|rewrite He; simpl; lia| |done| | |done|done].
    + rewrite Hc. case_decide; [by subst|]. rewrite wrap64_add. f_equal. lia.
    + rewrite Hi. simpl. by rewrite <-app_assoc.
    + rewrite Hd, dom_insert_L. apply elem_of_dom_2 in Ha. set_solver.
  - simpl. rewrite Hb. apply recordIngest_take.
Qed.

(** What every write keeps, complete or not: a property that the stored positions
    and new stores of the same agencies keep. *)
Lemma write_loop_keeps (P : Pipeline -> Prop) ps puts p r p' :
  (forall pos aw p, P p -> is_Some (agencies p !! Agency pos) -> P (set_agencies (<[Agency pos := aw]> (agencies p)) p)) ->
  (forall pos v p, P p -> is_Some (agencies p !! Agency pos) -> ValueBytes pos = Ok v -> P (record_write pos p)) ->
  write_loop ps puts p = (r, p') -> P p -> P p'.
Proof.
  intros Ha Hr. revert puts p. induction ps as [|pos ps IH]; intros puts p; cbn [write_loop]; [by intros [= _ <-]|].
  destruct (agencies p !! Agency pos) as [aw|] eqn:E; [|by intros [= _ <-]].
  destruct (ValueBytes pos) as [v|e0] eqn:Ev; [|by intros [= _ <-]].
  destruct (writer_put _ _ _) as [[e0|] aw']; [by intros [= _ <-] HP; apply Ha|]. intros Hw HP. eapply IH; [exact Hw|].
  eapply Hr; [by apply Ha| |exact Ev]. simpl. by rewrite lookup_insert_eq.
Qed.

(** A flush, complete or not, changes nothing but the stores. *)
Lemma FlushAll_keeps p e p' : FlushAll p = (e, p') ->
  dom (agencies p') = dom (agencies p) /\ p' = set_agencies (agencies p') p.
Proof.
  unfold FlushAll. assert (Hl : forall id d, (id, d) ∈ range (agencies p) -> id ∈ dom (agencies p))
    by (intros id d Hd%elem_of_range; by apply elem_of_dom_2 in Hd).
  revert Hl. generalize (range (agencies p)). intros l. revert p. induction l as [|[id aw] l IH]; intros p Hl; cbn [flush_loop].
  { intros [= _ <-]. split; [done|]. by destruct p. }
  assert (Hd : forall aw, dom (<[id := aw]> (agencies p)) = dom (agencies p)).
  { intros aw0. rewrite dom_insert_L. specialize (Hl id aw (list_elem_of_here _ _)). set_solver. }
  destruct (writer_flush aw) as [[e0|] aw1]; [intros [= _ <-]; by simpl|].
  destruct (RefreshReader false aw1) as [[e0|] aw2]; [intros [= _ <-]; by simpl|]. intros Hf. apply IH in Hf as [H1 H2].
  - simpl in H1. split; [by rewrite H1|]. rewrite H2 at 1. done.
  - intros id' d' Hin. simpl. rewrite Hd. apply (Hl id' d'). by right.
Qed.

(** ** Memory and storage *)

Context {L : IsleDBLaws I}.

(** A position the stores can hold without loss. *)
Definition storable (pos : VehiclePosition) : Prop :=
  encodable pos = true /\ utf8_strings pos = true /\ no_colon (Agency pos) = true /\
  no_colon (VehicleID pos) = true /\ in_int64 (Timestamp pos).

(** A position some store holds under its key. *)
Definition stored (stores : gmap string db) (pos : VehiclePosition) : Prop :=
  storable pos /\ exists d, stores !! Agency pos = Some d /\ is_Some (accepted_kv d !! Key pos).

(** The stores hold keys and values of storable positions of their agency. *)
Definition kv_ok (stores : gmap string db) : Prop :=
  forall id d k v, stores !! id = Some d -> accepted_kv d !! k = Some v ->
    exists pos, storable pos /\ Agency pos = id /\ k = Key pos /\ ValueBytes pos = Ok v.

(** The entry for a vehicle has the timestamp of its latest stored position. *)
Definition latest_ok (stores : gmap string db) (vk : string) (o : option VehiclePosition) : Prop :=
  match o with
  | None => forall pos, stored stores pos -> vehicle_key pos <> vk
  | Some q =>
      (exists pos, stored stores pos /\ vehicle_key pos = vk /\ Timestamp pos = Timestamp q) /\
      forall pos, stored stores pos -> vehicle_key pos = vk -> Timestamp pos <= Timestamp q
  end.

(** The in-memory state agrees with what the writers have accepted. *)
Definition consistent (p : Pipeline) : Prop :=
  kv_ok (agencies p) /\ forall vk, latest_ok (agencies p) vk (vehicleSeen p !! vk).

Definition latest_time (m : gmap string VehiclePosition) (vk : string) : option time := Timestamp <$> m !! vk.

Lemma latest_ok_unique stores vk o1 o2 : latest_ok stores vk o1 -> latest_ok stores vk o2 ->
  Timestamp <$> o1 = Timestamp <$> o2.
Proof.
  destruct o1 as [q1|], o2 as [q2|]; simpl; [|..|done].
  - intros [(p1 & S1 & K1 & <-) H1] [(p2 & S2 & K2 & <-) H2]. f_equal. specialize (H1 p2 S2 K2). specialize (H2 p1 S1 K1). lia.
  - intros [(p1 & S1 & K1 & _) _] H2. by destruct (H2 p1 S1).
  - intros H1 [(p2 & S2 & K2 & _) _]. by destruct (H1 p2 S2).
Qed.

Lemma storable_key_inj x y : storable x -> storable y -> Key x = Key y ->
  Agency x = Agency y /\ VehicleID x = VehicleID y /\ Timestamp x = Timestamp y.
Proof.
  intros (_ & _ & Hax & Hvx & Htx) (_ & _ & Hay & Hvy & Hty) E.
  pose proof (f_equal (split_n 3 colon) E) as Hs. rewrite !split_key in Hs by done. injection Hs as -> -> Hn%itoa_inj.
  unfold unix_nano in Hn. by rewrite !wrap64_id in Hn.
Qed.

Lemma vehicle_key_inj x y : storable x -> storable y -> vehicle_key x = vehicle_key y ->
  Agency x = Agency y /\ VehicleID x = VehicleID y.
Proof.
  intros (_ & _ & Hax & _) (_ & _ & Hay & _) E. unfold no_colon in *.
  apply str_app_colon_inj in E; [done|by apply negb_true_iff..].
Qed.

(** ** Writes keep the state consistent *)

Lemma stored_insert stores x d d' v y : storable x -> stores !! Agency x = Some d ->
  accepted_kv d' = <[Key x := v]> (accepted_kv d) ->
  stored (<[Agency x := d']> stores) y <-> stored stores y \/ (storable y /\ Key y = Key x).
Proof.
  intros Hx Hd Hkv. unfold stored. split.
  - intros [Hy (dy & Hdy & Hk)]. destruct (decide (Agency y = Agency x)) as [E|E].
    + rewrite E, lookup_insert_eq in Hdy. injection Hdy as <-. rewrite Hkv in Hk.
      destruct (decide (Key y = Key x)) as [Ek|Ek]; [by right|left].
      rewrite lookup_insert_ne in Hk by congruence. split; [done|]. exists d. by rewrite E.
    + left. rewrite lookup_insert_ne in Hdy by congruence. eauto.
  - intros [[Hy (dy & Hdy & Hk)]|[Hy Ek]]; (split; [done|]).
    + destruct (decide (Agency y = Agency x)) as [E|E].
      * exists d'. rewrite E, lookup_insert_eq. split; [done|]. rewrite E in Hdy. simplify_eq. rewrite Hkv.
        destruct (decide (Key y = Key x)) as [->|Ek]; [rewrite lookup_insert_eq; eauto|by rewrite lookup_insert_ne].
      * exists dy. by rewrite lookup_insert_ne by congruence.
    + destruct (storable_key_inj y x Hy Hx Ek) as (E & _). exists d'. rewrite E, Ek, lookup_insert_eq, Hkv, lookup_insert_eq. eauto.
Qed.

Lemma kv_ok_insert stores x d d' v : storable x -> ValueBytes x = Ok v -> stores !! Agency x = Some d ->
  accepted_kv d' = <[Key x := v]> (accepted_kv d) -> kv_ok stores -> kv_ok (<[Agency x := d']> stores).
Proof.
  intros Hx Hv Hd Hkv Hok id d0 k v0 Hid Hk. apply lookup_insert_Some in Hid as [[<- <-]|[Hne Hid]]; [|by eapply Hok].
  rewrite Hkv in Hk. apply lookup_insert_Some in Hk as [[<- <-]|[_ Hk]]; [by exists x|by eapply Hok].
Qed.

Lemma consistent_write x d d' v p : consistent p -> storable x -> ValueBytes x = Ok v ->
  agencies p !! Agency x = Some d -> accepted_kv d' = <[Key x := v]> (accepted_kv d) ->
  consistent (record_write x (set_agencies (<[Agency x := d']> (agencies p)) p)).
Proof.
  intros [Hkv Hl] Hx Hv Hd Hput. split; [by eapply kv_ok_insert|]. simpl. intros vk. rewrite keep_latest_spec.
  assert (Hst := stored_insert (agencies p) x d d' v). specialize (Hl vk).
  assert (Hxs : stored (<[Agency x := d']> (agencies p)) x) by (apply Hst; auto).
  assert (Hmono : forall y, stored (agencies p) y -> stored (<[Agency x := d']> (agencies p)) y) by (intros; apply Hst; auto).
  assert (Hcase : forall y, stored (<[Agency x := d']> (agencies p)) y ->
            stored (agencies p) y \/ vehicle_key y = vehicle_key x /\ Timestamp y = Timestamp x).
  { intros y [?|[Hy Ek]]%Hst; [by left|right|done..]. destruct (storable_key_inj y x Hy Hx Ek) as (Ea & Ev & Et).
    unfold vehicle_key. by rewrite Ea, Ev. }
  clear Hst. destruct (decide (vk = vehicle_key x)) as [->|Hne].
  - destruct (vehicleSeen p !! vehicle_key x) as [q|] eqn:E; simpl in *.
    + destruct Hl as [(y & Hy & Ky & Ty) Hmax]. unfold time_after. destruct (Z.ltb_spec (Timestamp q) (Timestamp x)); simpl.
      * split; [by exists x|]. intros z [Hz|[_ ->]]%Hcase Kz; [specialize (Hmax z Hz Kz)|]; lia.
      * split; [exists y; auto|]. intros z [Hz|[_ ->]]%Hcase Kz; [by apply Hmax|lia].
    + split; [by exists x|]. intros z [Hz|[_ ->]]%Hcase Kz; [by destruct (Hl z Hz)|lia].
  - destruct (vehicleSeen p !! vk) as [q|] eqn:E; simpl in *.
    + destruct Hl as [(y & Hy & Ky & Ty) Hmax]. split; [exists y; auto|].
      intros z [Hz|[Kz' _]]%Hcase Kz; [by apply Hmax|congruence].
    + intros z [Hz|[Kz' _]]%Hcase Kz; [by apply (Hl z)|congruence].
Qed.

Lemma write_consistent ps puts p n p' : consistent p -> Forall storable ps ->
  write_loop ps puts p = ((n, None), p') -> consistent p'.
Proof.
  intros Hc Hps. revert puts p Hc. induction Hps as [|x ps Hx Hps IH]; intros puts p Hc; cbn [write_loop].
  { by intros [= <- <-]. }
  destruct (agencies p !! Agency x) as [d|] eqn:Hd; [|done]. destruct (ValueBytes x) as [v|] eqn:Hv; [|done].
  destruct (writer_put (KeyBytes x) v d) as [[e|] d'] eqn:Hput; [done|]. apply put_law in Hput as [Hput _].
  intros Hw. eapply IH; [|exact Hw]. by eapply consistent_write.
Qed.

(** ** Flushing *)

(** What a flush that succeeds leaves: the same agencies with the same data,
    nothing unflushed. *)
Lemma flush_loop_spec l p p' : flush_loop l p = (None, p') -> NoDup l.*1 ->
  (forall id d, (id, d) ∈ l -> agencies p !! id = Some d) ->
  vehicleSeen p' = vehicleSeen p /\
  forall id, match agencies p !! id, agencies p' !! id with
             | Some d, Some d' =>
                 accepted_kv d' = accepted_kv d /\
                 (id ∈ l.*1 -> unflushed d' = [] /\ feed_log d' = feed_log d ++ unflushed d) /\ (id ∉ l.*1 -> d' = d)
             | None, None => True
             | _, _ => False
             end.
Proof.
  revert p. induction l as [|[id0 d0] l IH]; intros p; cbn [flush_loop].
  { intros [= <-] _ _. split; [done|]. intros id. destruct (agencies p !! id); [|done].
    split_and!; [done|by intros ?%elem_of_nil|done]. }
  destruct (writer_flush d0) as [[e|] d1] eqn:Hf; [done|]. unfold RefreshReader.
  destruct (reader_refresh d1) as [[e|] d2] eqn:Hr; [done|]. intros Hl [Hni Hnd]%NoDup_cons Hin.
  apply flush_law in Hf as (Hkv1 & Hu1 & Hlog1). apply refresh_law in Hr as (Hkv2 & Hu2 & Hlog2 & _).
  assert (Hp : agencies p !! id0 = Some d0) by (apply Hin; by left).
  apply IH in Hl as [Hs Hl]; [|done|].
  2:{ intros id d Hid. simpl. assert (id <> id0) by (intros ->; apply Hni; by apply (list_elem_of_fmap_2 fst) in Hid).
      rewrite lookup_insert_ne by done. apply Hin. by right. }
  simpl in Hs, Hl. split; [done|]. intros id. specialize (Hl id). destruct (decide (id = id0)) as [->|Hne].
  - rewrite lookup_insert_eq in Hl. rewrite Hp. destruct (agencies p' !! id0) as [d'|]; [|done].
    destruct Hl as (_ & _ & ->); [|done]. split_and!; [congruence|intros _; split; congruence|].
    intros Hno. destruct Hno. by left.
  - rewrite lookup_insert_ne in Hl by done. destruct (agencies p !! id) as [d|], (agencies p' !! id) as [d'|]; try done.
    destruct Hl as (H1 & H2 & H3). rewrite fmap_cons, elem_of_cons. simpl. split_and!; [done|naive_solver|naive_solver].
Qed.

Lemma FlushAll_spec p p' : FlushAll p = (None, p') ->
  vehicleSeen p' = vehicleSeen p /\
  forall id, match agencies p !! id, agencies p' !! id with
             | Some d, Some d' => accepted_kv d' = accepted_kv d /\ unflushed d' = [] /\ feed_log d' = feed_log d ++ unflushed d
             | None, None => True
             | _, _ => False
             end.
Proof.
  intros Hf. apply flush_loop_spec in Hf as [Hs Hl]; [|auto with gedung|by intros id d ?%elem_of_range].
  split; [done|]. intros id. specialize (Hl id).
  destruct (agencies p !! id) as [d|] eqn:E, (agencies p' !! id) as [d'|]; try done. destruct Hl as (H1 & H2 & _).
  assert (Hin : id ∈ (range (agencies p)).*1) by (apply list_elem_of_fmap; exists (id, d); by rewrite elem_of_range).
  by apply H2 in Hin.
Qed.

Lemma FlushAll_consistent p p' : consistent p -> FlushAll p = (None, p') ->
  consistent p' /\ vehicleSeen p' = vehicleSeen p /\ forall id d, agencies p' !! id = Some d -> unflushed d = [].
Proof.
  intros [Hkv Hl] Hf. apply FlushAll_spec in Hf as [Hs Hag].
  assert (Hst : forall x, stored (agencies p') x <-> stored (agencies p) x).
  { intros x. unfold stored. specialize (Hag (Agency x)). split; intros [Hx (d & Hd & Hk)]; (split; [done|]);
      rewrite Hd in Hag; case_match; try done; destruct Hag as (E & _); eexists; (split; [done|]); congruence. }
  split_and!; [split|done|].
  - intros id d k v Hd Hk. specialize (Hag id). rewrite Hd in Hag. destruct (agencies p !! id) as [d0|] eqn:E; [|done].
    destruct Hag as (Ek & _). rewrite Ek in Hk. by eapply Hkv.
  - intros vk. rewrite Hs. specialize (Hl vk). destruct (vehicleSeen p !! vk) as [q|]; simpl in *.
    + setoid_rewrite Hst. done.
    + intros x Hx. by apply Hl, Hst.
  - intros id d Hd. specialize (Hag id). rewrite Hd in Hag. destruct (agencies p !! id); [|done]. by destruct Hag as (_ & ? & _).
Qed.

(** ** Reading back *)

Lemma normalized_fields pos : vehicle_key (normalized pos) = vehicle_key pos /\ Timestamp (normalized pos) = Timestamp pos.
Proof. done. Qed.

(** The latest map of one agency, read from its data in order. *)
Definition agency_latest (stores : gmap string db) (id : string) (latest : gmap string VehiclePosition) : Prop :=
  (forall vid q, latest !! vid = Some q ->
     (exists pos, stored stores pos /\ Agency pos = id /\ q = normalized pos)) /\
  (forall pos, stored stores pos -> Agency pos = id ->
     exists q, q ∈ (range latest).*2 /\ vehicle_key q = vehicle_key pos /\ Timestamp pos <= Timestamp q).

Lemma agency_latest_items stores id d items : kv_ok stores -> stores !! id = Some d ->
  iterates (accepted_kv d) (AgencyPrefix id) (AgencyUpperBound id) items ->
  agency_latest stores id (foldl latest_item ∅ items).
Proof.
  intros Hkv Hd [_ Hit]. rewrite latest_item_all.
  assert (Hin : forall vid q, (vid, q) ∈ omap parsed_item items ->
    exists pos, stored stores pos /\ Agency pos = id /\ VehicleID pos = vid /\ q = normalized pos).
  { intros vid q ([k v] & Hk & Hp)%list_elem_of_omap. apply Hit in Hk as [_ Hk].
    destruct (Hkv id d k v Hd Hk) as (pos & Hst & Ha & -> & Hv). exists pos.
    pose proof Hst as (_ & Hu & Hca & Hcv & _). unfold parsed_item in Hp. simpl in Hp.
    rewrite (parse_ValueBytes pos v Hu Hv) in Hp. injection Hp as <- <-.
    rewrite VehicleIDFromKey_Key by done. split_and!; [|done..]. split; [done|]. exists d. rewrite Ha. eauto. }
  split.
  - intros vid q Hq. pose proof (keep_all_spec ∅ (omap parsed_item items) vid) as Hs. rewrite Hq in Hs.
    destruct Hs as ([?|Hi] & _); [done|]. destruct (Hin vid q Hi) as (pos & H1 & H2 & _ & H3). eauto.
  - intros pos [Hst (d0 & Hd0 & [v Hv])] Ha. rewrite Ha in Hd0. simplify_eq.
    destruct (Hkv _ _ _ _ Hd Hv) as (pos' & Hst' & Ha' & Ek & Hval).
    destruct (storable_key_inj pos pos' Hst Hst' Ek) as (_ & Evid & Ets).
    assert (Hi : (VehicleID pos, normalized pos') ∈ omap parsed_item items).
    { apply list_elem_of_omap. exists (Key pos, v). split.
      - apply Hit. split; [|done]. rewrite agency_scan. apply has_prefix_spec. apply Key_prefix.
      - pose proof Hst' as (_ & Hu & Hca & Hcv & _). unfold parsed_item. simpl. rewrite (parse_ValueBytes pos' v Hu Hval), Ek.
        by rewrite VehicleIDFromKey_Key, Evid. }
    pose proof (keep_all_spec ∅ (omap parsed_item items) (VehicleID pos)) as Hs.
    destruct (keep_all ∅ (omap parsed_item items) !! VehicleID pos) as [q|] eqn:Eq; [|by destruct Hs as [_ Hs]; destruct (Hs _ Hi)].
    destruct Hs as ([?|Hq] & Hmax & _); [done|]. exists q. split_and!.
    + apply list_elem_of_fmap. exists (VehicleID pos, q). by rewrite elem_of_range.
    + destruct (Hin _ _ Hq) as (pos2 & _ & Ha2 & Ev2 & ->). unfold vehicle_key. simpl. by rewrite Ha2, Ev2.
    + specialize (Hmax _ Hi). simpl in Hmax. lia.
Qed.

(** [latest_ok] for the positions of the agencies in [A]. *)
Definition latest_in (stores : gmap string db) (A : list string) (vk : string) (o : option VehiclePosition) : Prop :=
  match o with
  | None => forall pos, stored stores pos -> Agency pos ∈ A -> vehicle_key pos <> vk
  | Some q =>
      (exists pos, stored stores pos /\ vehicle_key pos = vk /\ Timestamp pos = Timestamp q) /\
      forall pos, stored stores pos -> Agency pos ∈ A -> vehicle_key pos = vk -> Timestamp pos <= Timestamp q
  end.

Lemma merge_agency stores A id latest seen : agency_latest stores id latest ->
  (forall vk, latest_in stores A vk (seen !! vk)) ->
  forall vk, latest_in stores (id :: A) vk (foldl merge_latest seen (range latest).*2 !! vk).
Proof.
  intros [Hsound Hcomp] Hseen vk. rewrite merge_latest_all.
  set (offers := (fun pos => (vehicle_key pos, pos)) <$> (range latest).*2).
  assert (Hoff : forall q, q ∈ (range latest).*2 -> (vehicle_key q, q) ∈ offers) by (intros q Hq; apply list_elem_of_fmap; by exists q).
  assert (Hon : forall k q, (k, q) ∈ offers -> exists pos, stored stores pos /\ vehicle_key pos = k /\ q = normalized pos).
  { intros k q (q' & [= -> ->] & Hq)%list_elem_of_fmap. apply list_elem_of_fmap in Hq as ([vid q0] & -> & Hq).
    apply elem_of_range in Hq. destruct (Hsound vid q0 Hq) as (pos & H1 & _ & ->). by exists pos. }
  pose proof (keep_all_spec seen offers vk) as Hs. specialize (Hseen vk). destruct (keep_all seen offers !! vk) as [q|]; simpl.
  - destruct Hs as (Hin & Hmax & Hold). split.
    + destruct Hin as [E|Hin].
      * rewrite E in Hseen. by destruct Hseen.
      * destruct (Hon _ _ Hin) as (pos & H1 & H2 & ->). by exists pos.
    + intros pos Hst [Ha|Ha]%elem_of_cons Hk.
      * destruct (Hcomp pos Hst Ha) as (q' & Hq' & Hk' & Ht). apply Hoff in Hq'. rewrite Hk', Hk in Hq'.
        specialize (Hmax _ Hq'). lia.
      * destruct (seen !! vk) as [q0|] eqn:E; simpl in Hseen.
        -- destruct Hseen as [_ Hs']. specialize (Hs' pos Hst Ha Hk). specialize (Hold q0 eq_refl). lia.
        -- by destruct (Hseen pos Hst Ha).
  - destruct Hs as [E Hno]. rewrite E in Hseen. intros pos Hst [Ha|Ha]%elem_of_cons Hk; [|by apply (Hseen pos)].
    destruct (Hcomp pos Hst Ha) as (q' & Hq' & Hk' & _). apply Hoff in Hq'. rewrite Hk', Hk in Hq'. by apply (Hno q').
Qed.

Lemma hydrate_loop_spec stores l A seen seen' : kv_ok stores ->
  (forall id d, (id, d) ∈ l -> stores !! id = Some d /\ unflushed d = []) ->
  (forall vk, latest_in stores A vk (seen !! vk)) -> hydrate_loop l seen = (None, seen') ->
  forall vk, latest_in stores (rev l.*1 ++ A) vk (seen' !! vk).
Proof.
  intros Hkv. revert A seen. induction l as [|[id d] l IH]; intros A seen Hl Hseen; cbn [hydrate_loop].
  { by intros [= <-]. }
  destruct (Hl id d) as [Hd Hu]; [by left|]. unfold bootstrapLatest.
  destruct (reader_bootstrap d) as [snap|] eqn:Hb; [|done]. cbn -[foldl]. apply bootstrap_law in Hb; [|done].
  destruct (snapshot_iter _ _ snap) as [[items [e|]]|] eqn:Hi; simpl; [done| |done]. apply snapshot_iter_law in Hi. rewrite Hb in Hi.
  intros Hh. assert (Hl' : forall id' d', (id', d') ∈ l -> stores !! id' = Some d' /\ unflushed d' = []) by (intros; apply Hl; by right).
  specialize (IH (id :: A) _ Hl' (merge_agency _ _ _ _ _ (agency_latest_items _ _ _ _ Hkv Hd Hi) Hseen) Hh).
  intros vk. specialize (IH vk). by rewrite <-app_assoc.
Qed.

(** Every position hydration leaves in memory is under its own key, and was read
    from a stored one. *)
Definition from_store (vk : string) (q : VehiclePosition) : Prop :=
  vehicle_key q = vk /\ exists pos, storable pos /\ q = normalized pos.

Lemma hydrate_from_store stores p : kv_ok stores -> (forall id d, stores !! id = Some d -> unflushed d = []) ->
  NewPipeline stores = Ok p -> p = set_vehicleSeen (vehicleSeen p) (zero_pipeline stores) /\ map_Forall from_store (vehicleSeen p).
Proof.
  intros Hkv Hu. unfold NewPipeline, hydrateFromSnapshot. simpl.
  destruct (hydrate_loop (range stores) ∅) as [[e|] seen'] eqn:Hh; [done|]. intros [= <-]. split; [done|]. simpl. revert Hh.
  assert (Hl : forall id d, (id, d) ∈ range stores -> stores !! id = Some d) by (intros id d; by rewrite elem_of_range).
  assert (H0 : map_Forall from_store (∅ : gmap string VehiclePosition)) by apply map_Forall_empty.
  revert Hl H0. generalize (range stores) (∅ : gmap string VehiclePosition). intros l. induction l as [|[id d] l IH]; intros seen Hl H0; cbn [hydrate_loop].
  { by intros [= <-]. }
  pose proof (Hl id d (list_elem_of_here _ _)) as Hd. unfold bootstrapLatest.
  destruct (reader_bootstrap d) as [snap|] eqn:Hb; [|done]. cbn -[foldl]. apply bootstrap_law in Hb; [|by eapply Hu].
  destruct (snapshot_iter _ _ snap) as [[items [e|]]|] eqn:Hi; simpl; [done| |done]. apply snapshot_iter_law in Hi. rewrite Hb in Hi.
  apply IH; [intros id' d' Hin; apply Hl; by right|]. destruct (agency_latest_items _ _ _ _ Hkv Hd Hi) as [Hsound _].
  intros vk q Hq. rewrite merge_latest_all in Hq. pose proof (keep_all_spec seen ((fun pos => (vehicle_key pos, pos)) <$> (range (foldl latest_item ∅ items)).*2) vk) as Hs.
  rewrite Hq in Hs. destruct Hs as ([Hin|Hin] & _); [by apply H0|].
  apply list_elem_of_fmap in Hin as (q' & [= -> ->] & Hin). split; [done|].
  apply list_elem_of_fmap in Hin as ([vid q0] & -> & Hin%elem_of_range). destruct (Hsound _ _ Hin) as (pos & [Hst _] & _ & ->). eauto.
Qed.

Lemma latest_in_all stores A vk o : (forall id d, stores !! id = Some d -> id ∈ A) ->
  latest_in stores A vk o -> latest_ok stores vk o.
Proof.
  intros HA. assert (Hst : forall pos, stored stores pos -> Agency pos ∈ A) by (intros pos [_ (d & Hd & _)]; by eapply HA).
  destruct o as [q|]; simpl; [intros [H1 H2]; split; [done|]|]; eauto.
Qed.

Lemma in_range_keys {V} (m : gmap string V) id d : m !! id = Some d -> id ∈ (range m).*1.
Proof. intros H. apply list_elem_of_fmap. exists (id, d). by rewrite elem_of_range. Qed.

Lemma latest_in_empty stores vk : latest_in stores [] vk ((∅ : gmap string VehiclePosition) !! vk).
Proof. rewrite lookup_empty. intros pos _ Ha. by apply elem_of_nil in Ha. Qed.

Lemma hydrate_consistent stores p : kv_ok stores -> (forall id d, stores !! id = Some d -> unflushed d = []) ->
  NewPipeline stores = Ok p -> agencies p = stores /\ consistent p.
Proof.
  intros Hkv Hu. unfold NewPipeline, hydrateFromSnapshot. simpl.
  destruct (hydrate_loop (range stores) ∅) as [[e|] seen] eqn:Hh; [done|]. intros [= <-]. split; [done|]. split; [done|].
  intros vk. simpl. eapply latest_in_all; [|eapply (hydrate_loop_spec stores _ []); [done| |apply latest_in_empty|exact Hh]].
  - intros id d Hd. rewrite app_nil_r, list_elem_of_In, <-in_rev, <-list_elem_of_In. by eapply in_range_keys.
  - intros id d Hin%elem_of_range. eauto.
Qed.

Lemma scan_loop_spec stores l A seen latest p p' : kv_ok stores ->
  (forall id d, (id, d) ∈ l -> stores !! id = Some d /\ unflushed d = []) ->
  (forall vk, latest_in stores A vk (seen !! vk)) -> scan_loop l seen p = (Ok latest, p') ->
  (forall vk q, seen !! vk = Some q -> vehicle_key q = vk) ->
  (forall vk, latest_in stores (rev l.*1 ++ A) vk (latest !! vk)) /\
  (forall vk q, latest !! vk = Some q -> vehicle_key q = vk).
Proof.
  intros Hkv. revert A seen p. induction l as [|[id d] l IH]; intros A seen p Hl Hseen; cbn [scan_loop].
  { by intros [= <- <-]. }
  destruct (Hl id d) as [Hd Hu]; [by left|]. unfold scanLatest, RefreshReader.
  destruct (reader_refresh d) as [[e|] d1] eqn:Hr; [done|]. apply refresh_law in Hr as (_ & _ & _ & Hv). specialize (Hv Hu).
  destruct (reader_iter _ _ d1) as [[items [e|]]|] eqn:Hi; [done| |done]. apply iter_law in Hi. rewrite Hv in Hi.
  intros Hs Hkeys. assert (Hl' : forall id' d', (id', d') ∈ l -> stores !! id' = Some d' /\ unflushed d' = []) by (intros; apply Hl; by right).
  assert (Hk' : forall vk q, foldl merge_latest seen (range (foldl latest_item ∅ items)).*2 !! vk = Some q -> vehicle_key q = vk).
  { intros vk q. rewrite merge_latest_all. set (offers := _ <$> _). pose proof (keep_all_spec seen offers vk) as Hsp.
    intros E. rewrite E in Hsp. destruct Hsp as ([?|Hin] & _); [auto|].
    unfold offers in Hin. by apply list_elem_of_fmap in Hin as (q' & [= -> ->] & _). }
  destruct (IH (id :: A) _ _ Hl' (merge_agency _ _ _ _ _ (agency_latest_items _ _ _ _ Hkv Hd Hi) Hseen) Hs Hk') as [H1 H2].
  split; [|done]. intros vk. specialize (H1 vk). rewrite fmap_cons. simpl. by rewrite <-app_assoc.
Qed.

(** ** Properties *)

(** [Write] stores a prefix of the positions and says how long it is; it
    stops at the first error, all of it when there is none.  The event counter,
    the latest positions and the ring buffer record exactly the stored prefix:
    the buffer holds the last ten positions, newest first. *)
Theorem write_accounting ps p n e p' : ingest_ok p -> in_int64 (eventCount p) ->
  Write ps p = ((n, e), p') ->
  exists k, n = Z.of_nat k /\ (k <= length ps)%nat /\ (e = None <-> k = length ps) /\
    eventCount p' = wrap64 (eventCount p + n) /\
    (forall vk, match vehicleSeen p' !! vk with
                | None => vehicleSeen p !! vk = None /\ forall x, x ∈ take k ps -> vehicle_key x <> vk
                | Some q => (vehicleSeen p !! vk = Some q \/ q ∈ take k ps /\ vehicle_key q = vk) /\
                    (forall x, x ∈ take k ps -> vehicle_key x = vk -> Timestamp x <= Timestamp q) /\
                    (forall q0, vehicleSeen p !! vk = Some q0 -> Timestamp q0 <= Timestamp q)
                end) /\
    ingestBuf p' = take 10 (rev (ingest_record <$> take k ps) ++ ingestBuf p) /\ ingest_ok p'.
Proof.
  intros Hi Hc Hw. unfold Write in Hw.
  apply (write_loop_spec _ _ _ _ _ _ (ingestBuf p)) in Hw as (k & -> & Hk & He & Hcnt & Hs & Hb & _).
  2:{ by rewrite take_ge. }
  exists k. split_and!; [lia|done|done| | |done|unfold ingest_ok; rewrite Hb, length_take; lia].
  - rewrite Hcnt. case_decide; [subst; by rewrite Z.add_0_r, wrap64_id|done].
  - intros vk. rewrite Hs, merge_latest_all. set (offers := _ <$> _). pose proof (keep_all_spec (vehicleSeen p) offers vk) as Hsp.
    assert (Hoff : forall k0 q, (k0, q) ∈ offers <-> q ∈ take k ps /\ vehicle_key q = k0).
    { intros k0 q. unfold offers. rewrite list_elem_of_fmap. split; [by intros (? & [= -> ->] & ?)|intros [? <-]; eauto]. }
    destruct (keep_all (vehicleSeen p) offers !! vk) as [q|].
    + destruct Hsp as (H1 & H2 & H3). rewrite Hoff in H1. split_and!; [done| |done].
      intros x Hx Hkx. apply H2. by apply Hoff.
    + destruct Hsp as [H1 H2]. split; [done|]. intros x Hx Hkx. by apply (H2 x), Hoff.
Qed.

(** C5: nothing written and flushed is lost by a restart.  From a pipeline whose
    memory agrees with its stores, a write of storable positions and a flush
    that both succeed, then opening a new pipeline on the same stores: the new
    one knows exactly the vehicles the old one knew, each at the timestamp of
    its latest position, and its memory agrees with the stores again; and
    [ScanLatest] on the old one reads the same vehicles and timestamps back. *)
Theorem restart_recovers p ps n p1 p2 p3 :
  consistent p -> Forall storable ps -> Write ps p = ((n, None), p1) -> FlushAll p1 = (None, p2) ->
  NewPipeline (agencies p2) = Ok p3 ->
  consistent p3 /\
  (forall vk, latest_time (vehicleSeen p3) vk = latest_time (vehicleSeen p2) vk) /\
  forall out p4, ScanLatest p2 = (Ok out, p4) ->
    forall vk t, (exists q, q ∈ out /\ vehicle_key q = vk /\ Timestamp q = t) <-> latest_time (vehicleSeen p2) vk = Some t.
Proof.
  intros Hc Hps Hw Hf Hn. apply write_consistent in Hw; [|done..].
  destruct (FlushAll_consistent p1 p2 Hw Hf) as ([Hkv Hl] & _ & Hu).
  destruct (hydrate_consistent _ _ Hkv Hu Hn) as [Ha [Hkv3 Hl3]]. split_and!; [done| |].
  - intros vk. specialize (Hl3 vk). rewrite Ha in Hl3. by eapply latest_ok_unique.
  - intros out p4 Hscan vk t. unfold ScanLatest in Hscan.
    destruct (scan_loop (range (agencies p2)) ∅ p2) as [[latest|e] p4'] eqn:Es; [|done]. injection Hscan as <- _.
    apply (scan_loop_spec (agencies p2) _ []) in Es as [Hin Hkeys];
      [|done|by intros id d ?%elem_of_range; eauto|apply latest_in_empty|by intros ??; rewrite lookup_empty].
    assert (Hok : latest_ok (agencies p2) vk (latest !! vk)).
    { eapply latest_in_all; [|apply Hin]. intros id d Hd. rewrite app_nil_r, list_elem_of_In, <-in_rev, <-list_elem_of_In.
      by eapply in_range_keys. }
    unfold latest_time. rewrite <-(latest_ok_unique _ _ _ _ Hok (Hl vk)), fmap_Some. split.
    + intros (q & Hq & Hk & <-). apply list_elem_of_fmap in Hq as ([vk' q'] & -> & Hq). apply elem_of_range in Hq.
      exists q'. split; [|done]. simpl in Hk. rewrite (Hkeys _ _ Hq) in Hk. by subst.
    + intros (q & Hq & ->). exists q. split_and!; [|by apply Hkeys|done]. apply list_elem_of_fmap. exists (vk, q).
      by rewrite elem_of_range.
Qed.

(** The statistics count what the live map shows. *)
Lemma StatsFor_count ids now p : StatsFor ids now p = (Z.of_nat (length (LivePositionsFor ids now p)), lastPollAt p, eventCount p).
Proof.
  unfold StatsFor, LivePositionsFor. set (l := (range (vehicleSeen p)).*2).
  assert (H : forall n, foldl (fun n pos => if visible_at ids now pos then n + 1 else n) n l = n + Z.of_nat (length (List.filter (visible_at ids now) l))).
  { induction l as [|pos l IH]; intros n; simpl; [lia|]. destruct (visible_at ids now pos); rewrite IH; simpl; lia. }
  by rewrite H.
Qed.

Lemma LivePositionsFor_spec ids now p :
  (StatsFor ids now p).1.1 = Z.of_nat (length (LivePositionsFor ids now p)) /\
  (forall pos, pos ∈ LivePositionsFor ids now p <->
     pos ∈ LatestPositionsFor ids p /\ now - Timestamp pos <= LiveMapVisibleWindow) /\
  (forall pos, pos ∈ LatestPositionsFor ids p <-> Agency pos ∈ ids /\ exists vk, vehicleSeen p !! vk = Some pos).
Proof.
  assert (Hmem : forall pos, pos ∈ (range (vehicleSeen p)).*2 <-> exists vk, vehicleSeen p !! vk = Some pos).
  { intros pos. rewrite list_elem_of_fmap. split.
    - intros ([vk q] & -> & Hq%elem_of_range). eauto.
    - intros (vk & Hq). exists (vk, pos). by rewrite elem_of_range. }
  split_and!.
  - by rewrite StatsFor_count.
  - intros pos. unfold LivePositionsFor, LatestPositionsFor, visible_at. rewrite !list_elem_of_In, !filter_In, andb_true_iff, Z.leb_le.
    rewrite time_sub_le by (unfold LiveMapVisibleWindow, int64_min, int64_max, minute, second; lia). tauto.
  - intros pos. unfold LatestPositionsFor. rewrite list_elem_of_In, filter_In, <-list_elem_of_In, Hmem, bool_decide_eq_true. tauto.
Qed.

(** The live map and its statistics agree: [StatsFor] counts the positions
    [LivePositionsFor] returns, which are the latest positions of the chosen
    agencies that are at most thirty minutes old, whatever the order of the map. *)
Theorem live_view_agrees ids now p :
  (StatsFor ids now p).1.1 = Z.of_nat (length (LivePositionsFor ids now p)) /\
  (forall pos, pos ∈ LivePositionsFor ids now p <->
     pos ∈ LatestPositionsFor ids p /\ now - Timestamp pos <= LiveMapVisibleWindow) /\
  (forall pos, pos ∈ LatestPositionsFor ids p <-> Agency pos ∈ ids /\ exists vk, vehicleSeen p !! vk = Some pos).
Proof. exact (LivePositionsFor_spec ids now p). Qed.

End LivePipeline.

(** ** A concrete run *)

Definition reading (agency vid : string) (t : Z) (lat : float64) : VehiclePosition :=
  {| Agency := agency; VehicleID := vid; Lat := lat; Lng := f64_of_Z 101; Bearing := f64_zero; Speed := f64_zero;
     Route := "R"; Trip := ""; Timestamp := t * second |}.

Definition readings : list VehiclePosition :=
  [reading "ktmb" "E1" 100 (f64_of_Z 3); reading "ktmb" "E1" 90 (f64_of_Z 4); reading "mybas-johor" "J7" 95 (f64_of_Z 2)].

#[local] Existing Instance MemStore.isledb.
#[local] Existing Instance canonical_range.

Definition two_stores : gmap string db := {[ "ktmb" := MemStore.empty; "mybas-johor" := MemStore.empty ]}.

Lemma fresh_consistent (stores : gmap string db) : (forall id d, stores !! id = Some d -> MemStore.kv d = ∅) ->
  consistent (L := MemStore.laws) (zero_pipeline stores).
Proof.
  intros He. split.
  - intros id d k v Hd Hk. simpl in Hk. rewrite (He id d Hd) in Hk. done.
  - intros vk. simpl. rewrite lookup_empty. intros pos [_ (d & Hd & [v Hv])]. simpl in Hv. rewrite (He _ _ Hd) in Hv. done.
Qed.

Lemma two_stores_empty id d : two_stores !! id = Some d -> MemStore.kv d = ∅.
Proof. unfold two_stores. by intros [[_ <-]|[_ [_ <-]%lookup_singleton_Some]]%lookup_insert_Some. Qed.

Lemma readings_storable : Forall storable readings.
Proof.
  unfold readings. repeat constructor; try (vm_compute; reflexivity); unfold in_int64; vm_compute; discriminate.
Qed.

(** Write, flush and restart on the reference store. *)
Definition written : Pipeline := (Write readings (zero_pipeline two_stores)).2.
Definition flushed : Pipeline := (FlushAll written).2.

Lemma written_eq : Write readings (zero_pipeline two_stores) = ((3, None), written).
Proof.
  assert (H : (Write readings (zero_pipeline two_stores)).1 = (3, None)) by (vm_compute; reflexivity).
  unfold written. rewrite <-H. by destruct (Write readings (zero_pipeline two_stores)).
Qed.

Lemma flushed_eq : FlushAll written = (None, flushed).
Proof.
  assert (H : (FlushAll written).1 = None) by (vm_compute; reflexivity).
  unfold flushed. rewrite <-H. by destruct (FlushAll written).
Qed.

Lemma restarts : match NewPipeline (agencies flushed) with Ok _ => true | Err _ => false end = true.
Proof. vm_compute; reflexivity. Qed.

Lemma write_accounting_witness : 
  let p' := written in
  Write readings (zero_pipeline two_stores) = ((3, None), p') /\
  exists k, 3 = Z.of_nat k /\ (k <= 3)%nat /\ (@None error = None <-> k = 3%nat) /\
    eventCount p' = wrap64 (0 + 3) /\
    (forall vk, match vehicleSeen p' !! vk with
                | None => (∅ : gmap string VehiclePosition) !! vk = None /\ forall x, x ∈ take k readings -> vehicle_key x <> vk
                | Some q => ((∅ : gmap string VehiclePosition) !! vk = Some q \/ q ∈ take k readings /\ vehicle_key q = vk) /\
                    (forall x, x ∈ take k readings -> vehicle_key x = vk -> Timestamp x <= Timestamp q) /\
                    (forall q0, (∅ : gmap string VehiclePosition) !! vk = Some q0 -> Timestamp q0 <= Timestamp q)
                end) /\
    ingestBuf p' = take 10 (rev (ingest_record <$> take k readings) ++ []) /\ ingest_ok p'.
Proof.
  split; [exact written_eq|].
  apply (write_accounting readings (zero_pipeline two_stores) 3 None).
  - unfold ingest_ok. simpl. lia.
  - unfold in_int64, int64_min, int64_max. simpl. lia.
  - exact written_eq.
Defined.

Lemma restart_recovers_witness : exists p3,
  NewPipeline (agencies flushed) = Ok p3 /\
  consistent (L := MemStore.laws) p3 /\
  latest_time (vehicleSeen p3) "ktmb:E1" = Some (100 * second) /\
  latest_time (vehicleSeen p3) "mybas-johor:J7" = Some (95 * second).
Proof.
  pose proof restarts as Hr. destruct (NewPipeline (agencies flushed)) as [p3|e] eqn:Hn; [|discriminate Hr].
  exists p3. split; [reflexivity|].
  destruct (restart_recovers (L := MemStore.laws) (zero_pipeline two_stores) readings 3 written flushed p3
              (fresh_consistent two_stores two_stores_empty) readings_storable written_eq flushed_eq Hn) as (Hc & Ht & _).
  split; [exact Hc|]. rewrite !Ht. split; vm_compute; reflexivity.
Defined.
