(* ===== verification/LiveStores.v ===== *)
(** * Starting and stopping the live pipeline (internal/demo/pipeline.go)

    [NewPipeline] opens one prefix per agency and hydrates the live state from
    them; [Close] closes them.  The handles are PrefixDB's and the state is
    LivePipeline's: this file composes the two.  What an opened prefix holds is
    the parameter [prefix_db]. *)

From S2P Require Import Prelude GoStrings GoTime Vehicle Regions IsleDB Store PrefixDB LivePipeline.

Section LiveStores.
Context {MR : MapRange} {I : IsleDB}.
Variable answer : list (call * option error) -> call -> option error.
Variable prefix_db : StoreConfig -> string -> db.

Definition agency_open (cfg : StoreConfig) (agencyID : string) : PrefixOpenConfig := {|
  ocStore := cfg; ocPrefixID := agencyID; FlushEvery := flushInterval;
  Retention := negb (bool_decide (cfgBackend cfg = BackendMemory));
  RunMaint := negb (bool_decide (cfgBackend cfg = BackendMemory))
|}.

Definition openAgency (cfg : StoreConfig) (agencyID : string) (w : world) : result PrefixDB * world :=
  match OpenPrefixDB answer (agency_open cfg agencyID) w with
  | (Err e, w) => (Err (Wrap ("open agency " +:+ agencyID +:+ ": ") e), w)
  | (Ok pdb, w) => (Ok pdb, w)
  end.

(** A running pipeline: the handles of its agencies and its state. *)
Record LivePrefixes := { lpHandles : gmap string PrefixDB; lpState : Pipeline }.

(** The stores of the opened prefixes. *)
Definition agency_stores (cfg : StoreConfig) (opened : gmap string PrefixDB) : gmap string db :=
  map_imap (fun id _ => Some (prefix_db cfg id)) opened.

Definition StartPipeline (cfg : StoreConfig) (feeds : list Feed) (w : world) : result LivePrefixes * world :=
  match open_all answer (openAgency cfg) (fAgency <$> feeds) ∅ w with
  | (Err e, w) => (Err e, w)
  | (Ok opened, w) =>
      match NewPipeline (agency_stores cfg opened) with
      | Err e => let '(_, w) := CloseAll answer opened w in (Err e, w)
      | Ok p => (Ok {| lpHandles := opened; lpState := p |}, w)
      end
  end.

(** [Pipeline.Close] *)
Definition StopPipeline (p : LivePrefixes) (w : world) : option error * world := CloseAll answer (lpHandles p) w.

(** ** Handles *)

Lemma openAgency_opens cfg : opens (openAgency cfg).
Proof.
  intros id w Hid. unfold openAgency. pose proof (OpenPrefixDB_live answer (agency_open cfg id) w Hid) as H.
  by destruct (OpenPrefixDB answer (agency_open cfg id) w) as [[p|e] w'].
Qed.

Lemma agency_stores_lookup cfg opened id : agency_stores cfg opened !! id = (fun _ => prefix_db cfg id) <$> opened !! id.
Proof. unfold agency_stores. rewrite map_lookup_imap. by destruct (opened !! id). Qed.

(** ** Every call succeeds *)

(** A configuration of a known backend with named buckets. *)
Definition usable (cfg : StoreConfig) : Prop :=
  cfgBackend cfg = BackendMemory \/ (cfgBackend cfg = BackendMinIO /\ MinBucket cfg <> "") \/
  (cfgBackend cfg = BackendTigris /\ TigrisBucket cfg <> "").

Section Answers.
Hypothesis answers : forall calls c, answer calls c = None.

Ltac call_answers := repeat (unfold do_call; simpl; rewrite ?answers); eauto.

Lemma openIsleDB_answers cfg id w : usable cfg -> exists b w', openIsleDB answer cfg id w = (Ok b, w').
Proof.
  unfold openIsleDB, open_s3, ensureBucket, ensureS3Bucket.
  intros [->|[[-> Hb]|[-> Hb]]]; simpl; rewrite ?(bool_decide_eq_false_2 _ Hb); call_answers.
Qed.

Lemma OpenPrefixDB_answers cfg w : usable (ocStore cfg) -> exists p w', OpenPrefixDB answer cfg w = (Ok p, w').
Proof.
  intros Hu. unfold OpenPrefixDB. destruct (openIsleDB_answers (ocStore cfg) (ocPrefixID cfg) w Hu) as (b & w1 & ->).
  call_answers.
Qed.

Lemma open_all_answers cfg ids opened w : usable cfg -> exists o w', open_all answer (openAgency cfg) ids opened w = (Ok o, w').
Proof.
  intros Hu. revert opened w. induction ids as [|id ids IH]; intros opened w; cbn [open_all]; [eauto|].
  unfold openAgency at 1. destruct (OpenPrefixDB_answers (agency_open cfg id) w Hu) as (p & w' & ->). apply IH.
Qed.
End Answers.

Lemma hydrate_loop_reliable `{!IsleDBReliable I} l seen : (hydrate_loop l seen).1 = None.
Proof.
  revert seen. induction l as [|[id d] l IH]; intros seen; [done|]. cbn [hydrate_loop]. unfold bootstrapLatest.
  destruct (bootstrap_reliable d) as [s Hs]. rewrite Hs. simpl.
  destruct (snapshot_iter_reliable (AgencyPrefix id) (AgencyUpperBound id) s) as [items Hi]. rewrite Hi. apply IH.
Qed.

Lemma NewPipeline_reliable `{!IsleDBReliable I} stores : exists p, NewPipeline stores = Ok p.
Proof.
  unfold NewPipeline, hydrateFromSnapshot. simpl. pose proof (hydrate_loop_reliable (range stores) ∅) as H.
  destruct (hydrate_loop (range stores) ∅) as [e seen]. simpl in H. subst. eauto.
Qed.

Context {L : IsleDBLaws I}.

(** What the prefixes held when they were closed: flushed storable positions. *)
Definition prefixes_ok (cfg : StoreConfig) : Prop :=
  (forall id, unflushed (prefix_db cfg id) = []) /\
  forall id k v, accepted_kv (prefix_db cfg id) !! k = Some v ->
    exists pos, storable pos /\ Agency pos = id /\ k = Key pos /\ ValueBytes pos = Ok v.

Lemma prefixes_kv_ok cfg opened : prefixes_ok cfg -> kv_ok (agency_stores cfg opened).
Proof.
  intros [_ Hk] id d k v Hd Hv. rewrite agency_stores_lookup in Hd. apply fmap_Some in Hd as (? & _ & ->). eauto.
Qed.

Lemma StartPipeline_spec cfg feeds w :
  NoDup (fAgency <$> feeds) -> (forall id, id ∈ fAgency <$> feeds -> closed id w) -> prefixes_ok cfg ->
  match StartPipeline cfg feeds w with
  | (Ok p, w') =>
      dom (agencies (lpState p)) = list_to_set (fAgency <$> feeds) /\
      (forall id d, agencies (lpState p) !! id = Some d -> d = prefix_db cfg id) /\
      consistent (lpState p) /\
      live (snd (StopPipeline p w')) = live w
  | (Err _, w') => live w' = live w
  end.
Proof.
  intros Hnd Hc Hp. unfold StartPipeline.
  pose proof (open_all_no_leak answer (openAgency cfg) _ w (openAgency_opens cfg) Hnd Hc) as Ho.
  destruct (open_all answer (openAgency cfg) _ ∅ w) as [[opened|e] w1]; [|done]. destruct Ho as [Hdom Hl].
  destruct (NewPipeline (agency_stores cfg opened)) as [p|e] eqn:Hn; [|by destruct (CloseAll answer opened w1)].
  apply hydrate_consistent in Hn as [Ha Hcons]; [|by apply prefixes_kv_ok|].
  2:{ intros id d Hd. rewrite agency_stores_lookup in Hd. apply fmap_Some in Hd as (? & _ & ->). apply Hp. }
  simpl. rewrite Ha. split_and!; [|..|done|done].
  - rewrite <-Hdom. apply set_eq. intros id. rewrite !elem_of_dom, agency_stores_lookup. by rewrite fmap_is_Some.
  - intros id d Hd. rewrite agency_stores_lookup in Hd. by apply fmap_Some in Hd as (? & _ & ->).
Qed.

(** Whatever fails, starting the live pipeline leaves nothing half open.
    It either opens exactly the agencies of its feeds, on the stores of these
    prefixes and with a memory that agrees with what the stores hold, so that
    closing it returns to the handles open before; or it returns an error with
    every handle it had opened closed again, also when hydration fails. *)
Theorem start_pipeline cfg feeds w :
  NoDup (fAgency <$> feeds) -> (forall id, id ∈ fAgency <$> feeds -> closed id w) -> prefixes_ok cfg ->
  match StartPipeline cfg feeds w with
  | (Ok p, w') =>
      dom (agencies (lpState p)) = list_to_set (fAgency <$> feeds) /\
      (forall id d, agencies (lpState p) !! id = Some d -> d = prefix_db cfg id) /\
      consistent (lpState p) /\
      live (snd (StopPipeline p w')) = live w
  | (Err _, w') => live w' = live w
  end.
Proof. exact (StartPipeline_spec cfg feeds w). Qed.

(** When the object store, the disk and IsleDB answer, the pipeline starts. *)
Lemma start_pipeline_succeeds `{!IsleDBReliable I} cfg feeds w :
  (forall calls c, answer calls c = None) -> usable cfg -> exists p w', StartPipeline cfg feeds w = (Ok p, w').
Proof.
  intros Ha Hu. unfold StartPipeline. destruct (open_all_answers Ha cfg (fAgency <$> feeds) ∅ w Hu) as (o & w1 & ->).
  destruct (NewPipeline_reliable (agency_stores cfg o)) as [p ->]. eauto.
Qed.
End LiveStores.

(** ** Concrete starts *)

(** The prefixes of a first start are empty. *)
Definition new_prefix (_ : StoreConfig) (_ : string) : MemStore.state := MemStore.empty.

Lemma new_prefixes_ok cfg : prefixes_ok (I := MemStore.steady) (L := MemStore.steady_laws) new_prefix cfg.
Proof. split; [done|]. intros id k v Hk. done. Qed.

(** The maintenance of one agency does not open. *)
Definition no_maintenance (_ : list (call * option error)) (c : call) : option error :=
  match c with Open (KMaintenance, "mybas-ipoh") _ => Some (Errorf "no maintenance") | _ => None end.

Local Abbreviation start_with answer :=
  (StartPipeline (MR := canonical_range) (I := MemStore.steady) answer new_prefix memory_store AllFeeds start).

Lemma start_pipeline_witness : exists e,
  fst (start_with no_maintenance) = Err e /\ live (snd (start_with no_maintenance)) = ∅.
Proof.
  pose proof (start_pipeline (MR := canonical_range) (I := MemStore.steady) (L := MemStore.steady_laws)
    no_maintenance new_prefix memory_store AllFeeds start AllFeeds_NoDup
    (fun _ _ k => not_elem_of_empty _) (new_prefixes_ok memory_store)) as H.
  assert (Hr : (if fst (start_with no_maintenance) is Err _ then true else false) = true) by (vm_compute; reflexivity).
  destruct (start_with no_maintenance) as [[p|e] w']; [discriminate Hr|]. exists e. split; [reflexivity|exact H].
Defined.

Example starts : (if fst (start_with (fun _ _ => None)) is Ok _ then true else false) = true.
Proof. vm_compute. reflexivity. Qed.
