(* ===== verification/Replay.v ===== *)
(** * Playback of the change feed (internal/demo/replay.go, snapshots.go)

    [RunReplay] turns the change feeds of a region into frames, one per second
    that has a position, and calls back with the merged positions of each frame;
    [CatalogForRegion] summarises the feeds.  The page loops run on fuel (see
    ChangeFeed); the outer [option] of a result is running out of it. *)

From S2P Require Import Prelude GoStrings KeyRange Json Vehicle Regions IsleDB ChangeFeed LivePipeline.

Definition replayFrameInterval : Z := second.

Record ReplayOptions := {
  RegionID : string;
  roSpeed : Z;
  roFrom : time;
  roTo : time
}.

Record ReplayProgress := {
  Frame : Z;
  Total : Z;
  At : time
}.

Record replayMutation := {
  mutAt : time;
  mutPos : VehiclePosition
}.

Record replayFrameBucket := {
  frAt : time;
  mutations : list replayMutation
}.

(** The order of [sort.Slice]: time, agency, vehicle. *)
Definition less_mutation (a b : replayMutation) : bool :=
  if negb (time_equal (mutAt a) (mutAt b)) then time_before (mutAt a) (mutAt b)
  else if negb (bool_decide (Agency (mutPos a) = Agency (mutPos b))) then str_lt (Agency (mutPos a)) (Agency (mutPos b))
  else str_lt (VehicleID (mutPos a)) (VehicleID (mutPos b)).

(** The mutation of a change, when it is a put that parses and is not after
    [to]; a zero [to] is no bound. *)
Definition mutation_of (to : time) (ch : Change) : option replayMutation :=
  if bool_decide (chOp ch = ChangePut) then
    match ParseVehiclePosition (chValue ch) with
    | Err _ => None
    | Ok pos =>
        if negb (is_zero to) && time_after (Timestamp pos) to then None
        else Some {| mutAt := time_truncate (Timestamp pos) second; mutPos := pos |}
    end
  else None.

(** The function [buildReplayFrames] passes to [DrainChangeFeed]. *)
Definition collect (to : time) (ch : Change) (muts : list replayMutation) : option error * list replayMutation :=
  (None, match mutation_of to ch with Some m => muts ++ [m] | None => muts end).

(** The loop that cuts the sorted mutations into buckets: the finished buckets
    and the current one. *)
Definition bucket_step (s : list replayFrameBucket * replayFrameBucket) (mut : replayMutation)
    : list replayFrameBucket * replayFrameBucket :=
  let '(buckets, current) := s in
  let '(buckets, current) :=
    if bool_decide (mutations current = []) || negb (time_equal (frAt current) (mutAt mut)) then
      (if bool_decide (mutations current = []) then buckets else buckets ++ [current],
       {| frAt := mutAt mut; mutations := [] |})
    else (buckets, current) in
  (buckets, {| frAt := frAt current; mutations := mutations current ++ [mut] |}).

Definition bucketize (muts : list replayMutation) : list replayFrameBucket :=
  let '(buckets, current) := foldl bucket_step ([], {| frAt := zero_time; mutations := [] |}) muts in
  if bool_decide (mutations current = []) then buckets else buckets ++ [current].

(** [merged[key] = mut.pos] for every mutation of a frame. *)
Definition merge_mut (m : gmap string VehiclePosition) (mut : replayMutation) : gmap string VehiclePosition :=
  <[vehicle_key (mutPos mut) := mutPos mut]> m.
Definition merge_frame (m : gmap string VehiclePosition) (f : replayFrameBucket) : gmap string VehiclePosition :=
  foldl merge_mut m (mutations f).

(** The frames before [from] are folded in silently; a zero [from] skips none. *)
Fixpoint skip_before (from : time) (frames : list replayFrameBucket) (merged : gmap string VehiclePosition)
    : gmap string VehiclePosition * list replayFrameBucket :=
  match frames with
  | f :: fs =>
      if negb (is_zero from) && time_before (frAt f) from then skip_before from fs (merge_frame merged f)
      else (merged, frames)
  | [] => (merged, [])
  end.

Section Replay.
Context {MR : MapRange} {I : IsleDB} {SS : SliceSort}.

(** Reading number [n] of the context. *)
Variable ctx_Err : nat -> option error.

Fixpoint drain_agencies (fuel : nat) (to : time) (ids : list string) (muts : list replayMutation) (p : Pipeline)
    : option (result (list replayMutation) * Pipeline) :=
  match ids with
  | [] => Some (Ok muts, p)
  | id :: ids =>
      match agencies p !! id with
      | None => drain_agencies fuel to ids muts p
      | Some d =>
          match RefreshReader false d with
          | (Some e, d) => Some (Err e, set_agencies (<[id := d]> (agencies p)) p)
          | (None, d) =>
              let p := set_agencies (<[id := d]> (agencies p)) p in
              match DrainChangeFeed (collect to) fuel d muts with
              | None => None
              | Some (_, Some e) => Some (Err (Wrap ("change feed " +:+ id +:+ ": ") e), p)
              | Some ((_, muts), None) => drain_agencies fuel to ids muts p
              end
          end
      end
  end.

Definition buildReplayFrames (fuel : nat) (opts : ReplayOptions) (p : Pipeline)
    : option (result (list replayFrameBucket) * Pipeline) :=
  match RegionByID (RegionID opts) with
  | Err e => Some (Err e, p)
  | Ok region =>
      match drain_agencies fuel (roTo opts) (rAgencies region) [] p with
      | None => None
      | Some (Err e, p) => Some (Err e, p)
      | Some (Ok muts, p) => Some (Ok (bucketize (sort_slice less_mutation muts)), p)
      end
  end.

(** [sleepCtx]: the context is asked once, during the sleep. *)
Definition sleepCtx (d : Z) (n : nat) : option error * nat :=
  if d <=? 0 then (None, n) else (ctx_Err n, S n).

(** The positions of a frame. *)
Definition frame_view (ids : gset string) (merged : gmap string VehiclePosition) : list VehiclePosition :=
  filter (fun pos => Agency pos ∈ ids) (range merged).*2.

(** [onFrame] acts on the caller's state. *)
Context {S : Type}.
Variable onFrame : list VehiclePosition -> ReplayProgress -> S -> option error * S.

Fixpoint emit_frames (ids : gset string) (delay total : Z) (i : Z) (frames : list replayFrameBucket)
    (merged : gmap string VehiclePosition) (n : nat) (s : S) : option error * S :=
  match frames with
  | [] => (None, s)
  | f :: fs =>
      match ctx_Err n with
      | Some e => (Some e, s)
      | None =>
          let merged := merge_frame merged f in
          match onFrame (frame_view ids merged) {| Frame := i + 1; Total := total; At := frAt f |} s with
          | (Some e, s) => (Some e, s)
          | (None, s) =>
              if i + 1 <? total then
                match sleepCtx delay (Datatypes.S n) with
                | (Some e, _) => (Some e, s)
                | (None, n) => emit_frames ids delay total (i + 1) fs merged n s
                end
              else emit_frames ids delay total (i + 1) fs merged (Datatypes.S n) s
          end
      end
  end.

Definition RunReplay (fuel : nat) (opts : ReplayOptions) (p : Pipeline) (s : S)
    : option ((option error * S) * Pipeline) :=
  let speed := if roSpeed opts <=? 0 then 1 else roSpeed opts in
  match buildReplayFrames fuel opts p with
  | None => None
  | Some (Err e, p) => Some ((Some e, s), p)
  | Some (Ok [], p) => Some ((None, s), p)
  | Some (Ok allFrames, p) =>
      match RegionByID (RegionID opts) with
      | Err e => Some ((Some e, s), p)
      | Ok region =>
          let '(merged, frames) := skip_before (roFrom opts) allFrames ∅ in
          if bool_decide (frames = []) then Some ((None, s), p)
          else
            let delay := Z.quot replayFrameInterval speed in
            Some (emit_frames (AgencySet (rAgencies region)) delay (Z.of_nat (length frames)) 0 frames merged 0 s, p)
      end
  end.
End Replay.

(** ** The catalogue (snapshots.go) *)

Record FeedEntry := {
  feAgency : string;
  feChangeCount : Z;
  feFrom : time;
  feTo : time
}.

Record AgencyCatalog := {
  acAgency : string;
  acCount : Z;
  acEntries : list FeedEntry
}.

Record RegionCatalog := {
  rcRegionID : string;
  rcLabel : string;
  rcEmpty : bool;
  rcMessage : string;
  rcTotal : Z;
  rcAgencies : list AgencyCatalog;
  rcNotes : list string
}.

Definition agencyTimestampNS (key : string) : Z := TimestampNSFromKey key.

Section Catalog.
Context {I : IsleDB}.

Definition summarizeAgencyFeed (fuel : nat) (id : string) (d : db) : option (result FeedEntry) :=
  match SummarizeChangeFeed (Some agencyTimestampNS) fuel d with
  | None => None
  | Some (_, Some e) => Some (Err e)
  | Some (sum, None) =>
      Some (Ok {| feAgency := id; feChangeCount := ChangeCount sum;
                  feFrom := if 0 <? From sum then From sum else zero_time;
                  feTo := if 0 <? To sum then To sum else zero_time |})
  end.

Fixpoint catalog_loop (fuel : nat) (ids : list string) (p : Pipeline) (cat : RegionCatalog) : option (result RegionCatalog) :=
  match ids with
  | [] => Some (Ok cat)
  | id :: ids =>
      let add ac n := {| rcRegionID := rcRegionID cat; rcLabel := rcLabel cat; rcEmpty := rcEmpty cat;
                         rcMessage := rcMessage cat; rcTotal := rcTotal cat + n;
                         rcAgencies := rcAgencies cat ++ [ac]; rcNotes := rcNotes cat |} in
      match agencies p !! id with
      | None => catalog_loop fuel ids p (add {| acAgency := id; acCount := 0; acEntries := [] |} 0)
      | Some d =>
          match summarizeAgencyFeed fuel id d with
          | None => None
          | Some (Err e) => Some (Err (Wrap ("agency " +:+ id +:+ ": ") e))
          | Some (Ok entry) =>
              catalog_loop fuel ids p (add {| acAgency := id; acCount := feChangeCount entry; acEntries := [entry] |} (feChangeCount entry))
          end
      end
  end.

Definition CatalogForRegion (fuel : nat) (regionID : string) (p : Pipeline) : option (result RegionCatalog) :=
  match RegionByID regionID with
  | Err e => Some (Err e)
  | Ok rgn =>
      let cat := {| rcRegionID := rID rgn; rcLabel := rLabel rgn; rcEmpty := false; rcMessage := ""; rcTotal := 0;
                    rcAgencies := [];
                    rcNotes := ["Catalog summarizes IsleDB change-feed history (full PUT values).";
                                "Playback walks committed mutations in writer order and dedupes to latest per vehicle."] |} in
      match catalog_loop fuel (rAgencies rgn) p cat with
      | None => None
      | Some (Err e) => Some (Err e)
      | Some (Ok cat) =>
          Some (Ok (if rcTotal cat =? 0 then
            {| rcRegionID := rcRegionID cat; rcLabel := rcLabel cat; rcEmpty := true;
               rcMessage := "No change-feed history for " +:+ rLabel rgn +:+
                            ". Poll this region on the live map and wait for writer flush (~5s).";
               rcTotal := rcTotal cat; rcAgencies := rcAgencies cat; rcNotes := rcNotes cat |}
            else cat))
      end
  end.
End Catalog.

(** ** The order of the mutations *)

Lemma less_mutation_false a b : less_mutation a b = false <->
  mutAt b < mutAt a \/ mutAt a = mutAt b /\
    (str_lt (Agency (mutPos b)) (Agency (mutPos a)) = true \/
     Agency (mutPos a) = Agency (mutPos b) /\ str_lt (VehicleID (mutPos a)) (VehicleID (mutPos b)) = false).
Proof.
  unfold less_mutation, time_equal, time_before.
  destruct (Z.eqb_spec (mutAt a) (mutAt b)) as [E|Hne]; cbn [negb].
  - case_bool_decide as Ha; cbn [negb].
    + rewrite Ha, str_lt_irrefl. split; [auto|]. intros [?|[_ [?|[_ ?]]]]; [lia|done|done].
    + rewrite str_lt_false. split.
      * intros Hle. right. split; [done|]. left. apply str_lt_le. split; [done|congruence].
      * intros [?|[_ [H|[? _]]]]; [lia|by apply str_lt_le in H as [? _]|done].
  - rewrite Z.ltb_ge. split; [lia|]. intros [?|[? _]]; lia.
Qed.

#[export] Instance less_mutation_order : LessOrder less_mutation.
Proof.
  split.
  - intros x y Hxy. apply not_false_iff_true in Hxy. rewrite less_mutation_false in *.
    destruct (Z.lt_trichotomy (mutAt x) (mutAt y)) as [?|[E|?]]; [by left|right|exfalso; tauto].
    split; [done|]. destruct (decide (Agency (mutPos x) = Agency (mutPos y))) as [Ea|Ha].
    + right. split; [done|]. destruct (str_lt (VehicleID (mutPos y)) (VehicleID (mutPos x))) eqn:Ev; [|done].
      exfalso. apply Hxy. right. split; [done|]. right. split; [done|].
      apply str_lt_false. by apply str_lt_le in Ev as [? _].
    + left. destruct (str_lt_total _ _ Ha) as [?|H]; [done|]. exfalso. apply Hxy. right. auto.
  - intros x y z. rewrite !less_mutation_false. intros H1 H2.
    destruct H1 as [H1|[E1 H1]], H2 as [H2|[E2 H2]]; [left; lia|left; lia|left; lia|]. right. split; [congruence|].
    destruct H1 as [H1|[A1 H1]], H2 as [H2|[A2 H2]].
    + left. by eapply str_lt_trans.
    + left. by rewrite <-A2.
    + left. by rewrite A1.
    + right. split; [congruence|]. apply str_lt_false in H1, H2. apply str_lt_false. by etrans.
Qed.

(** ** Cutting into frames *)

(** A frame is not empty and its mutations have its time. *)
Definition frame_ok (f : replayFrameBucket) : Prop :=
  mutations f <> [] /\ Forall (fun m => mutAt m = frAt f) (mutations f).

Definition in_time (l : list replayMutation) : Prop := StronglySorted (fun a b => mutAt a <= mutAt b) l.

Lemma bucket_fold l : let '(bs, cur) := foldl bucket_step ([], {| frAt := zero_time; mutations := [] |}) l in
  (bs ++ [cur]) ≫= mutations = l /\ Forall frame_ok bs /\ Forall (fun m => mutAt m = frAt cur) (mutations cur) /\
  (mutations cur = [] -> l = []) /\ (in_time l -> StronglySorted Z.lt (frAt <$> bs) /\ Forall (fun f => frAt f < frAt cur) bs).
Proof.
  induction l as [|x l IH] using rev_ind.
  { simpl. split_and!; try done. intros _. by split; [constructor|]. }
  rewrite foldl_app. cbn [foldl]. destruct (foldl bucket_step _ l) as [bs cur].
  destruct IH as (Hl & Hok & Hcur & Hnil & Hsort). cbn [bucket_step].
  assert (Hin : in_time (l ++ [x]) -> in_time l /\ Forall (fun m => mutAt m <= mutAt x) l)
    by by intros H%StronglySorted_snoc.
  destruct (bool_decide_reflect (mutations cur = [])) as [He|He]; cbn [orb].
  - specialize (Hnil He). rewrite bind_app in Hl. simpl in Hl. rewrite He, !app_nil_r, Hnil in Hl.
    assert (bs = []) as ->.
    { destruct bs as [|b bs]; [done|]. apply Forall_cons in Hok as [[Hb _] _].
      simpl in Hl. apply app_nil in Hl as [Hl _]. done. }
    subst l. simpl. split_and!; [done|done|by constructor|done|]. intros _. by split; [constructor|].
  - destruct (negb (time_equal (frAt cur) (mutAt x))) eqn:Ht; cbn [mutations frAt].
    + apply negb_true_iff, Z.eqb_neq in Ht. split_and!.
      * rewrite bind_app, Hl. simpl. done.
      * apply Forall_app. split; [done|]. by repeat constructor.
      * by repeat constructor.
      * done.
      * intros [Hs Hx]%Hin. destruct (Hsort Hs) as [Hbs Hlt].
        assert (Hcx : frAt cur < mutAt x).
        { assert (frAt cur <= mutAt x); [|lia]. rewrite <-Hl, bind_app in Hx. apply Forall_app in Hx as [_ Hx].
          simpl in Hx. rewrite app_nil_r in Hx. destruct (mutations cur) as [|m ms]; [done|].
          apply Forall_cons in Hx as [Hx _], Hcur as [<- _]. done. }
        split.
        -- rewrite fmap_app. apply StronglySorted_snoc. split; [done|]. by apply Forall_fmap.
        -- apply Forall_app. split; [|by repeat constructor]. eapply Forall_impl; [exact Hlt|]. simpl. lia.
    + apply negb_false_iff, Z.eqb_eq in Ht. split_and!.
      * rewrite <-Hl, !bind_app. simpl. by rewrite !app_nil_r, app_assoc.
      * done.
      * apply Forall_app. split; [done|]. by repeat constructor.
      * by destruct (mutations cur).
      * intros [Hs _]%Hin. by apply Hsort.
Qed.

Lemma bucketize_spec l : bucketize l ≫= mutations = l /\ Forall frame_ok (bucketize l) /\
  (in_time l -> StronglySorted Z.lt (frAt <$> bucketize l)).
Proof.
  unfold bucketize. pose proof (bucket_fold l) as H. destruct (foldl bucket_step _ l) as [bs cur].
  destruct H as (Hl & Hok & Hcur & Hnil & Hsort). case_bool_decide as He.
  - rewrite bind_app in Hl. simpl in Hl. rewrite He, !app_nil_r in Hl. split_and!; [done|done|by intros [? _]%Hsort].
  - split_and!; [done|by apply Forall_app; repeat constructor|]. intros [Hs Hlt]%Hsort.
    rewrite fmap_app. apply StronglySorted_snoc. split; [done|]. by apply Forall_fmap.
Qed.

(** ** Draining the feeds *)

Section ReplayProofs.
Context {MR : MapRange} {I : IsleDB} {SS : SliceSort} {L : IsleDBLaws I}.

(** The mutations of a region, agency by agency, in writer order. *)
Definition region_mutations (to : time) (p : Pipeline) (ids : list string) : list replayMutation :=
  ids ≫= fun id => default [] ((fun d => omap (mutation_of to) (feed_log d)) <$> agencies p !! id).

Definition fueled (fuel : nat) (p : Pipeline) : Prop :=
  forall id d, agencies p !! id = Some d -> (length (feed_log d) < fuel)%nat.

Lemma collect_items to chs n muts :
  run_items (drain_item (collect to)) (n, muts) chs = ((n + Z.of_nat (length chs), muts ++ omap (mutation_of to) chs), None).
Proof.
  revert n muts. induction chs as [|ch chs IH]; intros n muts.
  { simpl. by rewrite app_nil_r, Z.add_0_r. }
  cbn [run_items drain_item collect]. rewrite IH, omap_cons. simpl length.
  replace (n + Z.of_nat (S (length chs))) with (n + 1 + Z.of_nat (length chs)) by lia.
  by destruct (mutation_of to ch); rewrite <-?app_assoc.
Qed.

Lemma DrainChangeFeed_collect fuel to d muts : (length (feed_log d) < fuel)%nat ->
  exists n muts' e, DrainChangeFeed (collect to) fuel d muts = Some ((n, muts'), e) /\
    (e = None -> muts' = muts ++ omap (mutation_of to) (feed_log d)).
Proof.
  intros Hf. destruct (change_open d) as [e|] eqn:Ho.
  { exists 0, muts, (Some e). unfold DrainChangeFeed. by rewrite Ho. }
  destruct (change_bounds d) as [b|e] eqn:Hb.
  2:{ exists 0, muts, (Some e). unfold DrainChangeFeed. by rewrite Ho, Hb. }
  destruct (DrainChangeFeed_spec (collect to) d fuel muts Hf Ho) as ([[n muts'] e] & Hr & Hres); [eauto|].
  exists n, muts', e. split; [done|]. intros ->. destruct Hres as [Hres|(k & d' & cur & e & _ & _ & [=])].
  rewrite collect_items in Hres. by injection Hres.
Qed.

Lemma region_mutations_same to p p' ids :
  (forall id, (feed_log <$> agencies p' !! id) = (feed_log <$> agencies p !! id)) ->
  region_mutations to p' ids = region_mutations to p ids.
Proof.
  intros Hf. unfold region_mutations. induction ids as [|id ids IH]; [done|]. rewrite !bind_cons, IH. f_equal.
  specialize (Hf id). destruct (agencies p !! id), (agencies p' !! id); simplify_eq/=; congruence.
Qed.

Lemma drain_agencies_spec fuel to ids muts p : fueled fuel p ->
  exists r p', drain_agencies fuel to ids muts p = Some (r, p') /\
    (forall muts', r = Ok muts' -> muts' = muts ++ region_mutations to p ids).
Proof.
  revert muts p. induction ids as [|id ids IH]; intros muts p Hf; cbn [drain_agencies].
  { exists (Ok muts), p. split; [done|]. intros muts' [= <-]. unfold region_mutations. simpl. by rewrite app_nil_r. }
  unfold region_mutations. rewrite bind_cons. fold (region_mutations to p ids).
  destruct (agencies p !! id) as [d|] eqn:Hd; simpl; [|by apply IH].
  destruct (reader_refresh d) as [[e|] d'] eqn:Hr; [by eexists (Err _), _|].
  apply refresh_law in Hr as (_ & _ & Hl & _).
  destruct (DrainChangeFeed_collect fuel to d' muts) as (n & muts1 & e & -> & Hm); [rewrite Hl; by apply (Hf id)|].
  destruct e as [e|]; [by eexists (Err _), _|]. rewrite (Hm eq_refl), Hl.
  set (p1 := set_agencies _ p).
  assert (Hsame : forall id', (feed_log <$> agencies p1 !! id') = (feed_log <$> agencies p !! id')).
  { intros id'. unfold p1. simpl. destruct (decide (id = id')) as [<-|Hne].
    - rewrite lookup_insert_eq, Hd. simpl. by rewrite Hl.
    - by rewrite lookup_insert_ne. }
  destruct (IH (muts ++ omap (mutation_of to) (feed_log d)) p1) as (r & p' & Hrun & Hres).
  - intros id' d1 Hd1. specialize (Hsame id'). rewrite Hd1 in Hsame. destruct (agencies p !! id') as [d2|] eqn:E; [|done].
    injection Hsame as ->. by apply (Hf id').
  - exists r, p'. split; [done|]. intros muts' E. rewrite (Hres muts' E), <-app_assoc.
    by rewrite (region_mutations_same to p p1).
Qed.

(** The frames that are built, whatever the fuel. *)
Lemma build_sorted fuel opts p frames p' : buildReplayFrames fuel opts p = Some (Ok frames, p') ->
  StronglySorted (fun x y => less_mutation y x = false) (frames ≫= mutations) /\
  StronglySorted Z.lt (frAt <$> frames) /\ Forall frame_ok frames.
Proof.
  unfold buildReplayFrames. destruct (RegionByID (RegionID opts)) as [r|]; [|done].
  destruct (drain_agencies _ _ _ _ _) as [[[muts|] p1]|]; [|done..]. intros [= <- _].
  destruct (bucketize_spec (sort_slice less_mutation muts)) as (-> & Hok & Hs).
  pose proof (sort_slice_sorted less_mutation muts) as Hsort. split_and!; [done| |done]. apply Hs.
  eapply StronglySorted_weaken; [|exact Hsort]. intros x y H%less_mutation_false. lia.
Qed.

(** ** What is emitted *)

(** The callback that records every frame it is given. *)
Definition shown : Type := list VehiclePosition * ReplayProgress.
Definition record_frame (vs : list VehiclePosition) (pr : ReplayProgress) (s : list shown) : option error * list shown :=
  (None, s ++ [(vs, pr)]).
Definition never_cancelled (_ : nat) : option error := None.

(** The frames to be shown, from what is merged already. *)
Fixpoint frames_out (ids : gset string) (total : Z) (i : Z) (merged : gmap string VehiclePosition)
    (frames : list replayFrameBucket) : list shown :=
  match frames with
  | [] => []
  | f :: fs =>
      let merged := merge_frame merged f in
      (frame_view ids merged, {| Frame := i + 1; Total := total; At := frAt f |}) :: frames_out ids total (i + 1) merged fs
  end.

Lemma emit_frames_record ids delay total i frames merged n s :
  emit_frames never_cancelled record_frame ids delay total i frames merged n s
  = (None, s ++ frames_out ids total i merged frames).
Proof.
  revert i merged n s. induction frames as [|f fs IH]; intros i merged n s; cbn [emit_frames frames_out].
  { by rewrite app_nil_r. }
  unfold sleepCtx, never_cancelled at 1, record_frame at 1. cbn [never_cancelled].
  destruct (i + 1 <? total); [destruct (delay <=? 0)|]; cbn; rewrite IH, <-app_assoc; done.
Qed.

(** Everything but the numbering. *)
Definition content (x : shown) : list VehiclePosition * time := (x.1, At x.2).

Lemma frames_out_content ids total total' i j merged l :
  content <$> frames_out ids total i merged l = content <$> frames_out ids total' j merged l.
Proof. revert i j merged. induction l as [|f l IH]; intros i j m; [done|]. simpl. f_equal. apply IH. Qed.

Lemma frames_out_app ids total i merged l1 l2 : content <$> frames_out ids total i merged (l1 ++ l2) =
  (content <$> frames_out ids total i merged l1) ++
  (content <$> frames_out ids total i (foldl merge_frame merged l1) l2).
Proof.
  revert i merged. induction l1 as [|f l1 IH]; intros i merged; [done|]. simpl. rewrite IH. f_equal. f_equal.
  apply frames_out_content.
Qed.

Lemma frames_out_numbers ids total i merged l k x : frames_out ids total i merged l !! k = Some x ->
  Frame x.2 = i + Z.of_nat k + 1 /\ Total x.2 = total.
Proof.
  revert i merged k. induction l as [|f l IH]; intros i merged [|k]; simpl; try done.
  - intros [= <-]. simpl. split; [lia|done].
  - intros [-> ->]%IH. split; [lia|done].
Qed.

Lemma frames_out_length ids total i merged l : length (frames_out ids total i merged l) = length l.
Proof. revert i merged. induction l as [|f l IH]; intros i m; [done|]. simpl. by rewrite IH. Qed.

Lemma frames_out_times ids total i merged l : (At ∘ snd) <$> frames_out ids total i merged l = frAt <$> l.
Proof. revert i merged. induction l as [|f l IH]; intros i m; [done|]. simpl. f_equal. apply IH. Qed.

Lemma Forall_times (P : time -> Prop) (l : list shown) : Forall P ((At ∘ snd) <$> l) -> Forall (fun x => P (At x.2)) l.
Proof. by rewrite Forall_fmap. Qed.

Lemma skip_before_spec from frames merged : StronglySorted Z.lt (frAt <$> frames) ->
  exists k, skip_before from frames merged = (foldl merge_frame merged (take k frames), drop k frames) /\
    (k <= length frames)%nat /\ Forall (fun f => frAt f < from) (take k frames) /\
    (from = zero_time -> k = 0%nat) /\ (from <> zero_time -> Forall (fun f => from <= frAt f) (drop k frames)).
Proof.
  revert merged. induction frames as [|f fs IH]; intros merged Hs; cbn [skip_before].
  { exists 0%nat. by split_and!. }
  rewrite fmap_cons in Hs. apply StronglySorted_inv in Hs as [Hs Hf].
  destruct (negb (is_zero from) && time_before (frAt f) from) eqn:Hb.
  - apply andb_true_iff in Hb as [Hz%negb_true_iff%Z.eqb_neq Hb%Z.ltb_lt].
    destruct (IH (merge_frame merged f) Hs) as (k & -> & Hk & Hlt & _ & Hge). exists (S k). simpl.
    split_and!; [done|lia|by constructor|done|done].
  - exists 0%nat. split_and!; [done|simpl; lia|constructor|done|]. intros Hne.
    apply andb_false_iff in Hb as [Hb|Hb]; [by apply negb_false_iff, Z.eqb_eq in Hb|].
    apply Z.ltb_ge in Hb. simpl. constructor; [done|]. rewrite Forall_fmap in Hf.
    eapply Forall_impl; [exact Hf|]. simpl. lia.
Qed.

Definition with_from (t : time) (opts : ReplayOptions) : ReplayOptions :=
  {| RegionID := RegionID opts; roSpeed := roSpeed opts; roFrom := t; roTo := roTo opts |}.

(** A replay that is recorded, from the frames it builds. *)
Lemma RunReplay_record fuel opts p frames p' region : buildReplayFrames fuel opts p = Some (Ok frames, p') ->
  RegionByID (RegionID opts) = Ok region ->
  RunReplay never_cancelled record_frame fuel opts p [] =
    let '(merged, fs) := skip_before (roFrom opts) frames ∅ in
    Some ((None, frames_out (AgencySet (rAgencies region)) (Z.of_nat (length fs)) 0 merged fs), p').
Proof.
  intros Hb Hr. unfold RunReplay. rewrite Hb, Hr. destruct frames as [|f0 frames]; [done|].
  destruct (skip_before _ _ _) as [merged fs]. case_bool_decide as Hfs; [by rewrite Hfs|].
  by rewrite emit_frames_record.
Qed.

(** With fuel for the feeds the frames are built, or the building fails. *)
Lemma buildReplayFrames_total fuel opts p : fueled fuel p ->
  exists r p', buildReplayFrames fuel opts p = Some (r, p').
Proof.
  intros Hf. unfold buildReplayFrames. destruct (RegionByID (RegionID opts)) as [region|]; [|by eexists (Err _), _].
  destruct (drain_agencies_spec fuel (roTo opts) (rAgencies region) [] p Hf) as ([muts|e] & p' & -> & _).
  - by eexists (Ok _), p'.
  - by eexists (Err _), p'.
Qed.

(** So a replay returns, whatever its callback and its context do. *)
Lemma RunReplay_total {A} ctxErr (onFrame : list VehiclePosition -> ReplayProgress -> A -> option error * A) fuel opts p a :
  fueled fuel p -> exists e a' p', RunReplay ctxErr onFrame fuel opts p a = Some ((e, a'), p').
Proof.
  intros Hf. unfold RunReplay. destruct (buildReplayFrames_total fuel opts p Hf) as (r & p' & ->).
  destruct r as [[|f fs]|e]; [by eexists _, _, _| |by eexists _, _, _].
  destruct (RegionByID _); [|by eexists _, _, _]. destruct (skip_before _ _ _).
  case_bool_decide; [by eexists _, _, _|]. destruct (emit_frames _ _ _ _ _ _ _ _ _ _). by eexists _, _, _.
Qed.

Lemma RunReplay_fails {A} ctxErr (onFrame : list VehiclePosition -> ReplayProgress -> A -> option error * A) fuel opts from p a e p' :
  buildReplayFrames fuel opts p = Some (Err e, p') ->
  RunReplay ctxErr onFrame fuel (with_from from opts) p a = Some ((Some e, a), p').
Proof. intros Hb. unfold RunReplay. change (buildReplayFrames fuel (with_from from opts) p) with (buildReplayFrames fuel opts p). by rewrite Hb. Qed.

Lemma build_region fuel opts p frames p' : buildReplayFrames fuel opts p = Some (Ok frames, p') ->
  exists region, RegionByID (RegionID opts) = Ok region.
Proof. unfold buildReplayFrames. destruct (RegionByID (RegionID opts)); [eauto|done]. Qed.

(** ** Properties *)

(** C22: the frames of a replay.  With fuel for the feeds, [buildReplayFrames]
    returns; frames without an error hold exactly the replayable mutations of
    the region's feeds, sorted by time, agency and vehicle; their times
    increase, one frame per second that has a mutation. *)
Theorem replay_frames fuel opts p : fueled fuel p ->
  exists r p', buildReplayFrames fuel opts p = Some (r, p') /\
    forall frames, r = Ok frames -> exists region, RegionByID (RegionID opts) = Ok region /\
      frames ≫= mutations ≡ₚ region_mutations (roTo opts) p (rAgencies region) /\
      StronglySorted (fun x y => less_mutation y x = false) (frames ≫= mutations) /\
      StronglySorted Z.lt (frAt <$> frames) /\ Forall frame_ok frames.
Proof.
  intros Hf. unfold buildReplayFrames.
  destruct (RegionByID (RegionID opts)) as [region|] eqn:Hr; [|by eexists (Err _), _].
  destruct (drain_agencies_spec fuel (roTo opts) (rAgencies region) [] p Hf) as (r & p' & Hd & Hres). rewrite Hd.
  destruct r as [muts|e]; [|by eexists (Err _), _]. eexists _, p'. split; [done|]. intros frames [= <-].
  exists region. split; [done|]. split.
  - destruct (bucketize_spec (sort_slice less_mutation muts)) as (-> & _).
    by rewrite sort_slice_perm, (Hres muts eq_refl).
  - apply (build_sorted fuel opts p _ p'). unfold buildReplayFrames. by rewrite Hr, Hd.
Qed.

(** C17: resuming a replay forgets nothing.  A replay from a time [t] shows
    exactly the frames of the full replay that are not before [t], with the same
    positions, those of vehicles last seen before [t] included, renumbered from
    1 to their number. *)
Theorem replay_resume fuel opts p t full p' :
  t <> zero_time ->
  RunReplay never_cancelled record_frame fuel (with_from zero_time opts) p [] = Some ((None, full), p') ->
  exists res k, RunReplay never_cancelled record_frame fuel (with_from t opts) p [] = Some ((None, res), p') /\
    content <$> res = drop k (content <$> full) /\
    Forall (fun x => At x.2 < t) (take k full) /\ Forall (fun x => t <= At x.2) (drop k full) /\
    forall i x, res !! i = Some x -> Frame x.2 = Z.of_nat i + 1 /\ Total x.2 = Z.of_nat (length res).
Proof.
  intros Ht Hfull.
  assert (Hbuild : exists r, buildReplayFrames fuel opts p = Some (r, p') /\
     forall e, r = Err e -> False).
  { unfold RunReplay in Hfull. change (buildReplayFrames fuel (with_from zero_time opts) p) with (buildReplayFrames fuel opts p) in Hfull.
    destruct (buildReplayFrames fuel opts p) as [[[frames|e] p1]|]; [|done..].
    exists (Ok frames). split; [|done]. f_equal. f_equal.
    destruct frames; [by injection Hfull|]. destruct (RegionByID _); [|done].
    destruct (skip_before _ _ _) as [merged fs]. case_bool_decide; congruence. }
  destruct Hbuild as ([frames|e] & Hb & He); [|by destruct (He e)].
  destruct (build_sorted _ _ _ _ _ Hb) as (_ & Hs & _).
  assert (Hreg : exists region, RegionByID (RegionID opts) = Ok region).
  { unfold buildReplayFrames in Hb. destruct (RegionByID (RegionID opts)); [eauto|done]. }
  destruct Hreg as [region Hr].
  rewrite (RunReplay_record fuel (with_from zero_time opts) p frames p' region Hb Hr) in Hfull.
  rewrite (RunReplay_record fuel (with_from t opts) p frames p' region Hb Hr). simpl roFrom in *.
  destruct (skip_before_spec zero_time frames ∅ Hs) as (k0 & E0 & _ & _ & Hk0 & _). rewrite Hk0 in E0 by done.
  rewrite E0 in Hfull. simpl in Hfull. injection Hfull as <-.
  destruct (skip_before_spec t frames ∅ Hs) as (k & E & Hk & Hlt & _ & Hge). rewrite E. specialize (Hge Ht).
  set (ids := AgencySet _). exists (frames_out ids (Z.of_nat (length (drop k frames))) 0 (foldl merge_frame ∅ (take k frames)) (drop k frames)), k.
  split; [done|]. split_and!.
  - pose proof (frames_out_app ids (Z.of_nat (length frames)) 0 ∅ (take k frames) (drop k frames)) as Happ.
    rewrite take_drop in Happ. change (drop 0 frames) with frames. rewrite Happ.
    rewrite drop_app_length' by (rewrite length_fmap, frames_out_length, length_take; lia).
    apply frames_out_content.
  - apply (Forall_times (fun x => x < t)). rewrite fmap_take, frames_out_times, <-fmap_take. by rewrite Forall_fmap.
  - apply (Forall_times (fun x => t <= x)). rewrite fmap_drop, frames_out_times, <-fmap_drop. by rewrite Forall_fmap.
  - intros i x Hx. apply frames_out_numbers in Hx as [-> ->]. rewrite frames_out_length. split; [lia|done].
Qed.

(** [q] is the last position of its vehicle in [muts]. *)
Definition last_of (muts : list replayMutation) (q : VehiclePosition) : Prop :=
  exists l1 m l2, muts = l1 ++ m :: l2 /\ mutPos m = q /\
    Forall (fun m' => vehicle_key (mutPos m') <> vehicle_key q) l2.

Lemma merge_mut_last muts vk q : foldl merge_mut ∅ muts !! vk = Some q <-> last_of muts q /\ vehicle_key q = vk.
Proof.
  induction muts as [|x muts IH] using rev_ind.
  { simpl. rewrite lookup_empty. split; [done|]. by intros [([|? l1] & m & l2 & [=] & _) _]. }
  rewrite foldl_app. cbn [foldl]. unfold merge_mut at 1. destruct (decide (vehicle_key (mutPos x) = vk)) as [<-|Hne].
  - rewrite lookup_insert_eq. split.
    + intros [= <-]. split; [|done]. exists muts, x, []. by split_and!.
    + intros [(l1 & m & l2 & E & <- & Hl2) Hk]. destruct l2 as [|y l2 _] using rev_ind.
      * apply app_inj_tail in E as [_ <-]. done.
      * rewrite app_comm_cons, app_assoc in E. apply app_inj_tail in E as [_ <-].
        apply Forall_app in Hl2 as [_ Hy]. rewrite Forall_singleton in Hy. congruence.
  - rewrite lookup_insert_ne, IH by done. split.
    + intros [(l1 & m & l2 & -> & <- & Hl2) Hk]. split; [|done]. exists l1, m, (l2 ++ [x]).
      split_and!; [by rewrite <-app_assoc|done|]. apply Forall_app. split; [done|]. rewrite Forall_singleton. congruence.
    + intros [(l1 & m & l2 & E & <- & Hl2) Hk]. split; [|done]. destruct l2 as [|y l2 _] using rev_ind.
      * apply app_inj_tail in E as [_ <-]. congruence.
      * rewrite app_comm_cons, app_assoc in E. apply app_inj_tail in E as [-> <-].
        apply Forall_app in Hl2 as [Hl2 _]. exists l1, m, l2. by split_and!.
Qed.

Lemma merge_frames merged frames : foldl merge_frame merged frames = foldl merge_mut merged (frames ≫= mutations).
Proof.
  revert merged. induction frames as [|f fs IH]; intros merged; [done|]. rewrite bind_cons, foldl_app. simpl. by rewrite IH.
Qed.

Lemma elem_of_frame_view ids merged q : q ∈ frame_view ids merged <-> Agency q ∈ ids /\ exists vk, merged !! vk = Some q.
Proof.
  unfold frame_view. rewrite list_elem_of_filter, list_elem_of_fmap. split.
  - intros [? ([vk q'] & -> & Hin%elem_of_range)]. eauto.
  - intros [? [vk Hvk]]. split; [done|]. exists (vk, q). by rewrite elem_of_range.
Qed.

Lemma frames_out_view ids total i merged frames j x : frames_out ids total i merged frames !! j = Some x ->
  x.1 = frame_view ids (foldl merge_frame merged (take (S j) frames)).
Proof.
  revert i merged j. induction frames as [|f fs IH]; intros i merged [|j]; simpl; try done.
  - by intros [= <-].
  - by intros ->%IH.
Qed.

(** What the frames of a full replay show, from the frames that are built. *)
Lemma RunReplay_full fuel opts p frames p' region :
  buildReplayFrames fuel opts p = Some (Ok frames, p') -> RegionByID (RegionID opts) = Ok region ->
  exists full, RunReplay never_cancelled record_frame fuel (with_from zero_time opts) p [] = Some ((None, full), p') /\
    length full = length frames /\
    forall i x, full !! i = Some x ->
      let muts := take (S i) frames ≫= mutations in
      (forall q, q ∈ x.1 <-> Agency q ∈ rAgencies region /\ last_of muts q) /\
      (forall q m, q ∈ x.1 -> m ∈ muts -> vehicle_key (mutPos m) = vehicle_key q ->
         exists m0, m0 ∈ muts /\ mutPos m0 = q /\ mutAt m <= mutAt m0).
Proof.
  intros Hb Hr. destruct (build_sorted _ _ _ _ _ Hb) as (Hsort & Hs & _).
  rewrite (RunReplay_record fuel (with_from zero_time opts) p frames p' region Hb Hr).
  destruct (skip_before_spec zero_time frames ∅ Hs) as (k0 & E0 & _ & _ & Hk0 & _). rewrite Hk0 in E0 by done.
  simpl roFrom. rewrite E0. change (drop 0 frames) with frames. change (take 0 frames) with (@nil replayFrameBucket).
  eexists. split; [done|]. split; [apply frames_out_length|]. intros i x Hx. apply frames_out_view in Hx. rewrite Hx. cbv zeta.
  cbn [foldl]. rewrite merge_frames. set (muts := take (S i) frames ≫= mutations).
  assert (Hview : forall q, q ∈ frame_view (AgencySet (rAgencies region)) (foldl merge_mut ∅ muts) <->
            Agency q ∈ rAgencies region /\ last_of muts q).
  { intros q. rewrite elem_of_frame_view. unfold AgencySet. rewrite elem_of_list_to_set.
    split; (intros [? H]; split; [done|]).
    - destruct H as [vk Hvk]. by apply merge_mut_last in Hvk as [? _].
    - exists (vehicle_key q). by apply merge_mut_last. }
  split; [done|]. intros q m [_ (l1 & m0 & l2 & E & <- & Hl2)]%Hview Hm Hk.
  exists m0. split; [rewrite E; apply elem_of_app; right; by left|]. split; [done|].
  assert (Hst : in_time muts).
  { assert (Hall : in_time (frames ≫= mutations)).
    { eapply StronglySorted_weaken; [|exact Hsort]. intros a b H%less_mutation_false. lia. }
    rewrite <-(take_drop (S i) frames), bind_app in Hall. by apply StronglySorted_app_1_l in Hall. }
  rewrite E in Hm, Hst. apply elem_of_app in Hm as [Hm|Hm].
  - change (l1 ++ m0 :: l2) with (l1 ++ [m0] ++ l2) in Hst. rewrite app_assoc in Hst.
    apply StronglySorted_app_1_l, StronglySorted_snoc in Hst as [_ Hall]. rewrite Forall_forall in Hall. by apply Hall.
  - apply elem_of_cons in Hm as [->|Hm]; [lia|]. rewrite Forall_forall in Hl2. by apply Hl2 in Hm.
Qed.

(** C16: a full replay plays to its end and shows the latest positions.  With
    fuel for the feeds the frames are built or the building fails; when it fails
    the replay shows nothing and returns that error; when it does not, the replay
    returns without an error after one frame per built frame, and the i-th frame
    shown holds, of every vehicle of the region's agencies, the last position
    among the mutations up to that frame, and nothing else; that position is from
    the vehicle's latest second so far. *)
Theorem replay_shows_latest fuel opts p : fueled fuel p ->
  exists r p', buildReplayFrames fuel opts p = Some (r, p') /\
    match r with
    | Err e => RunReplay never_cancelled record_frame fuel (with_from zero_time opts) p [] = Some ((Some e, []), p')
    | Ok frames => exists region full, RegionByID (RegionID opts) = Ok region /\
        RunReplay never_cancelled record_frame fuel (with_from zero_time opts) p [] = Some ((None, full), p') /\
        length full = length frames /\
        forall i x, full !! i = Some x ->
          let muts := take (S i) frames ≫= mutations in
          (forall q, q ∈ x.1 <-> Agency q ∈ rAgencies region /\ last_of muts q) /\
          (forall q m, q ∈ x.1 -> m ∈ muts -> vehicle_key (mutPos m) = vehicle_key q ->
             exists m0, m0 ∈ muts /\ mutPos m0 = q /\ mutAt m <= mutAt m0)
    end.
Proof.
  intros Hf. destruct (buildReplayFrames_total fuel opts p Hf) as (r & p' & Hb). exists r, p'. split; [done|].
  destruct r as [frames|e]; [|by apply RunReplay_fails]. destruct (build_region _ _ _ _ _ Hb) as [region Hr].
  destruct (RunReplay_full fuel opts p frames p' region Hb Hr) as (full & Hrun & Hlen & Hshown).
  by exists region, full.
Qed.
End ReplayProofs.

(** ** The catalogue *)

Section CatalogProofs.
Context {I : IsleDB} {L : IsleDBLaws I}.

(** The entry of one agency: nothing without a store, the puts of its feed
    otherwise. *)
Definition catalogued (p : Pipeline) (id : string) (ac : AgencyCatalog) : Prop :=
  acAgency ac = id /\
  match agencies p !! id with
  | None => acCount ac = 0 /\ acEntries ac = []
  | Some d => acCount ac = Z.of_nat (length (puts (feed_log d))) /\
      exists e, acEntries ac = [e] /\ feAgency e = id /\ feChangeCount e = acCount ac
  end.

Lemma catalog_loop_spec fuel ids p cat : fueled fuel p ->
  exists r, catalog_loop fuel ids p cat = Some r /\
    forall cat', r = Ok cat' -> exists acs, rcAgencies cat' = rcAgencies cat ++ acs /\ Forall2 (catalogued p) ids acs /\
      rcTotal cat' = rcTotal cat + foldr Z.add 0 (acCount <$> acs) /\
      rcRegionID cat' = rcRegionID cat /\ rcEmpty cat' = rcEmpty cat /\ rcMessage cat' = rcMessage cat.
Proof.
  intros Hf. revert cat. induction ids as [|id ids IH]; intros cat; cbn [catalog_loop].
  { eexists. split; [done|]. intros cat' [= <-]. exists []. split_and!; try done; [by rewrite app_nil_r|simpl; lia]. }
  assert (Hstep : forall ac n, catalogued p id ac -> acCount ac = n ->
    exists r, catalog_loop fuel ids p {| rcRegionID := rcRegionID cat; rcLabel := rcLabel cat; rcEmpty := rcEmpty cat;
                         rcMessage := rcMessage cat; rcTotal := rcTotal cat + n;
                         rcAgencies := rcAgencies cat ++ [ac]; rcNotes := rcNotes cat |} = Some r /\
    forall cat', r = Ok cat' -> exists acs, rcAgencies cat' = rcAgencies cat ++ acs /\ Forall2 (catalogued p) (id :: ids) acs /\
      rcTotal cat' = rcTotal cat + foldr Z.add 0 (acCount <$> acs) /\
      rcRegionID cat' = rcRegionID cat /\ rcEmpty cat' = rcEmpty cat /\ rcMessage cat' = rcMessage cat).
  { intros ac n Hac <-. edestruct IH as (r & -> & Hr). exists r. split; [done|]. intros cat' E.
    destruct (Hr cat' E) as (acs & H1 & H2 & H3 & H4 & H5 & H6). simpl in *. exists (ac :: acs).
    split_and!; [by rewrite H1, <-app_assoc|by constructor|rewrite fmap_cons; simpl; lia|done..]. }
  unfold catalogued in Hstep. destruct (agencies p !! id) as [d|] eqn:Hd; [|apply Hstep; simpl; [by split_and!|done]].
  unfold summarizeAgencyFeed.
  destruct (SummarizeChangeFeed_spec (Some agencyTimestampNS) d fuel) as (sum & e & -> & Hsum); [by apply (Hf id)|].
  destruct e as [e|]; [by eexists (Err _)|]. destruct (Hsum eq_refl) as [(Hc & _) _].
  apply Hstep; [|done]. simpl. split; [done|]. split; [done|]. by eexists.
Qed.

(** The catalogue of a region.  With fuel for the feeds it returns; without
    an error it lists the region's agencies in order, each with the number of
    puts of its feed (0 without a store), their sum as the total, and it is
    empty, with a message, exactly when the total is 0. *)
Theorem catalog_for_region fuel regionID p : fueled fuel p ->
  exists r, CatalogForRegion fuel regionID p = Some r /\
    forall cat, r = Ok cat -> exists region, RegionByID regionID = Ok region /\ rcRegionID cat = rID region /\
      Forall2 (catalogued p) (rAgencies region) (rcAgencies cat) /\
      rcTotal cat = foldr Z.add 0 (acCount <$> rcAgencies cat) /\
      (rcEmpty cat = true <-> rcTotal cat = 0) /\ (rcEmpty cat = true <-> rcMessage cat <> "").
Proof.
  intros Hf. unfold CatalogForRegion. destruct (RegionByID regionID) as [region|] eqn:Hr; [|by eexists].
  set (cat0 := {| rcRegionID := rID region |}).
  destruct (catalog_loop_spec fuel (rAgencies region) p cat0 Hf) as (r & -> & Hres).
  destruct r as [cat|e]; [|by eexists]. eexists. split; [done|]. intros cat' [= <-].
  destruct (Hres cat eq_refl) as (acs & Hacs & Hall & Htot & Hid & Hem & Hmsg). simpl in *.
  exists region. split; [done|]. rewrite app_nil_l in Hacs || idtac. subst acs.
  destruct (Z.eqb_spec (rcTotal cat) 0) as [E|E]; simpl.
  - split_and!; [done|done|done|done|done].
  - split_and!; [done|done|done|by rewrite Hem|by rewrite Hem, Hmsg].
Qed.
End CatalogProofs.

(** ** Concrete replays *)

#[local] Existing Instance MemStore.isledb.
#[local] Existing Instance canonical_range.

Definition national : ReplayOptions :=
  {| RegionID := "national"; roSpeed := 10; roFrom := zero_time; roTo := zero_time |}.

Lemma fueled_flushed : fueled (I := MemStore.isledb) 5 flushed.
Proof.
  intros id d Hd. apply Nat.ltb_lt. revert id d Hd. apply map_Forall_lookup.
  apply (bool_decide_unpack _). vm_compute. exact I.
Qed.

Definition build_flushed := buildReplayFrames (SS := merge_slice_sort false) 5 national flushed.

Lemma build_flushed_times :
  match build_flushed with Some (Ok frames, _) => frAt <$> frames | _ => [] end = [90 * second; 100 * second].
Proof. vm_compute. reflexivity. Qed.

Lemma build_flushed_ok : exists frames p', build_flushed = Some (Ok frames, p') /\
  frAt <$> frames = [90 * second; 100 * second].
Proof.
  pose proof build_flushed_times as H. destruct build_flushed as [[[frames|e] p']|]; try discriminate H. eauto.
Qed.

Lemma replay_frames_witness : exists frames p', build_flushed = Some (Ok frames, p') /\
  frAt <$> frames = [90 * second; 100 * second] /\ Forall frame_ok frames.
Proof.
  destruct (replay_frames (SS := merge_slice_sort false) (L := MemStore.laws) 5 national flushed fueled_flushed)
    as (r & p' & Hb & Hok).
  destruct build_flushed_ok as (frames & p1 & Hb1 & Ht). pose proof Hb1 as Hb2. unfold build_flushed in Hb2.
  rewrite Hb in Hb2. injection Hb2 as -> ->.
  exists frames, p1. split; [exact Hb1|]. split; [exact Ht|].
  destruct (Hok frames eq_refl) as (_ & _ & _ & _ & _ & Hall). exact Hall.
Defined.

Definition play (from : time) :=
  RunReplay (SS := merge_slice_sort false) never_cancelled record_frame 5 (with_from from national) flushed [].

Lemma play_runs from : match play from with Some ((None, _), _) => true | _ => false end = true ->
  exists full p', play from = Some ((None, full), p').
Proof. destruct (play from) as [[[[e|] full] p']|]; [done| |done]. eauto. Qed.

(** Resuming after the first of the two frames. *)
Lemma replay_resume_witness : exists full res p' k,
  play zero_time = Some ((None, full), p') /\ play (95 * second) = Some ((None, res), p') /\
  content <$> res = drop k (content <$> full).
Proof.
  destruct (play_runs zero_time) as (full & p' & Hfull); [vm_compute; reflexivity|].
  destruct (replay_resume (SS := merge_slice_sort false) 5 national flushed (95 * second) full p')
    as (res & k & Hres & Hc & _); [discriminate|exact Hfull|].
  exists full, res, p', k. split; [exact Hfull|]. split; [exact Hres|exact Hc].
Defined.

Lemma replay_shows_latest_witness : exists (frames : list replayFrameBucket) full p',
  play zero_time = Some ((None, full), p') /\ length full = length frames /\ length frames = 2%nat.
Proof.
  destruct (replay_shows_latest (SS := merge_slice_sort false) (L := MemStore.laws) 5 national flushed fueled_flushed)
    as (r & p' & Hb & Hok).
  destruct build_flushed_ok as (frames & p1 & Hb1 & Ht). unfold build_flushed in Hb1. rewrite Hb in Hb1. injection Hb1 as -> ->.
  destruct Hok as (region & full & _ & Hrun & Hl & _). exists frames, full, p1. split; [exact Hrun|]. split; [exact Hl|].
  rewrite <-(length_fmap frAt), Ht. reflexivity.
Defined.

Lemma catalog_for_region_witness : exists cat, CatalogForRegion 5 "national" flushed = Some (Ok cat) /\
  rcTotal cat = foldr Z.add 0 (acCount <$> rcAgencies cat) /\ rcTotal cat = 2.
Proof.
  destruct (catalog_for_region (L := MemStore.laws) 5 "national" flushed fueled_flushed) as (r & Hr & Hok).
  assert (Hc : match CatalogForRegion 5 "national" flushed with Some (Ok cat) => rcTotal cat | _ => -1 end = 2)
    by (vm_compute; reflexivity).
  rewrite Hr in Hc. destruct r as [cat|e]; [|discriminate Hc]. exists cat. split; [exact Hr|].
  destruct (Hok cat eq_refl) as (_ & _ & _ & _ & Ht & _). split; [exact Ht|exact Hc].
Defined.

(** Two positions of one vehicle within one second, in writer order. *)
Definition within_a_second : list VehiclePosition :=
  let at_ms ms lat := {| Agency := "ktmb"; VehicleID := "E1"; Lat := lat; Lng := f64_of_Z 101; Bearing := f64_zero;
                         Speed := f64_zero; Route := "R"; Trip := ""; Timestamp := 100 * second + ms * millisecond |} in
  [at_ms 200 (f64_of_Z 3); at_ms 800 (f64_of_Z 4)].

Definition tied : Pipeline := (FlushAll (Write within_a_second (zero_pipeline two_stores)).2).2.

(** The milliseconds of the position a replay ends on. *)
Definition ends_on (reversed : bool) : list Z :=
  match RunReplay (SS := merge_slice_sort reversed) never_cancelled record_frame 5 national tied [] with
  | Some ((None, full), _) => match last full with
                              | Some (vs, _) => (fun v => (Timestamp v - 100 * second) / millisecond) <$> vs
                              | None => []
                              end
  | _ => []
  end.

(** Mutations of a vehicle within one second may be replayed against the order
    they were written in: the sort ties them and promises nothing on ties, so
    one legal sort ends on the newer position and another on the older one. *)
Lemma replay_ties : ends_on false = [800] /\ ends_on true = [200].
Proof. split; vm_compute; reflexivity. Qed.
