(* ===== verification/PollLoop.v ===== *)
(** * The poll loop (cmd/demo/main.go, internal/demo/health.go)

    One cycle of the demo's scheduler: plan a region, poll its feeds, write and
    flush what they report, mark the region and notify the viewers; and the
    write-health tracker behind the liveness probe. *)

From S2P Require Import Prelude GoStrings Json Vehicle Regions Poller IsleDB ChangeFeed Session Coordinator LivePipeline.

(** ** Write health (health.go) *)

Definition DefaultWriteHealthThreshold : Z := 3.

Record WriteHealth := { threshold : Z; consecutiveFailures : Z; lastErr : option error }.

Definition NewWriteHealth (n : Z) : WriteHealth :=
  {| threshold := if n <=? 0 then DefaultWriteHealthThreshold else n; consecutiveFailures := 0; lastErr := None |}.

Definition RecordSuccess (h : WriteHealth) : WriteHealth :=
  {| threshold := threshold h; consecutiveFailures := 0; lastErr := None |}.

Definition RecordFailure (e : error) (h : WriteHealth) : WriteHealth :=
  {| threshold := threshold h; consecutiveFailures := wrap64 (consecutiveFailures h + 1); lastErr := Some e |}.

Definition Healthy (h : WriteHealth) : bool := consecutiveFailures h <? threshold h.

Definition Status (h : WriteHealth) : Z * option error := (consecutiveFailures h, lastErr h).

(** main.go: the status code and the members of the body. *)
Definition healthzHandler (h : WriteHealth) : Z * list (string * json) :=
  let '(failures, lastErr) := Status h in
  let '(code, status) := if negb (Healthy h) then (503, "unhealthy") else (200, "ok") in
  (code, [("consecutive_failures", JInt failures)] ++
         match lastErr with Some e => [("last_error", enc_str (Error e))] | None => [] end ++
         [("status", JStr status)]).

(** ** The loop (main.go) *)

Section PollLoop.
Context {MR : MapRange} {I : IsleDB}.
Variable unmarshal : string -> result FeedMessage.
Variable backoff : Backoff.
Variable clock : nat -> time.
Variable disk : nat -> disk_io.

Record LoopState := {
  lPipe : Pipeline;
  lCoord : PollCoordinator;
  lHealth : WriteHealth;
  lStopped : bool;      (* [stop] was called *)
  lNotified : nat       (* calls of [NotifyPoll] *)
}.

(** What the outside world gives one cycle: the requests of the polls, the
    context's state after them, and the time the poll is marked at. *)
Record cycle := {
  cSeqErr : nat -> option error;
  cEnvs : nat -> PollEnv;
  cCtxErr : option error;
  cNow : time
}.

(** [stopIfWriterDead]. *)
Definition writer_dead (e : error) : bool := errors_Is e SWriterFailed || errors_Is e SWriterClosed.

Definition with_pipe (p : Pipeline) (s : LoopState) : LoopState :=
  {| lPipe := p; lCoord := lCoord s; lHealth := lHealth s; lStopped := lStopped s; lNotified := lNotified s |}.

Definition write_failed (e : error) (p : Pipeline) (s : LoopState) : LoopState :=
  {| lPipe := p; lCoord := lCoord s; lHealth := RecordFailure e (lHealth s);
     lStopped := lStopped s || writer_dead e; lNotified := lNotified s |}.

(** [pipe.SetLastPoll(now); coordinator.MarkPolled(regionIDs, now)] *)
Definition mark_done (regionIDs : list string) (now : time) (h : WriteHealth) (p : Pipeline) (s : LoopState) : LoopState :=
  {| lPipe := SetLastPoll now p; lCoord := MarkPolled regionIDs now (lCoord s); lHealth := h;
     lStopped := lStopped s; lNotified := lNotified s |}.

(** The positions of the feeds that did not fail, in order. *)
Definition polled_positions (results : list PollResult) : list VehiclePosition :=
  List.concat (map prPositions (List.filter (fun r => bool_decide (prErr r = None)) results)).

Definition runPoll (env : cycle) (feeds : list Feed) (regionIDs : list string) (s : LoopState) : LoopState :=
  if bool_decide (feeds = []) then s
  else
    let p := SetLastPolledAgencies (AgencyIDs feeds) (lPipe s) in
    let all := polled_positions (PollSequential unmarshal backoff (cSeqErr env) (cEnvs env) feeds) in
    if bool_decide (is_Some (cCtxErr env)) then with_pipe p s
    else if bool_decide (all = []) then mark_done regionIDs (cNow env) (lHealth s) p s
    else
      match Write all p with
      | ((_, Some e), p) => write_failed e p s
      | ((_, None), p) =>
          match FlushAll p with
          | (Some e, p) => write_failed e p s
          | (None, p) =>
              let s := mark_done regionIDs (cNow env) (RecordSuccess (lHealth s)) p s in
              {| lPipe := lPipe s; lCoord := lCoord s; lHealth := lHealth s; lStopped := lStopped s;
                 lNotified := S (lNotified s) |}
          end
      end.

Definition scheduled (env : cycle) (now : time) (w : World) (s : LoopState) : LoopState * World :=
  match FeedsForScheduledPoll clock disk (lCoord s) now w with
  | (Err _, w) => (s, w)
  | (Ok (feeds, regions), w) => (runPoll env feeds regions s, w)
  end.

Definition forRegion (env : cycle) (now : time) (regionID : string) (w : World) (s : LoopState) : LoopState * World :=
  match FeedsForRegionSwitch clock disk (lCoord s) now regionID w with
  | (Err _, w) => (s, w)
  | (Ok (feeds, regions), w) => if bool_decide (feeds = []) then (s, w) else (runPoll env feeds regions s, w)
  end.

(** ** What a cycle does *)

(** The positions the cycle would store. *)
Definition cycle_positions (env : cycle) (feeds : list Feed) : list VehiclePosition :=
  polled_positions (PollSequential unmarshal backoff (cSeqErr env) (cEnvs env) feeds).

(** C23: the outcome of a cycle, on every branch.  Without feeds nothing changes.
    When the context has ended once the feeds are polled, only the agencies being
    polled are recorded: nothing is written, marked, notified or counted.  With
    the context alive, the cycle marks its regions exactly when the positions it
    polled, if any, were all written and flushed; only then does it notify
    the viewers (if it stored something) and reset the failure count; a failed
    write or flush counts one failure, marks nothing, and stops the loop
    exactly when the writer is dead for good; a cycle without positions marks
    the regions and leaves the health as it was. *)
Theorem run_poll_outcome env feeds regionIDs s :
  let s' := runPoll env feeds regionIDs s in
  let all := cycle_positions env feeds in
  let p0 := SetLastPolledAgencies (AgencyIDs feeds) (lPipe s) in
  let marked := lCoord s' = MarkPolled regionIDs (cNow env) (lCoord s) /\ lastPollAt (lPipe s') = cNow env in
  (feeds = [] -> s' = s) /\
  (feeds <> [] -> is_Some (cCtxErr env) ->
     lPipe s' = p0 /\ lCoord s' = lCoord s /\ lHealth s' = lHealth s /\ lStopped s' = lStopped s /\ lNotified s' = lNotified s) /\
  (feeds <> [] -> cCtxErr env = None -> all = [] ->
     marked /\ lHealth s' = lHealth s /\ lNotified s' = lNotified s /\ lStopped s' = lStopped s) /\
  (feeds <> [] -> cCtxErr env = None -> all <> [] -> (Write all p0).1.2 = None -> (FlushAll (Write all p0).2).1 = None ->
     marked /\ lHealth s' = RecordSuccess (lHealth s) /\ lNotified s' = S (lNotified s) /\ lStopped s' = lStopped s) /\
  (forall e, feeds <> [] -> cCtxErr env = None -> all <> [] ->
     (Write all p0).1.2 = Some e \/ (Write all p0).1.2 = None /\ (FlushAll (Write all p0).2).1 = Some e ->
     lCoord s' = lCoord s /\ lHealth s' = RecordFailure e (lHealth s) /\ lNotified s' = lNotified s /\
     lStopped s' = (lStopped s || writer_dead e)).
Proof.
  cbn zeta. unfold runPoll. case_bool_decide as Hf; [by subst|]. fold (cycle_positions env feeds).
  set (p0 := SetLastPolledAgencies _ _). destruct (cCtxErr env) as [e0|].
  { rewrite bool_decide_true by eauto. by split_and!. }
  rewrite bool_decide_false by (by intros []%is_Some_None). split; [done|]. split; [by intros _ []%is_Some_None|].
  destruct (cycle_positions env feeds) as [|pos all] eqn:E.
  - split_and!; [done..|]; by intros.
  - rewrite bool_decide_false by done. destruct (Write (pos :: all) p0) as [[n [e|]] p1] eqn:Hw; simpl.
    + split_and!; [done..|]. intros e' _ _ _ [[= ->]|[? _]]; done.
    + destruct (FlushAll p1) as [[e|] p2] eqn:Hfl; simpl.
      * split_and!; [done..|]. intros e' _ _ _ [?|[_ [= ->]]]; done.
      * split_and!; [done..|]. intros e' _ _ _ [?|[_ ?]]; done.
Qed.

(** ** Health over a run *)

(** An outcome of a write cycle: success, or failure with its error. *)
Definition record (h : WriteHealth) (o : option error) : WriteHealth :=
  match o with None => RecordSuccess h | Some e => RecordFailure e h end.

(** The length of the run of failures at the end. *)
Fixpoint failures_from (n : Z) (os : list (option error)) : Z :=
  match os with
  | [] => n
  | None :: os => failures_from 0 os
  | Some _ :: os => failures_from (n + 1) os
  end.

Lemma failures_from_bound n os : 0 <= n -> 0 <= failures_from n os <= n + Z.of_nat (length os).
Proof.
  revert n. induction os as [|[e|] os IH]; intros n Hn; simpl; [lia|..].
  - specialize (IH (n + 1) ltac:(lia)). lia.
  - specialize (IH 0 ltac:(lia)). lia.
Qed.

Lemma record_failures os h : 0 <= consecutiveFailures h -> consecutiveFailures h + Z.of_nat (length os) <= int64_max ->
  consecutiveFailures (foldl record h os) = failures_from (consecutiveFailures h) os /\
  threshold (foldl record h os) = threshold h.
Proof.
  revert h. induction os as [|o os IH]; intros h Hh Hb; cbn [foldl failures_from]; [done|]. simpl length in Hb.
  destruct o as [e|]; simpl.
  - destruct (IH (RecordFailure e h)) as [H1 H2]; simpl; rewrite ?wrap64_id by (unfold in_int64, int64_min in *; lia); [lia..|].
    simpl in H1. rewrite wrap64_id in H1 by (unfold in_int64, int64_min in *; lia). done.
  - destruct (IH (RecordSuccess h)) as [H1 H2]; simpl; [lia..|]. done.
Qed.

(** The liveness probe reports 200 until the last [threshold] outcomes were
    all failures, and 503 from then until the next success; the default
    threshold is three failures in a row. *)
Theorem healthz_reports n os :
  Z.of_nat (length os) <= int64_max ->
  let h := foldl record (NewWriteHealth n) os in
  (healthzHandler h).1 = (if failures_from 0 os <? (if n <=? 0 then 3 else n) then 200 else 503) /\
  (forall e es, 2 <= Z.of_nat (length es) -> n <= 0 -> os = es ++ [Some e] -> Forall is_Some es -> (healthzHandler h).1 = 503) /\
  (forall es, os = es ++ [None] -> (healthzHandler h).1 = 200).
Proof.
  intros Hb h. destruct (record_failures os (NewWriteHealth n)) as [Hc Ht]; [done|done|].
  assert (Hcode : (healthzHandler h).1 = (if failures_from 0 os <? (if n <=? 0 then 3 else n) then 200 else 503)).
  { unfold healthzHandler, Status, Healthy. fold h in Hc, Ht. rewrite Hc, Ht. simpl.
    by destruct (failures_from 0 os <? _). }
  split; [done|]. rewrite Hcode. split.
  - intros e es Hl Hn -> Hes. rewrite (proj2 (Z.leb_le n 0)) by done.
    assert (Hf : forall k, Forall is_Some es -> failures_from k (es ++ [Some e]) = k + Z.of_nat (length es) + 1).
    { clear. induction es as [|o es IH]; intros k H; simpl; [lia|]. apply Forall_cons in H as [[x ->] H]. rewrite IH by done. lia. }
    rewrite Hf by done. by rewrite (proj2 (Z.ltb_ge _ _)) by lia.
  - intros es ->. assert (Hf : forall k, failures_from k (es ++ [None]) = 0).
    { clear. induction es as [|[] es IH]; intros k; simpl; done. }
    rewrite Hf. destruct (Z.leb_spec n 0); [done|]. by rewrite (proj2 (Z.ltb_lt _ _)).
Qed.

(** ** A position that cannot be stored *)

(** A position whose timestamp or coordinates JSON cannot express. *)
Lemma write_loop_poison ps puts p : Exists (fun pos => encodable pos = false) ps ->
  exists n e p', write_loop ps puts p = ((n, Some e), p').
Proof.
  intros Hex. revert puts p. induction Hex as [pos ps Hp|pos ps _ IH]; intros puts p; cbn [write_loop].
  - destruct (agencies p !! Agency pos) as [aw|]; [|by eexists _, _, _].
    destruct (ValueBytes pos) as [v|] eqn:Hv; [|by eexists _, _, _].
    assert (encodable pos = true) by (apply ValueBytes_ok; eauto). congruence.
  - destruct (agencies p !! Agency pos) as [aw|]; [|by eexists _, _, _].
    destruct (ValueBytes pos) as [v|]; [|by eexists _, _, _].
    destruct (writer_put _ v aw) as [[e|] aw']; [by eexists _, _, _|apply IH].
Qed.

(** One position that cannot be marshalled fails the whole cycle, whatever
    the store does: the region is not marked, so it is due again at the next
    tick, nobody is notified, and a failure is counted although the writer
    works; three such cycles in a row make the probe report 503. *)
Theorem poison_position_fails_cycle env feeds regionIDs s :
  feeds <> [] -> cCtxErr env = None -> Exists (fun pos => encodable pos = false) (cycle_positions env feeds) ->
  exists e, let s' := runPoll env feeds regionIDs s in
    lCoord s' = lCoord s /\ lHealth s' = RecordFailure e (lHealth s) /\ lNotified s' = lNotified s /\
    forall env2 env3,
      cCtxErr env2 = None -> Exists (fun pos => encodable pos = false) (cycle_positions env2 feeds) ->
      cCtxErr env3 = None -> Exists (fun pos => encodable pos = false) (cycle_positions env3 feeds) ->
      lHealth s = NewWriteHealth 0 ->
      (healthzHandler (lHealth (runPoll env3 feeds regionIDs (runPoll env2 feeds regionIDs s')))).1 = 503.
Proof.
  intros Hf Hc Hp.
  assert (Hone : forall env s, cCtxErr env = None -> Exists (fun pos => encodable pos = false) (cycle_positions env feeds) ->
    exists e, lCoord (runPoll env feeds regionIDs s) = lCoord s /\
      lHealth (runPoll env feeds regionIDs s) = RecordFailure e (lHealth s) /\
      lNotified (runPoll env feeds regionIDs s) = lNotified s).
  { clear. intros env s Hc Hp. destruct feeds as [|f feeds]; [by apply Exists_nil in Hp|].
    unfold runPoll. rewrite bool_decide_false by done. rewrite Hc, bool_decide_false by (by intros []%is_Some_None).
    fold (cycle_positions env (f :: feeds)). rewrite bool_decide_false by (intros E; rewrite E in Hp; by apply Exists_nil in Hp).
    destruct (write_loop_poison _ 0 (SetLastPolledAgencies (AgencyIDs (f :: feeds)) (lPipe s)) Hp) as (n & e & p' & Hw).
    unfold Write. rewrite Hw. by exists e. }
  destruct (Hone env s Hc Hp) as (e & H1 & H2 & H3). exists e. split_and!; [done..|].
  intros env2 env3 Hc2 Hp2 Hc3 Hp3 Hh.
  destruct (Hone env2 (runPoll env feeds regionIDs s) Hc2 Hp2) as (e2 & _ & H2' & _).
  destruct (Hone env3 (runPoll env2 feeds regionIDs (runPoll env feeds regionIDs s)) Hc3 Hp3) as (e3 & _ & H3' & _).
  rewrite H3', H2', H2, Hh. by vm_compute.
Qed.

End PollLoop.

(** ** Concrete cycles *)

(** A feed body is the Unix time, in seconds, of its one vehicle. *)
Definition one_vehicle (body : string) : result FeedMessage :=
  Ok [{| entityId := Some "E1";
         entityVehicle := Some {| vmPosition := Some {| latitude := Some (f64_of_Z 3); longitude := Some (f64_of_Z 101);
                                                        bearing := None; speed := None |};
                                  vmVehicle := None; vmTrip := None; vmTimestamp := Some (parse_int body).1 |} |}].

Definition cycle_of (body : string) : cycle :=
  {| cSeqErr := fun _ => None; cEnvs := fun _ => calm_env (fun _ => Response 200 "" (Ok body));
     cCtxErr := None; cNow := noon |}.

Definition good_cycle : cycle := cycle_of "1785000000".
Definition poison_cycle : cycle := cycle_of "1785000000000".

#[local] Existing Instance MemStore.isledb.
#[local] Existing Instance canonical_range.

Definition loop_start : LoopState :=
  {| lPipe := zero_pipeline {[ "ktmb" := MemStore.empty ]}; lCoord := NewPollCoordinator 0;
     lHealth := NewWriteHealth 0; lStopped := false; lNotified := 0 |}.

(** The same cycle in a context that has ended. *)
Definition ended_cycle : cycle :=
  {| cSeqErr := cSeqErr good_cycle; cEnvs := cEnvs good_cycle; cCtxErr := Some (Sentinel SCanceled "context canceled"); cNow := noon |}.

Lemma run_poll_outcome_witness :
  (let s' := runPoll one_vehicle DefaultBackoff good_cycle [ktmb] ["national"] loop_start in
   lCoord s' = MarkPolled ["national"] noon (lCoord loop_start) /\ lNotified s' = 1%nat /\
   lHealth s' = RecordSuccess (lHealth loop_start)) /\
  (let s' := runPoll one_vehicle DefaultBackoff ended_cycle [ktmb] ["national"] loop_start in
   lCoord s' = lCoord loop_start /\ lNotified s' = 0%nat).
Proof.
  split.
  - pose proof (run_poll_outcome one_vehicle DefaultBackoff good_cycle [ktmb] ["national"] loop_start) as (_ & _ & _ & H & _).
    destruct H as ((H1 & _) & H2 & H3 & _).
    + discriminate.
    + reflexivity.
    + vm_compute. discriminate.
    + vm_compute. reflexivity.
    + vm_compute. reflexivity.
    + split; [exact H1|]. split; [exact H3|exact H2].
  - pose proof (run_poll_outcome one_vehicle DefaultBackoff ended_cycle [ktmb] ["national"] loop_start) as (_ & H & _).
    destruct H as (_ & H1 & _ & _ & H2); [discriminate|by eexists|]. split; [exact H1|exact H2].
Defined.

Lemma healthz_reports_witness :
  (healthzHandler (foldl record (NewWriteHealth 0) [None; Some (Errorf "a"); Some (Errorf "b"); Some (Errorf "c")])).1 = 503.
Proof.
  rewrite (proj1 (healthz_reports 0 [None; Some (Errorf "a"); Some (Errorf "b"); Some (Errorf "c")]
    ltac:(unfold int64_max; simpl; lia))).
  reflexivity.
Defined.

Lemma poison_position_fails_cycle_witness :
  (healthzHandler (lHealth
     (runPoll one_vehicle DefaultBackoff poison_cycle [ktmb] ["national"]
       (runPoll one_vehicle DefaultBackoff poison_cycle [ktmb] ["national"]
         (runPoll one_vehicle DefaultBackoff poison_cycle [ktmb] ["national"] loop_start))))).1 = 503.
Proof.
  assert (Hp : Exists (fun pos => encodable pos = false) (cycle_positions one_vehicle DefaultBackoff poison_cycle [ktmb])).
  { apply Exists_exists. eexists. split; [by left|]. vm_compute. reflexivity. }
  destruct (poison_position_fails_cycle one_vehicle DefaultBackoff poison_cycle [ktmb] ["national"] loop_start
    ltac:(discriminate) eq_refl Hp) as (e & _ & _ & _ & H).
  exact (H poison_cycle poison_cycle eq_refl Hp eq_refl Hp eq_refl).
Defined.
