(* ===== verification/Notify.v ===== *)
(** * Poll notifications (internal/demo/pipeline.go)

    [NotifyPoll] and [SubscribePolls]: the list of subscriber channels, the
    goroutine each subscription starts, and the notifications in progress.  The
    model is a labelled step function on the shared state: an action is one
    critical section or one channel operation, and a trace is an interleaving
    of the goroutines.  A send on a closed channel panics. *)

From S2P Require Import Prelude.

(** [make(chan struct{}, 1)] *)
Definition pollCap : nat := 1.

Record chan := { buffered : nat; isClosed : bool }.
Definition make_chan : chan := {| buffered := 0; isClosed := false |}.

(** [select { case ch <- struct{}{}: default: }]: [None] is the panic. *)
Definition try_send (c : chan) : option chan :=
  if isClosed c then None
  else if bool_decide (buffered c < pollCap)%nat then Some {| buffered := S (buffered c); isClosed := false |}
  else Some c.

(** [<-ch]: a signal, the closed channel, or blocked. *)
Inductive received := Signalled (c : chan) | WasClosed | Blocked.
Definition receive (c : chan) : received :=
  match buffered c with
  | S n => Signalled {| buffered := n; isClosed := isClosed c |}
  | O => if isClosed c then WasClosed else Blocked
  end.

(** Where the goroutine of a subscription is: before [<-ctx.Done()], after its
    critical section, after [close(ch)]. *)
Inductive watcher := Waiting | Unlisted | Exited.

(** Channels and notifying goroutines are named by numbers; [notifying] has the
    part of its copy of [pollSubs] each notification has still to signal. *)
Record hub := {
  pollSubs : list nat;
  chans : gmap nat chan;
  watchers : gmap nat watcher;
  cancelled : gset nat;
  notifying : gmap nat (list nat)
}.

Definition empty_hub : hub :=
  {| pollSubs := []; chans := ∅; watchers := ∅; cancelled := ∅; notifying := ∅ |}.

Inductive action :=
  | Subscribe (ch : nat)
  | Cancel (ch : nat)
  | Unsubscribe (ch : nat)
  | Close (ch : nat)
  | Copy (t : nat)
  | Signal (t : nat)
  | Receive (ch : nat).

#[export] Instance action_eq_dec : EqDecision action.
Proof. solve_decision. Defined.

Inductive outcome := Running (h : hub) | Panicked.

(** The loop that deletes the first entry equal to the channel. *)
Fixpoint remove_sub (ch : nat) (subs : list nat) : list nat :=
  match subs with
  | [] => []
  | sub :: subs => if decide (sub = ch) then subs else sub :: remove_sub ch subs
  end.

(** ** SubscribePolls *)

Definition subscribe (ch : nat) (h : hub) : option hub :=
  match chans h !! ch with
  | Some _ => None
  | None =>
      Some {| pollSubs := pollSubs h ++ [ch]; chans := <[ch := make_chan]> (chans h);
              watchers := <[ch := Waiting]> (watchers h); cancelled := cancelled h; notifying := notifying h |}
  end.

(** The context of the subscription ends. *)
Definition cancel (ch : nat) (h : hub) : option hub :=
  Some {| pollSubs := pollSubs h; chans := chans h; watchers := watchers h;
          cancelled := {[ch]} ∪ cancelled h; notifying := notifying h |}.

Definition unsubscribe (ch : nat) (h : hub) : option hub :=
  match watchers h !! ch with
  | Some Waiting =>
      if decide (ch ∈ cancelled h) then
        Some {| pollSubs := remove_sub ch (pollSubs h); chans := chans h;
                watchers := <[ch := Unlisted]> (watchers h); cancelled := cancelled h; notifying := notifying h |}
      else None
  | _ => None
  end.

Definition close_chan (ch : nat) (h : hub) : option hub :=
  match watchers h !! ch, chans h !! ch with
  | Some Unlisted, Some c =>
      Some {| pollSubs := pollSubs h; chans := <[ch := {| buffered := buffered c; isClosed := true |}]> (chans h);
              watchers := <[ch := Exited]> (watchers h); cancelled := cancelled h; notifying := notifying h |}
  | _, _ => None
  end.

(** ** NotifyPoll *)

(** The critical section: [subs := append([]chan struct{}(nil), p.pollSubs...)]. *)
Definition copy_subs (t : nat) (h : hub) : option hub :=
  match notifying h !! t with
  | Some (_ :: _) => None
  | _ => Some {| pollSubs := pollSubs h; chans := chans h; watchers := watchers h; cancelled := cancelled h;
                 notifying := <[t := pollSubs h]> (notifying h) |}
  end.

(** One iteration of the loop over the copy. *)
Definition signal (t : nat) (h : hub) : option outcome :=
  match notifying h !! t with
  | Some (ch :: subs) =>
      match chans h !! ch with
      | Some c =>
          match try_send c with
          | None => Some Panicked
          | Some c' =>
              Some (Running {| pollSubs := pollSubs h; chans := <[ch := c']> (chans h); watchers := watchers h;
                               cancelled := cancelled h; notifying := <[t := subs]> (notifying h) |})
          end
      | None => None
      end
  | _ => None
  end.

(** The subscriber takes a signal; a receive that finds the channel closed and
    empty leaves it so. *)
Definition receive_poll (ch : nat) (h : hub) : option hub :=
  match chans h !! ch with
  | Some c =>
      match receive c with
      | Signalled c' => Some {| pollSubs := pollSubs h; chans := <[ch := c']> (chans h); watchers := watchers h;
                                cancelled := cancelled h; notifying := notifying h |}
      | WasClosed => Some h
      | Blocked => None
      end
  | None => None
  end.

(** ** Steps and traces *)

Definition step (a : action) (h : hub) : option outcome :=
  match a with
  | Subscribe ch => Running <$> subscribe ch h
  | Cancel ch => Running <$> cancel ch h
  | Unsubscribe ch => Running <$> unsubscribe ch h
  | Close ch => Running <$> close_chan ch h
  | Copy t => Running <$> copy_subs t h
  | Signal t => signal t h
  | Receive ch => Running <$> receive_poll ch h
  end.

Inductive exec : list action -> hub -> hub -> Prop :=
  | exec_nil h : exec [] h h
  | exec_cons a l h h1 h2 : step a h = Some (Running h1) -> exec l h1 h2 -> exec (a :: l) h h2.

Definition reachable (h : hub) : Prop := exists l, exec l empty_hub h.

(** [NotifyPoll] alone: the copy and a signal for each entry. *)
Definition NotifyPoll (t : nat) (h : hub) : list action := Copy t :: replicate (length (pollSubs h)) (Signal t).

(** ** The invariant *)

Definition listed_ok (h : hub) : Prop :=
  forall ch, ch ∈ pollSubs h -> watchers h !! ch = Some Waiting.
Definition chan_ok (h : hub) : Prop :=
  forall ch, match chans h !! ch, watchers h !! ch with
             | Some c, Some w => (buffered c <= pollCap)%nat /\ (isClosed c = true <-> w = Exited) /\
                                 (w <> Waiting -> ch ∈ cancelled h)
             | None, None => True
             | _, _ => False
             end.
Definition copies_ok (h : hub) : Prop :=
  forall t subs ch, notifying h !! t = Some subs -> ch ∈ subs -> is_Some (chans h !! ch).

Record hub_ok (h : hub) : Prop := {
  ok_nodup : NoDup (pollSubs h);
  ok_listed : listed_ok h;
  ok_chans : chan_ok h;
  ok_copies : copies_ok h
}.

Lemma remove_sub_subset ch subs x : x ∈ remove_sub ch subs -> x ∈ subs.
Proof.
  induction subs as [|sub subs IH]; cbn [remove_sub]; [done|]. case_decide; rewrite !elem_of_cons; tauto.
Qed.

Lemma remove_sub_nodup ch subs : NoDup subs -> NoDup (remove_sub ch subs) /\ ch ∉ remove_sub ch subs.
Proof.
  induction 1 as [|sub subs Hin Hnd [IH1 IH2]]; cbn [remove_sub]; [split; [constructor|set_solver]|].
  case_decide as E; [by subst sub|]. split; [constructor; [|done]|rewrite not_elem_of_cons; by split].
  by intros ?%remove_sub_subset.
Qed.

Lemma try_send_spec c c' :
  try_send c = Some c' ->
  isClosed c = false /\ isClosed c' = false /\ (0 < buffered c')%nat /\ ((buffered c <= pollCap)%nat -> (buffered c' <= pollCap)%nat).
Proof.
  unfold try_send. destruct (isClosed c) eqn:E; [done|].
  case_bool_decide as Hb; intros [= <-]; cbn [isClosed buffered]; unfold pollCap in *; repeat split; auto; lia.
Qed.

Lemma listed_chan h ch : hub_ok h -> ch ∈ pollSubs h -> exists c, chans h !! ch = Some c /\ isClosed c = false.
Proof.
  intros Hok Hin. pose proof (ok_listed _ Hok _ Hin) as Hw. pose proof (ok_chans _ Hok ch) as Hc. rewrite Hw in Hc.
  destruct (chans h !! ch) as [c|]; [|done]. exists c. split; [done|]. destruct Hc as (_ & Hc & _).
  destruct (isClosed c); [|done]. by discriminate (proj1 Hc eq_refl).
Qed.

(** An update of one channel that keeps whether it is closed, and its bound. *)
Lemma chan_ok_update h ch c c' :
  chan_ok h -> chans h !! ch = Some c -> isClosed c' = isClosed c -> (buffered c' <= pollCap)%nat ->
  forall subs notes, chan_ok {| pollSubs := subs; chans := <[ch := c']> (chans h); watchers := watchers h;
                                cancelled := cancelled h; notifying := notes |}.
Proof.
  intros Hc E Ecl Hb subs notes x; cbn. specialize (Hc x). destruct (decide (x = ch)) as [->|Hne].
  - rewrite lookup_insert_eq. rewrite E in Hc. destruct (watchers h !! ch); [|done]. rewrite Ecl. tauto.
  - by rewrite lookup_insert_ne.
Qed.

Lemma is_some_insert (m : gmap nat chan) ch c x : is_Some (m !! x) -> is_Some (<[ch := c]> m !! x).
Proof. intros H. rewrite lookup_insert_is_Some. destruct (decide (ch = x)); auto. Qed.

Lemma subscribe_ok ch h h' : subscribe ch h = Some h' -> hub_ok h -> hub_ok h'.
Proof.
  unfold subscribe. destruct (chans h !! ch) eqn:Ech; [done|]. intros [= <-] [Hnd Hl Hc Hcp].
  assert (Hw : watchers h !! ch = None). { specialize (Hc ch). rewrite Ech in Hc. by destruct (watchers h !! ch). }
  assert (Hnew : ch ∉ pollSubs h). { intros Hin%Hl. by rewrite Hw in Hin. }
  constructor; cbn.
  - rewrite NoDup_app. split_and!; [done|set_solver|apply NoDup_singleton].
  - intros x; cbn. rewrite elem_of_app, list_elem_of_singleton. intros [Hin| ->]; [|by rewrite lookup_insert_eq].
    rewrite lookup_insert_ne; [by apply Hl|]. by intros ->.
  - intros x; cbn. destruct (decide (x = ch)) as [->|Hne]; [|by rewrite !lookup_insert_ne; [apply Hc|..]].
    rewrite !lookup_insert_eq. cbn. unfold pollCap. split_and!; [lia|done|done].
  - intros t subs x; cbn. intros H1 H2. apply is_some_insert. by eapply Hcp.
Qed.

Lemma cancel_ok ch h h' : cancel ch h = Some h' -> hub_ok h -> hub_ok h'.
Proof.
  unfold cancel. intros [= <-] [Hnd Hl Hc Hcp]. constructor; [done|done| |done].
  intros x; cbn. specialize (Hc x). destruct (chans h !! x), (watchers h !! x); [|done..].
  destruct Hc as (? & ? & H). split_and!; [done..|]. intros Hw. apply elem_of_union. right. by apply H.
Qed.

Lemma unsubscribe_ok ch h h' : unsubscribe ch h = Some h' -> hub_ok h -> hub_ok h' /\ ch ∉ pollSubs h'.
Proof.
  unfold unsubscribe. destruct (watchers h !! ch) as [[]|] eqn:Ew; try done. case_decide as Hcan; [|done].
  intros [= <-] [Hnd Hl Hc Hcp]. destruct (remove_sub_nodup ch _ Hnd) as [Hnd' Hout]. split; [|done]. constructor; cbn; [done| | |done].
  - intros x Hin; cbn. cbn in Hin. rewrite lookup_insert_ne; [|set_solver]. apply Hl. by eapply remove_sub_subset.
  - intros x; cbn. specialize (Hc x). destruct (decide (x = ch)) as [->|Hne]; [|by rewrite lookup_insert_ne].
    rewrite lookup_insert_eq. rewrite Ew in Hc. destruct (chans h !! ch); [|done].
    destruct Hc as (? & [H _] & _). split_and!; [done| |done]. split; [|done]. intros Hcl. by specialize (H Hcl).
Qed.

Lemma close_chan_ok ch h h' : close_chan ch h = Some h' -> hub_ok h -> hub_ok h'.
Proof.
  unfold close_chan. destruct (watchers h !! ch) as [[]|] eqn:Ew; try done. destruct (chans h !! ch) as [c|] eqn:Ech; [|done].
  intros [= <-] [Hnd Hl Hc Hcp]. constructor; cbn; [done| | |].
  - intros x Hin; cbn. rewrite lookup_insert_ne; [by apply Hl|]. intros <-. apply Hl in Hin. congruence.
  - intros x; cbn. specialize (Hc x). destruct (decide (x = ch)) as [->|Hne]; [|by rewrite !lookup_insert_ne].
    rewrite !lookup_insert_eq. rewrite Ew, Ech in Hc. cbn. destruct Hc as (? & _ & H). split_and!; [done|done|]. intros _. by apply H.
  - intros t subs x; cbn. intros H1 H2. apply is_some_insert. by eapply Hcp.
Qed.

Lemma copy_subs_ok t h h' : copy_subs t h = Some h' -> hub_ok h -> hub_ok h'.
Proof.
  unfold copy_subs. intros E Hok. assert (h' = {| pollSubs := pollSubs h; chans := chans h; watchers := watchers h;
    cancelled := cancelled h; notifying := <[t := pollSubs h]> (notifying h) |}) as ->.
  { destruct (notifying h !! t) as [[]|]; by simplify_eq. }
  pose proof Hok as [Hnd Hl Hc Hcp]. constructor; cbn; [done..|]. intros t' subs x; cbn.
  destruct (decide (t' = t)) as [->|Hne]; [|rewrite lookup_insert_ne by done; apply Hcp].
  rewrite lookup_insert_eq. intros [= <-] Hin. destruct (listed_chan _ _ Hok Hin) as (c & -> & _). by eexists.
Qed.

Lemma signal_ok t h h' : signal t h = Some (Running h') -> hub_ok h -> hub_ok h'.
Proof.
  unfold signal. destruct (notifying h !! t) as [[|ch subs]|] eqn:En; try done.
  destruct (chans h !! ch) as [c|] eqn:Ech; [|done]. destruct (try_send c) as [c'|] eqn:Es; [|done].
  intros [= <-] [Hnd Hl Hc Hcp]. apply try_send_spec in Es as (Hcl & Hcl' & _ & Hb). constructor; cbn; [done..| |].
  - apply (chan_ok_update _ _ c); [done..|congruence|]. apply Hb. specialize (Hc ch). rewrite Ech in Hc.
    by destruct (watchers h !! ch); [destruct Hc|].
  - intros t' subs' x; cbn. intros H1 H2. apply is_some_insert. destruct (decide (t' = t)) as [->|Hne].
    + rewrite lookup_insert_eq in H1. injection H1 as <-. apply (Hcp _ _ _ En). by right.
    + rewrite lookup_insert_ne in H1 by done. by eapply Hcp.
Qed.

Lemma receive_poll_ok ch h h' : receive_poll ch h = Some h' -> hub_ok h -> hub_ok h'.
Proof.
  unfold receive_poll. destruct (chans h !! ch) as [c|] eqn:Ech; [|done]. unfold receive.
  destruct (buffered c) as [|n] eqn:Eb; [destruct (isClosed c); by intros [= <-]|].
  intros [= <-] [Hnd Hl Hc Hcp]. constructor; cbn; [done..| |].
  - apply (chan_ok_update _ _ c); [done..|]. cbn. specialize (Hc ch). rewrite Ech in Hc.
    destruct (watchers h !! ch); [|done]. lia.
  - intros t' subs' x; cbn. intros H1 H2. apply is_some_insert. by eapply Hcp.
Qed.

Lemma step_ok a h h' : step a h = Some (Running h') -> hub_ok h -> hub_ok h'.
Proof.
  destruct a; cbn [step]; try apply signal_ok; intros (h1 & H & [= <-])%fmap_Some;
    eauto using subscribe_ok, cancel_ok, close_chan_ok, copy_subs_ok, receive_poll_ok.
  intros Hok. by apply (unsubscribe_ok _ _ _ H).
Qed.

Lemma exec_ok l h h' : exec l h h' -> hub_ok h -> hub_ok h'.
Proof. induction 1; eauto using step_ok. Qed.

Lemma exec_app l1 l2 h1 h2 h3 : exec l1 h1 h2 -> exec l2 h2 h3 -> exec (l1 ++ l2) h1 h3.
Proof. induction 1; cbn [app]; [done|econstructor; eauto]. Qed.

Lemma reachable_ok h : reachable h -> hub_ok h.
Proof.
  intros [l H]. apply (exec_ok _ _ _ H). constructor.
  - apply NoDup_nil_2.
  - intros ch Hin. by apply elem_of_nil in Hin.
  - intros ch. cbn. by rewrite !lookup_empty.
  - intros t subs ch. cbn. by rewrite lookup_empty.
Qed.

(** ** What one step can do to a channel and to a notification *)

(** Only a receive empties a channel. *)
Lemma step_keeps_signal a h h' ch c :
  step a h = Some (Running h') -> a <> Receive ch -> chans h !! ch = Some c ->
  exists c', chans h' !! ch = Some c' /\ (buffered c <= buffered c')%nat.
Proof.
  intros Hs Ha Hc.
  assert (Hsame : forall m : gmap nat chan, m = chans h -> exists c', m !! ch = Some c' /\ (buffered c <= buffered c')%nat)
    by (intros m ->; eauto).
  assert (Hins : forall x cx, (x = ch -> buffered c <= buffered cx)%nat ->
            exists c', <[x := cx]> (chans h) !! ch = Some c' /\ (buffered c <= buffered c')%nat).
  { intros x cx Hx. destruct (decide (x = ch)) as [->|Hne]; [rewrite lookup_insert_eq; eauto|].
    rewrite lookup_insert_ne by done. eauto. }
  destruct a as [x|x|x|x|t|t|x]; cbn [step] in Hs; [apply fmap_Some in Hs as (h1 & Hs & [= <-])..| |apply fmap_Some in Hs as (h1 & Hs & [= <-])].
  - unfold subscribe in Hs. destruct (chans h !! x) eqn:E; simplify_eq/=. apply Hins. congruence.
  - unfold cancel in Hs. simplify_eq/=. eauto.
  - unfold unsubscribe in Hs. repeat case_match; simplify_eq/=; eauto.
  - unfold close_chan in Hs. destruct (watchers h !! x) as [[]|]; try done. destruct (chans h !! x) eqn:E; simplify_eq/=.
    apply Hins. cbn. intros ->. simplify_eq. lia.
  - unfold copy_subs in Hs. repeat case_match; simplify_eq/=; eauto.
  - unfold signal in Hs. repeat case_match; simplify_eq/=. apply Hins. intros ->. simplify_eq.
    match goal with H : try_send _ = _ |- _ => unfold try_send in H; repeat case_match; simplify_eq/=; lia end.
  - unfold receive_poll, receive in Hs. repeat case_match; simplify_eq/=; eauto. apply Hins. intros ->. done.
Qed.

(** A notification's copy shrinks only by its own sends. *)
Lemma step_notifying a h h' t :
  step a h = Some (Running h') -> a <> Copy t ->
  notifying h' !! t = notifying h !! t \/
  exists ch subs c', a = Signal t /\ notifying h !! t = Some (ch :: subs) /\ notifying h' !! t = Some subs /\
    chans h' !! ch = Some c' /\ (0 < buffered c')%nat.
Proof.
  intros Hs Ha. destruct a as [x|x|x|x|t'|t'|x]; cbn [step] in Hs;
    [apply fmap_Some in Hs as (h1 & Hs & [= <-])..| |apply fmap_Some in Hs as (h1 & Hs & [= <-])].
  - unfold subscribe in Hs. repeat case_match; simplify_eq/=; auto.
  - unfold cancel in Hs. simplify_eq/=. auto.
  - unfold unsubscribe in Hs. repeat case_match; simplify_eq/=; auto.
  - unfold close_chan in Hs. repeat case_match; simplify_eq/=; auto.
  - unfold copy_subs in Hs. left. repeat case_match; simplify_eq/=; by rewrite lookup_insert_ne by congruence.
  - unfold signal in Hs. destruct (decide (t' = t)) as [->|Hne].
    + right. repeat case_match; simplify_eq/=. do 3 eexists. rewrite !lookup_insert_eq. split_and!; [done..|].
      match goal with H : try_send _ = _ |- _ => by apply try_send_spec in H as (_ & _ & ? & _) end.
    + left. repeat case_match; simplify_eq/=. by rewrite lookup_insert_ne.
  - unfold receive_poll, receive in Hs. repeat case_match; simplify_eq/=; auto.
Qed.

(** The subscriber is still to be signalled, or has its signal. *)
Definition owed (t ch : nat) (h : hub) : Prop :=
  (exists subs, notifying h !! t = Some subs /\ ch ∈ subs) \/
  (exists c, chans h !! ch = Some c /\ (0 < buffered c)%nat).

Lemma step_owed a h h' t ch :
  step a h = Some (Running h') -> a <> Copy t -> a <> Receive ch -> owed t ch h -> owed t ch h'.
Proof.
  intros Hs Ht Hr [(subs & Hn & Hin)|(c & Hc & Hb)].
  - destruct (step_notifying _ _ _ _ Hs Ht) as [E|(x & subs' & c' & _ & E & E' & Hx & Hb)].
    + left. exists subs. by rewrite E.
    + rewrite Hn in E. injection E as ->. apply elem_of_cons in Hin as [->|Hin]; [right|left]; eauto.
  - right. destruct (step_keeps_signal _ _ _ _ _ Hs Hr Hc) as (c' & Hc' & Hb'). exists c'. split; [done|lia].
Qed.

Lemma exec_owed l h h' t ch : exec l h h' -> Copy t ∉ l -> Receive ch ∉ l -> owed t ch h -> owed t ch h'.
Proof.
  induction 1 as [|a l h h1 h2 Hs _ IH]; [done|]. rewrite !not_elem_of_cons. intros [? ?] [? ?] Ho.
  apply IH; [done..|]. eapply step_owed; eauto.
Qed.

Lemma copy_step t h h1 : step (Copy t) h = Some (Running h1) ->
  h1 = {| pollSubs := pollSubs h; chans := chans h; watchers := watchers h; cancelled := cancelled h;
          notifying := <[t := pollSubs h]> (notifying h) |}.
Proof. cbn [step]. intros (h' & Hs & [= <-])%fmap_Some. unfold copy_subs in Hs. repeat case_match; by simplify_eq. Qed.

(** A subscription's goroutine moves by its own two steps only. *)
Lemma step_watcher a h h' ch w :
  step a h = Some (Running h') -> hub_ok h -> watchers h !! ch = Some w ->
  watchers h' !! ch = Some w \/ (a = Unsubscribe ch /\ w = Waiting /\ watchers h' !! ch = Some Unlisted) \/
  (a = Close ch /\ w = Unlisted /\ watchers h' !! ch = Some Exited).
Proof.
  intros Hs Hok Hw. destruct a as [x|x|x|x|t|t|x]; cbn [step] in Hs;
    [apply fmap_Some in Hs as (h1 & Hs & [= <-])..| |apply fmap_Some in Hs as (h1 & Hs & [= <-])].
  - unfold subscribe in Hs. destruct (chans h !! x) eqn:E; simplify_eq/=. rewrite lookup_insert_ne; [auto|]. intros ->.
    pose proof (ok_chans _ Hok ch) as Hc. by rewrite E, Hw in Hc.
  - unfold cancel in Hs. simplify_eq/=. auto.
  - unfold unsubscribe in Hs. repeat case_match; simplify_eq/=.
    destruct (decide (x = ch)) as [->|Hne]; [rewrite lookup_insert_eq|rewrite lookup_insert_ne by done; auto]. right. left. naive_solver.
  - unfold close_chan in Hs. repeat case_match; simplify_eq/=.
    destruct (decide (x = ch)) as [->|Hne]; [rewrite lookup_insert_eq|rewrite lookup_insert_ne by done; auto]. right. right. naive_solver.
  - unfold copy_subs in Hs. repeat case_match; simplify_eq/=; auto.
  - unfold signal in Hs. repeat case_match; simplify_eq/=; auto.
  - unfold receive_poll, receive in Hs. repeat case_match; simplify_eq/=; auto.
Qed.

Lemma exec_ending l h h' ch :
  exec l h h' -> hub_ok h ->
  (watchers h !! ch = Some Waiting -> watchers h' !! ch = Some Exited -> Unsubscribe ch ∈ l /\ Close ch ∈ l) /\
  (watchers h !! ch = Some Unlisted -> watchers h' !! ch = Some Exited -> Close ch ∈ l).
Proof.
  induction 1 as [h|a l h h1 h2 Hs _ IH]; intros Hok; [split; congruence|].
  destruct (IH (step_ok _ _ _ Hs Hok)) as [IH1 IH2]. rewrite !elem_of_cons.
  split; intros Hw He; destruct (step_watcher _ _ _ _ _ Hs Hok Hw) as [E|[(-> & Ew & E)|(-> & Ew & E)]]; try done; tauto.
Qed.

Lemma exec_copy l h h' t subs :
  exec l h h' -> Copy t ∉ l -> notifying h !! t = Some subs ->
  exists subs', notifying h' !! t = Some subs' /\ subs' `suffix_of` subs.
Proof.
  intros H. revert subs. induction H as [h|a l h h1 h2 Hs _ IH]; intros subs; [by exists subs|].
  rewrite not_elem_of_cons. intros [Ha Hl] Hn.
  assert (Hne : a <> Copy t) by congruence.
  destruct (step_notifying _ _ _ _ Hs Hne) as [E|(x & subs' & _ & _ & E & E' & _)].
  - apply IH; [done|congruence].
  - rewrite Hn in E. injection E as ->. destruct (IH _ Hl E') as (s2 & H2 & Hs2). exists s2. split; [done|].
    by apply suffix_cons_r.
Qed.

Lemma signal_panics t h : signal t h = Some Panicked ->
  exists ch subs c, notifying h !! t = Some (ch :: subs) /\ chans h !! ch = Some c /\ isClosed c = true.
Proof.
  unfold signal. destruct (notifying h !! t) as [[|ch subs]|]; try done. destruct (chans h !! ch) as [c|] eqn:E; [|done].
  destruct (try_send c) eqn:Et; [done|]. intros _. exists ch, subs, c. split_and!; [done..|].
  unfold try_send in Et. by repeat case_match.
Qed.

(** ** A notification that nothing interleaves with *)

Definition signalled (subs : list nat) (m : gmap nat chan) : gmap nat chan :=
  foldl (fun m ch => <[ch := {| buffered := 1; isClosed := false |}]> m) m subs.

Lemma signalled_lookup subs m ch :
  signalled subs m !! ch = if decide (ch ∈ subs) then Some {| buffered := 1; isClosed := false |} else m !! ch.
Proof.
  revert m. unfold signalled. induction subs as [|sub subs IH]; intros m; cbn [foldl]; [by rewrite decide_False by set_solver|].
  rewrite IH. destruct (decide (ch ∈ subs)); [by rewrite decide_True by set_solver|].
  destruct (decide (ch = sub)) as [->|Hne]; [rewrite lookup_insert_eq, decide_True; set_solver|].
  rewrite lookup_insert_ne, decide_False by set_solver. done.
Qed.

Definition all_open (subs : list nat) (m : gmap nat chan) : Prop :=
  forall ch, ch ∈ subs -> exists c, m !! ch = Some c /\ isClosed c = false /\ (buffered c <= pollCap)%nat.

Lemma all_open_insert subs m ch : all_open subs m -> all_open subs (<[ch := {| buffered := 1; isClosed := false |}]> m).
Proof.
  intros H x Hx. destruct (decide (x = ch)) as [->|Hne]; [rewrite lookup_insert_eq|rewrite lookup_insert_ne by done; auto].
  eexists. split_and!; [done..|]. unfold pollCap. cbn. lia.
Qed.

Lemma try_send_open c : isClosed c = false -> (buffered c <= pollCap)%nat -> try_send c = Some {| buffered := 1; isClosed := false |}.
Proof.
  unfold try_send, pollCap. destruct c as [b cl]; cbn. intros -> Hb. case_bool_decide; do 2 f_equal; [f_equal; lia|].
  f_equal. lia.
Qed.

Lemma signal_all subs t h :
  notifying h !! t = Some subs -> all_open subs (chans h) ->
  exec (replicate (length subs) (Signal t)) h
    {| pollSubs := pollSubs h; chans := signalled subs (chans h); watchers := watchers h; cancelled := cancelled h;
       notifying := <[t := []]> (notifying h) |}.
Proof.
  revert h. induction subs as [|ch subs IH]; intros h Hn Ho; cbn [length replicate].
  { replace (<[t := []]> (notifying h)) with (notifying h) by (symmetry; by apply insert_id). destruct h. constructor. }
  destruct (Ho ch) as (c & Hc & Hcl & Hb); [set_solver|].
  eapply exec_cons.
  - cbn [step]. unfold signal. rewrite Hn, Hc, try_send_open by done. reflexivity.
  - match goal with |- exec _ ?h1 _ => specialize (IH h1) end. cbn [notifying chans pollSubs watchers cancelled] in IH.
    rewrite lookup_insert_eq, insert_insert_eq in IH. apply IH; [done|]. apply all_open_insert.
    intros x Hx. apply Ho. set_solver.
Qed.

Lemma copy_exec t h : notifying h !! t = None \/ notifying h !! t = Some [] ->
  step (Copy t) h = Some (Running {| pollSubs := pollSubs h; chans := chans h; watchers := watchers h;
    cancelled := cancelled h; notifying := <[t := pollSubs h]> (notifying h) |}).
Proof. cbn [step]. unfold copy_subs. by intros [-> | ->]. Qed.

(** ** Theorems *)

(** In every state the program can reach, the subscriber list has no
    repeats, a listed subscriber's channel is open and its goroutine still
    waits for its context, no channel holds more than one signal, and a closed
    channel is one whose context has ended and whose goroutine has run. *)
Theorem hub_invariant h : reachable h ->
  NoDup (pollSubs h) /\
  (forall ch, ch ∈ pollSubs h -> watchers h !! ch = Some Waiting /\ exists c, chans h !! ch = Some c /\ isClosed c = false) /\
  (forall ch c, chans h !! ch = Some c ->
     (buffered c <= pollCap)%nat /\ (isClosed c = true <-> watchers h !! ch = Some Exited) /\
     (isClosed c = true -> ch ∈ cancelled h /\ ch ∉ pollSubs h)).
Proof.
  intros Hok%reachable_ok. split; [apply (ok_nodup _ Hok)|]. split.
  { intros ch Hin. split; [by apply (ok_listed _ Hok)|by apply listed_chan]. }
  intros ch c Hc. pose proof (ok_chans _ Hok ch) as H. rewrite Hc in H. destruct (watchers h !! ch) as [w|] eqn:Ew; [|done].
  destruct H as (Hb & Hx & Hcan). split_and!; [done|naive_solver|]. intros Hcl. split; [apply Hcan; naive_solver|].
  intros Hin. destruct (listed_chan _ _ Hok Hin) as (c' & Hc' & Hf). congruence.
Qed.

(** C9: a subscriber on the list when a notification copies it is not missed,
    whatever the other goroutines do meanwhile: when the notification ends and
    the subscriber has taken nothing from its channel since, a signal waits in
    it. *)
Theorem notify_no_lost_wakeup l t ch h h' :
  reachable h -> ch ∈ pollSubs h -> exec (Copy t :: l) h h' -> Copy t ∉ l -> Receive ch ∉ l ->
  notifying h' !! t = Some [] -> exists c, chans h' !! ch = Some c /\ buffered c = 1%nat.
Proof.
  intros Hr Hin He Ht Hrc Hend. pose proof (exec_ok _ _ _ He (reachable_ok _ Hr)) as Hok'.
  inversion He as [|a l' ? h1 ? Hs Hl]; subst. pose proof (copy_step _ _ _ Hs) as ->.
  destruct (exec_owed _ _ _ t ch Hl Ht Hrc) as [(subs & Hn & Hs')|(c & Hc & Hb)].
  - left. exists (pollSubs h). cbn. by rewrite lookup_insert_eq.
  - rewrite Hend in Hn. injection Hn as <-. by apply elem_of_nil in Hs'.
  - exists c. split; [done|]. pose proof (ok_chans _ Hok' ch) as Hw. rewrite Hc in Hw.
    destruct (watchers h' !! ch); [|done]. unfold pollCap in Hw. lia.
Qed.

(** A notification panics on a send only in a race with a subscriber that
    leaves: the channel was on the list when the copy was made, and its
    goroutine both took it off and closed it before the send. *)
Theorem notify_panic_only_by_race l t h h' :
  reachable h -> exec (Copy t :: l) h h' -> Copy t ∉ l -> step (Signal t) h' = Some Panicked ->
  exists ch, ch ∈ pollSubs h /\ Unsubscribe ch ∈ l /\ Close ch ∈ l.
Proof.
  intros Hr He Ht Hp. pose proof (reachable_ok _ Hr) as Hok. pose proof (exec_ok _ _ _ He Hok) as Hok'.
  inversion He as [|a l' ? h1 ? Hs Hl]; subst. pose proof (step_ok _ _ _ Hs Hok) as Hok1. pose proof (copy_step _ _ _ Hs) as ->.
  apply signal_panics in Hp as (ch & subs & c & Hn & Hc & Hcl). exists ch.
  assert (Hin : ch ∈ pollSubs h).
  { destruct (exec_copy _ _ _ t (pollSubs h) Hl Ht) as (subs' & Hn' & Hsuf); [cbn; by rewrite lookup_insert_eq|].
    rewrite Hn in Hn'. injection Hn' as <-. destruct Hsuf as [k ->]. set_solver. }
  split; [done|]. apply (exec_ending _ _ _ _ Hl Hok1); [by apply (ok_listed _ Hok)|].
  pose proof (ok_chans _ Hok' ch) as H. rewrite Hc in H. destruct (watchers h' !! ch); [|done]. f_equal. by apply H.
Qed.

(** A call of [NotifyPoll] that nothing interleaves with runs to its end
    without blocking or panicking, leaves exactly one signal in the channel of
    every listed subscriber, and touches no other channel. *)
Theorem notify_poll_signals_all t h :
  reachable h -> notifying h !! t = None \/ notifying h !! t = Some [] ->
  exists h', exec (NotifyPoll t h) h h' /\ pollSubs h' = pollSubs h /\ notifying h' !! t = Some [] /\
    forall ch, chans h' !! ch = if decide (ch ∈ pollSubs h) then Some {| buffered := 1; isClosed := false |} else chans h !! ch.
Proof.
  intros Hok%reachable_ok Ht. unfold NotifyPoll.
  pose proof (signal_all (pollSubs h) t {| pollSubs := pollSubs h; chans := chans h; watchers := watchers h;
    cancelled := cancelled h; notifying := <[t := pollSubs h]> (notifying h) |}) as Hs.
  eexists. split; [eapply exec_cons; [by apply copy_exec|]; apply Hs|cbn; split_and!].
  - cbn. by rewrite lookup_insert_eq.
  - intros ch Hin. destruct (listed_chan _ _ Hok Hin) as (c & Hc & Hcl). exists c. split_and!; [done..|].
    pose proof (ok_chans _ Hok ch) as Hw. rewrite Hc in Hw. by destruct (watchers h !! ch); [destruct Hw|].
  - done.
  - by rewrite lookup_insert_eq.
  - intros ch. apply signalled_lookup.
Qed.

(** ** Concrete runs *)

Definition run (l : list action) (h : hub) : option hub :=
  foldl (fun o a => match o with Some h => match step a h with Some (Running h') => Some h' | _ => None end | None => None end) (Some h) l.

Lemma run_exec l h h' : run l h = Some h' -> exec l h h'.
Proof.
  unfold run. revert h. induction l as [|a l IH]; intros h; cbn [foldl]; [intros [= <-]; constructor|].
  destruct (step a h) as [[h1|]|] eqn:E; intros H.
  - econstructor; [done|]. by apply IH.
  - exfalso. clear -H. induction l; [done|auto].
  - exfalso. clear -H. induction l; [done|auto].
Qed.

Definition after (l : list action) : hub := default empty_hub (run l empty_hub).

Lemma after_reachable l : is_Some (run l empty_hub) -> reachable (after l).
Proof. intros [h Hh]. exists l. apply run_exec. unfold after. by rewrite Hh. Qed.

(** The race: a copy, then a listed subscriber leaves, then the send. *)
Example notify_send_on_closed :
  reachable (after [Subscribe 0; Copy 0; Cancel 0; Unsubscribe 0; Close 0]%nat) /\
  step (Signal 0%nat) (after [Subscribe 0; Copy 0; Cancel 0; Unsubscribe 0; Close 0]%nat) = Some Panicked.
Proof. split; [|by vm_compute]. apply after_reachable. vm_compute. eauto. Qed.

Definition two_subs : list action := [Subscribe 0; Subscribe 1; Cancel 1]%nat.

Lemma hub_invariant_witness : NoDup (pollSubs (after two_subs)).
Proof. refine (proj1 (hub_invariant (after two_subs) _)). apply after_reachable. vm_compute. eauto. Defined.

(** The second subscriber leaves between the copy and the send to the first. *)
Lemma notify_no_lost_wakeup_witness :
  exists c, chans (after (two_subs ++ [Copy 0; Signal 0; Signal 0; Unsubscribe 1; Close 1]%nat)) !! 0%nat = Some c /\ buffered c = 1%nat.
Proof.
  apply (notify_no_lost_wakeup [Signal 0; Signal 0; Unsubscribe 1; Close 1]%nat 0 0 (after two_subs)).
  - apply after_reachable. vm_compute. eauto.
  - vm_compute. set_solver.
  - apply run_exec. by vm_compute.
  - set_solver.
  - set_solver.
  - by vm_compute.
Defined.

Lemma notify_panic_only_by_race_witness :
  exists ch, ch ∈ pollSubs (after [Subscribe 0%nat]) /\ Unsubscribe ch ∈ [Cancel 0; Unsubscribe 0; Close 0]%nat /\
    Close ch ∈ [Cancel 0; Unsubscribe 0; Close 0]%nat.
Proof.
  apply (notify_panic_only_by_race _ 0 _ (after [Subscribe 0; Copy 0; Cancel 0; Unsubscribe 0; Close 0]%nat)).
  - apply after_reachable. vm_compute. eauto.
  - apply run_exec. by vm_compute.
  - set_solver.
  - by vm_compute.
Defined.

Lemma notify_poll_signals_all_witness :
  exists h', exec (NotifyPoll 0 (after two_subs)) (after two_subs) h' /\ pollSubs h' = pollSubs (after two_subs).
Proof.
  destruct (notify_poll_signals_all 0 (after two_subs)) as (h' & H & Hs & _).
  - apply after_reachable. vm_compute. eauto.
  - by left; vm_compute.
  - exists h'. by split.
Defined.
