(* ===== verification/Web.v ===== *)
(** * HTTP responses, server-sent events and clock text

    What the web handlers use of [net/http] and [time]: a response under
    construction, [http.Error], the layouts "15:04:05" and RFC 3339, and
    [time.Parse] of RFC 3339.  An instant is nanoseconds since 1970; texts of
    instants are in UTC unless an offset is given. *)

From Stdlib Require Import Ascii.
From S2P Require Import Prelude GoStrings GoTime Json.

(** ** Digits *)

Definition digit (d : Z) : ascii := ascii_of_N (48 + Z.to_N d).
Definition pad2 (x : Z) : string := String (digit (x / 10)) (String (digit (x mod 10)) "").
Definition pad4 (x : Z) : string := pad2 (x / 100) +:+ pad2 (x mod 100).

(** ** The proleptic Gregorian calendar *)

Definition days_per_era : Z := 146097.

(** A day of the 400-year era that starts on 1 March, by its centuries, its
    4-year cycles and its years: the year, the month counted from March, the
    day. *)
Definition year_of_era (doe : Z) : Z * Z :=
  let c := Z.min (doe / 36524) 3 in
  let r := doe - 36524 * c in
  let q := r / 1461 in
  let r := r - 1461 * q in
  let a := Z.min (r / 365) 3 in
  (100 * c + 4 * q + a, r - 365 * a).

Definition month_of_year (doy : Z) : Z * Z :=
  let mp := (5 * doy + 2) / 153 in (mp, doy - (153 * mp + 2) / 5 + 1).

Definition civil_of_era (doe : Z) : Z * Z * Z :=
  let '(yoe, doy) := year_of_era doe in
  let '(mp, d) := month_of_year doy in
  (yoe, mp, d).

Definition era_of_civil (yoe mp d : Z) : Z := yoe * 365 + yoe / 4 - yoe / 100 + ((153 * mp + 2) / 5 + d - 1).

(** Days since 1970-01-01 and the date. *)
Definition civil_of_days (days : Z) : Z * Z * Z :=
  let z := days + 719468 in
  let '(yoe, mp, d) := civil_of_era (z mod days_per_era) in
  let m := if mp <? 10 then mp + 3 else mp - 9 in
  (yoe + 400 * (z / days_per_era) + (if m <=? 2 then 1 else 0), m, d).

Definition days_of_civil (y m d : Z) : Z :=
  let y := if m <=? 2 then y - 1 else y in
  let mp := if 2 <? m then m - 3 else m + 9 in
  days_per_era * (y / 400) + era_of_civil (y mod 400) mp d - 719468.

Definition leap (y : Z) : bool := (y mod 4 =? 0) && (negb (y mod 100 =? 0) || (y mod 400 =? 0)).
Definition days_in (m y : Z) : Z :=
  if m =? 2 then if leap y then 29 else 28
  else if bool_decide (m ∈ [4; 6; 9; 11]) then 30 else 31.

(** ** Formatting *)

Definition day_seconds : Z := 86400.

(** [Format("15:04:05")] at an offset of the zone, in seconds. *)
Definition format_clock (offset : Z) (t : time) : string :=
  let s := (t / second + offset) mod day_seconds in
  pad2 (s / 3600) +:+ ":" +:+ pad2 (s / 60 mod 60) +:+ ":" +:+ pad2 (s mod 60).

Definition year_text (y : Z) : string :=
  (if y <? 0 then "-" else "") +:+ (if Z.abs y <=? 9999 then pad4 (Z.abs y) else itoa (Z.abs y)).

(** [UTC().Format(time.RFC3339)]. *)
Definition format_rfc3339 (t : time) : string :=
  let '(y, m, d) := civil_of_days (t / second / day_seconds) in
  year_text y +:+ "-" +:+ pad2 m +:+ "-" +:+ pad2 d +:+ "T" +:+ format_clock 0 t +:+ "Z".

(** ** time.Parse with the RFC 3339 layout *)

Definition lit (c : ascii) (s : string) : option string :=
  match s with String a s => if bool_decide (a = c) then Some s else None | "" => None end.

(** [getnum(s, true)]. *)
Definition getnum2 (s : string) : option (Z * string) :=
  match s with
  | String a (String b s) => if is_digit a && is_digit b then Some (digit_val a * 10 + digit_val b, s) else None
  | _ => None
  end.

(** [getnum(s, false)], which the hour is read with: one digit will do. *)
Definition getnum (s : string) : option (Z * string) :=
  match s with
  | String a r =>
      if is_digit a then
        match getnum2 s with Some x => Some x | None => Some (digit_val a, r) end
      else None
  | "" => None
  end.

Definition within (lo hi : Z) (x : option (Z * string)) : option (Z * string) :=
  '(v, s) ← x; if (lo <=? v) && (v <=? hi) then Some (v, s) else None.

Definition year4 (s : string) : option (Z * string) :=
  '(a, s) ← getnum2 s; '(b, s) ← getnum2 s; Some (a * 100 + b, s).

(** The digits at the head. *)
Fixpoint digits_span (s : string) : string * string :=
  match s with
  | "" => ("", "")
  | String c r => if is_digit c then let '(d, r) := digits_span r in (String c d, r) else ("", s)
  end.

(** [parseNanoseconds]: nine digits count. *)
Fixpoint fraction_value (n : nat) (s : string) : Z :=
  match n with
  | O => 0
  | S n => match s with
           | "" => 0
           | String c s => digit_val c * 10 ^ Z.of_nat n + fraction_value n s
           end
  end.

(** The optional fraction, after a period or a comma. *)
Definition fraction (s : string) : Z * string :=
  match s with
  | String a (String b _ as r) =>
      if (bool_decide (a = "."%char) || bool_decide (a = ","%char)) && is_digit b then
        let '(d, r) := digits_span r in (fraction_value 9 d, r)
      else (0, s)
  | _ => (0, s)
  end.

(** The offset in seconds: hours up to 24 and minutes up to 60 are let through. *)
Definition zone_offset (s : string) : option (Z * string) :=
  match s with
  | String "Z" s => Some (0, s)
  | String sign s =>
      '(hh, s) ← within 0 24 (getnum2 s);
      s ← lit ":" s;
      '(mm, s) ← within 0 60 (getnum2 s);
      if bool_decide (sign = "+"%char) then Some ((hh * 60 + mm) * 60, s)
      else if bool_decide (sign = "-"%char) then Some (- ((hh * 60 + mm) * 60), s)
      else None
  | "" => None
  end.

(** [None] is any error. *)
Definition parse_rfc3339 (s : string) : option time :=
  '(y, s) ← year4 s; s ← lit "-" s;
  '(m, s) ← within 1 12 (getnum2 s); s ← lit "-" s;
  '(d, s) ← getnum2 s; s ← lit "T" s;
  '(hh, s) ← within 0 23 (getnum s); s ← lit ":" s;
  '(mm, s) ← within 0 59 (getnum2 s); s ← lit ":" s;
  '(ss, s) ← within 0 59 (getnum2 s);
  let '(ns, s) := fraction s in
  '(off, s) ← zone_offset s;
  if bool_decide (s = "") && (1 <=? d) && (d <=? days_in m y)
  then Some ((days_of_civil y m d * day_seconds + hh * 3600 + mm * 60 + ss - off) * second + ns)
  else None.

Example parse_offset : parse_rfc3339 "1970-01-02T07:30:00.5+07:30" = Some (day_seconds * second + 500 * millisecond).
Proof. by vm_compute. Qed.

Example parse_bad : parse_rfc3339 "2025-02-29T00:00:00Z" = None /\ parse_rfc3339 "2025-07-26" = None /\
  parse_rfc3339 "2024-02-29T5:00:00Z" = Some (1709182800 * second).
Proof. by vm_compute. Qed.

Example format_date : format_rfc3339 (1709182800 * second + 7) = "2024-02-29T05:00:00Z".
Proof. by vm_compute. Qed.

(** ** Parsing what was formatted *)

Ltac zdm := Z.div_mod_to_equations; lia.

Lemma digit_spec d : 0 <= d < 10 -> is_digit (digit d) = true /\ digit_val (digit d) = d.
Proof.
  intros Hd. assert (d ∈ [0;1;2;3;4;5;6;7;8;9]) as H.
  { rewrite !elem_of_cons. lia. }
  rewrite !elem_of_cons, elem_of_nil in H. destruct_or?; by subst.
Qed.

Lemma pad2_app x s : pad2 x +:+ s = String (digit (x / 10)) (String (digit (x mod 10)) s).
Proof. done. Qed.

Lemma getnum2_pad2 x s : 0 <= x < 100 -> getnum2 (pad2 x +:+ s) = Some (x, s).
Proof.
  intros Hx. rewrite pad2_app. unfold getnum2.
  destruct (digit_spec (x / 10)) as [-> ->]; [zdm|]. destruct (digit_spec (x mod 10)) as [-> ->]; [zdm|].
  simpl. do 2 f_equal. zdm.
Qed.

Lemma getnum_pad2 x s : 0 <= x < 100 -> getnum (pad2 x +:+ s) = Some (x, s).
Proof.
  intros Hx. rewrite pad2_app. unfold getnum. rewrite <-pad2_app, getnum2_pad2 by done.
  by destruct (digit_spec (x / 10)) as [-> _]; [zdm|].
Qed.

Lemma within_Some lo hi x s : lo <= x <= hi -> within lo hi (Some (x, s)) = Some (x, s).
Proof. intros H. unfold within. cbn. by rewrite (proj2 (Z.leb_le lo x)), (proj2 (Z.leb_le x hi)) by lia. Qed.

Lemma year4_pad4 y s : 0 <= y <= 9999 -> year4 (pad4 y +:+ s) = Some (y, s).
Proof.
  intros Hy. unfold year4, pad4. rewrite str_app_assoc.
  rewrite getnum2_pad2 by zdm. cbn [mbind option_bind]. rewrite getnum2_pad2 by zdm. cbn [mbind option_bind].
  do 2 f_equal. zdm.
Qed.

Lemma lit_app c s : lit c (String c "" +:+ s) = Some s.
Proof. simpl. by rewrite bool_decide_true. Qed.

Lemma leap_period y k : leap (y + 400 * k) = leap y.
Proof.
  unfold leap. rewrite (Z.mul_comm 400 k), Z.mod_add by lia.
  replace (y + k * 400) with (y + (k * 4) * 100) at 2 by lia. rewrite Z.mod_add by lia.
  replace (y + k * 400) with (y + (k * 100) * 4) by lia. by rewrite Z.mod_add by lia.
Qed.

(** Day 365 of a year from March is the 29 February of a leap year. *)
Lemma year_of_era_spec doe yoe doy : year_of_era doe = (yoe, doy) -> 0 <= doe < days_per_era ->
  0 <= yoe < 400 /\ 0 <= doy <= 365 /\ yoe * 365 + yoe / 4 - yoe / 100 + doy = doe /\ (doy = 365 -> leap (yoe + 1) = true).
Proof.
  unfold year_of_era. set (c := Z.min _ 3). set (q := _ / 1461). set (a := Z.min _ 3). intros [= <- <-] Hd.
  unfold days_per_era in Hd.
  assert (Hc : 0 <= c <= 3 /\ 0 <= doe - 36524 * c <= 36524 /\ (doe - 36524 * c = 36524 -> c = 3)) by (unfold c; zdm).
  clearbody c. assert (Hq : 0 <= q <= 24 /\ 0 <= doe - 36524 * c - 1461 * q <= 1460) by (unfold q; zdm).
  clearbody q. assert (Ha : 0 <= a <= 3 /\ 0 <= doe - 36524 * c - 1461 * q - 365 * a <= 365) by (unfold a; zdm).
  assert (Ha3 : doe - 36524 * c - 1461 * q - 365 * a = 365 -> a = 3) by (unfold a; zdm).
  clearbody a. split_and!; [lia..| |]; [zdm|].
  intros E. specialize (Ha3 E). subst a. unfold leap.
  assert (((100 * c + 4 * q + 3 + 1) mod 4 =? 0) = true) as -> by (apply Z.eqb_eq; zdm). simpl.
  destruct (decide (q = 24)) as [->|Hq24].
  - assert (c = 3) as -> by lia. by rewrite orb_comm.
  - assert (((100 * c + 4 * q + 3 + 1) mod 100 =? 0) = false) as -> by (apply Z.eqb_neq; zdm). done.
Qed.

(** A day of a year from March and its date; 29 February is day 365. *)
Definition month_ok (doy : Z) : bool :=
  let '(mp, d) := month_of_year doy in
  let m := if mp <? 10 then mp + 3 else mp - 9 in
  (0 <=? mp) && (mp <? 12) && (1 <=? d) && ((153 * mp + 2) / 5 + d - 1 =? doy) &&
  (if m =? 2 then d <=? (if doy =? 365 then 29 else 28) else d <=? days_in m 0).

Lemma month_of_year_ok doy : 0 <= doy <= 365 -> month_ok doy = true.
Proof.
  intros Hd. assert (Ha : forallb month_ok (Z.of_nat <$> seq 0 366) = true) by by vm_compute.
  rewrite forallb_forall in Ha. apply Ha. apply in_map_iff. exists (Z.to_nat doy). split; [lia|]. apply in_seq. lia.
Qed.

Lemma civil_days days y m d : civil_of_days days = (y, m, d) ->
  1 <= m <= 12 /\ 1 <= d <= days_in m y /\ days_of_civil y m d = days.
Proof.
  unfold civil_of_days, civil_of_era. set (z := days + 719468). set (e := z / days_per_era).
  assert (Hz : 0 <= z mod days_per_era < days_per_era) by (apply Z.mod_pos_bound; done).
  destruct (year_of_era (z mod days_per_era)) as [yoe doy] eqn:Ey.
  destruct (year_of_era_spec _ _ _ Ey Hz) as (Hyoe & Hdoy & Hsum & Hleap).
  pose proof (month_of_year_ok _ Hdoy) as H. unfold month_ok in H. destruct (month_of_year doy) as [mp d0].
  apply andb_prop in H as [H Hd]. repeat match goal with H : _ && _ = true |- _ => apply andb_prop in H as [H ?] end.
  bool_to_prop. set (m0 := if mp <? 10 then mp + 3 else mp - 9) in *. intros [= <- <- <-].
  assert (Hm : 1 <= m0 <= 12 /\ (if m0 <=? 2 then mp = m0 + 9 else mp = m0 - 3)).
  { unfold m0. destruct (Z.ltb_spec mp 10); [destruct (Z.leb_spec (mp + 3) 2)|destruct (Z.leb_spec (mp - 9) 2)]; lia. }
  clearbody m0. split; [lia|]. split.
  - split; [lia|]. unfold days_in in *. destruct (Z.eqb_spec m0 2) as [E2|Hne]; [subst m0|by apply Z.leb_le in Hd].
    cbn [Z.leb Z.compare Pos.compare Pos.compare_cont]. replace (yoe + 400 * e + 1) with (yoe + 1 + 400 * e) by lia.
    rewrite leap_period. apply Z.leb_le in Hd. revert Hd. destruct (Z.eqb_spec doy 365) as [E|_]; intros Hd; [by rewrite Hleap|destruct (leap (yoe + 1)); lia].
  - unfold days_of_civil, era_of_civil. replace (if m0 <=? 2 then _ - 1 else _) with (yoe + e * 400) by (destruct (m0 <=? 2); lia).
    rewrite Z.div_add, Z.mod_add, (Z.div_small yoe 400), (Z.mod_small yoe 400) by lia.
    replace (if 2 <? m0 then m0 - 3 else m0 + 9) with mp
      by (destruct Hm as [_ Hm]; revert Hm; destruct (Z.leb_spec m0 2), (Z.ltb_spec 2 m0); lia).
    pose proof (Z.div_mod z days_per_era). unfold e, z in *. unfold days_per_era in *. lia.
Qed.

(** The whole seconds of an instant come back, for years of four digits. *)
Lemma parse_format t y m d : civil_of_days (t / second / day_seconds) = (y, m, d) -> 0 <= y <= 9999 ->
  parse_rfc3339 (format_rfc3339 t) = Some (t / second * second).
Proof.
  intros Hc Hy. pose proof (civil_days _ _ _ _ Hc) as (Hm & Hd & Hdays). unfold format_rfc3339. rewrite Hc.
  assert (Hd31 : days_in m y <= 31) by (unfold days_in; repeat case_match; lia).
  unfold format_clock. set (s := (t / second + 0) mod day_seconds).
  assert (Hs : 0 <= s < day_seconds) by (apply Z.mod_pos_bound; done). unfold day_seconds in Hs.
  unfold year_text. rewrite (proj2 (Z.ltb_ge y 0)), (proj2 (Z.leb_le (Z.abs y) 9999)), Z.abs_eq by lia.
  change ("" +:+ pad4 y) with (pad4 y). rewrite !str_app_assoc. unfold parse_rfc3339.
  rewrite year4_pad4 by done. cbn [mbind option_bind]. rewrite lit_app. cbn [mbind option_bind].
  rewrite getnum2_pad2, within_Some by lia. cbn [mbind option_bind]. rewrite lit_app. cbn [mbind option_bind].
  rewrite getnum2_pad2 by lia. cbn [mbind option_bind]. rewrite lit_app. cbn [mbind option_bind].
  rewrite getnum_pad2, within_Some by zdm. cbn [mbind option_bind]. rewrite lit_app. cbn [mbind option_bind].
  rewrite getnum2_pad2, within_Some by zdm. cbn [mbind option_bind]. rewrite lit_app. cbn [mbind option_bind].
  rewrite getnum2_pad2, within_Some by zdm. cbn [mbind option_bind]. cbn [fraction zone_offset mbind option_bind].
  rewrite (proj2 (Z.leb_le 1 d)), (proj2 (Z.leb_le d (days_in m y))), bool_decide_true by lia || done.
  cbn [andb]. rewrite Hdays.
  assert (Hhms : s / 3600 * 3600 + (s / 60) mod 60 * 60 + s mod 60 = s) by (clearbody s; zdm).
  assert (Hday : t / second / day_seconds * day_seconds + s = t / second).
  { unfold s. rewrite Z.add_0_r. pose proof (Z.div_mod (t / second) day_seconds). unfold day_seconds in *. lia. }
  f_equal. lia.
Qed.

(** ** Responses *)

(** A piece of a body: text, a JSON document, a rendered page (its data), a
    server-sent event. *)
Inductive chunk (P : Type) :=
  | Text (s : string)
  | JsonBody (j : json)
  | Page (p : P)
  | SSE (event : string) (data : json).
Arguments Text {P} _. Arguments JsonBody {P} _. Arguments Page {P} _. Arguments SSE {P} _ _.

(** The status is fixed by the first write. *)
Record Response (P : Type) := {
  rStatus : option Z;
  rHeaders : list (string * string);
  rOut : list (chunk P)
}.
Arguments Build_Response {P} _ _ _. Arguments rStatus {P} _. Arguments rHeaders {P} _. Arguments rOut {P} _.

Definition no_response {P} : Response P := {| rStatus := None; rHeaders := []; rOut := [] |}.

(** [w.Header().Set]. *)
Definition set_header {P} (k v : string) (r : Response P) : Response P :=
  {| rStatus := rStatus r; rHeaders := List.filter (fun kv => negb (bool_decide (kv.1 = k))) (rHeaders r) ++ [(k, v)];
     rOut := rOut r |}.

Definition write_header {P} (code : Z) (r : Response P) : Response P :=
  {| rStatus := Some (default code (rStatus r)); rHeaders := rHeaders r; rOut := rOut r |}.

Definition write_chunk {P} (c : chunk P) (r : Response P) : Response P :=
  {| rStatus := rStatus (write_header 200 r); rHeaders := rHeaders r; rOut := rOut r ++ [c] |}.

(** The client's end of the connection got the header but not the chunk. *)
Definition write_failed {P} (r : Response P) : Response P := write_header 200 r.

(** Everything of [http.Error] but the text. *)
Definition error_header {P} (code : Z) (r : Response P) : Response P :=
  write_header code (set_header "X-Content-Type-Options" "nosniff" (set_header "Content-Type" "text/plain; charset=utf-8" r)).

Definition newline : string := String (ascii_of_N 10) "".
