(* ===== verification/JsonText.v ===== *)
(** * The bytes of JSON documents

    [encoding/json] writes the tree of Json as these bytes, and what a parser of
    JSON (the browser's [JSON.parse]) makes of them.  Strings are escaped as
    [json.Marshal] does, with the characters that mean something in HTML; a
    parsed number is its text.  [json_text_roundtrip] says that the bytes are
    parsed as the document, [text_inert] that they hold no line break and
    nothing that could end a script. *)

From Stdlib Require Import Ascii SpecFloat.
From S2P Require Import Prelude GoStrings GoTime Json Floats Web.

(** ** Numbers and instants *)

(** The grammar of a JSON number. *)
Definition digits1 (s : string) : option string :=
  let '(d, r) := digits_span s in if bool_decide (d = "") then None else Some r.

Definition exponent_ok (s : string) : bool :=
  match s with
  | "" => true
  | String e r =>
      (bool_decide (e = "e"%char) || bool_decide (e = "E"%char)) &&
      let r := match r with
               | String c r' => if bool_decide (c = "+"%char) || bool_decide (c = "-"%char) then r' else r
               | "" => r
               end in
      bool_decide (digits1 r = Some "")
  end.

Definition after_integer_ok (s : string) : bool :=
  match s with
  | String c r =>
      if bool_decide (c = "."%char) then match digits1 r with Some r => exponent_ok r | None => false end
      else exponent_ok s
  | "" => true
  end.

Definition number_ok (s : string) : bool :=
  let s := match s with String c r => if bool_decide (c = "-"%char) then r else s | "" => s end in
  let '(d, r) := digits_span s in
  match d with
  | "" => false
  | String c d => (bool_decide (d = "") || negb (bool_decide (c = "0"%char))) && after_integer_ok r
  end.

Example number_ok_examples : forallb number_ok ["0"; "-1"; "3.139"; "1e-7"; "-1.5E+21"; "10"] = true /\
  forallb (fun s => negb (number_ok s)) [""; "-"; "01"; "1."; ".5"; "1e"; "+1"; "1x"] = true.
Proof. by vm_compute. Qed.

(** The doubles that exist: a significand of at most 53 bits, in the range of
    the exponents. *)
Definition f64_ok (f : float64) : bool := f64_finite f && valid_binary 53 1024 f.

(** The shortest text of a double, and its reading. *)
Class FloatText := {
  float_text : float64 -> string;
  read_float : string -> option float64;
  float_text_number : forall f, f64_ok f = true -> number_ok (float_text f) = true;
  read_float_text : forall f, f64_ok f = true -> read_float (float_text f) = Some f
}.

(** [RFC3339Nano] in UTC: a fraction without trailing zeros. *)
Fixpoint fraction_text (n : nat) (v : Z) : string :=
  match n with
  | O => ""
  | S n => if v =? 0 then "" else String (digit (v / 10 ^ Z.of_nat n)) (fraction_text n (v mod 10 ^ Z.of_nat n))
  end.

Definition time_text (t : time) : string :=
  let '(y, m, d) := civil_of_days (t / second / day_seconds) in
  let ns := t mod second in
  year_text y +:+ "-" +:+ pad2 m +:+ "-" +:+ pad2 d +:+ "T" +:+ format_clock 0 t +:+
  (if ns =? 0 then "" else "." +:+ fraction_text 9 ns) +:+ "Z".

Example time_text_examples : time_text 0 = "1970-01-01T00:00:00Z" /\ time_text (1700000000 * second + 120300000) = "2023-11-14T22:13:20.1203Z" /\
  parse_rfc3339 (time_text (1700000000 * second + 120300000)) = Some (1700000000 * second + 120300000).
Proof. by vm_compute. Qed.

(** ** Writing *)

Definition dquote : ascii := ascii_of_N 34.
Definition backslash : ascii := ascii_of_N 92.

Definition code (c : ascii) : N := N_of_ascii c.

(** Characters that stay: from the space on, but for the quote, the backslash and
    those of HTML ([htmlSafeSet], and the bytes of longer sequences). *)
Definition html_char (c : ascii) : bool := bool_decide (c ∈ ["<"; ">"; "&"]%char).
Definition inert (c : ascii) : bool := (32 <=? code c)%N && negb (html_char c).
Definition plain_char (c : ascii) : bool := inert c && negb (bool_decide (c = dquote)) && negb (bool_decide (c = backslash)).

Definition short_escape (c : ascii) : option ascii :=
  if bool_decide (c = dquote) then Some dquote
  else if bool_decide (c = backslash) then Some backslash
  else if (code c =? 8)%N then Some "b"%char
  else if (code c =? 9)%N then Some "t"%char
  else if (code c =? 10)%N then Some "n"%char
  else if (code c =? 12)%N then Some "f"%char
  else if (code c =? 13)%N then Some "r"%char
  else None.

Definition unicode_escape (a b c d : N) : string :=
  String backslash (String "u" (String (hex_digit a) (String (hex_digit b) (String (hex_digit c) (String (hex_digit d) ""))))).

Definition escape_char (c : ascii) : string :=
  match short_escape c with
  | Some e => String backslash (String e "")
  | None => if inert c then String c "" else unicode_escape 0 0 (code c / 16) (code c mod 16)
  end.

(** U+2028 and U+2029, the bytes E2 80 A8 and E2 80 A9, are escaped too. *)
Definition line_separator (c d e : ascii) : bool :=
  ((code c =? 226) && (code d =? 128) && ((code e =? 168) || (code e =? 169)))%N.

Fixpoint escape (s : string) : string :=
  match s with
  | "" => ""
  | String c r =>
      match r with
      | String d (String e r') =>
          if line_separator c d e then unicode_escape 2 0 2 (code e - 160) +:+ escape r'
          else escape_char c +:+ escape r
      | _ => escape_char c +:+ escape r
      end
  end.

Definition quoted (s : string) : string := String dquote (escape s +:+ String dquote "").

Section text.
Context `{FloatText}.

Fixpoint text (j : json) : string :=
  match j with
  | JNull => "null"
  | JBool b => if b then "true" else "false"
  | JInt z => itoa z
  | JFloat f => float_text f
  | JStr s => quoted s
  | JTime t => quoted (time_text t)
  | JArr l => "[" +:+ String.concat "," (map text l) +:+ "]"
  | JObj fields => "{" +:+ String.concat "," (map (fun '(k, j) => quoted k +:+ ":" +:+ text j) fields) +:+ "}"
  end.
End text.

(** ** Reading *)

#[warnings="-register-all"]
Inductive doc :=
  | DNull
  | DBool (b : bool)
  | DNum (text : string)
  | DStr (s : string)
  | DArr (l : list doc)
  | DObj (fields : list (string * doc)).

Definition is_space (c : ascii) : bool := bool_decide (code c ∈ [32; 9; 10; 13]%N).
Fixpoint skip_space (s : string) : string :=
  match s with "" => "" | String c r => if is_space c then skip_space r else s end.

Definition hex_value (c : ascii) : option N :=
  let n := code c in
  if ((48 <=? n) && (n <=? 57))%N then Some (n - 48)%N
  else if ((97 <=? n) && (n <=? 102))%N then Some (n - 87)%N
  else if ((65 <=? n) && (n <=? 70))%N then Some (n - 55)%N else None.

(** The UTF-8 of a code point below 65536; half of a surrogate pair is replaced.
    (Pairs are not joined: the encoder does not write any.) *)
Definition utf8 (n : N) : string :=
  (if n <? 128 then String (ascii_of_N n) ""
   else if n <? 2048 then String (ascii_of_N (192 + n / 64)) (String (ascii_of_N (128 + n mod 64)) "")
   else if (55296 <=? n) && (n <? 57344) then replacement
   else String (ascii_of_N (224 + n / 4096)) (String (ascii_of_N (128 + n / 64 mod 64)) (String (ascii_of_N (128 + n mod 64)) "")))%N.

Definition short_unescape (c : ascii) : option ascii :=
  if bool_decide (c ∈ [dquote; backslash; "/"%char]) then Some c
  else if bool_decide (c = "b"%char) then Some (ascii_of_N 8)
  else if bool_decide (c = "t"%char) then Some (ascii_of_N 9)
  else if bool_decide (c = "n"%char) then Some (ascii_of_N 10)
  else if bool_decide (c = "f"%char) then Some (ascii_of_N 12)
  else if bool_decide (c = "r"%char) then Some (ascii_of_N 13)
  else None.

Definition prepend (s : string) (o : option (string * string)) : option (string * string) :=
  match o with Some (t, r) => Some (s +:+ t, r) | None => None end.

(** The characters of a string up to its closing quote, and what follows it. *)
Fixpoint parse_chars (s : string) : option (string * string) :=
  match s with
  | "" => None
  | String c r =>
      if bool_decide (c = dquote) then Some ("", r)
      else if bool_decide (c = backslash) then
        match r with
        | "" => None
        | String e r' =>
            if bool_decide (e = "u"%char) then
              match r' with
              | String h1 (String h2 (String h3 (String h4 r4))) =>
                  match hex_value h1, hex_value h2, hex_value h3, hex_value h4 with
                  | Some a, Some b, Some c, Some d => prepend (utf8 (4096 * a + 256 * b + 16 * c + d)) (parse_chars r4)
                  | _, _, _, _ => None
                  end
              | _ => None
              end
            else match short_unescape e with
                 | Some x => prepend (String x "") (parse_chars r')
                 | None => None
                 end
        end
      else if (code c <? 32)%N then None
      else prepend (String c "") (parse_chars r)
  end.

Definition number_char (c : ascii) : bool := is_digit c || bool_decide (c ∈ ["-"; "+"; "."; "e"; "E"]%char).
Fixpoint number_span (s : string) : string * string :=
  match s with
  | "" => ("", "")
  | String c r => if number_char c then let '(n, r) := number_span r in (String c n, r) else ("", s)
  end.

(** [lit] of a whole word. *)
Fixpoint word (w s : string) : option string :=
  match w with "" => Some s | String c w => r ← lit c s; word w r end.

Definition scalar (s : string) : option (doc * string) :=
  match word "null" s, word "true" s, word "false" s with
  | Some r, _, _ => Some (DNull, r)
  | _, Some r, _ => Some (DBool true, r)
  | _, _, Some r => Some (DBool false, r)
  | _, _, _ => let '(n, r) := number_span s in if number_ok n then Some (DNum n, r) else None
  end.

(** Every nested call is on a shorter text, or is the one inside an array or
    object: twice the length is enough fuel. *)
Fixpoint parse_value (fuel : nat) (s : string) : option (doc * string) :=
  match fuel with
  | O => None
  | S n =>
      match skip_space s with
      | "" => None
      | String c r =>
          if bool_decide (c = dquote) then '(t, r) ← parse_chars r; Some (DStr t, r)
          else if bool_decide (c = "["%char) then
            match lit "]" (skip_space r) with
            | Some r => Some (DArr [], r)
            | None => '(l, r) ← parse_elements n r; Some (DArr l, r)
            end
          else if bool_decide (c = "{"%char) then
            match lit "}" (skip_space r) with
            | Some r => Some (DObj [], r)
            | None => '(l, r) ← parse_members n r; Some (DObj l, r)
            end
          else scalar (String c r)
      end
  end
with parse_elements (fuel : nat) (s : string) : option (list doc * string) :=
  match fuel with
  | O => None
  | S n =>
      '(v, r) ← parse_value n s;
      let r := skip_space r in
      match lit "," r, lit "]" r with
      | Some r, _ => '(l, r) ← parse_elements n r; Some (v :: l, r)
      | _, Some r => Some ([v], r)
      | _, _ => None
      end
  end
with parse_members (fuel : nat) (s : string) : option (list (string * doc) * string) :=
  match fuel with
  | O => None
  | S n =>
      r ← lit dquote (skip_space s);
      '(k, r) ← parse_chars r;
      r ← lit ":" (skip_space r);
      '(v, r) ← parse_value n r;
      let r := skip_space r in
      match lit "," r, lit "}" r with
      | Some r, _ => '(l, r) ← parse_members n r; Some ((k, v) :: l, r)
      | _, Some r => Some ([(k, v)], r)
      | _, _ => None
      end
  end.

Definition parse_json (s : string) : option doc :=
  '(d, r) ← parse_value (2 * String.length s) s;
  if bool_decide (skip_space r = "") then Some d else None.

Example parse_json_examples :
  parse_json (" {" +:+ quoted "a" +:+ ": [1, -2.5e3 ,true], " +:+ quoted "<b>" +:+ ":{} }") =
    Some (DObj [("a", DArr [DNum "1"; DNum "-2.5e3"; DBool true]); ("<b>", DObj [])]) /\
  parse_json "[1,]" = None /\ parse_json "01" = None /\ parse_json "nul" = None.
Proof. by vm_compute. Qed.

(** ** Strings are read back *)

Lemma code_ascii n : (n < 256)%N -> code (ascii_of_N n) = n.
Proof. apply N_ascii_embedding. Qed.

Lemma hex_value_digit n : (n < 16)%N -> hex_value (hex_digit n) = Some n.
Proof.
  intros Hn. unfold hex_value, hex_digit. destruct (N.ltb_spec n 10); rewrite code_ascii by lia.
  - rewrite (proj2 (N.leb_le _ _)), (proj2 (N.leb_le _ _)) by lia. cbn [andb]. f_equal. lia.
  - rewrite (proj2 (N.leb_gt (87 + n) 57)) by lia. rewrite andb_false_r.
    rewrite !(proj2 (N.leb_le _ _)) by lia. cbn [andb]. f_equal. lia.
Qed.

Lemma prepend_prepend a b o : prepend a (prepend b o) = prepend (a +:+ b) o.
Proof. destruct o as [[t r]|]; [|done]. cbn. by rewrite str_app_assoc. Qed.

Lemma parse_unicode a b c d t : (a < 16)%N -> (b < 16)%N -> (c < 16)%N -> (d < 16)%N ->
  parse_chars (unicode_escape a b c d +:+ t) = prepend (utf8 (4096 * a + 256 * b + 16 * c + d)) (parse_chars t).
Proof.
  intros Ha Hb Hc Hd. change (unicode_escape a b c d +:+ t) with
    (String backslash (String "u" (String (hex_digit a) (String (hex_digit b) (String (hex_digit c) (String (hex_digit d) t)))))).
  cbn [parse_chars]. by rewrite !hex_value_digit.
Qed.

Lemma parse_short c e t : short_escape c = Some e -> parse_chars (String backslash (String e t)) = prepend (String c "") (parse_chars t).
Proof.
  unfold short_escape. intros He.
  assert (Hc : forall n, code c = n -> c = ascii_of_N n) by (intros n <-; symmetry; apply ascii_N_embedding).
  case_bool_decide as H1; [subst; by injection He as <-|]. case_bool_decide as H2; [subst; by injection He as <-|].
  repeat (match type of He with context [(code c =? ?n)%N] => destruct (N.eqb_spec (code c) n) as [Hb|_] end;
          [rewrite (Hc _ Hb); by injection He as <-|]). done.
Qed.

Lemma parse_escape_char c t : parse_chars (escape_char c +:+ t) = prepend (String c "") (parse_chars t).
Proof.
  unfold escape_char. destruct (short_escape c) as [e|] eqn:He.
  { change (String backslash (String e "") +:+ t) with (String backslash (String e t)). by apply parse_short. }
  assert (Hq : c <> dquote /\ c <> backslash) by (unfold short_escape in He; repeat case_bool_decide; by split). destruct Hq.
  destruct (inert c) eqn:Hi.
  - change (String c "" +:+ t) with (String c t). cbn [parse_chars]. rewrite !bool_decide_false by done.
    unfold inert in Hi. apply andb_true_iff in Hi as [Hi%N.leb_le _]. by rewrite (proj2 (N.ltb_ge _ _)).
  - pose proof (N_of_ascii_bound c) as Hb. fold (code c) in Hb.
    assert (Hlt : (code c < 128)%N).
    { unfold inert, html_char in Hi. apply andb_false_iff in Hi as [Hi%N.leb_gt|Hi]; [lia|]. apply negb_false_iff, bool_decide_eq_true in Hi.
      set_unfold. destruct Hi as [->|[->|[->|[]]]]; done. }
    rewrite parse_unicode by (try apply N.Div0.div_lt_upper_bound; try apply N.mod_lt; lia).
    replace (4096 * 0 + 256 * 0 + 16 * (code c / 16) + code c mod 16)%N with (code c) by (pose proof (N.div_mod (code c) 16); lia).
    unfold utf8. rewrite (proj2 (N.ltb_lt _ _)) by done. unfold code. by rewrite ascii_N_embedding.
Qed.

Lemma parse_escape s rest : parse_chars (escape s +:+ String dquote rest) = Some (s, rest).
Proof.
  remember (String.length s) as n eqn:Hn. revert s Hn. induction (lt_wf n) as [n _ IH]. intros s ->.
  destruct s as [|c r]; [done|].
  assert (Hgen : parse_chars ((escape_char c +:+ escape r) +:+ String dquote rest) = Some (String c r, rest)).
  { rewrite str_app_assoc, parse_escape_char, (IH (String.length r)); [done| |done]. cbn. lia. }
  destruct r as [|d [|e r']]; [exact Hgen..|]. cbn [escape]. destruct (line_separator c d e) eqn:Hl; [|exact Hgen].
  rewrite str_app_assoc. unfold line_separator in Hl. rewrite !andb_true_iff, orb_true_iff, !N.eqb_eq in Hl. destruct Hl as [[Hc Hd] He].
  rewrite parse_unicode by lia. rewrite (IH (String.length r')); [|cbn; lia|done].
  assert (Hu : utf8 (4096 * 2 + 256 * 0 + 16 * 2 + (code e - 160)) = String c (String d (String e ""))).
  { rewrite <-(ascii_N_embedding c), <-(ascii_N_embedding d), <-(ascii_N_embedding e). fold (code c) (code d) (code e).
    rewrite Hc, Hd. by destruct He as [-> | ->]. }
  by rewrite Hu.
Qed.

(** ** Numbers are read back *)

Definition ends_number (s : string) : Prop := match s with "" => True | String c _ => number_char c = false end.

Lemma number_span_all n rest : all_bytes number_char n = true -> ends_number rest -> number_span (n +:+ rest) = (n, rest).
Proof.
  intros Hn Hr. induction n as [|c n IH].
  - destruct rest as [|c rest]; [done|]. change ("" +:+ String c rest) with (String c rest). cbn [number_span]. by rewrite Hr.
  - cbn in Hn. apply andb_true_iff in Hn as [Hc Hn]. rewrite str_app_cons. cbn [number_span]. by rewrite Hc, IH.
Qed.

Lemma digits_span_spec s : let '(d, r) := digits_span s in s = d +:+ r /\ all_bytes is_digit d = true.
Proof.
  induction s as [|c s IH]; [done|]. cbn [digits_span]. destruct (is_digit c) eqn:Hc; [|done].
  destruct (digits_span s) as [d r]. destruct IH as [-> Hd]. split; [done|]. cbn. by rewrite Hc.
Qed.

Lemma digit_number_char c : is_digit c = true -> number_char c = true.
Proof. unfold number_char. by intros ->. Qed.

Lemma digits1_chars s r : digits1 s = Some r -> all_bytes number_char r = true -> all_bytes number_char s = true.
Proof.
  unfold digits1. pose proof (digits_span_spec s) as Hs. destruct (digits_span s) as [d r']. destruct Hs as [-> Hd].
  case_bool_decide; [done|]. intros [= ->] Hr. rewrite all_bytes_app, Hr, andb_true_r. by eapply all_bytes_impl; [apply digit_number_char|].
Qed.

Lemma exponent_chars s : exponent_ok s = true -> all_bytes number_char s = true.
Proof.
  destruct s as [|e r]; [done|]. cbn [exponent_ok all_bytes]. cbv zeta.
  intros [He Hr%bool_decide_eq_true]%andb_true_iff. apply andb_true_iff. split.
  - unfold number_char. apply orb_true_iff. right. apply bool_decide_eq_true.
    apply orb_true_iff in He as [He|He]; apply bool_decide_eq_true in He; subst; set_solver.
  - destruct r as [|c r]; [done|]. destruct (bool_decide (c = "+"%char) || bool_decide (c = "-"%char)) eqn:Hs.
    + cbn. rewrite (digits1_chars r "") by done. rewrite andb_true_r. unfold number_char. apply orb_true_iff. right. apply bool_decide_eq_true.
      apply orb_true_iff in Hs as [Hs|Hs]; apply bool_decide_eq_true in Hs; subst; set_solver.
    + by apply (digits1_chars _ "").
Qed.

Lemma after_integer_chars s : after_integer_ok s = true -> all_bytes number_char s = true.
Proof.
  destruct s as [|c r]; [done|]. unfold after_integer_ok. case_bool_decide as Hc; [|apply exponent_chars].
  destruct (digits1 r) as [r'|] eqn:Hd; [|done]. intros Hr%exponent_chars. cbn. subst. by rewrite (digits1_chars r r').
Qed.

(** What a number starts with, and that it is made of its characters. *)
Lemma number_ok_chars n : number_ok n = true ->
  all_bytes number_char n = true /\ exists c r, n = String c r /\ (is_digit c = true \/ c = "-"%char).
Proof.
  unfold number_ok. intros Hn.
  set (s := match n with "" => n | String c r => if bool_decide (c = "-"%char) then r else n end) in Hn.
  assert (Hs : all_bytes number_char s = true /\ exists c r, s = String c r /\ is_digit c = true).
  { pose proof (digits_span_spec s) as Hd. destruct (digits_span s) as [d r]. destruct Hd as [-> Hd]. destruct d as [|c d]; [done|].
    apply andb_true_iff in Hn as [_ Hr%after_integer_chars]. split.
    - rewrite all_bytes_app, Hr, andb_true_r. by eapply all_bytes_impl; [apply digit_number_char|].
    - exists c, (d +:+ r). cbn in Hd. apply andb_true_iff in Hd as [Hc _]. by rewrite str_app_cons. }
  unfold s in Hs. destruct n as [|c r]; [by destruct Hs as [_ (? & ? & ? & _)]|]. case_bool_decide.
  - subst. destruct Hs as [Hs _]. split; [cbn; by rewrite Hs|]. eauto.
  - destruct Hs as [Hs (? & ? & [= <- <-] & ?)]. eauto 6.
Qed.

Lemma digits_span_all d : all_bytes is_digit d = true -> digits_span d = (d, "").
Proof. induction d as [|c d IH]; [done|]. cbn. intros [Hc Hd]%andb_true_iff. by rewrite Hc, IH. Qed.

Lemma pretty_digits_all (x : N) : all_bytes is_digit (pretty x) = true /\ exists c r, pretty x = String c r /\ (c = "0"%char -> r = "").
Proof.
  assert (Hch : forall d, (d < 10)%N -> is_digit (pretty_N_char d) = true).
  { intros d Hd. unfold is_digit. rewrite digit_of_pretty_N_char by done. done. }
  assert (Hgo : forall x s, all_bytes is_digit s = true -> all_bytes is_digit (pretty_N_go x s) = true /\
    ((0 < x)%N -> exists c r, pretty_N_go x s = String c r /\ c <> "0"%char)).
  { intros y. induction (N.lt_wf_0 y) as [y _ IH]. intros s Hs. destruct (decide (y = 0)%N) as [->|Hne].
    { rewrite pretty_N_go_0. split; [done|lia]. }
    rewrite pretty_N_go_step by lia.
    destruct (IH (y `div` 10)%N ltac:(apply N.div_lt; lia) (String (pretty_N_char (y `mod` 10)) s)) as [H1 H2].
    { cbn. rewrite Hch by (apply N.mod_lt; lia). done. }
    split; [done|]. intros _. destruct (decide (y < 10)%N) as [Hlt|Hge]; [|apply H2, N.div_str_pos; lia].
    rewrite N.div_small, N.mod_small, pretty_N_go_0 by done. eexists _, _. split; [done|].
    assert (y = 1 \/ y = 2 \/ y = 3 \/ y = 4 \/ y = 5 \/ y = 6 \/ y = 7 \/ y = 8 \/ y = 9)%N by lia. naive_solver. }
  unfold pretty, pretty_N. case_decide as H0; [split; [done|by eexists _, _]|].
  destruct (Hgo x "" eq_refl) as [H1 H2]. split; [done|]. destruct (H2 ltac:(lia)) as (c & r & -> & Hc). by eexists _, _.
Qed.

Lemma number_ok_itoa z : number_ok (itoa z) = true.
Proof.
  assert (HN : forall (x : N), (let '(d, r) := digits_span (pretty x) in
    match d with "" => false | String c d => (bool_decide (d = "") || negb (bool_decide (c = "0"%char))) && after_integer_ok r end) = true).
  { intros x. destruct (pretty_digits_all x) as [Hd (c & r & E & Hz)]. rewrite digits_span_all by done. rewrite E.
    rewrite andb_true_r. case_bool_decide; [done|]. cbn. apply negb_true_iff, bool_decide_eq_false. intros ->. by apply H, Hz. }
  assert (Hpos : forall x : N, number_ok (pretty x) = true).
  { intros x. unfold number_ok. destruct (pretty_digits_all x) as [Hd (c & r & E & Hz)]. specialize (HN x). rewrite E in *.
    rewrite bool_decide_false; [exact HN|]. intros ->. by cbn in Hd. }
  destruct z as [|p|p]; [done|exact (Hpos (N.pos p))|].
  change (itoa (Z.neg p)) with (String "-" (pretty (N.pos p))). unfold number_ok. rewrite bool_decide_true by done. apply HN.
Qed.

(** ** Documents are read back *)

Lemma json_ind' (P : json -> Prop) :
  P JNull -> (forall b, P (JBool b)) -> (forall z, P (JInt z)) -> (forall f, P (JFloat f)) -> (forall s, P (JStr s)) ->
  (forall t, P (JTime t)) -> (forall l, Forall P l -> P (JArr l)) ->
  (forall fields, Forall (fun kv => P kv.2) fields -> P (JObj fields)) -> forall j, P j.
Proof.
  intros Hn Hb Hi Hf Hs Ht Ha Ho. fix IH 1. intros [|b|z|f|s|t|l|fields].
  - exact Hn.
  - apply Hb.
  - apply Hi.
  - apply Hf.
  - apply Hs.
  - apply Ht.
  - apply Ha. induction l as [|j l IHl]; constructor; [apply IH|exact IHl].
  - apply Ho. induction fields as [|[k j] l IHl]; constructor; [apply IH|exact IHl].
Qed.

Fixpoint json_ok (j : json) : bool :=
  match j with
  | JFloat f => f64_ok f
  | JArr l => forallb json_ok l
  | JObj fields => forallb (fun '(_, j) => json_ok j) fields
  | _ => true
  end.

Section roundtrip.
Context `{FloatText}.

Fixpoint doc_of (j : json) : doc :=
  match j with
  | JNull => DNull
  | JBool b => DBool b
  | JInt z => DNum (itoa z)
  | JFloat f => DNum (float_text f)
  | JStr s => DStr s
  | JTime t => DStr (time_text t)
  | JArr l => DArr (map doc_of l)
  | JObj fields => DObj (map (fun '(k, j) => (k, doc_of j)) fields)
  end.

Definition member_text (kv : string * json) : string := let '(k, j) := kv in quoted k +:+ ":" +:+ text j.
Definition member_doc (kv : string * json) : string * doc := let '(k, j) := kv in (k, doc_of j).

Lemma parse_number fuel n rest : number_ok n = true -> ends_number rest -> (0 < fuel)%nat ->
  parse_value fuel (n +:+ rest) = Some (DNum n, rest).
Proof.
  intros Hn Hr Hf. destruct fuel as [|fuel]; [lia|]. destruct (number_ok_chars n Hn) as [Hc (c & r & E & Hh)].
  assert (Hsp : is_space c = false /\ c <> dquote /\ c <> "["%char /\ c <> "{"%char /\ c <> "n"%char /\ c <> "t"%char /\ c <> "f"%char).
  { destruct Hh as [Hd| ->]; [|by vm_compute]. split_and!; [|intros ->; by vm_compute in Hd..].
    unfold is_digit in Hd. apply bool_decide_eq_true in Hd as [d Hd]. unfold digit_of in Hd.
    destruct ((48 <=? N_of_ascii c) && (N_of_ascii c <=? 57))%N eqn:Hb; [|done]. unfold is_space, code. apply bool_decide_eq_false.
    apply andb_true_iff in Hb as [Hb1%N.leb_le Hb2%N.leb_le]. set_unfold. intros Hx. lia. }
  destruct Hsp as (Hsp & H1 & H2 & H3 & H4 & H5 & H6).
  assert (Hs : scalar (n +:+ rest) = Some (DNum n, rest)).
  { unfold scalar. rewrite number_span_all by done. rewrite Hn, E, str_app_cons. cbn [word lit mbind option_bind].
    by rewrite !bool_decide_false by congruence. }
  rewrite E, str_app_cons in *. cbn [parse_value skip_space]. rewrite Hsp, !bool_decide_false by done. by rewrite <-str_app_cons.
Qed.

Lemma parse_string fuel s rest : (0 < fuel)%nat -> parse_value fuel (quoted s +:+ rest) = Some (DStr s, rest).
Proof.
  intros Hf. destruct fuel as [|fuel]; [lia|]. unfold quoted. rewrite str_app_cons, str_app_assoc.
  change (String dquote "" +:+ rest) with (String dquote rest).
  change (parse_value (S fuel) (String dquote (escape s +:+ String dquote rest)))
    with ('(t, r) ← parse_chars (escape s +:+ String dquote rest); Some (DStr t, r)). by rewrite parse_escape.
Qed.

(** What the text of a value starts with. *)
Definition value_head (s : string) : Prop :=
  match s with "" => False | String c _ => is_space c = false /\ c <> "]"%char /\ c <> "}"%char end.

Lemma number_head n : number_ok n = true -> value_head n.
Proof.
  intros Hn. destruct (number_ok_chars n Hn) as [_ (c & r & -> & [Hd| ->])]; [|by vm_compute]. cbn.
  split_and!; [|intros ->; by vm_compute in Hd..].
  unfold is_digit in Hd. apply bool_decide_eq_true in Hd as [d Hd]. unfold digit_of in Hd.
  destruct ((48 <=? N_of_ascii c) && (N_of_ascii c <=? 57))%N eqn:Hb; [|done]. unfold is_space, code. apply bool_decide_eq_false.
  apply andb_true_iff in Hb as [Hb1%N.leb_le Hb2%N.leb_le]. set_unfold. intros Hx. lia.
Qed.

Lemma text_head j : json_ok j = true -> value_head (text j).
Proof.
  destruct j as [|[]|z|f|s|t|l|fields]; intros Hj; try by vm_compute.
  - apply number_head, number_ok_itoa.
  - by apply number_head, float_text_number.
Qed.
Lemma skip_head s rest : value_head s -> skip_space (s +:+ rest) = s +:+ rest /\ lit "]" (s +:+ rest) = None /\ lit "}" (s +:+ rest) = None.
Proof.
  destruct s as [|c s]; [done|]. intros (Hs & H1 & H2). rewrite str_app_cons. cbn [skip_space lit]. rewrite Hs.
  by rewrite !bool_decide_false.
Qed.

(** The texts of values that are read back. *)
Definition readable (j : json) : Prop :=
  forall fuel rest, (2 * String.length (text j) <= fuel)%nat -> ends_number rest ->
  parse_value fuel (text j +:+ rest) = Some (doc_of j, rest).

Lemma concat_next sep a b l : String.concat sep (a :: b :: l) = a +:+ sep +:+ String.concat sep (b :: l).
Proof. done. Qed.

Lemma length_head s : value_head s -> (0 < String.length s)%nat.
Proof. destruct s; [done|]. cbn. lia. Qed.

Lemma parse_elements_text l fuel rest : l <> [] -> Forall readable l -> Forall (fun j => value_head (text j)) l ->
  (2 * String.length (String.concat "," (map text l)) + 1 <= fuel)%nat ->
  parse_elements fuel (String.concat "," (map text l) +:+ String "]" rest) = Some (map doc_of l, rest).
Proof.
  revert fuel. induction l as [|j l IH]; intros fuel Hne Hr Hh Hf; [done|].
  apply Forall_cons in Hr as [Hj Hr], Hh as [Hj' Hh]. pose proof (length_head _ Hj') as Hlen.
  destruct fuel as [|fuel]; [lia|]. destruct l as [|j2 l].
  - cbn [map String.concat] in *. cbn [parse_elements]. rewrite Hj by (done || lia). done.
  - cbn [map] in *. rewrite concat_next in *. rewrite !length_app_str in Hf. cbn [String.length] in Hf.
    cbn [parse_elements]. rewrite !str_app_assoc. rewrite Hj by (done || lia). cbn [mbind option_bind].
    change ("," +:+ ?x) with (String "," x). change (skip_space (String "," ?x)) with (String "," x).
    change (lit "," (String "," ?x)) with (Some x). cbv iota beta.
    rewrite IH by (done || lia). done.
Qed.

Lemma parse_members_text l fuel rest : l <> [] -> Forall (fun kv => readable kv.2) l ->
  (2 * String.length (String.concat "," (map member_text l)) + 1 <= fuel)%nat ->
  parse_members fuel (String.concat "," (map member_text l) +:+ String "}" rest) = Some (map member_doc l, rest).
Proof.
  revert fuel. induction l as [|[k j] l IH]; intros fuel Hne Hr Hf; [done|].
  apply Forall_cons in Hr as [Hj Hr]. cbn [snd] in Hj. destruct fuel as [|fuel]; [lia|].
  assert (Hone : forall rest', (2 * String.length (text j) <= fuel)%nat -> ends_number rest' -> forall k' : option (list (string * doc) * string),
    parse_members (S fuel) (member_text (k, j) +:+ rest') =
      (let r := skip_space rest' in
       match lit "," r, lit "}" r with
       | Some r, _ => '(l, r) ← parse_members fuel r; Some ((k, doc_of j) :: l, r)
       | _, Some r => Some ([(k, doc_of j)], r)
       | _, _ => None
       end)).
  { intros rest' Hfl He _. unfold member_text, quoted. rewrite !str_app_assoc, str_app_cons. cbn [parse_members skip_space lit].
    change (is_space dquote) with false. cbv iota. cbn [lit]. rewrite bool_decide_true by done. cbn [mbind option_bind].
    rewrite str_app_assoc. change (String dquote "" +:+ ?x) with (String dquote x). rewrite parse_escape. cbn [mbind option_bind].
    change (":" +:+ ?x) with (String ":" x). change (skip_space (String ":" ?x)) with (String ":" x).
    change (lit ":" (String ":" ?x)) with (Some x). cbn [mbind option_bind]. by rewrite Hj. }
  assert (Hlen : (String.length (text j) + 3 <= String.length (member_text (k, j)))%nat).
  { unfold member_text, quoted. rewrite !length_app_str. cbn [String.length]. rewrite length_app_str. cbn. lia. }
  destruct l as [|[k2 j2] l].
  - cbn [map String.concat] in *. rewrite Hone by (done || exact None || lia). done.
  - cbn [map] in *. rewrite concat_next in *. rewrite !length_app_str in Hf. change (String.length ",") with 1%nat in Hf.
    rewrite !str_app_assoc. rewrite Hone by (done || exact None || lia).
    change ("," +:+ ?x) with (String "," x). change (skip_space (String "," ?x)) with (String "," x). cbv zeta.
    change (lit "," (String "," ?x)) with (Some x). cbv iota beta. rewrite IH by (done || lia). done.
Qed.

Lemma text_readable j : json_ok j = true -> readable j.
Proof.
  induction j as [|b|z|f|s|t|l IH|fields IH] using json_ind'; intros Hok fuel rest Hf Hr.
  - destruct fuel; [cbn in Hf; lia|]. done.
  - destruct fuel, b; cbn in Hf; try lia; done.
  - pose proof (number_ok_itoa z) as Hn. apply parse_number; [done|done|]. pose proof (length_head _ (number_head _ Hn)). cbn [text] in Hf. lia.
  - pose proof (float_text_number f Hok) as Hn. apply parse_number; [done|done|]. pose proof (length_head _ (number_head _ Hn)). cbn [text] in Hf. lia.
  - apply parse_string. cbn in Hf. lia.
  - apply parse_string. cbn in Hf. lia.
  - cbn [json_ok] in Hok. rewrite forallb_forall in Hok. cbn [text] in *. rewrite !length_app_str in Hf. cbn [String.length] in Hf.
    destruct fuel as [|fuel]; [lia|]. rewrite !str_app_assoc. change ("]" +:+ rest) with (String "]" rest).
    destruct l as [|j l]; [done|].
    assert (Hh : Forall (fun j => value_head (text j)) (j :: l)).
    { apply Forall_forall. intros x Hx. apply text_head, Hok. by apply list_elem_of_In. }
    assert (Hread : Forall readable (j :: l)).
    { rewrite Forall_forall in IH |- *. intros x Hx. apply IH; [done|]. apply Hok. by apply list_elem_of_In. }
    pose proof (parse_elements_text (j :: l) fuel rest ltac:(done) Hread Hh ltac:(lia)) as He.
    apply Forall_cons in Hh as [Hh _].
    assert (Hx : exists y, String.concat "," (map text (j :: l)) +:+ String "]" rest = text j +:+ y).
    { destruct l as [|j2 l]; cbn [map]; [by eexists|]. rewrite concat_next, !str_app_assoc. by eexists. }
    destruct Hx as [y Hy]. rewrite Hy in *. destruct (skip_head (text j) y Hh) as (Hsk & Hl & _).
    change (parse_value (S fuel) ("[" +:+ ?x)) with
      (match lit "]" (skip_space x) with Some r => Some (DArr [], r) | None => '(l, r) ← parse_elements fuel x; Some (DArr l, r) end).
    by rewrite Hsk, Hl, He.
  - cbn [json_ok] in Hok. rewrite forallb_forall in Hok. cbn [text] in *. fold member_text in *.
    change (map (fun '(k, j) => quoted k +:+ ":" +:+ text j) fields) with (map member_text fields) in *.
    rewrite !length_app_str in Hf. cbn [String.length] in Hf.
    destruct fuel as [|fuel]; [lia|]. rewrite !str_app_assoc. change ("}" +:+ rest) with (String "}" rest).
    destruct fields as [|[k j] l]; [done|].
    assert (Hread : Forall (fun kv => readable kv.2) ((k, j) :: l)).
    { rewrite Forall_forall in IH |- *. intros x Hx. apply IH; [done|]. destruct x as [k' j']. apply (Hok (k', j')). by apply list_elem_of_In. }
    pose proof (parse_members_text ((k, j) :: l) fuel rest ltac:(done) Hread ltac:(lia)) as He.
    assert (Hx : exists y, String.concat "," (map member_text ((k, j) :: l)) +:+ String "}" rest = String dquote y).
    { assert (Hm : exists y, member_text (k, j) = String dquote y) by by eexists.
      destruct Hm as [y Hy]. destruct l as [|kv l]; cbn [map]; [cbn [String.concat]|rewrite concat_next]; rewrite Hy, ?str_app_assoc, str_app_cons; by eexists. }
    destruct Hx as [y Hy]. rewrite Hy in *.
    change (parse_value (S fuel) ("{" +:+ String dquote y)) with
      ('(l, r) ← parse_members fuel (String dquote y); Some (DObj l, r)).
    by rewrite He.
Qed.
(** JSON survives its bytes.  A document whose floats are doubles is written
    as text that a JSON parser reads as the same document: the same members in
    the same order, strings byte for byte whatever they hold, numbers as their
    texts, which for doubles and 64-bit integers determine the number. *)
Theorem json_text_roundtrip j : json_ok j = true ->
  parse_json (text j) = Some (doc_of j) /\
  (forall f, f64_ok f = true -> read_float (float_text f) = Some f) /\ (forall z, in_int64 z -> parse_int (itoa z) = (z, None)).
Proof.
  intros Hj. split; [|split; [apply read_float_text|apply parse_int_itoa]]. unfold parse_json.
  pose proof (text_readable j Hj (2 * String.length (text j))%nat "" ltac:(lia) I) as Hp.
  rewrite app_str_nil_r in Hp. by rewrite Hp.
Qed.

(** ** The text is inert *)

Lemma inert_hex n : (n < 16)%N -> inert (hex_digit n) = true.
Proof.
  intros Hn. assert (Hx : exists k, (k < 16)%nat /\ n = N.of_nat k) by (exists (N.to_nat n); lia). destruct Hx as (k & Hk & ->).
  do 16 (destruct k as [|k]; [done|]). lia.
Qed.

Lemma inert_escape_char c : all_bytes inert (escape_char c) = true.
Proof.
  unfold escape_char. destruct (short_escape c) as [e|] eqn:He.
  - unfold short_escape in He. cbn. repeat case_match; by simplify_eq.
  - destruct (inert c) eqn:Hi; [cbn; by rewrite Hi|]. cbn. pose proof (N_of_ascii_bound c) as Hb. fold (code c) in Hb.
    rewrite !inert_hex by (try apply N.Div0.div_lt_upper_bound; try apply N.mod_lt; lia). done.
Qed.

Lemma inert_escape s : all_bytes inert (escape s) = true.
Proof.
  remember (String.length s) as n eqn:Hn. revert s Hn. induction (lt_wf n) as [n _ IH]. intros s ->.
  destruct s as [|c r]; [done|].
  assert (Hgen : all_bytes inert (escape_char c +:+ escape r) = true).
  { rewrite all_bytes_app, inert_escape_char. apply (IH (String.length r)); [cbn; lia|done]. }
  destruct r as [|d [|e r']]; [exact Hgen..|]. cbn [escape]. destruct (line_separator c d e) eqn:Hl; [|exact Hgen].
  rewrite all_bytes_app, (IH (String.length r')) by (done || cbn; lia). rewrite andb_true_r.
  unfold line_separator in Hl. apply andb_true_iff in Hl as [_ [He|He]%orb_true_iff]; apply N.eqb_eq in He; by rewrite He.
Qed.

Lemma inert_quoted s : all_bytes inert (quoted s) = true.
Proof. unfold quoted. cbn. rewrite all_bytes_app, inert_escape. done. Qed.

Lemma inert_number n : number_ok n = true -> all_bytes inert n = true.
Proof.
  intros [Hn _]%number_ok_chars. eapply all_bytes_impl; [|exact Hn]. intros c [Hc|Hc]%orb_true_iff.
  - unfold is_digit in Hc. apply bool_decide_eq_true in Hc as [d Hd]. unfold digit_of in Hd.
    destruct ((48 <=? N_of_ascii c) && (N_of_ascii c <=? 57))%N eqn:Hb; [|done]. apply andb_true_iff in Hb as [Hb1%N.leb_le Hb2%N.leb_le].
    unfold inert. rewrite (proj2 (N.leb_le _ _)) by (unfold code; lia). cbn. apply negb_true_iff, bool_decide_eq_false. unfold code in *.
    set_unfold. intros [->|[->|[->|[]]]]; vm_compute in Hb1, Hb2; done.
  - apply bool_decide_eq_true in Hc. set_unfold. by destruct Hc as [->|[->|[->|[->|[->|[]]]]]].
Qed.

Lemma inert_joined l : Forall (fun s => all_bytes inert s = true) l -> all_bytes inert (String.concat "," l) = true.
Proof.
  induction 1 as [|a l Ha Hl IH]; [done|]. destruct l as [|b l]; [done|]. rewrite concat_next, !all_bytes_app, Ha, IH. done.
Qed.

Lemma text_inert j : json_ok j = true -> all_bytes inert (text j) = true.
Proof.
  induction j as [|[]|z|f|s|t|l IH|fields IH] using json_ind'; intros Hok; try done; cbn [text].
  - apply inert_number, number_ok_itoa.
  - by apply inert_number, float_text_number.
  - apply inert_quoted.
  - apply inert_quoted.
  - cbn [json_ok] in Hok. rewrite forallb_forall in Hok. rewrite !all_bytes_app, inert_joined; [done|]. rewrite Forall_map.
    rewrite Forall_forall in IH |- *. intros j Hj. apply IH, Hok; [done|]. by apply list_elem_of_In.
  - cbn [json_ok] in Hok. rewrite forallb_forall in Hok. rewrite !all_bytes_app, inert_joined; [done|]. rewrite Forall_map.
    rewrite Forall_forall in IH |- *. intros [k j] Hj. rewrite !all_bytes_app, inert_quoted. cbn.
    apply (IH (k, j)); [done|]. apply (Hok (k, j)). by apply list_elem_of_In.
Qed.

(** server.go: [mustJSON], which puts data into the script of a page. *)
Definition mustJSON (v : result json) : string := match v with Ok j => text j | Err _ => "null" end.

(** C31: Data in a page's script stays data.  Whatever strings the value holds,
    what [mustJSON] writes has no <, > or & and no line break or other control
    byte, so it cannot close the script element or start a comment, and as a
    literal it is the value; a value that does not marshal is null. *)
Theorem script_data_inert v : (forall j, v = Ok j -> json_ok j = true) ->
  all_bytes (fun c => (32 <=? code c)%N && negb (bool_decide (c ∈ ["<"; ">"; "&"]%char))) (mustJSON v) = true /\
  parse_json (mustJSON v) = Some (match v with Ok j => doc_of j | Err _ => DNull end).
Proof.
  intros Hv. destruct v as [j|e]; [|done]. specialize (Hv j eq_refl). split; [by apply text_inert|].
  unfold parse_json, mustJSON. pose proof (text_readable j Hv (2 * String.length (text j))%nat "" ltac:(lia) I) as Hp.
  rewrite app_str_nil_r in Hp. by rewrite Hp.
Qed.
End roundtrip.

(** ** An instance for evaluation *)

(** A double as the integer and the power of two that it is made of; the text is
    a JSON number, not the shortest decimal one. *)
Definition scaled_text (f : float64) : string :=
  match f with
  | S754_zero s => if s then "-0" else "0"
  | S754_finite s m e => itoa (if s then Z.neg m else Z.pos m) +:+ "e" +:+ itoa e
  | _ => ""
  end.

Definition scaled_read (t : string) : option float64 :=
  match str_cut "e" t with
  | (m, Some e) => match fst (parse_int m) with
                   | Z.pos p => Some (S754_finite false p (fst (parse_int e)))
                   | Z.neg p => Some (S754_finite true p (fst (parse_int e)))
                   | 0 => None
                   end
  | (t, None) => Some (S754_zero (has_prefix t "-"))
  end.

Lemma digits2_bound m : (m < 2 ^ digits2_pos m)%positive.
Proof. induction m as [m IH|m IH|]; cbn [digits2_pos]; rewrite ?Pos.pow_succ_r; lia. Qed.

Lemma f64_ok_bounds s m e : f64_ok (S754_finite s m e) = true -> Z.pos m < 2 ^ 53 /\ -1074 <= e <= 971.
Proof.
  unfold f64_ok, f64_finite, valid_binary, bounded, canonical_mantissa, fexp. cbn [andb].
  intros [Hc%Z.eqb_eq He%Zle_bool_imp_le]%andb_true_iff. unfold emin in Hc.
  assert (Hd : Z.pos (digits2_pos m) <= 53) by lia. split; [|lia].
  pose proof (digits2_bound m) as Hb. apply Pos2Z.pos_lt_pos in Hb. rewrite Pos2Z.inj_pow in Hb.
  pose proof (Z.pow_le_mono_r 2 (Z.pos (digits2_pos m)) 53 ltac:(lia) Hd). lia.
Qed.

Lemma itoa_no_e z : has_byte "e" (itoa z) = false.
Proof. apply has_byte_itoa; [|done]. intros d Hd. unfold pretty_N_char. by repeat case_match. Qed.

Lemma digits_span_app d r : all_bytes is_digit d = true -> match r with String c _ => is_digit c = false | "" => True end ->
  digits_span (d +:+ r) = (d, r).
Proof.
  intros Hd Hr. induction d as [|c d IH].
  - change ("" +:+ r) with r. destruct r as [|c r]; [done|]. cbn [digits_span]. by rewrite Hr.
  - cbn in Hd. apply andb_true_iff in Hd as [Hc Hd]. rewrite str_app_cons. cbn [digits_span]. by rewrite Hc, IH.
Qed.

Lemma exponent_itoa e : exponent_ok (String "e" (itoa e)) = true.
Proof.
  assert (Hd : forall x : N, digits1 (pretty x) = Some "").
  { intros x. unfold digits1. destruct (pretty_digits_all x) as [Hx (c & r & E & _)]. rewrite digits_span_all by done. by rewrite E. }
  assert (HN : forall x : N, exponent_ok (String "e" (pretty x)) = true).
  { intros x. cbn [exponent_ok]. cbv zeta. destruct (pretty_digits_all x) as [Hx (c & r & E & _)]. specialize (Hd x). rewrite E in *.
    cbn in Hx. apply andb_true_iff in Hx as [Hc _]. rewrite (bool_decide_false (c = "+"%char)), (bool_decide_false (c = "-"%char)) by (by intros ->).
    cbn [orb]. by rewrite Hd. }
  destruct e as [|p|p]; [done|exact (HN (N.pos p))|].
  change (itoa (Z.neg p)) with (String "-" (pretty (N.pos p))).
  change (exponent_ok (String "e" (String "-" (pretty (N.pos p))))) with (bool_decide (digits1 (pretty (N.pos p)) = Some "")). by rewrite Hd.
Qed.

Lemma number_ok_scaled z e : z <> 0 -> number_ok (itoa z +:+ "e" +:+ itoa e) = true.
Proof.
  intros Hz. change ("e" +:+ itoa e) with (String "e" (itoa e)).
  assert (HN : forall p, (let '(d, r) := digits_span (pretty (N.pos p) +:+ String "e" (itoa e)) in
    match d with "" => false | String c d => (bool_decide (d = "") || negb (bool_decide (c = "0"%char))) && after_integer_ok r end) = true).
  { intros p. destruct (pretty_digits_all (N.pos p)) as [Hd (c & r & E & Hc)]. rewrite digits_span_app by done. rewrite E.
    apply andb_true_iff. split; [|exact (exponent_itoa e)]. case_bool_decide; [done|]. cbn. apply negb_true_iff, bool_decide_eq_false.
    intros ->. by apply H, Hc. }
  destruct z as [|p|p]; [done|..].
  - change (itoa (Z.pos p)) with (pretty (N.pos p)). unfold number_ok. specialize (HN p).
    destruct (pretty_digits_all (N.pos p)) as [Hd (c & r & E & _)]. rewrite E in *. rewrite str_app_cons in *.
    rewrite bool_decide_false; [exact HN|]. intros ->. by cbn in Hd.
  - change (itoa (Z.neg p) +:+ String "e" (itoa e)) with (String "-" (pretty (N.pos p) +:+ String "e" (itoa e))).
    unfold number_ok. rewrite bool_decide_true by done. apply HN.
Qed.

Lemma scaled_number f : f64_ok f = true -> number_ok (scaled_text f) = true.
Proof. destruct f as [[]|s| |s m e]; intros Hf; try done. cbn [scaled_text]. apply number_ok_scaled. by destruct s. Qed.

Lemma scaled_read_text f : f64_ok f = true -> scaled_read (scaled_text f) = Some f.
Proof.
  destruct f as [[]|s| |s m e]; intros Hf; try done. apply f64_ok_bounds in Hf as [Hm He].
  unfold scaled_read, scaled_text. change ("e" +:+ itoa e) with (String "e" (itoa e)). rewrite str_cut_app by apply itoa_no_e.
  rewrite !parse_int_itoa by (unfold in_int64, int64_min, int64_max; destruct s; lia). by destruct s.
Qed.

Definition scaled_floats : FloatText := {|
  float_text := scaled_text; read_float := scaled_read; float_text_number := scaled_number; read_float_text := scaled_read_text
|}.

#[local] Existing Instance scaled_floats.

(** A vehicle id that would close the script. *)
Definition hostile : json :=
  JObj [("id", JStr ("</script><img src=x" +:+ String (ascii_of_N 10) "&")); ("lat", JFloat (f64_of_Z 3)); ("n", JArr [JInt (-7); JNull])].

Lemma json_text_roundtrip_witness : exists d, parse_json (text hostile) = Some d.
Proof. eexists. exact (proj1 (json_text_roundtrip hostile eq_refl)). Defined.

Lemma script_data_inert_witness : has_byte "<" (mustJSON (Ok hostile)) = false.
Proof.
  destruct (script_data_inert (Ok hostile)) as [H _].
  - intros j E. injection E as <-. reflexivity.
  - apply (all_bytes_absent _ "<" _ H). reflexivity.
Defined.
