(* ===== verification/EventStream.v ===== *)
(** * Server-sent events on the wire (internal/web/demo/sse.go)

    The bytes that [writeSSE] puts on a connection, and the event stream parser
    of a browser, which reads a byte at a time whatever pieces the network makes:
    the events it dispatches are the ones sent, and a connection that breaks
    yields a prefix of them. *)

From Stdlib Require Import Ascii.
From S2P Require Import Prelude GoStrings Json Web JsonText.

Definition LF : ascii := ascii_of_N 10.
Definition CR : ascii := ascii_of_N 13.

(** [fmt.Fprintf(w, "event: %s\ndata: %s\n\n", event, b)] *)
Definition sse_text (event data : string) : string :=
  "event: " +:+ event +:+ String LF ("data: " +:+ data +:+ String LF (String LF "")).

(** ** The parser of a browser *)

(** The line so far, whether the last byte was a carriage return, the event type
    and data buffers, and the events dispatched. *)
Record parser := {
  pLine : string;
  pAfterCR : bool;
  pType : string;
  pData : string;
  pEvents : list (string * string)
}.

Definition fresh : parser := {| pLine := ""; pAfterCR := false; pType := ""; pData := ""; pEvents := [] |}.

(** The data without its last byte, a line feed. *)
Fixpoint drop_last (s : string) : string :=
  match s with
  | "" | String _ "" => ""
  | String c r => String c (drop_last r)
  end.

Definition dispatch (p : parser) : parser :=
  {| pLine := ""; pAfterCR := pAfterCR p; pType := ""; pData := "";
     pEvents := if bool_decide (pData p = "") then pEvents p
                else pEvents p ++ [(if bool_decide (pType p = "") then "message" else pType p, drop_last (pData p))] |}.

(** A field; those besides event and data do not matter to the pages. *)
Definition field (name value : string) (p : parser) : parser :=
  {| pLine := ""; pAfterCR := pAfterCR p;
     pType := if bool_decide (name = "event") then value else pType p;
     pData := if bool_decide (name = "data") then pData p +:+ value +:+ String LF "" else pData p;
     pEvents := pEvents p |}.

Definition end_line (p : parser) : parser :=
  match pLine p with
  | "" => dispatch p
  | String c _ =>
      if bool_decide (c = ":"%char) then field "" "" p
      else match str_cut ":" (pLine p) with
           | (name, Some (String s value)) => field name (if bool_decide (s = " "%char) then value else String s value) p
           | (name, Some "") | (name, None) => field name "" p
           end
  end.

Definition after_cr (b : bool) (p : parser) : parser :=
  {| pLine := pLine p; pAfterCR := b; pType := pType p; pData := pData p; pEvents := pEvents p |}.

Definition feed (p : parser) (c : ascii) : parser :=
  if bool_decide (c = LF) then (if pAfterCR p then after_cr false p else end_line p)
  else if bool_decide (c = CR) then after_cr true (end_line p)
  else {| pLine := pLine p +:+ String c ""; pAfterCR := false; pType := pType p; pData := pData p; pEvents := pEvents p |}.

Fixpoint receive (p : parser) (bytes : string) : parser :=
  match bytes with "" => p | String c r => receive (feed p c) r end.

Definition dispatched (bytes : string) : list (string * string) := pEvents (receive fresh bytes).

Example dispatched_examples :
  dispatched ("data:x" +:+ String CR (String LF "data: y" +:+ String LF (": note" +:+ String CR (String CR "")))) =
    [("message", "x" +:+ String LF "y")] /\
  dispatched (sse_text "stats" "{}") = [("stats", "{}")] /\ dispatched ("event: a" +:+ String LF (String LF "")) = [].
Proof. by vm_compute. Qed.

(** ** What is sent is dispatched *)

Lemma receive_app p a b : receive p (a +:+ b) = receive (receive p a) b.
Proof. revert p. induction a as [|c a IH]; intros p; [done|]. rewrite str_app_cons. cbn [receive]. apply IH. Qed.

(** Bytes that stay in a line. *)
Definition line_byte (c : ascii) : bool := negb (bool_decide (c = LF)) && negb (bool_decide (c = CR)).

Lemma receive_line p s : all_bytes line_byte s = true -> s <> "" ->
  receive p s = {| pLine := pLine p +:+ s; pAfterCR := false; pType := pType p; pData := pData p; pEvents := pEvents p |}.
Proof.
  revert p. induction s as [|c s IH]; intros p Hs Hne; [done|]. cbn in Hs. apply andb_true_iff in Hs as [Hc Hs].
  apply andb_true_iff in Hc as [H1%negb_true_iff H2%negb_true_iff].
  cbn [receive]. unfold feed. rewrite H1, H2. destruct s as [|d s]; [done|].
  rewrite IH by done. cbn [pLine pType pData pEvents]. by rewrite str_app_assoc.
Qed.

Lemma drop_last_snoc s c : drop_last (s +:+ String c "") = s.
Proof.
  induction s as [|d s IH]; [done|]. rewrite str_app_cons. cbn [drop_last]. rewrite IH.
  destruct s as [|e s]; [done|]. by rewrite str_app_cons.
Qed.

(** An event of the server: no line breaks, and a name. *)
Definition sendable (e : string * string) : Prop :=
  e.1 <> "" /\ all_bytes line_byte e.1 = true /\ all_bytes line_byte e.2 = true.

Definition between (p : parser) : Prop := pLine p = "" /\ pAfterCR p = false /\ pType p = "" /\ pData p = "".

Lemma receive_line_LF p s : all_bytes line_byte s = true -> s <> "" -> pLine p = "" ->
  receive p (s +:+ String LF "") =
    end_line {| pLine := s; pAfterCR := false; pType := pType p; pData := pData p; pEvents := pEvents p |}.
Proof.
  intros Hs Hne Hp. rewrite receive_app, (receive_line p s) by done. rewrite Hp. cbn [receive]. unfold feed. cbn [pAfterCR].
  by rewrite bool_decide_true.
Qed.

Lemma end_line_field name value t d es : has_byte ":" name = false -> name <> "" ->
  end_line {| pLine := name +:+ ": " +:+ value; pAfterCR := false; pType := t; pData := d; pEvents := es |} =
    field name value {| pLine := name +:+ ": " +:+ value; pAfterCR := false; pType := t; pData := d; pEvents := es |}.
Proof.
  intros Hn Hne. unfold end_line. cbn [pLine]. change (name +:+ ": " +:+ value) with (name +:+ String ":" (String " " value)).
  rewrite str_cut_app by done. destruct name as [|c name]; [done|]. rewrite str_app_cons.
  cbn in Hn. apply orb_false_iff in Hn as [Hc _]. rewrite Hc. by rewrite bool_decide_true.
Qed.

Lemma receive_event p e : between p -> sendable e ->
  let p' := receive p (sse_text e.1 e.2) in between p' /\ pEvents p' = pEvents p ++ [e].
Proof.
  intros (Hl & Hc & Ht & Hd) (Hn & H1 & H2). destruct e as [name data]. cbn [fst snd] in *. unfold sse_text.
  replace ("event: " +:+ name +:+ String LF ("data: " +:+ data +:+ String LF (String LF "")))
    with (("event" +:+ ": " +:+ name) +:+ String LF "" +:+ ("data" +:+ ": " +:+ data) +:+ String LF "" +:+ String LF "") by (by rewrite !str_app_assoc).
  rewrite <-(str_app_assoc ("event" +:+ _)), receive_app, receive_line_LF by (by rewrite ?all_bytes_app, ?H1).
  rewrite end_line_field by done. rewrite <-(str_app_assoc ("data" +:+ _)), receive_app, receive_line_LF by (by rewrite ?all_bytes_app, ?H2).
  rewrite end_line_field by done. cbn [receive]. unfold feed, field. cbn [pAfterCR pLine pType pData pEvents].
  rewrite bool_decide_true by done. unfold end_line. cbn [pLine]. unfold dispatch. cbn [pData pType pEvents pAfterCR].
  change (bool_decide ("data" = "data")) with true. change (bool_decide ("event" = "data")) with false.
  change (bool_decide ("data" = "event")) with false. change (bool_decide ("event" = "event")) with true. cbv iota.
  rewrite Hd. change ("" +:+ data +:+ String LF "") with (data +:+ String LF ""). rewrite drop_last_snoc.
  rewrite !bool_decide_false by (done || by destruct data). by split.
Qed.

Definition stream_text (es : list (string * string)) : string := foldr (fun e s => sse_text e.1 e.2 +:+ s) "" es.

Lemma receive_events es p : between p -> Forall sendable es ->
  let p' := receive p (stream_text es) in between p' /\ pEvents p' = pEvents p ++ es.
Proof.
  revert p. induction es as [|e es IH]; intros p Hp Hs; [by rewrite app_nil_r|]. apply Forall_cons in Hs as [He Hs].
  cbn [stream_text foldr]. fold (stream_text es). rewrite receive_app. destruct (receive_event p e Hp He) as [Hp' E].
  destruct (IH _ Hp' Hs) as [Hp2 E2]. split; [done|]. by rewrite E2, E, <-app_assoc.
Qed.

(** Bytes only add events. *)
Lemma receive_extends p s : exists es, pEvents (receive p s) = pEvents p ++ es.
Proof.
  revert p. induction s as [|c s IH]; intros p; [exists []; by rewrite app_nil_r|]. cbn [receive].
  assert (Hf : exists es, pEvents (feed p c) = pEvents p ++ es).
  { assert (He : exists es, pEvents (end_line p) = pEvents p ++ es).
    { unfold end_line, dispatch, field. repeat case_match; cbn [pEvents]; eauto; exists []; by rewrite app_nil_r. }
    unfold feed. repeat case_match; cbn [after_cr pEvents]; eauto; exists []; by rewrite app_nil_r. }
  destruct Hf as [e1 E1], (IH (feed p c)) as [e2 E2]. exists (e1 ++ e2). by rewrite E2, E1, <-app_assoc.
Qed.

(** ** Documents over a stream *)

Section documents.
Context `{FloatText}.

(** What a response of events puts on the wire, up to its first chunk that is no
    event (an event stream has none). *)
Fixpoint sent_events {P} (l : list (chunk P)) : list (string * json) :=
  match l with SSE e j :: l => (e, j) :: sent_events l | _ => [] end.

Definition event_text (e : string * json) : string * string := (e.1, text e.2).

(** An event name of the server, and a document whose floats are doubles. *)
Definition event_ok (e : string * json) : Prop := e.1 <> "" /\ all_bytes line_byte e.1 = true /\ json_ok e.2 = true.

Lemma inert_line_byte c : inert c = true -> line_byte c = true.
Proof.
  unfold inert, line_byte. intros [Hc%N.leb_le _]%andb_true_iff. rewrite !bool_decide_false; [done|..]; by intros ->.
Qed.

Lemma event_sendable e : event_ok e -> sendable (event_text e).
Proof.
  intros (Hn & H1 & H2). split_and!; [done|done|]. eapply all_bytes_impl; [apply inert_line_byte|]. by apply text_inert.
Qed.

(** The listener of a page: the event's name, and [JSON.parse(e.data)]. *)
Definition parsed (e : string * string) : string * option doc := (e.1, parse_json e.2).

Lemma events_dispatched es : Forall event_ok es -> dispatched (stream_text (event_text <$> es)) = event_text <$> es.
Proof.
  intros Hes. unfold dispatched. destruct (receive_events (event_text <$> es) fresh) as [_ E]; [by split_and!| |exact E].
  rewrite Forall_fmap. eapply Forall_impl; [exact Hes|]. intros e He. by apply event_sendable.
Qed.

Lemma events_parsed es : Forall event_ok es -> parsed <$> (event_text <$> es) = (fun e => (e.1, Some (doc_of e.2))) <$> es.
Proof.
  intros Hes. rewrite <-list_fmap_compose. apply Forall_fmap_ext_1.
  eapply Forall_impl; [exact Hes|]. intros e (_ & _ & Hj). unfold compose, parsed, event_text. cbn [fst snd]. f_equal.
  unfold parse_json. pose proof (text_readable e.2 Hj (2 * String.length (text e.2))%nat "" ltac:(lia) I) as Hr.
  rewrite app_str_nil_r in Hr. by rewrite Hr.
Qed.

(** C27: The browser gets the events that were sent.  For any sequence of events
    whose documents hold doubles, whatever their strings hold, the bytes on the
    connection make the browser dispatch exactly these events in this order,
    each with a document that is parsed as the one sent; if the connection
    breaks after any number of bytes, the events dispatched by then are a
    prefix of them, none of them torn. *)
Theorem events_received es : Forall event_ok es ->
  let bytes := stream_text (event_text <$> es) in
  parsed <$> dispatched bytes = (fun e => (e.1, Some (doc_of e.2))) <$> es /\
  forall got lost, bytes = got +:+ lost ->
    exists n, parsed <$> dispatched got = (fun e => (e.1, Some (doc_of e.2))) <$> take n es.
Proof.
  intros Hes bytes. pose proof (events_dispatched es Hes) as Hd. fold bytes in Hd. split; [by rewrite Hd, events_parsed|].
  intros got lost E. unfold dispatched in *. rewrite E, receive_app in Hd.
  destruct (receive_extends (receive fresh got) lost) as [l El]. rewrite El in Hd.
  exists (length (pEvents (receive fresh got))).
  rewrite <-events_parsed by by apply Forall_take. f_equal. rewrite fmap_take, <-Hd. by rewrite take_app_length.
Qed.
End documents.

(** ** A concrete stream *)

#[local] Existing Instance scaled_floats.

Definition two_sent : list (string * json) := [("vehicles", hostile); ("done", JObj [("status", JStr "complete")])].

(** The connection breaks before the last line feed: the second event is lost
    whole. *)
Lemma events_received_witness : exists got n,
  got +:+ String LF "" = stream_text (event_text <$> two_sent) /\
  parsed <$> dispatched got = (fun e => (e.1, Some (doc_of e.2))) <$> take n two_sent.
Proof.
  destruct (events_received two_sent) as [_ H].
  { repeat constructor; discriminate. }
  exists (drop_last (stream_text (event_text <$> two_sent))).
  assert (E : drop_last (stream_text (event_text <$> two_sent)) +:+ String LF "" = stream_text (event_text <$> two_sent)) by (vm_compute; reflexivity).
  destruct (H _ _ (eq_sym E)) as [n Hn]. exists n. split; [exact E|exact Hn].
Defined.

Example broken_stream : map fst (dispatched (drop_last (stream_text (event_text <$> two_sent)))) = ["vehicles"].
Proof. by vm_compute. Qed.
