(* ===== verification/Views.v ===== *)
(** * What the demo server sends (internal/web/demo/server.go, replay.go)

    The view structs, how they are built from regions, feeds and positions, and
    their JSON.  Maps are written with their keys in order; a nil slice is
    [null]. *)

From S2P Require Import Prelude GoStrings Json Vehicle Regions IsleDB LivePipeline Replay Web.

Record vehicleView := {
  vvID : string;
  vvVehicleID : string;
  vvLat : float64;
  vvLng : float64;
  vvAgency : string;
  vvGroup : string;
  vvRoute : string;
  vvSpeed : float64;
  vvBearing : float64;
  vvStale : bool
}.

Record regionView := {
  rvID : string;
  rvLabel : string;
  rvCenter : float64 * float64;
  rvZoom : Z;
  rvAgencies : list string;
  rvActive : bool
}.

Record feedView := { fvAgency : string; fvRegion : string }.

Definition regionViews (regions : list MapRegion) (activeID : string) : list regionView :=
  (fun r => {| rvID := rID r; rvLabel := rLabel r; rvCenter := rCenter r; rvZoom := rZoom r;
               rvAgencies := rAgencies r; rvActive := bool_decide (rID r = activeID) |}) <$> regions.

Definition feedViews (feeds : list Feed) : list feedView :=
  (fun f => {| fvAgency := fAgency f; fvRegion := fRegion f |}) <$> feeds.

Definition agencyGroup (agency : string) : string :=
  if bool_decide (agency = "ktmb") then "ktmb"
  else if has_prefix agency "prasarana" then "prasarana"
  else "mybas".

Definition toView (pos : VehiclePosition) : vehicleView :=
  {| vvID := Agency pos +:+ ":" +:+ VehicleID pos; vvVehicleID := VehicleID pos; vvLat := Lat pos; vvLng := Lng pos;
     vvAgency := Agency pos; vvGroup := agencyGroup (Agency pos); vvRoute := Route pos; vvSpeed := Speed pos;
     vvBearing := Bearing pos; vvStale := false |}.

Definition set_stale (b : bool) (v : vehicleView) : vehicleView :=
  {| vvID := vvID v; vvVehicleID := vvVehicleID v; vvLat := vvLat v; vvLng := vvLng v; vvAgency := vvAgency v;
     vvGroup := vvGroup v; vvRoute := vvRoute v; vvSpeed := vvSpeed v; vvBearing := vvBearing v; vvStale := b |}.

Definition liveViews (positions : list VehiclePosition) (now : time) : list vehicleView :=
  (fun pos => set_stale (LiveMapFreshWindow <? time_sub now (Timestamp pos)) (toView pos)) <$> positions.

Definition replayViews (positions : list VehiclePosition) : list vehicleView := toView <$> positions.

Definition formatReplayTime (t : time) : string :=
  if is_zero t then "—" else format_rfc3339 t.

(** ** JSON *)

Fixpoint enc_list {A} (enc : A -> result json) (l : list A) : result (list json) :=
  match l with
  | [] => Ok []
  | a :: l => j ← enc a; js ← enc_list enc l; Ok (j :: js)
  end.

(** A slice made with [make], and one that may be nil. *)
Definition enc_slice {A} (enc : A -> result json) (l : list A) : result json := js ← enc_list enc l; Ok (JArr js).
Definition enc_strings (l : list string) : json :=
  match l with [] => JNull | _ => JArr (enc_str <$> l) end.

Definition enc_vehicleView (v : vehicleView) : result json :=
  lat ← enc_float (vvLat v); lng ← enc_float (vvLng v); speed ← enc_float (vvSpeed v); bearing ← enc_float (vvBearing v);
  Ok (JObj [("id", enc_str (vvID v)); ("vehicle_id", enc_str (vvVehicleID v)); ("lat", lat); ("lng", lng);
            ("agency", enc_str (vvAgency v)); ("group", enc_str (vvGroup v)); ("route", enc_str (vvRoute v));
            ("speed", speed); ("bearing", bearing); ("stale", JBool (vvStale v))]).

Definition enc_regionView (r : regionView) : result json :=
  lat ← enc_float (rvCenter r).1; lng ← enc_float (rvCenter r).2;
  Ok (JObj ([("id", enc_str (rvID r)); ("label", enc_str (rvLabel r)); ("center", JArr [lat; lng]);
             ("zoom", JInt (rvZoom r)); ("agencies", enc_strings (rvAgencies r))] ++
            omit_if (negb (rvActive r)) "active" (JBool (rvActive r)))).

Definition enc_feedView (f : feedView) : result json :=
  Ok (JObj [("agency", enc_str (fvAgency f)); ("region", enc_str (fvRegion f))]).

(** snapshots.go: [From] and [To] are never omitted. *)
Definition enc_feedEntry (e : FeedEntry) : result json :=
  from ← enc_time (feFrom e); to ← enc_time (feTo e);
  Ok (JObj [("agency", enc_str (feAgency e)); ("changeCount", JInt (feChangeCount e)); ("from", from); ("to", to)]).

(** [null] for entries that are nil. *)
Definition enc_agencyCatalog (a : AgencyCatalog) : result json :=
  entries ← (match acEntries a with [] => Ok JNull | _ => enc_slice enc_feedEntry (acEntries a) end);
  Ok (JObj [("agency", enc_str (acAgency a)); ("count", JInt (acCount a)); ("entries", entries)]).

Definition enc_catalog (c : RegionCatalog) : result json :=
  agencies ← (match rcAgencies c with [] => Ok JNull | _ => enc_slice enc_agencyCatalog (rcAgencies c) end);
  Ok (JObj ([("regionId", enc_str (rcRegionID c)); ("label", enc_str (rcLabel c)); ("empty", JBool (rcEmpty c))] ++
            omit_if (bool_decide (rcMessage c = "")) "message" (enc_str (rcMessage c)) ++
            [("total", JInt (rcTotal c)); ("agencies", agencies)] ++
            omit_if (bool_decide (rcNotes c = [])) "notes" (enc_strings (rcNotes c)))).

(** ** Views that marshal *)

Definition finite_view (v : vehicleView) : bool :=
  f64_finite (vvLat v) && f64_finite (vvLng v) && f64_finite (vvSpeed v) && f64_finite (vvBearing v).
Definition finite_pos (pos : VehiclePosition) : bool :=
  f64_finite (Lat pos) && f64_finite (Lng pos) && f64_finite (Speed pos) && f64_finite (Bearing pos).

Definition vehicle_json (v : vehicleView) : json :=
  JObj [("id", enc_str (vvID v)); ("vehicle_id", enc_str (vvVehicleID v)); ("lat", JFloat (vvLat v)); ("lng", JFloat (vvLng v));
        ("agency", enc_str (vvAgency v)); ("group", enc_str (vvGroup v)); ("route", enc_str (vvRoute v));
        ("speed", JFloat (vvSpeed v)); ("bearing", JFloat (vvBearing v)); ("stale", JBool (vvStale v))].

Lemma enc_vehicleView_ok v : finite_view v = true -> enc_vehicleView v = Ok (vehicle_json v).
Proof.
  unfold finite_view, enc_vehicleView, enc_float. rewrite !andb_true_iff. by intros [[[-> ->] ->] ->].
Qed.

Lemma enc_list_Forall {A} (enc : A -> result json) (j : A -> json) l :
  Forall (fun a => enc a = Ok (j a)) l -> enc_list enc l = Ok (j <$> l).
Proof. induction 1 as [|a l Ha _ IH]; [done|]. cbn [enc_list]. rewrite Ha. cbn. by rewrite IH. Qed.

Lemma enc_views_ok l (f : VehiclePosition -> vehicleView) :
  (forall pos, finite_pos pos = true -> finite_view (f pos) = true) -> Forall (fun pos => finite_pos pos = true) l ->
  enc_slice enc_vehicleView (f <$> l) = Ok (JArr (vehicle_json <$> (f <$> l))).
Proof.
  intros Hf Hl. unfold enc_slice. rewrite (enc_list_Forall _ vehicle_json); [done|]. rewrite Forall_fmap.
  eapply Forall_impl; [exact Hl|]. intros pos Hp. apply enc_vehicleView_ok, Hf, Hp.
Qed.

(** server.go: the payload of [writeRegionPayload]. *)
Definition region_payload (rg : MapRegion) (feeds : list Feed) (poll : Z) : json :=
  JObj [("feeds", JArr ((fun f => JObj [("agency", enc_str (fAgency f)); ("region", enc_str (fRegion f))]) <$> feeds));
        ("pollSeconds", JInt poll);
        ("region", JObj [("id", enc_str (rID rg)); ("label", enc_str (rLabel rg)); ("center", JArr [JFloat (rCenter rg).1; JFloat (rCenter rg).2]);
                         ("zoom", JInt (rZoom rg)); ("agencies", enc_strings (rAgencies rg))])].

(** ** Positions in memory are finite *)

Section Finite.
Context {MR : MapRange} {I : IsleDB}.

Definition finite_pipeline (p : Pipeline) : Prop :=
  map_Forall (fun _ pos => finite_pos pos = true) (vehicleSeen p) /\
  Forall (fun rec => f64_finite (igLat rec) = true /\ f64_finite (igLng rec) = true) (ingestBuf p).

Lemma encodable_finite pos : encodable pos = true -> finite_pos pos = true.
Proof. unfold encodable, finite_pos. rewrite !andb_true_iff. tauto. Qed.

Lemma record_write_finite pos p : finite_pos pos = true -> finite_pipeline p -> finite_pipeline (record_write pos p).
Proof.
  intros Hp [Hv Hi]. split; cbn [record_write vehicleSeen ingestBuf].
  - intros k q. rewrite keep_latest_spec. destruct (decide (k = vehicle_key pos)) as [->|]; [|by apply Hv].
    destruct (vehicleSeen p !! vehicle_key pos) eqn:E; [case_match|]; intros [= <-]; try done. by apply (Hv _ _ E).
  - assert (H : Forall (fun rec => f64_finite (igLat rec) = true /\ f64_finite (igLng rec) = true) (ingest_record pos :: ingestBuf p)).
    { constructor; [|done]. unfold finite_pos in Hp. rewrite !andb_true_iff in Hp. unfold ingest_record.
      destruct (match RegionForAgency (Agency pos) with Some _ => _ | None => _ end). cbn. tauto. }
    unfold recordIngest. case_bool_decide; [by apply Forall_take|done].
Qed.

Lemma Write_finite ps p n e p' : Write ps p = ((n, e), p') -> finite_pipeline p -> finite_pipeline p'.
Proof.
  intros Hw. unfold Write in Hw. revert Hw. apply write_loop_keeps; [done|].
  intros pos v q Hq _ Hv. apply record_write_finite; [|exact Hq]. apply encodable_finite, ValueBytes_ok. eauto.
Qed.

(** C37: what is drawn can always be sent: a write, complete or cut short by an
    error, adds to the live state and to the ingest panel only positions with
    finite numbers, those JSON can hold. *)
Theorem live_positions_finite ps p n e p' : Write ps p = ((n, e), p') -> finite_pipeline p -> finite_pipeline p'.
Proof. exact (Write_finite ps p n e p'). Qed.
End Finite.

Lemma live_positions_finite_witness : finite_pipeline (I := MemStore.isledb) written.
Proof.
  apply (live_positions_finite (I := MemStore.isledb) readings (zero_pipeline two_stores) 3 None written).
  - exact written_eq.
  - split; [apply map_Forall_empty|constructor].
Defined.
