(* ===== verification/Browser.v ===== *)
(** * What the pages' scripts see (internal/web/demo/render.go, replay_render.go)

    The scripts of the two pages are string constants of these files.  They get
    documents from [JSON.parse] and read members of them; this file has these
    readings and shows that what the server's structs hold arrives: a vehicle, an
    array of vehicles, a region with its feeds. *)

From Stdlib Require Import Ascii SpecFloat.
From S2P Require Import Prelude GoStrings Json Floats Vehicle Regions Web Views JsonText EventStream.

(** ** The last vehicle with an id *)

Lemma last_filter_None {A} (f : A -> string) l id :
  last (List.filter (fun v => bool_decide (f v = id)) l) = None <-> id ∉ (list_to_set (f <$> l) : gset string).
Proof.
  rewrite elem_of_list_to_set, list_elem_of_fmap. split.
  - intros Hl%last_None (v & -> & Hv). apply (in_nil (a := v)). rewrite <-Hl. apply List.filter_In. split; [by apply list_elem_of_In|].
    by apply bool_decide_eq_true.
  - intros Hn. apply last_None. destruct (List.filter _ l) as [|v l'] eqn:E; [done|]. exfalso. apply Hn. exists v.
    assert (Hv : In v (List.filter (fun v => bool_decide (f v = id)) l)) by (rewrite E; by left).
    apply List.filter_In in Hv as [Hv Hid%bool_decide_eq_true]. split; [done|by apply list_elem_of_In].
Qed.

(** ** Members *)

(** [data.name] of an object; a later member with the same name wins, and
    [undefined] is [None]. *)
Fixpoint member (name : string) (fields : list (string * doc)) : option doc :=
  match fields with
  | [] => None
  | (k, d) :: fields =>
      match member name fields with
      | Some d' => Some d'
      | None => if String.eqb k name then Some d else None
      end
  end.

Definition prop (name : string) (d : doc) : option doc := match d with DObj fields => member name fields | _ => None end.

Section Browser.
Context `{FloatText}.

Definition as_string (d : doc) : option string := match d with DStr s => Some s | _ => None end.
Definition as_bool (d : doc) : option bool := match d with DBool b => Some b | _ => None end.
Definition as_list (d : doc) : option (list doc) := match d with DArr l => Some l | _ => None end.
Definition as_float (d : doc) : option float64 := match d with DNum t => read_float t | _ => None end.

(** A number that the scripts use as an integer. *)
Definition as_int (d : doc) : option Z :=
  match d with DNum t => match parse_int t with (z, None) => Some z | _ => None end | _ => None end.

(** [x || []] of an array that may be null or missing. *)
Definition list_or_empty (o : option doc) : option (list doc) :=
  match o with None | Some DNull => Some [] | Some d => as_list d end.

(** A vehicle as the scripts read it.  A document that lacks a member, or has one
    of another type, is [None]: the server sends none. *)
Definition vehicle_of (d : doc) : option vehicleView :=
  id ← prop "id" d ≫= as_string;
  vehicle ← prop "vehicle_id" d ≫= as_string;
  lat ← prop "lat" d ≫= as_float;
  lng ← prop "lng" d ≫= as_float;
  agency ← prop "agency" d ≫= as_string;
  group ← prop "group" d ≫= as_string;
  route ← prop "route" d ≫= as_string;
  speed ← prop "speed" d ≫= as_float;
  bearing ← prop "bearing" d ≫= as_float;
  stale ← prop "stale" d ≫= as_bool;
  Some {| vvID := id; vvVehicleID := vehicle; vvLat := lat; vvLng := lng; vvAgency := agency; vvGroup := group;
          vvRoute := route; vvSpeed := speed; vvBearing := bearing; vvStale := stale |}.

Definition vehicles_of (d : doc) : option (list vehicleView) := l ← as_list d; mapM vehicle_of l.

(** The answer to a request for the region. *)
Record regionReply := {
  rrID : string;
  rrLabel : string;
  rrCenter : float64 * float64;
  rrZoom : Z;
  rrAgencies : list string;
  rrFeeds : list (string * string);   (* region and agency of each feed *)
  rrPollSeconds : Z
}.

Definition feed_of (d : doc) : option (string * string) :=
  region ← prop "region" d ≫= as_string; agency ← prop "agency" d ≫= as_string; Some (region, agency).

Definition region_reply_of (d : doc) : option regionReply :=
  r ← prop "region" d;
  id ← prop "id" r ≫= as_string;
  label ← prop "label" r ≫= as_string;
  center ← prop "center" r ≫= as_list;
  zoom ← prop "zoom" r ≫= as_int;
  agencies ← list_or_empty (prop "agencies" r);
  agencies ← mapM as_string agencies;
  feeds ← list_or_empty (prop "feeds" d);
  feeds ← mapM feed_of feeds;
  poll ← prop "pollSeconds" d ≫= as_int;
  match center with
  | [lat; lng] =>
      lat ← as_float lat; lng ← as_float lng;
      Some {| rrID := id; rrLabel := label; rrCenter := (lat, lng); rrZoom := zoom; rrAgencies := agencies;
              rrFeeds := feeds; rrPollSeconds := poll |}
  | _ => None
  end.

(** ** What arrives *)

(** The doubles of a view. *)
Definition doubles (v : vehicleView) : Prop :=
  f64_ok (vvLat v) = true /\ f64_ok (vvLng v) = true /\ f64_ok (vvSpeed v) = true /\ f64_ok (vvBearing v) = true.

(** A view with its strings as JSON carries them. *)
Definition coerced (v : vehicleView) : vehicleView :=
  {| vvID := utf8_coerce (vvID v); vvVehicleID := utf8_coerce (vvVehicleID v); vvLat := vvLat v; vvLng := vvLng v;
     vvAgency := utf8_coerce (vvAgency v); vvGroup := utf8_coerce (vvGroup v); vvRoute := utf8_coerce (vvRoute v);
     vvSpeed := vvSpeed v; vvBearing := vvBearing v; vvStale := vvStale v |}.

Lemma vehicle_received v : doubles v -> vehicle_of (doc_of (vehicle_json v)) = Some (coerced v).
Proof.
  intros (H1 & H2 & H3 & H4). unfold vehicle_of, vehicle_json, enc_str. cbn -[float_text read_float utf8_coerce].
  by rewrite !read_float_text.
Qed.

Lemma mapM_received {A B} (f : A -> option B) (g : A -> B) l : Forall (fun a => f a = Some (g a)) l -> mapM f l = Some (g <$> l).
Proof. induction 1 as [|a l Ha _ IH]; [done|]. cbn. rewrite Ha. cbn. by rewrite IH. Qed.

Lemma mapM_fmap {A B C} (h : C -> A) (f : A -> option B) l : mapM f (h <$> l) = mapM (f ∘ h) l.
Proof. induction l as [|c l IH]; [done|]. cbn. by rewrite IH. Qed.

Lemma vehicles_received l : Forall doubles l ->
  vehicles_of (doc_of (JArr (vehicle_json <$> l))) = Some (coerced <$> l).
Proof.
  intros Hl. unfold vehicles_of. cbn [doc_of as_list mbind option_bind].
  change (map doc_of (vehicle_json <$> l)) with (doc_of <$> (vehicle_json <$> l)). rewrite !mapM_fmap. apply mapM_received.
  eapply Forall_impl; [exact Hl|]. intros v Hv. by apply vehicle_received.
Qed.

Lemma json_ok_vehicles l : Forall doubles l -> json_ok (JArr (vehicle_json <$> l)) = true.
Proof.
  intros Hl. cbn [json_ok]. apply forallb_forall. intros j Hj. apply list_elem_of_In, list_elem_of_fmap in Hj as (v & -> & Hv).
  rewrite Forall_forall in Hl. destruct (Hl v Hv) as (H1 & H2 & H3 & H4). cbn -[f64_ok]. by rewrite H1, H2, H3, H4.
Qed.

Definition region_reply (rg : MapRegion) (feeds : list Feed) (poll : Z) : regionReply :=
  {| rrID := utf8_coerce (rID rg); rrLabel := utf8_coerce (rLabel rg); rrCenter := rCenter rg; rrZoom := rZoom rg;
     rrAgencies := utf8_coerce <$> rAgencies rg; rrFeeds := (fun f => (utf8_coerce (fRegion f), utf8_coerce (fAgency f))) <$> feeds;
     rrPollSeconds := poll |}.

Definition region_doubles (rg : MapRegion) : Prop := f64_ok (rCenter rg).1 = true /\ f64_ok (rCenter rg).2 = true.

Lemma as_int_itoa z : in_int64 z -> as_int (DNum (itoa z)) = Some z.
Proof. intros Hz. unfold as_int. by rewrite parse_int_itoa. Qed.

Lemma region_received rg feeds poll : region_doubles rg -> in_int64 (rZoom rg) -> in_int64 poll ->
  region_reply_of (doc_of (region_payload rg feeds poll)) = Some (region_reply rg feeds poll).
Proof.
  intros [H1 H2] Hz Hp. unfold region_reply_of, region_payload, enc_str.
  assert (Ha : exists d, doc_of (enc_strings (rAgencies rg)) = d /\
    (l ← list_or_empty (Some d); mapM as_string l) = Some (utf8_coerce <$> rAgencies rg)).
  { eexists. split; [reflexivity|]. unfold enc_strings. destruct (rAgencies rg) as [|a l] eqn:E; [done|]. rewrite <-E.
    cbn [doc_of list_or_empty as_list mbind option_bind]. change (map doc_of (enc_str <$> rAgencies rg)) with (doc_of <$> (enc_str <$> rAgencies rg)).
    rewrite !mapM_fmap. apply mapM_received. apply Forall_forall. done. }
  destruct Ha as (d & Hd & Ha).
  assert (Hf : mapM feed_of (map doc_of ((fun f => JObj [("agency", JStr (utf8_coerce (fAgency f))); ("region", JStr (utf8_coerce (fRegion f)))]) <$> feeds)) =
    Some ((fun f => (utf8_coerce (fRegion f), utf8_coerce (fAgency f))) <$> feeds)).
  { change (map doc_of ?l) with (doc_of <$> l). rewrite !mapM_fmap. apply mapM_received. by apply Forall_forall. }
  cbn -[float_text read_float utf8_coerce itoa mapM as_int enc_strings list_or_empty fmap]. rewrite Hd.
  rewrite !as_int_itoa by done. cbn -[float_text read_float utf8_coerce mapM list_or_empty fmap].
  destruct (list_or_empty (Some d)) as [l|]; [|done]. cbn -[float_text read_float utf8_coerce mapM fmap] in Ha |- *. rewrite Ha.
  cbn -[float_text read_float utf8_coerce mapM fmap]. rewrite Hf. cbn. rewrite !read_float_text by done.
  cbn. unfold region_reply. by destruct (rCenter rg).
Qed.
End Browser.
