(* ===== verification/Url.v ===== *)
(** * Query strings between the pages and the server (internal/web/demo/replay_render.go, replay.go)

    The pages write parameters with [encodeURIComponent]; the handlers read them
    with [r.URL.Query().Get].  Strings are their UTF-8 bytes on both sides. *)

From Stdlib Require Import Ascii.
From S2P Require Import Prelude GoStrings Json.

(** ** Writing *)

Definition hex_upper (n : N) : ascii := ascii_of_N (if (n <? 10)%N then 48 + n else 55 + n).

(** Letters, digits and [-_.!~*'()]. *)
Definition uri_unreserved (c : ascii) : bool :=
  byte_in 48 57 c || byte_in 65 90 c || byte_in 97 122 c || has_byte c "-_.!~*'()".

Fixpoint encodeURIComponent (s : string) : string :=
  match s with
  | "" => ""
  | String c r =>
      if uri_unreserved c then String c (encodeURIComponent r)
      else String "%" (String (hex_upper (N_of_ascii c / 16)) (String (hex_upper (N_of_ascii c mod 16)) (encodeURIComponent r)))
  end.

(** ** Reading *)

Definition hex_value (c : ascii) : option N :=
  let n := N_of_ascii c in
  if byte_in 48 57 c then Some (n - 48)%N
  else if byte_in 97 102 c then Some (n - 87)%N
  else if byte_in 65 70 c then Some (n - 55)%N
  else None.

Fixpoint query_unescape (s : string) : option string :=
  match s with
  | "" => Some ""
  | String c r =>
      if bool_decide (c = "%"%char) then
        match r with
        | String a (String b r) => x ← hex_value a; y ← hex_value b; r ← query_unescape r; Some (String (ascii_of_N (16 * x + y)) r)
        | _ => None
        end
      else r ← query_unescape r; Some (String (if bool_decide (c = "+"%char) then " "%char else c) r)
  end.

Fixpoint split_at (c : ascii) (s : string) : list string :=
  match s with
  | "" => [""]
  | String d r =>
      if bool_decide (d = c) then "" :: split_at c r
      else match split_at c r with
           | w :: ws => String d w :: ws
           | [] => [String d ""]
           end
  end.

(** A part that is empty, has a semicolon or does not unescape is left out. *)
Definition parse_part (part : string) : option (string * string) :=
  if bool_decide (part = "") || has_byte ";" part then None
  else let '(k, v) := str_cut "=" part in
       k ← query_unescape k; v ← query_unescape (default "" v); Some (k, v).

(** The first value of every key. *)
Definition parse_query (s : string) : gmap string string :=
  foldr (fun part m => match parse_part part with Some (k, v) => <[k := v]> m | None => m end) ∅ (split_at "&" s).

(** ** What is written is read *)

Definition url_safe (c : ascii) : bool := uri_unreserved c || bool_decide (c = "%"%char).

Lemma hex_upper_value n : (n < 16)%N -> hex_value (hex_upper n) = Some n.
Proof. intros Hn. do 16 (destruct n as [|n] using N.peano_ind; [by vm_compute|clear IHn]). lia. Qed.

Lemma hex_upper_unreserved n : (n < 16)%N -> uri_unreserved (hex_upper n) = true.
Proof. intros Hn. do 16 (destruct n as [|n] using N.peano_ind; [by vm_compute|clear IHn]). lia. Qed.

Lemma hex_halves c : (N_of_ascii c / 16 < 16)%N /\ (N_of_ascii c mod 16 < 16)%N /\
  ascii_of_N (16 * (N_of_ascii c / 16) + N_of_ascii c mod 16) = c.
Proof.
  pose proof (N_of_ascii_bound c) as Hc. split; [by apply N.Div0.div_lt_upper_bound|]. split; [by apply N.mod_lt|].
  rewrite <-N.div_mod by done. apply ascii_N_embedding.
Qed.

Lemma encoded_safe s : all_bytes url_safe (encodeURIComponent s) = true.
Proof.
  induction s as [|c s IH]; [done|]. cbn [encodeURIComponent]. destruct (hex_halves c) as (H1 & H2 & _).
  destruct (uri_unreserved c) eqn:Ec; cbn [all_bytes]; rewrite IH, andb_true_r; unfold url_safe; [by rewrite Ec|].
  by rewrite !hex_upper_unreserved.
Qed.

Lemma safe_absent c s : url_safe c = false -> has_byte c (encodeURIComponent s) = false.
Proof. apply all_bytes_absent, encoded_safe. Qed.

Lemma unreserved_plain c : uri_unreserved c = true -> c <> "%"%char /\ c <> "+"%char.
Proof. intros Hc. split; intros ->; by vm_compute in Hc. Qed.

Lemma unescape_encoded s : query_unescape (encodeURIComponent s) = Some s.
Proof.
  induction s as [|c s IH]; [done|]. cbn [encodeURIComponent]. destruct (uri_unreserved c) eqn:Ec.
  - apply unreserved_plain in Ec as [H1 H2]. cbn [query_unescape]. rewrite !bool_decide_false, IH by done. done.
  - destruct (hex_halves c) as (H1 & H2 & H3). cbn [query_unescape]. rewrite bool_decide_true by done.
    rewrite !hex_upper_value, IH by done. cbn -[N.mul N.add]. by rewrite H3.
Qed.

Lemma split_at_app c a r : has_byte c a = false -> split_at c (a +:+ String c r) = a :: split_at c r.
Proof.
  induction a as [|d a IH]; intros Ha; [change ("" +:+ String c r) with (String c r); cbn [split_at]; by rewrite bool_decide_true|].
  rewrite str_app_cons. cbn in Ha |- *. apply orb_false_iff in Ha as [Hd Ha]. by rewrite Hd, IH.
Qed.

Lemma split_at_none c a : has_byte c a = false -> split_at c a = [a].
Proof.
  induction a as [|d a IH]; intros Ha; [done|]. cbn in Ha |- *. apply orb_false_iff in Ha as [Hd Ha]. by rewrite Hd, IH.
Qed.

(** [k=v] with the value encoded. *)
Definition param (k v : string) : string := k +:+ "=" +:+ encodeURIComponent v.

Definition plain_key (k : string) : Prop := k <> "" /\ all_bytes uri_unreserved k = true.

Lemma plain_key_encoded k : plain_key k -> encodeURIComponent k = k.
Proof.
  intros [_ Hk]. induction k as [|c k IH]; [done|]. cbn in Hk |- *. apply andb_true_iff in Hk as [-> Hk]. by rewrite IH.
Qed.

Lemma param_absent c k v : plain_key k -> url_safe c = false -> c <> "="%char -> has_byte c (param k v) = false.
Proof.
  intros Hk Hc He. unfold param. rewrite !has_byte_app, (safe_absent c v) by done. rewrite <-(plain_key_encoded k Hk), safe_absent by done.
  cbn. by rewrite bool_decide_false.
Qed.

Lemma parse_param k v : plain_key k -> parse_part (param k v) = Some (k, v).
Proof.
  intros Hk. unfold parse_part. rewrite (param_absent ";" k v Hk) by done. rewrite bool_decide_false.
  2:{ destruct Hk as [Hk _]. by destruct k. }
  unfold param. change ("=" +:+ encodeURIComponent v) with (String "=" (encodeURIComponent v)).
  rewrite str_cut_app by (rewrite <-(plain_key_encoded k Hk); by apply safe_absent). cbn [orb default from_option].
  rewrite <-(plain_key_encoded k Hk) at 1. rewrite unescape_encoded. cbn [mbind option_bind]. unfold id. by rewrite unescape_encoded.
Qed.

Fixpoint query_string (l : list (string * string)) : string :=
  match l with
  | [] => ""
  | [(k, v)] => param k v
  | (k, v) :: l => param k v +:+ "&" +:+ query_string l
  end.

(** A query of plain keys is read as it was written. *)
Lemma parse_query_string l : Forall (fun kv => plain_key kv.1) l -> l <> [] ->
  parse_query (query_string l) = foldr (fun kv m => <[kv.1 := kv.2]> m) ∅ l.
Proof.
  induction 1 as [|[k v] l Hk Hl IH]; intros Hne; [done|]. cbn [fst] in Hk. destruct l as [|kv l].
  - cbn [query_string]. unfold parse_query. rewrite split_at_none by by apply param_absent. cbn [foldr]. by rewrite parse_param.
  - cbn [query_string]. unfold parse_query. change ("&" +:+ ?s) with (String "&" s). rewrite split_at_app by by apply param_absent.
    cbn [foldr fst snd]. rewrite parse_param by done. f_equal. by apply IH.
Qed.

Example query_examples :
  parse_query "region=kl&from=2026-01-02T03%3A04%3A05Z&x=a+b&x=c&%zz=1;" !! "from" = Some "2026-01-02T03:04:05Z" /\
  parse_query "x=a+b&x=c" !! "x" = Some "a b" /\ encodeURIComponent "2026-01-02T03:04:05Z" = "2026-01-02T03%3A04%3A05Z".
Proof. by vm_compute. Qed.
