(* ===== verification/LivePage.v ===== *)
(** * The live map in the browser (internal/web/demo/render.go)

    The script of the index page: its markers, the work it spreads over animation
    frames, its event stream, and the requests that it waits for.  A step is one
    callback run by the browser: a timer, a click, a message of the stream, a
    frame, the answer to a request.  A callback that awaits a request ends there;
    what follows it is the step of the answer.  [Number.toFixed] is a parameter;
    the map library is the markers and the view. *)

From Stdlib Require Import Ascii SpecFloat.
From S2P Require Import Prelude GoStrings Json Vehicle Regions Web Views JsonText EventStream Browser.

(** ** State *)

Record marker := {
  mLat : float64;
  mLng : float64;
  mColor : string;
  mPopup : string;
  mAgency : string;
  mShown : bool          (* the map has the layer *)
}.

(** A list of vehicles on its way to the markers: what is left of it, its ids, its
    length. *)
Record run := { rLeft : list vehicleView; rSeen : gset string; rTotal : nat }.

(** What the map shows and what it is about to show; [runs] are the callbacks
    registered for the next frame, in order. *)
Record markerMap := {
  markers : gmap string marker;
  agencies : gset string;
  runs : list run
}.

(** The rest of the page. *)
Record panel := {
  region : string;
  label : string;
  poll : Z;
  status : string * string;        (* text and class *)
  subtitle : string;
  regionButton : string;           (* the id whose buttons are active *)
  pollButton : Z;
  tenants : string;                (* HTML *)
  view : float64 * float64 * Z;    (* where the map was told to go *)
  stats : string * string * string;   (* vehicles, time, events *)
  debug : bool;
  overlayVisible : bool;
  overlay : string                 (* HTML *)
}.

(** What a request was made for; [SyncOpened] is from [stream.onopen], [SyncStart]
    from the timer that starts the page. *)
Inductive request := SyncOpened | SyncStart | PostPoll (prev : Z) | PostRegion.

#[global] Instance request_eq_dec : EqDecision request.
Proof. solve_decision. Defined.

(** Event sources are numbered as they are made: the last one is open, those
    before it are closed. *)
Record livePage := {
  lMap : markerMap;
  lPanel : panel;
  lSource : nat;
  lWaiting : gmap nat request;
  lRequests : nat
}.

Definition set_map (m : markerMap) (s : livePage) : livePage :=
  {| lMap := m; lPanel := lPanel s; lSource := lSource s; lWaiting := lWaiting s; lRequests := lRequests s |}.
Definition set_panel (p : panel) (s : livePage) : livePage :=
  {| lMap := lMap s; lPanel := p; lSource := lSource s; lWaiting := lWaiting s; lRequests := lRequests s |}.

Definition set_status (text class : string) (p : panel) : panel :=
  {| region := region p; label := label p; poll := poll p; status := (text, class); subtitle := subtitle p;
     regionButton := regionButton p; pollButton := pollButton p; tenants := tenants p; view := view p; stats := stats p;
     debug := debug p; overlayVisible := overlayVisible p; overlay := overlay p |}.
Definition set_poll (seconds : Z) (p : panel) : panel :=
  {| region := region p; label := label p; poll := seconds; status := status p; subtitle := subtitle p;
     regionButton := regionButton p; pollButton := seconds; tenants := tenants p; view := view p; stats := stats p;
     debug := debug p; overlayVisible := overlayVisible p; overlay := overlay p |}.
Definition set_region (id lbl html : string) (v : float64 * float64 * Z) (p : panel) : panel :=
  {| region := id; label := lbl; poll := poll p; status := status p; subtitle := lbl;
     regionButton := id; pollButton := pollButton p; tenants := html; view := v; stats := stats p;
     debug := debug p; overlayVisible := overlayVisible p; overlay := overlay p |}.
Definition set_stats (x : string * string * string) (p : panel) : panel :=
  {| region := region p; label := label p; poll := poll p; status := status p; subtitle := subtitle p;
     regionButton := regionButton p; pollButton := pollButton p; tenants := tenants p; view := view p; stats := x;
     debug := debug p; overlayVisible := overlayVisible p; overlay := overlay p |}.
Definition set_overlay (dbg visible : bool) (html : string) (p : panel) : panel :=
  {| region := region p; label := label p; poll := poll p; status := status p; subtitle := subtitle p;
     regionButton := regionButton p; pollButton := pollButton p; tenants := tenants p; view := view p; stats := stats p;
     debug := dbg; overlayVisible := visible; overlay := html |}.

(** ** Markers *)

Section LivePage.
Context `{FloatText}.
Variable toFixed : nat -> float64 -> string.

Definition popup (v : vehicleView) : string :=
  "<strong>" +:+ vvAgency v +:+ "</strong><br>Route: " +:+ (if bool_decide (vvRoute v = "") then "—" else vvRoute v) +:+
  "<br>Speed: " +:+ (if f64_is_zero (vvSpeed v) then "0" else toFixed 1 (vvSpeed v)) +:+ " km/h" +:+
  (if bool_decide (vvVehicleID v = "") then "" else "<br>Vehicle: " +:+ vvVehicleID v) +:+
  (if vvStale v then "<br><em>Last seen &gt; 5 min ago</em>" else "").

Definition color (v : vehicleView) : string := if vvStale v then "#8b949e" else "#3498db".

(** [updateVehicle(v, true)]; the agency of a marker is set when it is made. *)
Definition updateVehicle (v : vehicleView) (m : markerMap) : markerMap :=
  let new := match markers m !! vvID v with
             | Some old => {| mLat := vvLat v; mLng := vvLng v; mColor := color v; mPopup := popup v;
                              mAgency := mAgency old; mShown := mShown old |}
             | None => {| mLat := vvLat v; mLng := vvLng v; mColor := color v; mPopup := popup v;
                          mAgency := vvAgency v; mShown := bool_decide (vvAgency v ∈ agencies m) |}
             end in
  {| markers := <[vvID v := new]> (markers m); agencies := agencies m; runs := runs m |}.

Definition show_if (b : bool) (m : marker) : marker :=
  {| mLat := mLat m; mLng := mLng m; mColor := mColor m; mPopup := mPopup m; mAgency := mAgency m; mShown := b |}.

Definition applyAgencyFilter (m : markerMap) : markerMap :=
  {| markers := (fun k => show_if (bool_decide (mAgency k ∈ agencies m)) k) <$> markers m; agencies := agencies m; runs := runs m |}.

Definition clearMarkersOutsideAgencies (m : markerMap) : markerMap :=
  {| markers := filter (fun kv => mAgency kv.2 ∈ agencies m) (markers m); agencies := agencies m; runs := runs m |}.

Definition dropMissing (seen : gset string) (m : markerMap) : markerMap :=
  {| markers := filter (fun kv => kv.1 ∈ seen) (markers m); agencies := agencies m; runs := runs m |}.

Definition add_run (r : run) (m : markerMap) : markerMap :=
  {| markers := markers m; agencies := agencies m; runs := runs m ++ [r] |}.
Definition no_runs (m : markerMap) : markerMap := {| markers := markers m; agencies := agencies m; runs := [] |}.

Definition chunk_size : nat := 40.

(** [applyVehiclesChunked]: its first step is for the next frame. *)
Definition applyVehiclesChunked (l : list vehicleView) (s : livePage) : livePage :=
  set_map (add_run {| rLeft := l; rSeen := list_to_set (vvID <$> l); rTotal := length l |} (lMap s)) s.

Definition run_step (r : run) (s : livePage) : livePage :=
  match take chunk_size (rLeft r) with
  | [] =>
      set_panel (set_status ("Live — " +:+ itoa (Z.of_nat (rTotal r)) +:+ " vehicles") "status ok" (lPanel s))
        (set_map (applyAgencyFilter (dropMissing (rSeen r) (lMap s))) s)
  | slice =>
      set_map (add_run {| rLeft := drop chunk_size (rLeft r); rSeen := rSeen r; rTotal := rTotal r |}
                 (foldl (fun m v => updateVehicle v m) (lMap s) slice)) s
  end.

(** A frame runs the callbacks registered before it. *)
Definition animation_frame (s : livePage) : livePage :=
  foldl (fun s r => run_step r s) (set_map (no_runs (lMap s)) s) (runs (lMap s)).

(** ** The panel *)

Definition text_or (old : string) (o : option doc) : string :=
  match o with
  | None | Some DNull => old
  | Some (DStr s) | Some (DNum s) => s     (* integers: the text of the number *)
  | Some _ => old
  end.

Definition applyStats (d : doc) (p : panel) : panel :=
  let '(count, last, events) := stats p in
  set_stats (text_or count (prop "vehicleCount" d), text_or last (prop "lastUpdate" d), text_or events (prop "eventCount" d)) p.

Definition row (s : string) : string := "<div class=" +:+ String dquote ("row" +:+ String dquote (">" +:+ s +:+ "</div>")).

Definition record_row (d : doc) : option string :=
  agency ← prop "agency" d ≫= as_string; vehicle ← prop "vehicle" d ≫= as_string;
  lat ← prop "lat" d ≫= as_float; lng ← prop "lng" d ≫= as_float; at_ ← prop "at" d ≫= as_string;
  Some (row (agency +:+ " " +:+ vehicle +:+ " " +:+ toFixed 2 lat +:+ "," +:+ toFixed 2 lng +:+ " " +:+ at_)).

(** A payload that is not the server's leaves the overlay as it is. *)
Definition renderIngest (d : doc) (p : panel) : panel :=
  if negb (debug p) then p else
  let p := set_overlay (debug p) true (overlay p) p in
  match (polled ← list_or_empty (prop "polledAgencies" d); mapM as_string polled),
        (records ← list_or_empty (prop "records" d); mapM record_row records) with
  | Some polled, Some rows =>
      let polled := List.filter (fun a => negb (bool_decide (a = ""))) polled in
      let title := match prop "activeLabel" d with Some (DStr s) => s | _ => "" end in
      set_overlay (debug p) true
        ("<h3>Ingest — " +:+ title +:+ "</h3>" +:+
         (if bool_decide (polled = []) then "" else row ("polled: " +:+ String.concat ", " polled)) +:+
         String.concat "" rows +:+
         (if bool_decide (rows = []) then row "no ingest yet for this region" else "")) p
  | _, _ => p
  end.

Definition toggle_debug (p : panel) : panel :=
  let dbg := negb (debug p) in set_overlay dbg dbg (if dbg then overlay p else "") p.

Definition tenant_html (feeds : list (string * string)) : string :=
  String.concat "" ((fun '(region, agency) =>
    "<li>" +:+ region +:+ " <span style=" +:+ String dquote ("opacity:0.7" +:+ String dquote (">(" +:+ agency +:+ ")</span></li>"))) <$> feeds).

(** ** Requests and streams *)

Definition fetch (r : request) (s : livePage) : livePage :=
  {| lMap := lMap s; lPanel := lPanel s; lSource := lSource s; lWaiting := <[lRequests s := r]> (lWaiting s); lRequests := S (lRequests s) |}.

Definition connectStream (s : livePage) : livePage :=
  {| lMap := lMap s; lPanel := lPanel s; lSource := S (lSource s); lWaiting := lWaiting s; lRequests := lRequests s |}.

(** How a request ends: [fetch] throws, the status is not ok, or it is with a body
    that [res.json()] reads, or throws on. *)
Inductive answer := NetworkError | NotOk | Body (d : option doc).

Definition with_agencies (l : list string) (m : markerMap) : markerMap :=
  {| markers := markers m; agencies := list_to_set l; runs := runs m |}.

(** [syncRegionFromServer] after its requests.  The server's payloads always have
    an array of feeds; a payload that is not the server's changes nothing. *)
Definition sync_region (d : doc) (s : livePage) : livePage :=
  match region_reply_of d with
  | None => s
  | Some r =>
      if bool_decide (rrID r = "") then s else
      let p := set_region (rrID r) (rrLabel r) (tenant_html (rrFeeds r)) (view (lPanel s)) (lPanel s) in
      let p := if rrPollSeconds r =? 0 then p else set_poll (rrPollSeconds r) p in
      set_panel p (set_map (with_agencies (rrAgencies r) (lMap s)) s)
  end.

Definition say (text class : string) (s : livePage) : livePage := set_panel (set_status text class (lPanel s)) s.

(** [switchRegion] after its requests. *)
Definition switched (d : doc) (s : livePage) : livePage :=
  match region_reply_of d with
  | None => say "Region switch failed" "status err" s
  | Some r =>
      connectStream
        (set_panel (set_region (rrID r) (rrLabel r) (tenant_html (rrFeeds r)) (rrCenter r, rrZoom r) (lPanel s))
          (set_map (clearMarkersOutsideAgencies (with_agencies (rrAgencies r) (lMap s))) s))
  end.

Definition show_overlay_if_debug (s : livePage) : livePage :=
  if debug (lPanel s) then set_panel (set_overlay true true (overlay (lPanel s)) (lPanel s)) s else s.

(** What follows the awaited requests of a callback.  An error that is not caught
    ends the callback. *)
Definition answered (r : request) (a : answer) (s : livePage) : livePage :=
  match r, a with
  | SyncOpened, Body (Some d) => say "Connected, waiting for data…" "status ok" (sync_region d s)
  | SyncOpened, NotOk => say "Connected, waiting for data…" "status ok" s
  | SyncOpened, _ => s
  | SyncStart, Body (Some d) => show_overlay_if_debug (connectStream (sync_region d s))
  | SyncStart, NotOk => show_overlay_if_debug (connectStream s)
  | SyncStart, _ => say "Connection failed" "status err" s
  | PostPoll prev, Body (Some d) =>
      match prop "seconds" d ≫= as_int with
      | Some n => set_panel (set_poll n (lPanel s)) s
      | None => s
      end
  | PostPoll prev, _ =>
      set_panel (set_status "Could not change refresh rate" "status err" (set_poll prev (lPanel s))) s
  | PostRegion, Body (Some d) => switched d s
  | PostRegion, _ => say "Region switch failed" "status err" s
  end.

(** ** Steps *)

Inductive action :=
  | Start                                          (* the timer of 200 ms *)
  | Opened (source : nat)
  | Broken (source : nat) (open : bool)            (* onerror, and whether the source is still open *)
  | Message (source : nat) (event : string) (data : option doc)
  | Frame
  | ClickRegion (id : string)
  | ClickPoll (seconds : Z)
  | ToggleDebug
  | Answer (request : nat) (a : answer).

(** The listeners; data that is no JSON throws. *)
Definition message (event : string) (data : option doc) (s : livePage) : livePage :=
  match data with
  | None => s
  | Some d =>
      if bool_decide (event = "vehicles") then
        match vehicles_of d with Some l => applyVehiclesChunked l s | None => s end
      else if bool_decide (event = "stats") then set_panel (applyStats d (lPanel s)) s
      else if bool_decide (event = "ingest") then set_panel (renderIngest d (lPanel s)) s
      else s
  end.

(** A closed source calls no listener. *)
Definition current (source : nat) (s : livePage) : bool := (0 <? Z.of_nat source) && bool_decide (source = lSource s).

Definition live_step (a : action) (s : livePage) : livePage :=
  match a with
  | Start => fetch SyncStart (say "Connecting…" "status" s)
  | Opened n => if current n s then fetch SyncOpened s else s
  | Broken n open => if current n s && negb open then say "Reconnecting…" "status" s else s
  | Message n event data => if current n s then message event data s else s
  | Frame => animation_frame s
  | ClickRegion id =>
      if bool_decide (id = region (lPanel s)) then s else fetch PostRegion (say "Switching region…" "status" s)
  | ClickPoll seconds =>
      if bool_decide (seconds = poll (lPanel s)) then s
      else fetch (PostPoll (poll (lPanel s))) (set_panel (set_poll seconds (lPanel s)) s)
  | ToggleDebug => set_panel (toggle_debug (lPanel s)) s
  | Answer n a =>
      match lWaiting s !! n with
      | Some r =>
          answered r a {| lMap := lMap s; lPanel := lPanel s; lSource := lSource s;
                          lWaiting := delete n (lWaiting s); lRequests := lRequests s |}
      | None => s
      end
  end.

Definition live_steps (l : list action) (s : livePage) : livePage := foldl (fun s a => live_step a s) s l.

(** The page as the template renders it for a region, its feeds and an interval,
    white space and the template's escaping apart; [dbg] is what [sessionStorage]
    holds. *)
Definition loaded_page (rg : MapRegion) (feeds : list Feed) (seconds : Z) (dbg : bool) : livePage := {|
  lMap := {| markers := ∅; agencies := list_to_set (utf8_coerce <$> rAgencies rg); runs := [] |};
  lPanel := {| region := utf8_coerce (rID rg); label := utf8_coerce (rLabel rg); poll := seconds; status := ("Connecting…", "status");
               subtitle := rLabel rg; regionButton := rID rg; pollButton := seconds;
               tenants := tenant_html ((fun f => (fRegion f, fAgency f)) <$> feeds);
               view := (rCenter rg, rZoom rg); stats := ("0", "—", "0"); debug := dbg; overlayVisible := false; overlay := "" |};
  lSource := 0; lWaiting := ∅; lRequests := 0
|}.

(** ** A snapshot reaches the map *)

(** The marker that a vehicle of a snapshot is to have. *)
Definition shown_marker (ag : gset string) (v : vehicleView) : marker :=
  {| mLat := vvLat v; mLng := vvLng v; mColor := color v; mPopup := popup v; mAgency := vvAgency v;
     mShown := bool_decide (vvAgency v ∈ ag) |}.

(** The agency of a marker is that of its id. *)
Definition named (agency_of : string -> string) (m : markerMap) : Prop :=
  map_Forall (fun id k => mAgency k = agency_of id) (markers m).
Definition vehicle_named (agency_of : string -> string) (v : vehicleView) : Prop := vvAgency v = agency_of (vvID v).

(** Markers whatever is shown of them. *)
Definition hidden (m : gmap string marker) : gmap string marker := show_if false <$> m.
Definition place (m : gmap string marker) (v : vehicleView) : gmap string marker := <[vvID v := shown_marker ∅ v]> m.

(** A frame, or anything but a snapshot and the answer to a region switch. *)
Definition undisturbing (s : livePage) (a : action) : Prop :=
  match a with
  | Message n event _ => event <> "vehicles" \/ current n s = false
  | Answer n _ => lWaiting s !! n <> Some PostRegion
  | _ => True
  end.

Fixpoint undisturbed (acts : list action) (s : livePage) : Prop :=
  match acts with
  | [] => True
  | a :: acts => undisturbing s a /\ undisturbed acts (live_step a s)
  end.

Definition is_frame (a : action) : bool := match a with Frame => true | _ => false end.
Definition frames (acts : list action) : nat := length (List.filter is_frame acts).

(** Slices of a list of [n] vehicles. *)
Definition chunks (n : nat) : nat := ((n + 39) / 40)%nat.

Lemma chunks_bounds n : (n <= 40 * chunks n /\ 40 * chunks n < n + 40)%nat.
Proof.
  unfold chunks. pose proof (Nat.div_mod_eq (n + 39) 40) as E. pose proof (Nat.mod_upper_bound (n + 39) 40 ltac:(lia)). lia.
Qed.

Lemma shown_marker_show ag v b : show_if b (shown_marker ag v) = show_if b (shown_marker ∅ v).
Proof. done. Qed.

Lemma hidden_place m v : hidden (place m v) = place (hidden m) v.
Proof. unfold hidden, place. by rewrite fmap_insert. Qed.

Section Named.
Variable agency_of : string -> string.

Lemma updateVehicle_named v m : vehicle_named agency_of v -> named agency_of m -> named agency_of (updateVehicle v m).
Proof.
  intros Hv Hm. unfold updateVehicle, named. cbn [markers]. apply map_Forall_insert_2; [|done].
  destruct (markers m !! vvID v) as [old|] eqn:E; cbn [mAgency]; [by apply (Hm _ _ E)|done].
Qed.

Lemma updateVehicle_hidden v m : vehicle_named agency_of v -> named agency_of m ->
  hidden (markers (updateVehicle v m)) = place (hidden (markers m)) v.
Proof.
  intros Hv Hm. rewrite <-hidden_place. unfold updateVehicle, hidden, place. cbn [markers]. rewrite !fmap_insert. f_equal.
  destruct (markers m !! vvID v) as [old|] eqn:E; cbn; [|by unfold show_if]. unfold show_if, shown_marker. cbn.
  by rewrite (Hm _ _ E), Hv.
Qed.

Lemma updateVehicles l m : Forall (vehicle_named agency_of) l -> named agency_of m ->
  let m' := foldl (fun m v => updateVehicle v m) m l in
  named agency_of m' /\ hidden (markers m') = foldl place (hidden (markers m)) l /\ agencies m' = agencies m /\ runs m' = runs m.
Proof.
  intros Hl. revert m. induction Hl as [|v l Hv _ IH]; intros m Hm; [done|]. cbn [foldl].
  destruct (IH (updateVehicle v m)) as (H1 & H2 & H3 & H4); [by apply updateVehicle_named|].
  split_and!; [done| |by rewrite H3|by rewrite H4]. rewrite H2. f_equal. by apply updateVehicle_hidden.
Qed.
End Named.

Lemma foldl_place_lookup l m id : foldl place m l !! id =
  match last (List.filter (fun v => bool_decide (vvID v = id)) l) with Some v => Some (shown_marker ∅ v) | None => m !! id end.
Proof.
  induction l as [|v l IH] using rev_ind; [done|]. rewrite foldl_app, List.filter_app. cbn [foldl List.filter]. unfold place at 1.
  case_bool_decide as E; [subst id; by rewrite last_snoc, lookup_insert_eq|].
  by rewrite app_nil_r, lookup_insert_ne by done.
Qed.

Definition same_work (m m' : markerMap) : Prop := markers m' = markers m /\ runs m' = runs m.

Lemma message_same_work event data s : event <> "vehicles" -> lMap (message event data s) = lMap s.
Proof. intros He. unfold message. destruct data as [d|]; [|done]. rewrite bool_decide_false by done. by repeat case_bool_decide. Qed.

Lemma sync_region_work d s : same_work (lMap s) (lMap (sync_region d s)).
Proof. unfold sync_region. destruct (region_reply_of d); [|done]. by repeat case_match. Qed.

Lemma answered_work r a s : r <> PostRegion -> same_work (lMap s) (lMap (answered r a s)).
Proof.
  intros Hr. destruct r as [| |prev|]; [| | |done]; destruct a as [| |[d|]]; try done; unfold answered.
  - apply sync_region_work.
  - unfold show_overlay_if_debug. case_match; done.
  - pose proof (sync_region_work d s) as Hd. unfold show_overlay_if_debug. by case_match.
  - by case_match.
Qed.

Lemma undisturbing_work s a : undisturbing s a -> is_frame a = false -> same_work (lMap s) (lMap (live_step a s)).
Proof.
  intros Ha Hf. destruct a as [|n|n open|n event data| |id|seconds| |n a]; try done; cbn [live_step undisturbing] in *.
  - by case_match.
  - by case_match.
  - case_match eqn:E; [|done]. destruct Ha as [Ha|Ha]; [|congruence]. by rewrite message_same_work.
  - by case_match.
  - by case_match.
  - destruct (lWaiting s !! n) as [r|]; [|done].
    match goal with |- context [answered r a ?s1] => apply (answered_work r a s1) end. congruence.
Qed.

(** A frame with one snapshot on its way. *)
Lemma frame_slice s r : runs (lMap s) = [r] -> rLeft r <> [] ->
  animation_frame s = set_map (add_run {| rLeft := drop chunk_size (rLeft r); rSeen := rSeen r; rTotal := rTotal r |}
    (foldl (fun m v => updateVehicle v m) (no_runs (lMap s)) (take chunk_size (rLeft r)))) s.
Proof.
  intros Hr Hl. unfold animation_frame. rewrite Hr. cbn [foldl]. unfold run_step.
  destruct (rLeft r) as [|v l] eqn:E; [done|]. unfold chunk_size. cbn [take]. done.
Qed.

Section Progress.
Variable agency_of : string -> string.

Lemma snapshot_progress acts s r : runs (lMap s) = [r] -> named agency_of (lMap s) -> Forall (vehicle_named agency_of) (rLeft r) ->
  undisturbed acts s -> (40 * frames acts < length (rLeft r) + 40)%nat ->
  let s' := live_steps acts s in
  runs (lMap s') = [{| rLeft := drop (40 * frames acts) (rLeft r); rSeen := rSeen r; rTotal := rTotal r |}] /\
  named agency_of (lMap s') /\
  hidden (markers (lMap s')) = foldl place (hidden (markers (lMap s))) (take (40 * frames acts) (rLeft r)).
Proof.
  revert s r. induction acts as [|a acts IH]; intros s r Hr Hn Hl Hu Hlen.
  { change (frames []) with 0%nat. by destruct r. }
  destruct Hu as [Ha Hu]. change (live_steps (a :: acts) s) with (live_steps acts (live_step a s)). destruct (is_frame a) eqn:Ef.
  - destruct a; try done. assert (Ek : frames (Frame :: acts) = S (frames acts)) by done. rewrite Ek in *.
    assert (Hne : rLeft r <> []) by (intros E; rewrite E in Hlen; cbn in Hlen; lia).
    cbn [live_step] in *. rewrite (frame_slice s r Hr Hne) in *.
    destruct (updateVehicles agency_of (take chunk_size (rLeft r)) (no_runs (lMap s))) as (H1 & H2 & _ & H4); [by apply Forall_take|done|].
    match goal with |- context [live_steps acts ?s1] => set (s1' := s1) in * end.
    destruct (IH s1' {| rLeft := drop chunk_size (rLeft r); rSeen := rSeen r; rTotal := rTotal r |}) as (R1 & R2 & R3).
    + subst s1'. cbn [set_map lMap add_run runs]. by rewrite H4.
    + exact H1.
    + by apply Forall_drop.
    + exact Hu.
    + cbn [rLeft]. rewrite length_drop. unfold chunk_size. lia.
    + cbv zeta. cbn [rLeft rSeen rTotal] in R1, R3. rewrite R1, R3. rewrite drop_drop. split_and!; [|exact R2|].
      * unfold chunk_size. do 3 f_equal. lia.
      * replace (40 * S (frames acts))%nat with (chunk_size + 40 * frames acts)%nat by (unfold chunk_size; lia).
        rewrite <-take_take_drop, foldl_app. f_equal. exact H2.
  - assert (Ek : frames (a :: acts) = frames acts) by (unfold frames; cbn [List.filter]; by rewrite Ef). rewrite Ek in *.
    destruct (undisturbing_work s a Ha Ef) as [W1 W2].
    destruct (IH (live_step a s) r) as (R1 & R2 & R3); [congruence|unfold named; by rewrite W1|done|done|done|].
    cbv zeta. by rewrite R1, R3, W1.
Qed.
End Progress.

Lemma frame_last s r : runs (lMap s) = [r] -> rLeft r = [] ->
  animation_frame s = set_panel (set_status ("Live — " +:+ itoa (Z.of_nat (rTotal r)) +:+ " vehicles") "status ok" (lPanel s))
    (set_map (applyAgencyFilter (dropMissing (rSeen r) (no_runs (lMap s)))) s).
Proof. intros Hr Hl. unfold animation_frame. rewrite Hr. cbn [foldl]. unfold run_step. by rewrite Hl. Qed.

(** What the filters of the last frame leave of the vehicles that were placed. *)
Lemma filtered_lookup seen m m0 l id : hidden (markers m) = foldl place m0 l -> seen = list_to_set (vvID <$> l) ->
  markers (applyAgencyFilter (dropMissing seen m)) !! id =
    shown_marker (agencies m) <$> last (List.filter (fun v => bool_decide (vvID v = id)) l).
Proof.
  intros Hm ->. unfold applyAgencyFilter, dropMissing. cbn [markers agencies]. rewrite lookup_fmap.
  pose proof (foldl_place_lookup l m0 id) as Hl. rewrite <-Hm in Hl. unfold hidden in Hl. rewrite lookup_fmap in Hl.
  rewrite map_lookup_filter. destruct (last (List.filter _ l)) as [v|] eqn:Ev.
  - apply last_Some_elem_of, list_elem_of_In, List.filter_In in Ev as [Hin He%bool_decide_eq_true]. apply list_elem_of_In in Hin.
    destruct (markers m !! id) as [k|] eqn:Ek; [|done]. cbn in Hl |- *. rewrite option_guard_True by set_solver. cbn. f_equal.
    destruct k as [lat lng col pop ag sh]. unfold show_if in Hl. by injection Hl as -> -> -> -> ->.
  - destruct (markers m !! id) as [k|] eqn:Ek; [|done]. cbn. case_guard as Hid; [|done].
    exfalso. by apply (last_filter_None vvID l id).
Qed.

Section Snapshot.
Variable agency_of : string -> string.

(** The snapshot [l] has arrived on the map. *)
Definition shows (l : list vehicleView) (s : livePage) : Prop :=
  runs (lMap s) = [] /\ named agency_of (lMap s) /\
  status (lPanel s) = ("Live — " +:+ itoa (Z.of_nat (length l)) +:+ " vehicles", "status ok") /\
  forall id, markers (lMap s) !! id =
    shown_marker (agencies (lMap s)) <$> last (List.filter (fun v => bool_decide (vvID v = id)) l).

Lemma snapshot_arrives n d l acts s : current n s = true -> runs (lMap s) = [] -> named agency_of (lMap s) ->
  vehicles_of d = Some l -> Forall (vehicle_named agency_of) l ->
  let s1 := live_step (Message n "vehicles" (Some d)) s in
  undisturbed acts s1 -> frames acts = chunks (length l) -> shows l (live_steps (acts ++ [Frame]) s1).
Proof.
  intros Hc Hr Hn Hd Hl. cbv zeta. cbn [live_step]. rewrite Hc. unfold message. rewrite bool_decide_true, Hd by done.
  intros Hu Hk. set (s1 := applyVehiclesChunked l s) in *. set (r := {| rLeft := l; rSeen := list_to_set (vvID <$> l); rTotal := length l |}).
  assert (Hr1 : runs (lMap s1) = [r]) by (subst s1; cbn; by rewrite Hr).
  pose proof (chunks_bounds (length l)) as [B1 B2].
  destruct (snapshot_progress agency_of acts s1 r Hr1 Hn Hl Hu) as (R1 & R2 & R3); [rewrite Hk; exact B2|].
  rewrite Hk in R1, R3. cbn [rLeft r] in R1, R3. rewrite drop_ge in R1 by lia. rewrite take_ge in R3 by lia.
  unfold live_steps in *. rewrite foldl_app. set (s2 := foldl _ s1 acts) in *. cbn [foldl live_step].
  rewrite (frame_last s2 _ R1 eq_refl). unfold shows. cbn [set_panel set_map set_status lMap lPanel status rTotal rSeen r].
  assert (Hf : forall id, markers (applyAgencyFilter (dropMissing (list_to_set (vvID <$> l)) (no_runs (lMap s2)))) !! id =
    shown_marker (agencies (lMap s2)) <$> last (List.filter (fun v => bool_decide (vvID v = id)) l)).
  { intros id. exact (filtered_lookup _ (no_runs (lMap s2)) _ l id R3 eq_refl). }
  split_and!; [done| |done|exact Hf].
  intros id k Hid. rewrite Hf in Hid. apply fmap_Some in Hid as (v & Hv & ->).
  apply last_Some_elem_of, list_elem_of_In, List.filter_In in Hv as [Hv <-%bool_decide_eq_true].
  rewrite Forall_forall in Hl. by apply Hl, list_elem_of_In.
Qed.

(** A server that names its vehicles. *)
Definition sends_named (a : action) : Prop :=
  match a with
  | Message _ event (Some d) => event = "vehicles" -> forall l, vehicles_of d = Some l -> Forall (vehicle_named agency_of) l
  | _ => True
  end.

Definition page_named (s : livePage) : Prop :=
  named agency_of (lMap s) /\ Forall (fun r => Forall (vehicle_named agency_of) (rLeft r)) (runs (lMap s)).

Lemma named_filter (P : string * marker -> Prop) `{!forall kv, Decision (P kv)} (m : gmap string marker) :
  map_Forall (fun id k => mAgency k = agency_of id) m -> map_Forall (fun id k => mAgency k = agency_of id) (filter P m).
Proof. intros Hm id k [Hk _]%map_lookup_filter_Some. by apply Hm. Qed.

Lemma run_step_named r s : Forall (vehicle_named agency_of) (rLeft r) -> page_named s -> page_named (run_step r s).
Proof.
  intros Hr [Hn Hs]. unfold run_step. destruct (take chunk_size (rLeft r)) as [|v l] eqn:E.
  - split; [|exact Hs]. unfold named, applyAgencyFilter, dropMissing. cbn [set_panel set_map lMap markers].
    intros id k Hk. rewrite lookup_fmap in Hk. apply fmap_Some in Hk as (k0 & Hk & ->). exact (named_filter _ _ Hn id k0 Hk).
  - destruct (updateVehicles agency_of (v :: l) (lMap s)) as (H1 & _ & _ & H4); [rewrite <-E; by apply Forall_take|done|].
    split; [exact H1|]. cbn [set_map add_run lMap runs]. rewrite H4. apply Forall_app. split; [done|].
    apply Forall_singleton. by apply Forall_drop.
Qed.

Lemma animation_frame_named s : page_named s -> page_named (animation_frame s).
Proof.
  intros [Hn Hs]. unfold animation_frame. assert (H0 : page_named (set_map (no_runs (lMap s)) s)) by (split; [exact Hn|by constructor]).
  revert H0. generalize (set_map (no_runs (lMap s)) s). induction Hs as [|r rs Hr _ IH]; intros s0 H0; [done|]. cbn [foldl].
  by apply IH, run_step_named.
Qed.

Lemma same_work_named s s' : same_work (lMap s) (lMap s') -> page_named s -> page_named s'.
Proof. intros [E1 E2]. unfold page_named, named. by rewrite E1, E2. Qed.

Lemma switched_named d s : page_named s -> page_named (switched d s).
Proof.
  intros [Hn Hs]. unfold switched. destruct (region_reply_of d); [|done]. split; [|exact Hs]. by apply named_filter.
Qed.

Lemma live_step_named a s : sends_named a -> page_named s -> page_named (live_step a s).
Proof.
  intros Ha Hs. destruct a as [|n|n open|n event data| |id|seconds| |n a];
    try (apply (same_work_named s); [by apply undisturbing_work|exact Hs]).
  - cbn [live_step]. case_match; [|done]. unfold message. destruct data as [d|]; [|done]. case_bool_decide as Ee.
    + destruct (vehicles_of d) as [l|] eqn:El; [|done]. destruct Hs as [Hn Hr]. split; [exact Hn|].
      apply Forall_app. split; [exact Hr|]. apply Forall_singleton. by apply (Ha Ee).
    + apply (same_work_named s); [|exact Hs]. by repeat case_bool_decide.
  - by apply animation_frame_named.
  - cbn [live_step]. destruct (lWaiting s !! n) as [r|] eqn:Er; [|done].
    destruct (decide (r = PostRegion)) as [->|Hr].
    + match goal with |- page_named (answered _ _ ?s1) => assert (H1 : page_named s1) by exact Hs; revert H1; generalize s1 end.
      intros s1 H1. destruct a as [| |[d|]]; try exact H1. by apply switched_named.
    + match goal with |- page_named (answered _ _ ?s1) => apply (same_work_named s1); [by apply answered_work|exact Hs] end.
Qed.

Lemma live_steps_named acts s : Forall sends_named acts -> page_named s -> page_named (live_steps acts s).
Proof.
  intros Ha. revert s. induction Ha as [|a acts Ha _ IH]; intros s Hs; [done|].
  change (live_steps (a :: acts) s) with (live_steps acts (live_step a s)). by apply IH, live_step_named.
Qed.

Lemma loaded_page_named rg feeds seconds dbg : page_named (loaded_page rg feeds seconds dbg).
Proof. split; [by apply map_Forall_empty|by constructor]. Qed.
End Snapshot.

(** ** Region switches *)

(** C26: a click on a region's button, at the answer to its request.  The server's
    payload for a region [rg] puts the page on it: name, buttons, feeds, view and
    agencies are those of [rg]; of the markers exactly those of its agencies are
    left, as they were; the stream is a new one, and nothing that an earlier
    stream still delivers changes the page.  Any other answer leaves the map, the
    region and the stream alone and says so. *)
Theorem region_switched n rg feeds poll s : lWaiting s !! n = Some PostRegion ->
  region_doubles rg -> in_int64 (rZoom rg) -> in_int64 poll ->
  let s' := live_step (Answer n (Body (Some (doc_of (region_payload rg feeds poll))))) s in
  let here := list_to_set (utf8_coerce <$> rAgencies rg) : gset string in
  lPanel s' = set_region (utf8_coerce (rID rg)) (utf8_coerce (rLabel rg))
    (tenant_html ((fun f => (utf8_coerce (fRegion f), utf8_coerce (fAgency f))) <$> feeds)) (rCenter rg, rZoom rg) (lPanel s) /\
  agencies (lMap s') = here /\
  (forall id k, markers (lMap s') !! id = Some k <-> markers (lMap s) !! id = Some k /\ mAgency k ∈ here) /\
  lSource s' = S (lSource s) /\
  (forall m, (m <= lSource s)%nat -> forall event data, live_step (Message m event data) s' = s') /\
  (forall a, (forall d, a <> Body (Some d)) -> let e := live_step (Answer n a) s in
    status (lPanel e) = ("Region switch failed", "status err") /\ lMap e = lMap s /\ lSource e = lSource s /\
    region (lPanel e) = region (lPanel s) /\ regionButton (lPanel e) = regionButton (lPanel s)).
Proof.
  intros Hn Hd Hz Hp. cbv zeta. cbn [live_step]. rewrite Hn. cbn [answered]. unfold switched. rewrite region_received by done.
  split_and!; [done|done| |done| |].
  - intros id k. cbn. rewrite map_lookup_filter_Some. done.
  - intros m Hm event data. unfold current. cbn [connectStream set_panel set_map lSource].
    rewrite (bool_decide_false (m = S (lSource s))) by lia. by rewrite andb_false_r.
  - intros a Ha. destruct a as [| |[d|]]; [done|done|by destruct (Ha d)|done].
Qed.
End LivePage.

(** ** A page *)

#[local] Existing Instance scaled_floats.

Definition plain (_ : nat) (_ : float64) : string := "0.0".
Definition steps_of : list action -> livePage -> livePage := live_steps plain.

Definition bus (agency id : string) (lat : float64) : vehicleView :=
  {| vvID := agency +:+ ":" +:+ id; vvVehicleID := id; vvLat := lat; vvLng := f64_of_Z 101; vvAgency := agency; vvGroup := "mybas";
     vvRoute := "T1"; vvSpeed := f64_of_Z 0; vvBearing := f64_of_Z 0; vvStale := false |}.

Definition snapshot_of (l : list vehicleView) : option doc := Some (doc_of (JArr (vehicle_json <$> l))).

Definition home : MapRegion := match RegionByID "johor" with Ok r => r | Err _ => zero_region end.
Definition away : MapRegion := match RegionByID "penang" with Ok r => r | Err _ => zero_region end.
Definition opened_page : livePage :=
  steps_of [Start; Answer 0 (Body (Some (doc_of (region_payload home [] 20))))] (loaded_page home [] 20 false).

Definition where_ (s : livePage) : list (string * float64 * bool) :=
  (fun kv => (kv.1, mLat kv.2, mShown kv.2)) <$> map_to_list (markers (lMap s)).

Definition clicked : livePage :=
  steps_of [Message 1 "vehicles" (snapshot_of [bus "mybas-johor" "1" (f64_of_Z 1); bus "rapid" "2" (f64_of_Z 2)]); Frame; Frame;
            ClickRegion "penang"] opened_page.

Lemma region_switched_witness :
  let s' := live_step plain (Answer 1 (Body (Some (doc_of (region_payload away [] 20))))) clicked in
  agencies (lMap s') = list_to_set (utf8_coerce <$> rAgencies away) /\ lSource s' = 2%nat.
Proof.
  destruct (region_switched plain 1 away [] 20 clicked) as (_ & H1 & _ & H2 & _).
  - by vm_compute.
  - by vm_compute.
  - by vm_compute.
  - by vm_compute.
  - split; [exact H1|exact H2].
Defined.

Example snapshot_example : where_ clicked = [("mybas-johor:1", f64_of_Z 1, true); ("rapid:2", f64_of_Z 2, false)].
Proof. by vm_compute. Qed.

(** Two snapshots that wait for the same frames, as after a while in a background
    tab: the first one's [dropMissing] runs after the second one's markers were
    made, and removes those it does not know. *)
Definition two_waiting : list action :=
  [Message 1 "vehicles" (snapshot_of [bus "mybas-johor" "1" (f64_of_Z 1)]);
   Message 1 "vehicles" (snapshot_of [bus "mybas-johor" "1" (f64_of_Z 1); bus "mybas-johor" "2" (f64_of_Z 2)]);
   Frame; Frame; Frame].

Example overlapping_snapshots :
  where_ (steps_of two_waiting opened_page) = [("mybas-johor:1", f64_of_Z 1, true)] /\
  status (lPanel (steps_of two_waiting opened_page)) = ("Live — 2 vehicles", "status ok").
Proof. by vm_compute. Qed.

(** And the later slices of an older snapshot move a vehicle back. *)
Example older_slice_wins :
  let old := ((fun n => bus "mybas-johor" (itoa (Z.of_nat n)) (f64_of_Z 1)) <$> seq 0 41) in
  let s := steps_of [Message 1 "vehicles" (snapshot_of old); Message 1 "vehicles" (snapshot_of [bus "mybas-johor" "40" (f64_of_Z 5)]);
                     Frame; Frame; Frame] opened_page in
  where_ s = [("mybas-johor:40", f64_of_Z 1, true)] /\ runs (lMap s) = [].
Proof. by vm_compute. Qed.

(** The text of a feed is markup in a popup. *)
Example popup_markup :
  str_contains (popup plain (bus "mybas-johor" "<img src=x onerror=alert(1)>" (f64_of_Z 1))) "<img src=x onerror=alert(1)>" = true.
Proof. by vm_compute. Qed.

(** Two changes of the interval that both fail: the second one goes back to the
    first one's, which the server never had. *)
Example rollback_of_a_rollback :
  poll (lPanel (steps_of [ClickPoll 10; ClickPoll 30; Answer 1 NotOk; Answer 2 NotOk] opened_page)) = 10 /\
  poll (lPanel opened_page) = 20.
Proof. by vm_compute. Qed.
