(* ===== verification/ReplayPage.v ===== *)
(** * The replay page in the browser (internal/web/demo/replay_render.go)

    The script of the replay page: its markers and the vehicle it follows, its
    catalogue, its playback controls and the event source they own.  A step is one
    callback, as in LivePage.  [Number.toFixed] and [Date.toISOString] are
    parameters; of the map library there are the markers and where the script
    last moved the map. *)

From Stdlib Require Import Ascii SpecFloat.
From S2P Require Import Prelude GoStrings GoTime Json Vehicle Regions Replay Web Views JsonText EventStream Browser Url.

(** ** Markers *)

Record style := { stRadius : Z; stColor : string; stWeight : Z; stFill : string }.

#[global] Instance style_eq_dec : EqDecision style.
Proof. solve_decision. Defined.

Definition agencyColor (agency : string) : string :=
  if bool_decide (agency = "ktmb") then "#f85149"
  else if has_prefix agency "prasarana" then "#58a6ff"
  else "#3fb950".

Definition markerStyle (agency : string) (selected : bool) : style :=
  {| stRadius := if selected then 8 else 5;
     stColor := if selected then "#f0f6fc" else agencyColor agency;
     stWeight := if selected then 3 else 1;
     stFill := agencyColor agency |}.

Record replayMarker := {
  rmLat : float64;
  rmLng : float64;
  rmPopup : string;
  rmStyle : style;
  rmAgency : string
}.

Record replayMap := {
  pMarkers : gmap string replayMarker;
  pSelected : option string;
  pCenter : float64 * float64
}.

Definition set_style (st : style) (k : replayMarker) : replayMarker :=
  {| rmLat := rmLat k; rmLng := rmLng k; rmPopup := rmPopup k; rmStyle := st; rmAgency := rmAgency k |}.

Definition highlight (selected : bool) (id : string) (ms : gmap string replayMarker) : gmap string replayMarker :=
  alter (fun k => set_style (markerStyle (rmAgency k) selected) k) id ms.

(** The truth value of a string or null. *)
Definition truthy (o : option string) : option string :=
  match o with Some "" => None | _ => o end.

Definition selectVehicle (id : string) (m : replayMap) : replayMap :=
  if bool_decide (pSelected m = Some id) then m else
  let ms := match truthy (pSelected m) with Some prev => highlight false prev (pMarkers m) | None => pMarkers m end in
  match ms !! id with
  | Some k => {| pMarkers := highlight true id ms; pSelected := Some id; pCenter := (rmLat k, rmLng k) |}
  | None => {| pMarkers := ms; pSelected := Some id; pCenter := pCenter m |}
  end.

Definition clearMarkers (m : replayMap) : replayMap := {| pMarkers := ∅; pSelected := None; pCenter := pCenter m |}.

Section ReplayPage.
Context `{FloatText}.
Variable toFixed : nat -> float64 -> string.
Variable toISOString : string -> option string.   (* of [new Date(s)]; [None] is a RangeError *)

Definition replay_popup (v : vehicleView) : string :=
  "<strong>" +:+ vvAgency v +:+ "</strong><br>Route: " +:+ (if bool_decide (vvRoute v = "") then "—" else vvRoute v) +:+
  "<br>Speed: " +:+ (if f64_is_zero (vvSpeed v) then "0" else toFixed 1 (vvSpeed v)) +:+ " km/h" +:+
  (if bool_decide (vvVehicleID v = "") then "" else "<br>Vehicle: " +:+ vvVehicleID v).

(** The marker of a vehicle; a marker that exists gets all of these anew. *)
Definition replay_marker (selected : option string) (v : vehicleView) : replayMarker :=
  {| rmLat := vvLat v; rmLng := vvLng v; rmPopup := replay_popup v;
     rmStyle := markerStyle (vvAgency v) (bool_decide (Some (vvID v) = selected)); rmAgency := vvAgency v |}.

Definition apply_vehicle (m : replayMap) (v : vehicleView) : replayMap :=
  {| pMarkers := <[vvID v := replay_marker (pSelected m) v]> (pMarkers m);
     pSelected := pSelected m;
     pCenter := if bool_decide (Some (vvID v) = pSelected m) then (vvLat v, vvLng v) else pCenter m |}.

(** The loop over the markers that were not seen. *)
Definition drop_unseen (seen : gset string) (m : replayMap) : replayMap :=
  {| pMarkers := filter (fun kv => kv.1 ∈ seen) (pMarkers m);
     pSelected := match pSelected m with
                  | Some id => if bool_decide (is_Some (pMarkers m !! id) /\ id ∉ seen) then None else Some id
                  | None => None
                  end;
     pCenter := pCenter m |}.

Definition applyVehicles (l : list vehicleView) (m : replayMap) : replayMap :=
  drop_unseen (list_to_set (vvID <$> l)) (foldl apply_vehicle m l).

(** ** The catalogue *)

Record catalogEntry := { ceFrom : string; ceTo : string; ceChangeCount : Z }.

Record catalogReply := {
  crEmpty : bool;
  crMessage : string;
  crNotes : list string;
  crTotal : Z;
  crAgencies : list (string * Z * list catalogEntry)
}.

Definition entry_of (d : doc) : option catalogEntry :=
  from ← prop "from" d ≫= as_string; to ← prop "to" d ≫= as_string; n ← prop "changeCount" d ≫= as_int;
  Some {| ceFrom := from; ceTo := to; ceChangeCount := n |}.

Definition agency_of_doc (d : doc) : option (string * Z * list catalogEntry) :=
  agency ← prop "agency" d ≫= as_string; count ← prop "count" d ≫= as_int;
  entries ← list_or_empty (prop "entries" d); entries ← mapM entry_of entries; Some (agency, count, entries).

Definition catalog_of (d : doc) : option catalogReply :=
  empty ← prop "empty" d ≫= as_bool;
  message ← (match prop "message" d with None => Some "" | Some m => as_string m end);
  notes ← list_or_empty (prop "notes" d); notes ← mapM as_string notes;
  total ← prop "total" d ≫= as_int;
  agencies ← list_or_empty (prop "agencies" d); agencies ← mapM agency_of_doc agencies;
  Some {| crEmpty := empty; crMessage := message; crNotes := notes; crTotal := total; crAgencies := agencies |}.

(** The text of the empty box when it is visible, the notes, and a block for each
    agency: its title and its rows. *)
Record catalogView := { cvEmpty : option string; cvNotes : list string; cvBlocks : list (string * list string) }.

Definition or_dash (s : string) : option string := if bool_decide (s = "") then Some "—" else toISOString s.

Definition entry_row (e : catalogEntry) : option string :=
  from ← or_dash (ceFrom e); to ← or_dash (ceTo e);
  Some (from +:+ " → " +:+ to +:+ " · " +:+ itoa (ceChangeCount e) +:+ " changes").

Definition agency_block (a : string * Z * list catalogEntry) : option (string * list string) :=
  let '(agency, count, entries) := a in
  rows ← (if count =? 0 then Some ["No data yet"] else mapM entry_row (take 8 entries));
  Some (agency +:+ " (" +:+ itoa count +:+ ")", rows).

(** The blocks up to one that throws. *)
Fixpoint agency_blocks (l : list (string * Z * list catalogEntry)) : list (string * list string) * bool :=
  match l with
  | [] => ([], true)
  | a :: l =>
      match agency_block a with
      | Some b => let '(bs, ok) := agency_blocks l in (b :: bs, ok)
      | None => ([], false)
      end
  end.

Definition renderCatalog (c : catalogReply) : catalogView * bool :=
  let '(blocks, ok) := agency_blocks (crAgencies c) in
  ({| cvEmpty := if crEmpty c then Some (if bool_decide (crMessage c = "") then "No change-feed history for this region." else crMessage c)
                 else None;
      cvNotes := crNotes c;
      cvBlocks := blocks |}, ok).

(** ** State *)

(** The open event source: its number and its address. *)
Record source := { soId : nat; soURL : string }.

Record controls := {
  cSource : option source;
  cMade : nat;                   (* sources made so far *)
  cLast : option string;         (* lastFrameAt *)
  cPlay : bool * string;         (* disabled, text *)
  cStop : bool * string;
  cSpeed : string
}.

Record sidebar := {
  sbRegion : string;             (* currentRegion *)
  sbSubtitle : string;
  sbButton : string;             (* the active region button *)
  sbCatalog : catalogView;
  sbStatus : string * string     (* text and class *)
}.

Inductive replayRequest := LoadCatalog (region : string) | SwitchRegion (id : string).

Record replayPage := {
  rMap : replayMap;
  rControls : controls;
  rSidebar : sidebar;
  rWaiting : gmap nat replayRequest;
  rRequests : nat
}.

Definition with_map (m : replayMap) (s : replayPage) : replayPage :=
  {| rMap := m; rControls := rControls s; rSidebar := rSidebar s; rWaiting := rWaiting s; rRequests := rRequests s |}.
Definition with_controls (c : controls) (s : replayPage) : replayPage :=
  {| rMap := rMap s; rControls := c; rSidebar := rSidebar s; rWaiting := rWaiting s; rRequests := rRequests s |}.
Definition with_sidebar (b : sidebar) (s : replayPage) : replayPage :=
  {| rMap := rMap s; rControls := rControls s; rSidebar := b; rWaiting := rWaiting s; rRequests := rRequests s |}.
Definition with_status (st : string * string) (s : replayPage) : replayPage :=
  with_sidebar {| sbRegion := sbRegion (rSidebar s); sbSubtitle := sbSubtitle (rSidebar s); sbButton := sbButton (rSidebar s);
                  sbCatalog := sbCatalog (rSidebar s); sbStatus := st |} s.
Definition status_text (text : string) (s : replayPage) : replayPage := with_status (text, (sbStatus (rSidebar s)).2) s.
Definition with_region (id : string) (s : replayPage) : replayPage :=
  with_sidebar {| sbRegion := id; sbSubtitle := sbSubtitle (rSidebar s); sbButton := id;
                  sbCatalog := sbCatalog (rSidebar s); sbStatus := sbStatus (rSidebar s) |} s.
Definition with_subtitle (label : string) (s : replayPage) : replayPage :=
  with_sidebar {| sbRegion := sbRegion (rSidebar s); sbSubtitle := label; sbButton := sbButton (rSidebar s);
                  sbCatalog := sbCatalog (rSidebar s); sbStatus := sbStatus (rSidebar s) |} s.
Definition with_catalog (c : catalogView) (s : replayPage) : replayPage :=
  with_sidebar {| sbRegion := sbRegion (rSidebar s); sbSubtitle := sbSubtitle (rSidebar s); sbButton := sbButton (rSidebar s);
                  sbCatalog := c; sbStatus := sbStatus (rSidebar s) |} s.

Definition send_request (r : replayRequest) (s : replayPage) : replayPage :=
  {| rMap := rMap s; rControls := rControls s; rSidebar := rSidebar s;
     rWaiting := <[rRequests s := r]> (rWaiting s); rRequests := S (rRequests s) |}.

(** ** Controls *)

Definition resetReplay (s : replayPage) : replayPage :=
  with_controls {| cSource := None; cMade := cMade (rControls s); cLast := None; cPlay := (false, "Play"); cStop := (true, "Stop");
                   cSpeed := cSpeed (rControls s) |} s.

Definition pauseReplay (s : replayPage) : replayPage :=
  let c := rControls s in
  status_text ("Paused" +:+ (match truthy (cLast c) with Some t => " at " +:+ t | None => "" end) +:+ ".")
    (with_controls {| cSource := None; cMade := cMade c; cLast := cLast c; cPlay := ((cPlay c).1, "Reset");
                      cStop := ((cStop c).1, "Resume"); cSpeed := cSpeed c |} s).

Definition stream_url (region speed : string) (from : option string) : string :=
  "/api/replay/stream?region=" +:+ encodeURIComponent region +:+ "&speed=" +:+ encodeURIComponent speed +:+
  (match from with Some t => "&from=" +:+ encodeURIComponent t | None => "" end).

Definition startReplay (fromTime : option string) (s : replayPage) : replayPage :=
  let from := truthy fromTime in
  let m := rMap s in
  let s := match from with
           | Some _ => s
           | None => with_map {| pMarkers := pMarkers m; pSelected := None; pCenter := pCenter m |} s
           end in
  let s := status_text (match from with Some _ => "Resuming replay stream…" | None => "Connecting replay stream…" end) s in
  let c := rControls s in
  let url := stream_url (sbRegion (rSidebar s)) (cSpeed c) from in
  with_controls {| cSource := Some {| soId := S (cMade c); soURL := url |}; cMade := S (cMade c); cLast := cLast c;
                   cPlay := (false, "Reset"); cStop := (false, "Stop"); cSpeed := cSpeed c |} s.

(** ** The stream *)

Record progress := { prStatus : string; prAt : option string; prFrame : Z; prTotal : Z }.

Definition progress_of (d : doc) : option progress :=
  status ← prop "status" d ≫= as_string; frame ← prop "frame" d ≫= as_int; total ← prop "total" d ≫= as_int;
  at_ ← (match prop "at" d with None => Some None | Some a => s ← as_string a; Some (Some s) end);
  Some {| prStatus := status; prAt := at_; prFrame := frame; prTotal := total |}.

Definition on_progress (p : progress) (s : replayPage) : replayPage :=
  if bool_decide (prStatus p = "starting") then s else
  let c := rControls s in
  let s := match truthy (prAt p) with
           | Some t => with_controls {| cSource := cSource c; cMade := cMade c; cLast := Some t; cPlay := cPlay c; cStop := cStop c;
                                        cSpeed := cSpeed c |} s
           | None => s
           end in
  with_status ("Frame " +:+ itoa (prFrame p) +:+ " / " +:+ itoa (prTotal p) +:+
               (match truthy (prAt p) with Some t => " · " +:+ t | None => "" end), "status ok") s.

(** The listener for [error]: an event of the server with its data, or the
    connection's own, without. *)
Definition error_text (data : option doc) : string :=
  match data with
  | Some d => match prop "message" d with
              | Some (DStr m) => if bool_decide (m = "") then "Replay error" else m
              | _ => "Replay error"
              end
  | None => "Replay error"
  end.

Definition on_error_event (data : option (option doc)) (s : replayPage) : replayPage :=
  let s := match data with Some d => status_text (error_text d) s | None => s end in
  resetReplay (with_status ((sbStatus (rSidebar s)).1, "status err") s).

(** [replaySource.onerror], which is called after the listener. *)
Definition onerror (closed : bool) (s : replayPage) : replayPage :=
  match cSource (rControls s) with
  | Some _ => if closed then resetReplay s else s
  | None => s
  end.

Definition stream_event (event : string) (data : option doc) (s : replayPage) : replayPage :=
  if bool_decide (event = "vehicles") then
    match data ≫= vehicles_of with Some l => with_map (applyVehicles l (rMap s)) s | None => s end
  else if bool_decide (event = "progress") then
    match data ≫= progress_of with Some p => on_progress p s | None => s end
  else if bool_decide (event = "done") then resetReplay (status_text "Replay complete." s)
  else if bool_decide (event = "error") then onerror false (on_error_event (Some data) s)
  else s.

(** ** Requests *)

Definition loadCatalog (regionId : string) (s : replayPage) : replayPage :=
  send_request (LoadCatalog regionId) (with_status ("Loading catalog…", "status") s).

(** How a request ends: [fetch] throws an error with a message, the status is not
    ok and has a text, the body is JSON, or [res.json()] throws. *)
Inductive replayAnswer := Threw (message : string) | Refused (body : string) | Json (d : doc) | Garbled (message : string).

Definition catalog_failed (message : string) (s : replayPage) : replayPage := with_status ("Catalog failed: " +:+ message, "status err") s.

(** A payload that is not the server's leaves the page as it is. *)
Definition replay_answered (r : replayRequest) (a : replayAnswer) (s : replayPage) : replayPage :=
  match r, a with
  | LoadCatalog _, Json d =>
      match catalog_of d with
      | None => s
      | Some c =>
          let '(view, ok) := renderCatalog c in
          let s := with_catalog view s in
          if negb ok then catalog_failed "Invalid time value" s
          else if crEmpty c then with_status ("No change-feed history to replay.", "status err") s
          else with_status ("Loaded " +:+ itoa (crTotal c) +:+ " change(s). Press Play.", "status ok") s
      end
  | LoadCatalog _, (Threw e | Refused e | Garbled e) => catalog_failed e s
  | SwitchRegion id, Json d =>
      match region_reply_of d with
      | None => s
      | Some r =>
          let s := with_subtitle (rrLabel r) s in
          let s := with_map (clearMarkers {| pMarkers := pMarkers (rMap s); pSelected := pSelected (rMap s); pCenter := rrCenter r |}) s in
          loadCatalog id (resetReplay s)
      end
  | SwitchRegion _, _ => s
  end.

(** ** Steps *)

Inductive replayAction :=
  | ClickMarker (id : string)
  | ClickRegion (id : string)
  | ClickPlay
  | ClickStop
  | PickSpeed (speed : string)
  | Event (source : nat) (name : string) (data : option doc)
  | ConnectionError (source : nat) (closed : bool)
  | Answered (request : nat) (a : replayAnswer).

(** The source that calls listeners is the open one. *)
Definition playing (n : nat) (s : replayPage) : bool :=
  match cSource (rControls s) with Some so => bool_decide (soId so = n) | None => false end.

Definition replay_step (a : replayAction) (s : replayPage) : replayPage :=
  match a with
  | ClickMarker id => if bool_decide (is_Some (pMarkers (rMap s) !! id)) then with_map (selectVehicle id (rMap s)) s else s
  | ClickRegion id => send_request (SwitchRegion id) (with_region id s)
  | ClickPlay => if (cPlay (rControls s)).1 then s else startReplay None s
  | ClickStop =>
      if (cStop (rControls s)).1 then s
      else match cSource (rControls s) with
           | Some _ => pauseReplay s
           | None => startReplay (cLast (rControls s)) s
           end
  | PickSpeed v =>
      let c := rControls s in
      let s := with_controls {| cSource := cSource c; cMade := cMade c; cLast := cLast c; cPlay := cPlay c; cStop := cStop c; cSpeed := v |} s in
      match cSource c with Some _ => startReplay (cLast c) s | None => s end
  | Event n name data => if playing n s then stream_event name data s else s
  | ConnectionError n closed => if playing n s then onerror closed (on_error_event None s) else s
  | Answered n a =>
      match rWaiting s !! n with
      | Some r =>
          replay_answered r a {| rMap := rMap s; rControls := rControls s; rSidebar := rSidebar s;
                                 rWaiting := delete n (rWaiting s); rRequests := rRequests s |}
      | None => s
      end
  end.

Definition replay_steps (l : list replayAction) (s : replayPage) : replayPage := foldl (fun s a => replay_step a s) s l.

(** The page as the template renders it for a region; the script's last line loads
    the catalogue. *)
Definition loaded_replay (rg : MapRegion) : replayPage :=
  loadCatalog (utf8_coerce (rID rg)) {|
    rMap := {| pMarkers := ∅; pSelected := None; pCenter := rCenter rg |};
    rControls := {| cSource := None; cMade := 0; cLast := None; cPlay := (false, "Play"); cStop := (true, "Stop"); cSpeed := "10" |};
    rSidebar := {| sbRegion := utf8_coerce (rID rg); sbSubtitle := rLabel rg; sbButton := rID rg;
                   sbCatalog := {| cvEmpty := None; cvNotes := []; cvBlocks := [] |};
                   sbStatus := ("Select a region to load catalog.", "status") |};
    rWaiting := ∅; rRequests := 0
  |}.

(** ** The controls and the followed vehicle *)

(** Idle, playing from the newest source, or paused. *)
Definition controls_ok (c : controls) : Prop :=
  (cPlay c).1 = false /\
  match cSource c with
  | Some so => soId so = cMade c /\ cPlay c = (false, "Reset") /\ cStop c = (false, "Stop")
  | None => cPlay c = (false, "Play") /\ cStop c = (true, "Stop") /\ cLast c = None \/
            cPlay c = (false, "Reset") /\ cStop c = (false, "Resume")
  end.

(** The followed vehicle is on the map and highlighted. *)
Definition map_ok (m : replayMap) : Prop :=
  forall id, pSelected m = Some id -> exists k, pMarkers m !! id = Some k /\ rmStyle k = markerStyle (rmAgency k) true.

Definition replay_ok (s : replayPage) : Prop := controls_ok (rControls s) /\ map_ok (rMap s).

Lemma selectVehicle_ok id m : is_Some (pMarkers m !! id) -> map_ok m -> map_ok (selectVehicle id m).
Proof.
  intros Hid Hm. unfold selectVehicle. case_bool_decide as E; [done|]. set (ms := match truthy (pSelected m) with Some _ => _ | None => _ end).
  assert (Hms : is_Some (ms !! id)) by (subst ms; case_match; [by apply lookup_alter_is_Some|done]).
  destruct Hms as [k Hk]. rewrite Hk. intros id' [= <-]. cbn. unfold highlight. rewrite lookup_alter_eq, Hk. cbn. eauto.
Qed.

Lemma apply_vehicle_ok v m : map_ok m -> map_ok (apply_vehicle m v).
Proof.
  intros Hm id Hs. cbn in Hs |- *. destruct (decide (id = vvID v)) as [->|Hne].
  - rewrite lookup_insert_eq. eexists. split; [done|]. cbn. by rewrite Hs, bool_decide_true.
  - rewrite lookup_insert_ne by done. by apply Hm.
Qed.

Lemma drop_unseen_ok seen m : map_ok m -> map_ok (drop_unseen seen m).
Proof.
  intros Hm id Hs. cbn in Hs |- *. destruct (pSelected m) as [id'|] eqn:E; [|done]. case_bool_decide as Hd; [done|].
  injection Hs as ->. destruct (Hm id E) as (k & Hk & Hst). exists k. split; [|done].
  apply map_lookup_filter_Some. split; [done|]. cbn. apply dec_stable. intros Hn. apply Hd. eauto.
Qed.

Lemma applyVehicles_ok l m : map_ok m -> map_ok (applyVehicles l m).
Proof.
  intros Hm. apply drop_unseen_ok. revert m Hm. induction l as [|v l IH]; intros m Hm; [done|]. by apply IH, apply_vehicle_ok.
Qed.

Lemma reset_ok s : map_ok (rMap s) -> replay_ok (resetReplay s).
Proof. intros Hm. split; [|exact Hm]. split; [done|]. by left. Qed.

Lemma start_ok from s : map_ok (rMap s) -> replay_ok (startReplay from s).
Proof. intros Hm. unfold startReplay. split; [by destruct (truthy from)|]. destruct (truthy from); [exact Hm|]. by intros id. Qed.

Lemma onerror_idle closed s : cSource (rControls s) = None -> onerror closed s = s.
Proof. unfold onerror. by intros ->. Qed.

Lemma stream_event_ok event data s : is_Some (cSource (rControls s)) -> replay_ok s -> replay_ok (stream_event event data s).
Proof.
  intros [so Hso] [Hc Hm]. unfold stream_event. repeat case_bool_decide.
  - destruct (data ≫= vehicles_of) as [l|]; [|done]. split; [exact Hc|by apply applyVehicles_ok].
  - destruct (data ≫= progress_of) as [p|]; [|done]. unfold on_progress. case_bool_decide; [done|].
    split; [|by destruct (truthy (prAt p))]. destruct (truthy (prAt p)); [|exact Hc]. unfold controls_ok in *. cbn. by rewrite Hso in *.
  - by apply reset_ok.
  - rewrite onerror_idle by done. by apply reset_ok.
  - done.
Qed.

Lemma answered_ok r a s : replay_ok s -> replay_ok (replay_answered r a s).
Proof.
  intros Hs. destruct r, a as [e|e|d|e]; try exact Hs; cbn [replay_answered].
  - destruct (catalog_of d) as [c|]; [|done]. destruct (renderCatalog c) as [view ok]. destruct ok, (crEmpty c); exact Hs.
  - destruct (region_reply_of d) as [r|]; [|done]. apply reset_ok. by intros ?.
Qed.

Lemma playing_source n s : playing n s = true -> is_Some (cSource (rControls s)).
Proof. unfold playing. destruct (cSource (rControls s)); [by eexists|done]. Qed.

Lemma replay_step_ok a s : replay_ok s -> replay_ok (replay_step a s).
Proof.
  intros [Hc Hm]. destruct a as [id|id| | |v|n name data|n closed|n a]; cbn [replay_step].
  - case_bool_decide; [|done]. split; [exact Hc|by apply selectVehicle_ok].
  - done.
  - case_match; [done|by apply start_ok].
  - case_match eqn:Es; [done|]. destruct (cSource (rControls s)) as [so|] eqn:E; [|by apply start_ok].
    split; [|exact Hm]. unfold controls_ok in *. rewrite E in Hc. cbn. destruct Hc as (Hp & _ & -> & ->). by split; [|right].
  - destruct (cSource (rControls s)) as [so|] eqn:E; [by apply start_ok|]. split; [|exact Hm].
    unfold controls_ok in *. cbn. by rewrite E in *.
  - case_match eqn:Ep; [|done]. apply stream_event_ok; [by eapply playing_source|done].
  - case_match eqn:Ep; [|done]. rewrite onerror_idle by done. by apply reset_ok.
  - destruct (rWaiting s !! n); [|done]. by apply answered_ok.
Qed.

Lemma replay_steps_ok l s : replay_ok s -> replay_ok (replay_steps l s).
Proof.
  revert s. induction l as [|a l IH]; intros s Hs; [done|]. change (replay_steps (a :: l) s) with (replay_steps l (replay_step a s)).
  by apply IH, replay_step_ok.
Qed.

Lemma loaded_replay_ok rg : replay_ok (loaded_replay rg).
Proof. split; [|by intros id]. split; [done|]. by left. Qed.


(** C19: whatever is clicked, received or answered, in any order: the controls agree
    with the event source (Reset and Stop while there is one; else Play and a
    disabled Stop with no position kept, or Reset and Resume), the source that is
    open is the newest, the followed vehicle has a marker and it is highlighted;
    and what arrives from a source that is not open changes nothing. *)
Theorem replay_page_safe rg l : let s := replay_steps l (loaded_replay rg) in
  replay_ok s /\
  (forall n, (n > cMade (rControls s))%nat \/ playing n s = false ->
   (forall event data, replay_step (Event n event data) s = s) /\ forall closed, replay_step (ConnectionError n closed) s = s).
Proof.
  cbv zeta. pose proof (replay_steps_ok l _ (loaded_replay_ok rg)) as Hok. split; [done|]. intros n Hn.
  assert (Hp : playing n (replay_steps l (loaded_replay rg)) = false).
  { destruct Hn as [Hn|Hn]; [|done]. destruct Hok as [[_ Hc] _]. unfold playing. destruct (cSource _) as [so|]; [|done].
    destruct Hc as [Hc _]. apply bool_decide_false. lia. }
  cbn [replay_step]. by rewrite Hp.
Qed.

(** ** A frame on the map *)

Lemma apply_vehicles_selected l m : pSelected (foldl apply_vehicle m l) = pSelected m.
Proof. revert m. induction l as [|v l IH]; intros m; [done|]. cbn [foldl]. by rewrite IH. Qed.

Lemma apply_vehicles_lookup l m id : pMarkers (foldl apply_vehicle m l) !! id =
  match last (List.filter (fun v => bool_decide (vvID v = id)) l) with
  | Some v => Some (replay_marker (pSelected m) v)
  | None => pMarkers m !! id
  end.
Proof.
  induction l as [|v l IH] using rev_ind; [done|]. rewrite foldl_app, List.filter_app. cbn [foldl List.filter apply_vehicle pMarkers].
  rewrite apply_vehicles_selected. case_bool_decide as E; [subst id; by rewrite last_snoc, lookup_insert_eq|].
  by rewrite app_nil_r, lookup_insert_ne by done.
Qed.

(** The markers are those of the list, the followed vehicle is kept if it is there,
    and no other is highlighted. *)
Lemma applyVehicles_spec l m : map_ok m ->
  let m' := applyVehicles l m in
  (forall id, pMarkers m' !! id = replay_marker (pSelected m') <$> last (List.filter (fun v => bool_decide (vvID v = id)) l)) /\
  pSelected m' = (match pSelected m with Some id => if bool_decide (id ∈ (list_to_set (vvID <$> l) : gset string)) then Some id else None | None => None end).
Proof.
  intros Hm m'. set (seen := list_to_set (vvID <$> l) : gset string).
  assert (Hsel : pSelected m' = match pSelected m with Some id => if bool_decide (id ∈ seen) then Some id else None | None => None end).
  { subst m'. unfold applyVehicles, drop_unseen. cbn [pSelected]. rewrite apply_vehicles_selected.
    destruct (pSelected m) as [id|] eqn:E; [|done]. rewrite apply_vehicles_lookup. destruct (Hm id E) as (k & Hk & _).
    case_bool_decide as H1; case_bool_decide as H2; try done; [by destruct H1|]. exfalso. apply H1. split; [|done].
    rewrite Hk. by destruct (last _). }
  split; [|exact Hsel]. intros id. rewrite Hsel. clear Hsel. subst m'. unfold applyVehicles, drop_unseen. cbn [pMarkers].
  rewrite map_lookup_filter, apply_vehicles_lookup. pose proof (last_filter_None vvID l id) as Hnone. fold seen in Hnone.
  destruct (last (List.filter _ l)) as [v|] eqn:Ev; cbn.
  - assert (Hin : id ∈ seen) by (apply dec_stable; intros Hn; by apply Hnone in Hn).
    rewrite option_guard_True by done. cbn. f_equal. unfold replay_marker. f_equal. f_equal.
    apply last_Some_elem_of, list_elem_of_In, List.filter_In in Ev as [_ <-%bool_decide_eq_true].
    apply bool_decide_ext. destruct (pSelected m) as [id'|]; [|done]. case_bool_decide; [done|].
    split; [intros [= <-]; done|done].
  - destruct (pMarkers m !! id) as [k|]; [|done]. cbn. rewrite option_guard_False; [done|]. by apply Hnone.
Qed.
End ReplayPage.

(** ** A page *)

#[local] Existing Instance scaled_floats.

Definition plain_fixed (_ : nat) (_ : float64) : string := "0.0".
Definition same_iso (s : string) : option string := Some s.
Definition run_replay : list replayAction -> replayPage -> replayPage := replay_steps plain_fixed same_iso.

Definition tram (id : string) : vehicleView :=
  {| vvID := "ktmb:" +:+ id; vvVehicleID := id; vvLat := f64_of_Z 3; vvLng := f64_of_Z 101; vvAgency := "ktmb"; vvGroup := "ktmb";
     vvRoute := "T1"; vvSpeed := f64_of_Z 0; vvBearing := f64_of_Z 0; vvStale := false |}.

Definition frame_event (n : nat) (ids : list string) : replayAction :=
  Event n "vehicles" (Some (doc_of (JArr (vehicle_json <$> (tram <$> ids))))).
Definition progress_event (n : nat) (at_ : string) : replayAction :=
  Event n "progress" (Some (doc_of (JObj [("at", JStr at_); ("frame", JInt 1); ("status", JStr "playing"); ("total", JInt 9)]))).

Definition fresh_page : replayPage :=
  loaded_replay {| rID := "kl"; rLabel := "KL"; rCenter := (f64_of_Z 3, f64_of_Z 101); rZoom := 11; rAgencies := ["ktmb"] |}.

Definition following : replayPage :=
  run_replay [ClickPlay; frame_event 1 ["1"; "2"]; progress_event 1 "2026-01-02T03:04:05Z"; ClickMarker "ktmb:1"] fresh_page.

Example following_the_vehicle :
  pSelected (rMap following) = Some "ktmb:1" /\
  pSelected (rMap (run_replay [frame_event 1 ["2"; "1"]] following)) = Some "ktmb:1" /\
  pSelected (rMap (run_replay [frame_event 1 ["2"]] following)) = None /\
  (soURL <$> cSource (rControls (run_replay [ClickStop; ClickStop] following))) =
    Some "/api/replay/stream?region=kl&speed=10&from=2026-01-02T03%3A04%3A05Z".
Proof. by vm_compute. Qed.

(** Reset plays from the start, but keeps the old position: a pause before the
    first frame and a resume go back to it. *)
Example reset_then_resume :
  (soURL <$> cSource (rControls (run_replay [ClickPlay] following))) = Some "/api/replay/stream?region=kl&speed=10" /\
  (sbStatus (rSidebar (run_replay [ClickPlay; ClickStop] following))).1 = "Paused at 2026-01-02T03:04:05Z." /\
  (soURL <$> cSource (rControls (run_replay [ClickPlay; ClickStop; ClickStop] following))) =
    Some "/api/replay/stream?region=kl&speed=10&from=2026-01-02T03%3A04%3A05Z".
Proof. by vm_compute. Qed.

(** Reset forgets the followed vehicle but leaves its highlight. *)
Example highlight_left_over :
  pSelected (rMap (run_replay [ClickPlay] following)) = None /\
  (rmStyle <$> pMarkers (rMap (run_replay [ClickPlay] following)) !! "ktmb:1") = Some (markerStyle "ktmb" true).
Proof. by vm_compute. Qed.

(** A click on a region that the server refuses leaves the page on it. *)
Example refused_region :
  let s := run_replay [ClickRegion "atlantis"; Answered 1 (Refused "unknown region"); ClickPlay] fresh_page in
  sbButton (rSidebar s) = "atlantis" /\ (soURL <$> cSource (rControls s)) = Some "/api/replay/stream?region=atlantis&speed=10".
Proof. by vm_compute. Qed.

(** Any error of the connection ends the playback, also one that the browser
    would have reconnected after. *)
Lemma connection_error_resets n closed s :
  replay_step plain_fixed same_iso (ConnectionError n closed) s =
  (if playing n s then resetReplay (with_status ((sbStatus (rSidebar s)).1, "status err") s) else s).
Proof. cbn [replay_step]. case_match; [|done]. by rewrite onerror_idle. Qed.

Definition kl_catalog : RegionCatalog := {|
  rcRegionID := "kl"; rcLabel := "KL"; rcEmpty := false; rcMessage := ""; rcTotal := 3;
  rcAgencies := [{| acAgency := "ktmb"; acCount := 3; acEntries := [{| feAgency := "ktmb"; feChangeCount := 3; feFrom := 0; feTo := 7 * second |}] |};
                 {| acAgency := "prasarana"; acCount := 0; acEntries := [] |}];
  rcNotes := ["a note"]
|}.

(** The server's catalogue in the sidebar. *)
Example catalog_shown :
  match enc_catalog kl_catalog with
  | Ok j =>
      let s := run_replay [Answered 0 (Json (doc_of j))] fresh_page in
      sbCatalog (rSidebar s) = {| cvEmpty := None; cvNotes := ["a note"];
        cvBlocks := [("ktmb (3)", ["1970-01-01T00:00:00Z → 1970-01-01T00:00:07Z · 3 changes"]); ("prasarana (0)", ["No data yet"])] |} /\
      sbStatus (rSidebar s) = ("Loaded 3 change(s). Press Play.", "status ok")
  | Err _ => False
  end.
Proof. by vm_compute. Qed.
