(* ===== verification/DemoServer.v ===== *)
(** * The demo web server (internal/web/demo/server.go, session.go, replay.go, sse.go)

    Every handler over the session store (Session), the live pipeline
    (LivePipeline) and playback (Replay), as a state monad over a connection: the
    world of the sessions and the response under construction.  The effects are
    numbered as in Session: [clock n], [disk n], [pipe n], [wire n] and [rand n]
    are what the n-th one reads when it is a clock reading, a persist, a read of
    the pipeline (which the poll loop changes meanwhile), a write to the client,
    or a read of random bytes.  A live stream is a state machine driven by the
    events its loop selects on.

    A step of [server_step] is a whole handler or a whole turn of a stream,
    although the code takes and releases the sessions' lock once per call within
    it.  The pipeline, the clock, the disk and the connection may change between
    any two effects of a handler, but the sessions are then changed by that
    handler alone; what is proved of contents ([post_region], [push_snapshot],
    [replay_stream]) is of handlers that no other one interrupts.  The viewer
    counters are proved at the grain of the lock too: [section_step] is one
    critical section, every [server_step] is a run of them
    ([server_step_sections]), and [viewers_interleaved] holds of all runs. *)

From Stdlib Require Import Ascii.
From S2P Require Import Prelude GoStrings Json Vehicle Regions IsleDB ChangeFeed Session LivePipeline Replay Web Views.

Definition SessionCookieName : string := "demo_sid".

(** ** Requests and connections *)

(** [rqCookie] is the value of the session cookie, [rqQuery] the query with the
    first value of each key, [rqBody] the first JSON value of the body, [rqSid]
    the context value [withSession] adds. *)
Record Request := {
  rqMethod : string;
  rqPath : string;
  rqCookie : option string;
  rqQuery : gmap string string;
  rqBody : value;
  rqSid : string
}.

Definition with_sid (sid : string) (r : Request) : Request :=
  {| rqMethod := rqMethod r; rqPath := rqPath r; rqCookie := rqCookie r; rqQuery := rqQuery r; rqBody := rqBody r; rqSid := sid |}.

Definition sessionID (r : Request) : string := rqSid r.
Definition query (k : string) (r : Request) : string := default "" (rqQuery r !! k).

(** The data of the two page templates. *)
Inductive page :=
  | IndexPage (regions : list MapRegion) (active : MapRegion) (feeds : list Feed) (pollSeconds : Z) (options : list Z)
  | ReplayPage (regions : list MapRegion) (active : MapRegion).

(** [cChanged] lists the calls of [onRegionChange], [cCookie] the session cookie
    set on the response. *)
Record Conn := {
  cWorld : World;
  cResp : Response page;
  cCookie : option string;
  cChanged : list string
}.

Definition open_conn (w : World) : Conn := {| cWorld := w; cResp := no_response; cCookie := None; cChanged := [] |}.

Definition H (A : Type) : Type := Conn -> A * Conn.
#[export] Instance H_ret : MRet H := fun A a c => (a, c).
#[export] Instance H_bind : MBind H := fun A B f m c => let '(a, c) := m c in f a c.

Definition lift {A} (m : M A) : H A := fun c =>
  let '(a, w) := m (cWorld c) in
  (a, {| cWorld := w; cResp := cResp c; cCookie := cCookie c; cChanged := cChanged c |}).

Definition tick {A} (f : nat -> A) : M A := fun w =>
  (f (ticks w), {| store := store w; files := files w; ticks := S (ticks w) |}).

Definition resp (f : Response page -> Response page) : H unit := fun c =>
  (tt, {| cWorld := cWorld c; cResp := f (cResp c); cCookie := cCookie c; cChanged := cChanged c |}).

Definition set_cookie (sid : string) : H unit := fun c =>
  (tt, {| cWorld := cWorld c; cResp := cResp c; cCookie := Some sid; cChanged := cChanged c |}).

(** [hex.EncodeToString]. *)
Fixpoint hex (s : string) : string :=
  match s with
  | "" => ""
  | String c s => String (hex_digit (N_of_ascii c / 16)) (String (hex_digit (N_of_ascii c mod 16)) (hex s))
  end.

Lemma hex_inj a b : hex a = hex b -> a = b.
Proof.
  revert b. induction a as [|x a IH]; intros [|y b]; cbn [hex]; try done. intros E. injection E as E1 E2 E3.
  assert (Hx : forall z, (N_of_ascii z / 16 < 16)%N /\ (N_of_ascii z mod 16 < 16)%N).
  { intros z. pose proof (N_of_ascii_bound z). split; [apply N.Div0.div_lt_upper_bound; lia|apply N.mod_lt; lia]. }
  apply hex_digit_inj in E1; [|apply Hx..]. apply hex_digit_inj in E2; [|apply Hx..].
  f_equal; [|by apply IH]. apply N_of_ascii_inj. rewrite (N.div_mod (N_of_ascii x) 16), (N.div_mod (N_of_ascii y) 16) by done. congruence.
Qed.

(** A live stream: its session, and the agencies of the session's region when
    the stream was opened. *)
Record stream := { stSid : string; stAgencies : gset string }.

(** What the loop of a stream selects on; [PollsClosed] is a receive from the
    closed channel. *)
Inductive event := Heartbeat | PollSignal | PollsClosed | ClientGone.

Section DemoServer.
Context {MR : MapRange} {I : IsleDB} {SS : SliceSort}.
Variable clock : nat -> time.
Variable disk : nat -> disk_io.
Variable pipe : nat -> Pipeline.
Variable wire : nat -> option error.
Variable rand : nat -> result string.
(** Whether the writer is an [http.Flusher]; the offset of the local zone; whether
    the server has a callback, and a replay source. *)
Variable flusher : bool.
Variable local_zone : time -> Z.
Variable has_callback : bool.
Variable has_replay : bool.

Definition read {A} (f : Pipeline -> A) : H A := lift (tick (fun n => f (pipe n))).
Definition now : H time := lift (Now clock).

(** A write to the client, its error, and what the client gets. *)
Definition send (c : chunk page) : H (option error) :=
  o ← lift (tick wire);
  match o with
  | None => _ ← resp (write_chunk c); mret None
  | Some e => _ ← resp write_failed; mret (Some e)
  end.

Definition http_Error (msg : string) (code : Z) : H unit :=
  _ ← resp (error_header code);
  _ ← send (Text (msg +:+ newline));
  mret tt.

Definition http_NotFound : H unit := http_Error "404 page not found" 404.
Definition method_not_allowed : H unit := http_Error "method not allowed" 405.

(** A payload that does not marshal leaves the body empty. *)
Definition writeJSON (v : result json) : H unit :=
  _ ← resp (set_header "Content-Type" "application/json");
  match v with
  | Ok j => _ ← send (JsonBody j); mret tt
  | Err _ => mret tt
  end.

(** ** Server-sent events (sse.go) *)

Definition writeSSE (event : string) (payload : result json) : H (option error) :=
  if negb flusher then mret (Some (Errorf "streaming not supported"))
  else match payload with
       | Err e => mret (Some e)
       | Ok j => send (SSE event j)
       end.

Definition initSSE : H unit :=
  resp (fun r => set_header "Connection" "keep-alive" (set_header "Cache-Control" "no-cache"
    (set_header "Content-Type" "text/event-stream" r))).

(** ** Sessions (session.go) *)

Definition newSessionID : H (result string) :=
  b ← lift (tick rand);
  mret (b ← b; Ok (hex b)).

(** The session of a request: the cookie's, or a new one that is sent back;
    [None] when there is no randomness, and the error is written. *)
Definition session_of (r : Request) : H (option string) :=
  let sid := default "" (rqCookie r) in
  if bool_decide (sid = "") then
    id ← newSessionID;
    match id with
    | Err _ => _ ← http_Error "session init failed" 500; mret None
    | Ok sid => _ ← set_cookie sid; mret (Some sid)
    end
  else mret (Some sid).

(** ** Pages and regions *)

Definition html_headers : H unit :=
  resp (fun r => set_header "Cache-Control" "no-cache, no-store, must-revalidate"
    (set_header "Content-Type" "text/html; charset=utf-8" r)).

Definition handleIndex (r : Request) : H unit :=
  if negb (bool_decide (rqPath r = "/")) then http_NotFound
  else
    let sid := sessionID r in
    active ← lift (ActiveRegion clock disk sid);
    feeds ← lift (ActiveFeeds clock disk sid);
    _ ← html_headers;
    poll ← lift (PollSeconds clock disk sid);
    _ ← send (Page (IndexPage AllRegions active (match feeds with Ok l => l | Err _ => [] end) poll AllowedPollSeconds));
    mret tt.

Definition handleRegions (r : Request) : H unit :=
  if negb (bool_decide (rqMethod r = "GET")) then method_not_allowed
  else
    active ← lift (Region clock disk (sessionID r));
    active' ← lift (Region clock disk (sessionID r));
    writeJSON (views ← enc_slice enc_regionView (regionViews AllRegions active');
               Ok (JObj [("active", enc_str active); ("regions", views)])).

Definition activeRegionPayload (r : Request) : H (result (regionView * list Feed)) :=
  let sid := sessionID r in
  rgn ← lift (ActiveRegion clock disk sid);
  feeds ← lift (ActiveFeeds clock disk sid);
  mret (feeds ← feeds;
        Ok ({| rvID := rID rgn; rvLabel := rLabel rgn; rvCenter := rCenter rgn; rvZoom := rZoom rgn;
               rvAgencies := rAgencies rgn; rvActive := false |}, feeds)).

Definition writeRegionPayload (r : Request) (region : regionView) (feeds : list Feed) : H unit :=
  poll ← lift (PollSeconds clock disk (sessionID r));
  writeJSON (fs ← enc_slice enc_feedView (feedViews feeds);
             v ← enc_regionView region;
             Ok (JObj [("feeds", fs); ("pollSeconds", JInt poll); ("region", v)])).

Definition getRegion (r : Request) : H unit :=
  payload ← activeRegionPayload r;
  match payload with
  | Err e => http_Error (Error e) 500
  | Ok (region, feeds) => writeRegionPayload r region feeds
  end.

(** [if s.onRegionChange != nil { s.onRegionChange(id) }] *)
Definition region_changed (id : string) : H unit := fun c =>
  (tt, if has_callback
       then {| cWorld := cWorld c; cResp := cResp c; cCookie := cCookie c; cChanged := cChanged c ++ [id] |} else c).

Definition dec_setRegion (b : value) : result string := fs ← dec_obj b; dec_field "" dec_str "id" fs.

Definition postRegion (r : Request) : H unit :=
  match dec_setRegion (rqBody r) with
  | Err _ => http_Error "invalid json" 400
  | Ok id =>
      e ← lift (SetRegion clock disk (sessionID r) id);
      match e with
      | Some e => http_Error (Error e) 400
      | None => _ ← region_changed id; getRegion r
      end
  end.

Definition handleRegion (r : Request) : H unit :=
  if bool_decide (rqMethod r = "POST") then postRegion r
  else if bool_decide (rqMethod r = "GET") then getRegion r
  else method_not_allowed.

(** ** Poll intervals *)

Definition writePollInterval (r : Request) : H unit :=
  poll ← lift (PollSeconds clock disk (sessionID r));
  writeJSON (Ok (JObj [("options", JArr (JInt <$> AllowedPollSeconds)); ("seconds", JInt poll)])).

Definition dec_setPollInterval (b : value) : result Z := fs ← dec_obj b; dec_field 0 dec_int "seconds" fs.

Definition postPollInterval (r : Request) : H unit :=
  match dec_setPollInterval (rqBody r) with
  | Err _ => http_Error "invalid json" 400
  | Ok seconds =>
      let sid := sessionID r in
      e ← lift (SetPollSeconds clock disk sid seconds);
      match e with
      | Some e => http_Error (Error e) 400
      | None =>
          _ ← (if has_callback then id ← lift (Region clock disk sid); region_changed id else mret tt);
          writePollInterval r
      end
  end.

Definition handlePollInterval (r : Request) : H unit :=
  if bool_decide (rqMethod r = "GET") then writePollInterval r
  else if bool_decide (rqMethod r = "POST") then postPollInterval r
  else method_not_allowed.

(** ** Vehicles *)

Definition handleVehicles (r : Request) : H unit :=
  if negb (bool_decide (rqMethod r = "GET")) then method_not_allowed
  else
    ids ← lift (ActiveAgencies clock disk (sessionID r));
    match ids with
    | Err e => http_Error (Error e) 500
    | Ok ids =>
        t ← now;
        live ← read (LivePositionsFor ids t);
        writeJSON (enc_slice enc_vehicleView (liveViews live t))
    end.

Definition pushStats (ids : gset string) (sid : string) : H (option error) :=
  t ← now;
  st ← read (StatsFor ids t);
  let '(count, lastPoll, events) := st in
  let last := if is_zero lastPoll then "—" else format_clock (local_zone lastPoll) lastPoll in
  region ← lift (Region clock disk sid);
  writeSSE "stats" (Ok (JObj [("activeRegion", enc_str region); ("eventCount", JInt events);
                              ("lastUpdate", enc_str last); ("vehicleCount", JInt count)])).

Definition enc_ingest (rec : IngestRecord) : result json :=
  lat ← enc_float (igLat rec); lng ← enc_float (igLng rec);
  Ok (JObj [("agency", enc_str (igAgency rec));
            ("at", enc_str (if is_zero (igAt rec) then "—" else format_clock 0 (igAt rec)));
            ("lat", lat); ("lng", lng); ("vehicle", enc_str (igVehicleID rec))]).

Definition pushIngest (sid : string) : H (option error) :=
  regionID ← lift (Region clock disk sid);
  active ← lift (ActiveRegion clock disk sid);
  ids ← lift (ActiveAgencies clock disk sid);
  match ids with
  | Err e => mret (Some e)
  | Ok ids =>
      recs ← read (RecentIngestForRegion regionID);
      last ← read LastPolledAgencies;
      let polled := List.filter (fun a => bool_decide (a ∈ ids)) last in
      writeSSE "ingest" (rows ← enc_slice enc_ingest recs;
                         Ok (JObj [("activeLabel", enc_str (rLabel active)); ("activeRegion", enc_str regionID);
                                   ("polledAgencies", enc_strings polled); ("records", rows)]))
  end.

Definition pushSnapshot (ids : gset string) (sid : string) : H (option error) :=
  t ← now;
  live ← read (LivePositionsFor ids t);
  e ← writeSSE "vehicles" (enc_slice enc_vehicleView (liveViews live t));
  match e with
  | Some e => mret (Some e)
  | None =>
      e ← pushStats ids sid;
      match e with
      | Some e => mret (Some e)
      | None => pushIngest sid
      end
  end.

(** ** Live streams *)

(** [handleVehicleStream] up to its loop; [None] when it has returned, which runs
    the deferred [ReleaseLive].  The subscription to polls precedes the first
    push.  The lock of the sessions is taken once for each of the calls lifted
    here; see [section_step] for what may come in between. *)
Definition open_stream (r : Request) : H (option stream) :=
  let sid := sessionID r in
  _ ← lift (AcquireLive sid);
  _ ← initSSE;
  ids ← lift (ActiveAgencies clock disk sid);
  match ids with
  | Err _ => _ ← lift (ReleaseLive sid); mret None
  | Ok ids =>
      e ← pushSnapshot ids sid;
      match e with
      | Some _ => _ ← lift (ReleaseLive sid); mret None
      | None => mret (Some {| stSid := sid; stAgencies := ids |})
      end
  end.

(** One turn of the loop; its calls on the sessions are critical sections of
    their own. *)
Definition stream_turn (ev : event) (st : stream) : H (option stream) :=
  match ev with
  | ClientGone | PollsClosed => _ ← lift (ReleaseLive (stSid st)); mret None
  | Heartbeat => _ ← lift (Touch clock disk (stSid st)); mret (Some st)
  | PollSignal =>
      _ ← lift (Touch clock disk (stSid st));
      e ← pushSnapshot (stAgencies st) (stSid st);
      match e with
      | Some _ => _ ← lift (ReleaseLive (stSid st)); mret None
      | None => mret (Some st)
      end
  end.

(** ** Replay (replay.go) *)

Definition handleReplayIndex (r : Request) : H unit :=
  if negb (bool_decide (rqPath r = "/replay")) then http_NotFound
  else
    active ← lift (ActiveRegion clock disk (sessionID r));
    _ ← html_headers;
    _ ← send (Page (ReplayPage AllRegions active));
    mret tt.

(** The [region] parameter, or the session's region. *)
Definition replay_region (r : Request) : H string :=
  let regionID := query "region" r in
  if bool_decide (regionID = "") then lift (Region clock disk (sessionID r)) else mret regionID.

(** The page loops of the change feed run on [fuel]; [None] is running out of it.
    The source reads the pipeline once. *)
Definition handleReplayCatalog (fuel : nat) (r : Request) (c : Conn) : option Conn :=
  if negb (bool_decide (rqMethod r = "GET")) then Some (method_not_allowed c).2
  else if negb has_replay then Some (http_Error "replay not configured" 503 c).2
  else
    let '(regionID, c) := replay_region r c in
    let '(p, c) := read id c in
    match CatalogForRegion fuel regionID p with
    | None => None
    | Some (Err e) => Some (http_Error (Error e) 400 c).2
    | Some (Ok cat) => Some (writeJSON (enc_catalog cat) c).2
    end.

(** A bound of the playback: [None] is an instant that does not parse. *)
Definition replay_bound (k : string) (r : Request) : option time :=
  if bool_decide (query k r = "") then Some zero_time else parse_rfc3339 (query k r).

Definition replay_speed (r : Request) : Z :=
  let speed := (parse_int (query "speed" r)).1 in if speed <=? 0 then 1 else speed.

Definition enc_progress (frame total : Z) (at_ : option string) (status : string) : json :=
  JObj ((match at_ with Some s => [("at", enc_str s)] | None => [] end) ++
        [("frame", JInt frame); ("status", enc_str status); ("total", JInt total)]).

(** The frame callback. *)
Definition on_frame (positions : list VehiclePosition) (prog : ReplayProgress) : H (option error) :=
  e ← writeSSE "vehicles" (enc_slice enc_vehicleView (replayViews positions));
  match e with
  | Some e => mret (Some e)
  | None => writeSSE "progress" (Ok (enc_progress (Frame prog) (Total prog) (Some (formatReplayTime (At prog))) "playing"))
  end.

(** What follows the playback. *)
Definition replay_end (e : option error) : H unit :=
  match e with
  | Some e =>
      if errors_Is e SCanceled || errors_Is e SEOF then mret tt
      else _ ← writeSSE "error" (Ok (JObj [("message", enc_str (Error e))])); mret tt
  | None => _ ← writeSSE "done" (Ok (JObj [("status", JStr "complete")])); mret tt
  end.

Definition handleReplayStream (ctx_Err : nat -> option error) (fuel : nat) (r : Request) (c : Conn) : option Conn :=
  if negb has_replay then Some (http_Error "replay not configured" 503 c).2
  else
    let '(regionID, c) := replay_region r c in
    match replay_bound "from" r, replay_bound "to" r with
    | None, _ => Some (http_Error "invalid from timestamp" 400 c).2
    | _, None => Some (http_Error "invalid to timestamp" 400 c).2
    | Some from, Some to =>
        let '(_, c) := initSSE c in
        match writeSSE "progress" (Ok (enc_progress 0 0 None "starting")) c with
        | (Some _, c) => Some c
        | (None, c) =>
            let '(p, c) := read id c in
            let opts := {| RegionID := regionID; roSpeed := replay_speed r; roFrom := from; roTo := to |} in
            match RunReplay ctx_Err on_frame fuel opts p c with
            | None => None
            | Some ((e, c), _) => Some (replay_end e c).2
            end
        end
    end.

(** ** The routes *)

Inductive route := Index | Regions_ | Region_ | PollInterval | Vehicles | VehicleStream | ReplayIndex | ReplayCatalog | ReplayStream.

(** The mux on a clean path: an exact pattern, or "/" for the rest. *)
Definition route_of (path : string) : route :=
  if bool_decide (path = "/api/regions") then Regions_
  else if bool_decide (path = "/api/region") then Region_
  else if bool_decide (path = "/api/poll-interval") then PollInterval
  else if bool_decide (path = "/api/vehicles") then Vehicles
  else if bool_decide (path = "/api/vehicles/stream") then VehicleStream
  else if bool_decide (path = "/replay") then ReplayIndex
  else if bool_decide (path = "/api/replay/catalog") then ReplayCatalog
  else if bool_decide (path = "/api/replay/stream") then ReplayStream
  else Index.

(** A request served: the stream it leaves open, if any, and the connection;
    [None] is running out of fuel. *)
Definition dispatch (ctx_Err : nat -> option error) (fuel : nat) (r : Request) : Conn -> option (option stream * Conn) := fun c =>
  let plain (h : H unit) := Some (None, (h c).2) in
  match route_of (rqPath r) with
  | Index => plain (handleIndex r)
  | Regions_ => plain (handleRegions r)
  | Region_ => plain (handleRegion r)
  | PollInterval => plain (handlePollInterval r)
  | Vehicles => plain (handleVehicles r)
  | VehicleStream => Some (open_stream r c)
  | ReplayIndex => plain (handleReplayIndex r)
  | ReplayCatalog => (fun c => (None, c)) <$> handleReplayCatalog fuel r c
  | ReplayStream => (fun c => (None, c)) <$> handleReplayStream ctx_Err fuel r c
  end.

(** [withSession] around the routes: the session is touched before the handler
    runs. *)
Definition Handler (ctx_Err : nat -> option error) (fuel : nat) (r : Request) (c : Conn) : option (option stream * Conn) :=
  match session_of r c with
  | (None, c) => Some (None, c)
  | (Some sid, c) => let '(_, c) := lift (Touch clock disk sid) c in dispatch ctx_Err fuel (with_sid sid r) c
  end.

(** ** The server over time *)

(** The sessions and the open streams, by number. *)
Record Server := { sWorld : World; sStreams : gmap nat stream }.

(** A request served, a turn of an open stream, or a read of the sessions by the
    poll loop. *)
Inductive server_event :=
  | Serve (ctx_Err : nat -> option error) (fuel : nat) (r : Request) (id : nat)
  | Turn (id : nat) (ev : event)
  | PollerAsks
  | PollerAsksInterval (region : string).

Definition server_step (e : server_event) (s : Server) : option Server :=
  match e with
  | Serve ctx_Err fuel r id =>
      match sStreams s !! id, Handler ctx_Err fuel r (open_conn (sWorld s)) with
      | None, Some (o, c) =>
          Some {| sWorld := cWorld c; sStreams := match o with Some st => <[id := st]> (sStreams s) | None => sStreams s end |}
      | _, _ => None
      end
  | Turn id ev =>
      match sStreams s !! id with
      | None => None
      | Some st =>
          let '(o, c) := stream_turn ev st (open_conn (sWorld s)) in
          Some {| sWorld := cWorld c; sStreams := match o with Some st => <[id := st]> (sStreams s) | None => delete id (sStreams s) end |}
      end
  | PollerAsks => Some {| sWorld := (LiveRegionIDs clock disk (sWorld s)).2; sStreams := sStreams s |}
  | PollerAsksInterval r => Some {| sWorld := (MinPollIntervalForRegion clock disk r (sWorld s)).2; sStreams := sStreams s |}
  end.

Inductive reachable (s0 : Server) : Server -> Prop :=
  | reach_start : reachable s0 s0
  | reach_step e s s' : reachable s0 s -> server_step e s = Some s' -> reachable s0 s'.

(** ** What the handlers keep *)

(** A property of the world that every effect of the sessions keeps, the viewer
    counters apart. *)
Definition quiet (o : operation) : Prop :=
  match o with OAcquireLive _ | OReleaseLive _ => False | _ => True end.

Definition ticked (w : World) : World := {| store := store w; files := files w; ticks := S (ticks w) |}.

Record closed_under (P : World -> Prop) : Prop := {
  closed_tick w : P w -> P (ticked w);
  closed_op o w : quiet o -> P w -> P (step clock disk o w)
}.

Definition keeps (P : World -> Prop) {A} (h : H A) : Prop := forall c, P (cWorld c) -> P (cWorld (h c).2).

Section Keeps.
Variable P : World -> Prop.
Hypothesis HP : closed_under P.

Lemma keeps_ret {A} (a : A) : keeps P (mret a).
Proof. by intros c Hc. Qed.

Lemma keeps_bind {A B} (m : H A) (f : A -> H B) : keeps P m -> (forall a, keeps P (f a)) -> keeps P (a ← m; f a).
Proof.
  intros Hm Hf c Hc. unfold mbind, H_bind. specialize (Hm c Hc). destruct (m c) as [a c']. by apply Hf.
Qed.

Lemma keeps_lift {A} (m : M A) : (forall w, P w -> P (m w).2) -> keeps P (lift m).
Proof. intros Hm c Hc. unfold lift. specialize (Hm _ Hc). by destruct (m (cWorld c)). Qed.

Lemma keeps_resp f : keeps P (resp f).
Proof. by intros c Hc. Qed.

Lemma keeps_tick {A} (f : nat -> A) : keeps P (lift (tick f)).
Proof. apply keeps_lift. apply (closed_tick _ HP). Qed.

Lemma keeps_now : keeps P now.
Proof. apply (keeps_tick clock). Qed.

Lemma keeps_Region sid : keeps P (lift (Region clock disk sid)).
Proof. apply keeps_lift. intros w. by apply (closed_op _ HP (ORegion sid)). Qed.

(** [ActiveRegion], [ActiveFeeds] and [ActiveAgencies] are [Region] and a lookup. *)
Lemma keeps_region_lookup {A} sid (f : string -> A) : keeps P (lift (id ← Region clock disk sid; mret (f id))).
Proof.
  apply keeps_lift. intros w Hw. apply (closed_op _ HP (ORegion sid) w Logic.I) in Hw. cbn [step] in Hw.
  unfold mbind, M_bind. by destruct (Region clock disk sid w).
Qed.

Lemma keeps_ActiveAgencies sid : keeps P (lift (ActiveAgencies clock disk sid)).
Proof. apply (keeps_region_lookup sid (fun id => ids ← AgenciesForRegion id; Ok (AgencySet ids))). Qed.

Lemma keeps_op {A} o (m : M A) : quiet o -> (forall w, (m w).2 = step clock disk o w) -> keeps P (lift m).
Proof. intros Hq Hm. apply keeps_lift. intros w Hw. rewrite Hm. by apply (closed_op _ HP). Qed.

(** Walks a handler down to its effects. *)
Ltac keep_step :=
  match goal with
  | |- keeps _ (mret _) => apply keeps_ret
  | |- keeps _ (_ ≫= _) => apply keeps_bind; [|intros ?]
  | |- keeps _ (resp _) => apply keeps_resp
  | |- keeps _ (lift (tick _)) => apply keeps_tick
  | |- keeps _ now => apply keeps_now
  | |- keeps _ (read _) => apply keeps_tick
  | |- keeps _ (lift (Region _ _ _)) => apply keeps_Region
  | |- keeps _ (lift (ActiveRegion _ _ _)) => apply keeps_region_lookup
  | |- keeps _ (lift (ActiveFeeds _ _ _)) => apply keeps_region_lookup
  | |- keeps _ (lift (ActiveAgencies _ _ _)) => apply keeps_ActiveAgencies
  | |- keeps _ (lift (PollSeconds _ _ ?sid)) => by apply (keeps_op (OPollSeconds sid))
  | |- keeps _ (lift (Touch _ _ ?sid)) => by apply (keeps_op (OTouch sid))
  | |- keeps _ (lift (SetRegion _ _ ?sid ?r)) => by apply (keeps_op (OSetRegion sid r))
  | |- keeps _ (lift (SetPollSeconds _ _ ?sid ?n)) => by apply (keeps_op (OSetPollSeconds sid n))
  | |- keeps _ (match ?x with _ => _ end) => destruct x
  | |- keeps _ (region_changed _) => intros ? ?; unfold region_changed; by destruct has_callback
  | |- keeps _ (set_cookie _) => by intros ? ?
  | |- keeps _ (let _ := _ in _) => cbv zeta
  end.
Ltac keep := repeat keep_step.

Lemma keeps_send c : keeps P (send c).
Proof. unfold send. keep. Qed.

Lemma keeps_http_Error msg code : keeps P (http_Error msg code).
Proof. unfold http_Error. keep. apply keeps_send. Qed.

Lemma keeps_writeJSON v : keeps P (writeJSON v).
Proof. unfold writeJSON. keep. apply keeps_send. Qed.

Lemma keeps_writeSSE ev v : keeps P (writeSSE ev v).
Proof. unfold writeSSE. keep. apply keeps_send. Qed.

Lemma keeps_pushSnapshot ids sid : keeps P (pushSnapshot ids sid).
Proof. unfold pushSnapshot, pushStats, pushIngest. keep; apply keeps_writeSSE. Qed.

Lemma keeps_session_of r : keeps P (session_of r).
Proof. unfold session_of, newSessionID. keep. apply keeps_http_Error. Qed.

Lemma keeps_getRegion r : keeps P (getRegion r).
Proof.
  unfold getRegion, activeRegionPayload, writeRegionPayload. keep; [apply keeps_writeJSON|apply keeps_http_Error].
Qed.

Ltac keep_leaf :=
  match goal with
  | |- keeps _ (http_Error _ _) => apply keeps_http_Error
  | |- keeps _ (writeJSON _) => apply keeps_writeJSON
  | |- keeps _ (send _) => apply keeps_send
  | |- keeps _ (getRegion _) => apply keeps_getRegion
  end.

Lemma keeps_plain r : keeps P (handleIndex r) /\ keeps P (handleRegions r) /\ keeps P (handleRegion r) /\
  keeps P (handlePollInterval r) /\ keeps P (handleVehicles r) /\ keeps P (handleReplayIndex r).
Proof.
  unfold handleIndex, handleRegions, handleRegion, postRegion, handlePollInterval, postPollInterval, writePollInterval,
    handleVehicles, handleReplayIndex, html_headers, http_NotFound, method_not_allowed.
  split_and!; keep; keep_leaf.
Qed.

(** Playback changes the world only through its callback. *)
Lemma keeps_emit ctx_Err ids delay total i frames merged n :
  keeps P (emit_frames ctx_Err on_frame ids delay total i frames merged n).
Proof.
  revert i merged n. induction frames as [|f fs IH]; intros i merged n c Hc; cbn [emit_frames]; [done|].
  destruct (ctx_Err n); [done|].
  assert (Hk : forall l pr, keeps P (on_frame l pr)) by (intros l pr; unfold on_frame; keep; apply keeps_writeSSE).
  match goal with |- context [on_frame ?l ?pr c] => specialize (Hk l pr c Hc); destruct (on_frame l pr c) as [[e|] c'] end; [done|].
  repeat case_match; first [done|by apply IH].
Qed.

Lemma keeps_RunReplay ctx_Err fuel opts p c e c' p' : P (cWorld c) ->
  RunReplay ctx_Err on_frame fuel opts p c = Some ((e, c'), p') -> P (cWorld c').
Proof.
  intros Hc. unfold RunReplay. destruct (buildReplayFrames fuel opts p) as [[[frames|e0] p1]|]; [|by intros [= <- <- <-]|done].
  destruct frames as [|f fs]; [by intros [= <- <- <-]|]. destruct (RegionByID _); [|by intros [= <- <- <-]].
  destruct (skip_before _ _ _) as [merged frames]. case_bool_decide; [by intros [= <- <- <-]|].
  intros [= He <-]. pose proof (keeps_emit ctx_Err (AgencySet (rAgencies a)) (Z.quot replayFrameInterval
    (if roSpeed opts <=? 0 then 1 else roSpeed opts)) (Z.of_nat (length frames)) 0 frames merged 0%nat c Hc) as Hk.
  by rewrite He in Hk.
Qed.

Lemma keeps_replay_region r : keeps P (replay_region r).
Proof. unfold replay_region. keep. Qed.

Lemma keeps_catalog fuel r c c' : P (cWorld c) -> handleReplayCatalog fuel r c = Some c' -> P (cWorld c').
Proof.
  intros Hc. unfold handleReplayCatalog. case_match; [intros [= <-]; by apply keeps_http_Error|].
  case_match; [intros [= <-]; by apply keeps_http_Error|].
  pose proof (keeps_replay_region r c Hc) as K1. destruct (replay_region r c) as [id c1].
  pose proof (keeps_tick (fun n => pipe n) c1 K1) as K2. unfold read. cbn [snd] in *.
  destruct (lift _ c1) as [p c2].
  destruct (CatalogForRegion fuel id p) as [[cat|e]|]; [|..|done]; intros [= <-];
    [by apply keeps_writeJSON|by apply keeps_http_Error].
Qed.

Lemma keeps_replay ctx_Err fuel r c c' : P (cWorld c) -> handleReplayStream ctx_Err fuel r c = Some c' -> P (cWorld c').
Proof.
  intros Hc. unfold handleReplayStream. case_match; [intros [= <-]; by apply keeps_http_Error|].
  pose proof (keeps_replay_region r c Hc) as K1. destruct (replay_region r c) as [id c1].
  destruct (replay_bound "from" r); [|intros [= <-]; by apply keeps_http_Error].
  destruct (replay_bound "to" r); [|intros [= <-]; by apply keeps_http_Error].
  pose proof (keeps_resp (fun r => set_header "Connection" "keep-alive" (set_header "Cache-Control" "no-cache"
    (set_header "Content-Type" "text/event-stream" r))) c1 K1) as K2.
  unfold initSSE. destruct (resp _ c1) as [[] c2]. cbn [snd] in K2.
  match goal with |- context [writeSSE ?ev ?v c2] => pose proof (keeps_writeSSE ev v c2 K2) as K3; destruct (writeSSE ev v c2) as [[e|] c3] end;
    cbn [snd] in K3; [by intros [= <-]|].
  pose proof (keeps_tick (fun n => pipe n) c3 K3) as K4. unfold read. destruct (lift _ c3) as [p c4]. cbn [snd] in K4.
  match goal with |- context [RunReplay ?x ?y ?f ?o ?q c4] => destruct (RunReplay x y f o q c4) as [[[e c5] p']|] eqn:E end; [|done].
  apply keeps_RunReplay in E; [|done]. intros [= <-].
  assert (Hk : keeps P (replay_end e)) by (unfold replay_end; keep; apply keeps_writeSSE). by apply Hk.
Qed.

End Keeps.

(** ** Viewers and streams *)

(** The open streams of a session. *)
Definition open_of (m : gmap nat stream) (sid : string) : Z :=
  Z.of_nat (size (filter (fun kv : nat * stream => stSid kv.2 = sid) m)).

Lemma open_of_nonneg m sid : 0 <= open_of m sid.
Proof. unfold open_of. lia. Qed.

Definition bump (N : string -> Z) (sid s : string) : Z := N s + (if bool_decide (s = sid) then 1 else 0).

Lemma open_of_insert m id st sid : m !! id = None -> open_of (<[id := st]> m) sid = bump (open_of m) (stSid st) sid.
Proof.
  intros Hid. unfold open_of, bump. case_bool_decide as E.
  - rewrite map_filter_insert_True by done. rewrite map_size_insert_None; [lia|]. apply map_lookup_filter_None_2. by left.
  - rewrite map_filter_insert_False by (simpl; congruence). rewrite (delete_id m id) by done. lia.
Qed.

Lemma open_of_delete m id st sid : m !! id = Some st -> open_of m sid = bump (open_of (delete id m)) (stSid st) sid.
Proof.
  intros Hid. rewrite <-(open_of_insert (delete id m) id st) by apply lookup_delete_eq. by rewrite insert_delete_id.
Qed.

(** The world's invariant, with the counters given; the empty session has
    none. *)
Definition counter (N : string -> Z) (sid : string) : Z := if bool_decide (sid = "") then 0 else N sid.

Definition counted (p : string) (N : string -> Z) (w : World) : Prop :=
  inv p w /\ forall sid, viewers (store w) sid = counter N sid.

Lemma counted_closed p N : closed_under (counted p N).
Proof.
  split.
  - intros w Hw. exact Hw.
  - intros o w Ho [Hi Hc]. split; [by apply inv_step|]. intros sid. unfold viewers.
    rewrite (live_step clock disk (live (store w)) o w); [by apply Hc|by destruct o|done].
Qed.

Lemma counted_ext p N N' w : (forall sid, N sid = N' sid) -> counted p N w -> counted p N' w.
Proof. intros HN [Hi Hc]. split; [done|]. intros sid. rewrite Hc. unfold counter. by rewrite HN. Qed.

Lemma counter_bump N sid sid' : counter (bump N sid) sid' = counter N sid' + (if bool_decide (sid' = sid /\ sid <> "") then 1 else 0).
Proof. unfold counter, bump. repeat case_bool_decide; naive_solver lia. Qed.

Lemma counted_acquire p N sid w : counted p N w -> counted p (bump N sid) (AcquireLive sid w).2.
Proof.
  intros [Hi Hc]. split; [by apply inv_AcquireLive|]. intros sid'. rewrite counter_bump. destruct (decide (sid = "")) as [->|Hs].
  - unfold AcquireLive. rewrite bool_decide_true by done. rewrite bool_decide_false by naive_solver. simpl. rewrite Hc. lia.
  - destruct (viewer_refcount sid sid' w Hs) as (-> & _). rewrite Hc. f_equal. by repeat case_bool_decide; naive_solver.
Qed.

Lemma counted_release p N sid w : 0 <= N sid -> counted p (bump N sid) w -> counted p N (ReleaseLive sid w).2.
Proof.
  intros HN [Hi Hc]. split; [by apply inv_ReleaseLive|]. intros sid'. specialize (Hc sid'). rewrite counter_bump in Hc.
  destruct (decide (sid = "")) as [->|Hs].
  - unfold ReleaseLive. rewrite bool_decide_true by done. rewrite bool_decide_false in Hc by naive_solver. simpl. lia.
  - destruct (viewer_refcount sid sid' w Hs) as (_ & -> & _); [|by apply Hi]. unfold counter in *.
    repeat case_bool_decide; naive_solver lia.
Qed.

Lemma lift_world {A} (m : M A) c : cWorld (lift m c).2 = (m (cWorld c)).2 /\ (lift m c).1 = (m (cWorld c)).1.
Proof. unfold lift. by destruct (m (cWorld c)). Qed.

(** A viewer is held from [AcquireLive] to [ReleaseLive]: [P] holds of the world
    before and after, [Q sid] while a viewer of the session is held. *)
Section Viewing.
Variable P : World -> Prop.
Variable Q : string -> World -> Prop.
Hypothesis HP : closed_under P.
Hypothesis HQ : forall sid, closed_under (Q sid).
Hypothesis Hacq : forall sid w, P w -> Q sid (AcquireLive sid w).2.
Hypothesis Hrel : forall sid w, Q sid w -> P (ReleaseLive sid w).2.

(** A handler that ends by releasing its viewer. *)
Lemma released sid {A} (a : A) c : Q sid (cWorld c) ->
  exists c', (lift (ReleaseLive sid) ≫= (fun _ => mret a)) c = (a, c') /\ P (cWorld c').
Proof.
  intros Hc. unfold mbind, H_bind. destruct (lift (ReleaseLive sid) c) as [[] c'] eqn:E. exists c'. split; [done|].
  assert (cWorld c' = (ReleaseLive sid (cWorld c)).2) as -> by (by rewrite <-(proj1 (lift_world _ c)), E).
  by apply Hrel.
Qed.

(** Opening a stream holds its viewer exactly when the stream stays open. *)
Lemma open_stream_holds r c : P (cWorld c) ->
  match open_stream r c with
  | (Some st, c') => stSid st = sessionID r /\ Q (sessionID r) (cWorld c')
  | (None, c') => P (cWorld c')
  end.
Proof.
  intros Hc. unfold open_stream. cbv zeta. set (sid := sessionID r). unfold mbind at 1, H_bind at 1.
  assert (Ha : Q sid (cWorld (lift (AcquireLive sid) c).2)).
  { rewrite (proj1 (lift_world _ c)). by apply Hacq. }
  destruct (lift (AcquireLive sid) c) as [[] c1]. cbn [snd] in Ha. unfold mbind at 1, H_bind at 1, initSSE, resp.
  set (c2 := {| cWorld := cWorld c1 |}). unfold mbind at 1, H_bind at 1.
  pose proof (keeps_ActiveAgencies _ (HQ sid) sid c2 Ha) as Hids.
  destruct (lift (ActiveAgencies clock disk sid) c2) as [[ids|e] c3]; cbn [snd] in Hids.
  2:{ by destruct (released sid (@None stream) c3 Hids) as (c4 & -> & Hr). }
  unfold mbind at 1, H_bind at 1.
  pose proof (keeps_pushSnapshot _ (HQ sid) ids sid c3 Hids) as Hp.
  destruct (pushSnapshot ids sid c3) as [[e|] c4]; cbn [snd] in Hp; [|by split].
  by destruct (released sid (@None stream) c4 Hp) as (c5 & -> & Hr).
Qed.

Lemma stream_turn_holds ev st c : Q (stSid st) (cWorld c) ->
  match stream_turn ev st c with
  | (Some st', c') => st' = st /\ Q (stSid st) (cWorld c')
  | (None, c') => P (cWorld c')
  end.
Proof.
  intros Hc. set (sid := stSid st) in *. assert (Hgone : match (lift (ReleaseLive sid) ≫= (fun _ => mret None)) c with
    | (Some st', c') => st' = st /\ Q sid (cWorld c') | (None, c') => P (cWorld c') end)
    by (by destruct (released sid (@None stream) c Hc) as (c' & -> & H')).
  assert (Ht := fun c Hc => keeps_op _ (HQ sid) (OTouch sid) (Touch clock disk sid) Logic.I (fun _ => eq_refl) c Hc).
  destruct ev; [| |exact Hgone..]; unfold stream_turn; fold sid; unfold mbind at 1, H_bind at 1; specialize (Ht c Hc);
    destruct (lift (Touch clock disk sid) c) as [[] c1]; cbn [snd] in Ht; [by split|].
  unfold mbind at 1, H_bind at 1.
  pose proof (keeps_pushSnapshot _ (HQ sid) (stAgencies st) sid c1 Ht) as Hp.
  destruct (pushSnapshot (stAgencies st) sid c1) as [[e|] c2]; cbn [snd] in Hp; [|by split].
  by destruct (released sid (@None stream) c2 Hp) as (c3 & -> & Hr).
Qed.

Lemma dispatch_holds ctx_Err fuel r c o c' : P (cWorld c) -> dispatch ctx_Err fuel r c = Some (o, c') ->
  match o with Some st => Q (stSid st) (cWorld c') | None => P (cWorld c') end.
Proof.
  intros Hc. destruct (keeps_plain _ HP r) as (K1 & K2 & K3 & K4 & K5 & K6).
  unfold dispatch. destruct (route_of (rqPath r)).
  6:{ intros [= E]. pose proof (open_stream_holds r c Hc) as Ho. rewrite E in Ho.
      destruct o as [st|]; [|done]. destruct Ho as [-> Ho]. done. }
  7:{ intros (c1 & E & [= -> ->])%fmap_Some. by apply (keeps_catalog _ HP _ _ _ _ Hc E). }
  7:{ intros (c1 & E & [= -> ->])%fmap_Some. by apply (keeps_replay _ HP _ _ _ _ _ Hc E). }
  all: intros [= <- <-]; auto.
Qed.

Lemma Handler_holds ctx_Err fuel r c o c' : P (cWorld c) -> Handler ctx_Err fuel r c = Some (o, c') ->
  match o with Some st => Q (stSid st) (cWorld c') | None => P (cWorld c') end.
Proof.
  intros Hc. unfold Handler. pose proof (keeps_session_of _ HP r c Hc) as K1.
  destruct (session_of r c) as [[sid|] c1]; cbn [snd] in K1; [|by intros [= <- <-]].
  pose proof (keeps_op _ HP (OTouch sid) (Touch clock disk sid) Logic.I (fun _ => eq_refl) c1 K1) as K2.
  destruct (lift (Touch clock disk sid) c1) as [[] c2]; cbn [snd] in K2. by apply dispatch_holds.
Qed.
End Viewing.

(** ** Interleavings inside a handler

    The sessions' lock is released between the calls of a handler, so the
    handlers of other requests may come in between.  At that grain a step is one
    critical section of the session store, or an effect that leaves it alone,
    of any handler; the state has the session of every viewer that is held.
    The steps of [server_step] are such runs. *)

Inductive section_step : gmap nat string * World -> gmap nat string * World -> Prop :=
  | section_tick m w : section_step (m, w) (m, ticked w)
  | section_quiet m w o : quiet o -> section_step (m, w) (m, step clock disk o w)
  | section_acquire m w id sid : m !! id = None -> section_step (m, w) (<[id := sid]> m, (AcquireLive sid w).2)
  | section_release m w id sid : m !! id = Some sid -> section_step (m, w) (delete id m, (ReleaseLive sid w).2).

(** The viewers of a session that are held. *)
Definition held_viewers (m : gmap nat string) (sid : string) : Z := Z.of_nat (size (filter (fun kv : nat * string => kv.2 = sid) m)).

Lemma held_streams m sid : held_viewers (stSid <$> m) sid = open_of m sid.
Proof. unfold held_viewers, open_of. by rewrite map_filter_fmap, map_size_fmap. Qed.

Lemma held_insert_viewer m id sid sid' : m !! id = None -> held_viewers (<[id := sid]> m) sid' = bump (held_viewers m) sid sid'.
Proof using Type.
  intros Hid. unfold held_viewers, bump. case_bool_decide as E.
  - rewrite map_filter_insert_True by done. rewrite map_size_insert_None; [lia|]. apply map_lookup_filter_None_2. by left.
  - rewrite map_filter_insert_False by (simpl; congruence). rewrite (delete_id m id) by done. lia.
Qed.

Definition section_ok (p : string) (s : gmap nat string * World) : Prop := counted p (held_viewers s.1) s.2.

Lemma section_step_ok p s s' : section_step s s' -> section_ok p s -> section_ok p s'.
Proof.
  unfold section_ok. intros Hs Hok. destruct Hs as [m w|m w o Hq|m w id sid Hid|m w id sid Hid]; cbn [fst snd] in *.
  - by apply (closed_tick _ (counted_closed _ _)).
  - by apply (closed_op _ (counted_closed _ _)).
  - eapply counted_ext; [|by apply counted_acquire]. intros sid'. by rewrite held_insert_viewer.
  - apply counted_release; [apply Nat2Z.is_nonneg|]. eapply counted_ext; [|exact Hok]. intros sid'.
    rewrite <-(held_insert_viewer (delete id m) id sid) by apply lookup_delete_eq. by rewrite insert_delete_id.
Qed.

Lemma sections_ok p s s' : rtc section_step s s' -> section_ok p s -> section_ok p s'.
Proof. induction 1 as [|s1 s2 s3 Hs _ IH]; [done|]. intros Hok. by apply IH, (section_step_ok p s1). Qed.

(** The worlds that are reached while these viewers are held. *)
Lemma sections_closed s0 m : closed_under (fun w => rtc section_step s0 (m, w)).
Proof.
  split.
  - intros w Hw. eapply rtc_r; [exact Hw|constructor].
  - intros o w Ho Hw. eapply rtc_r; [exact Hw|by constructor].
Qed.

(** A step of the server is a run of critical sections. *)
Lemma server_step_sections e s s' : server_step e s = Some s' ->
  rtc section_step (stSid <$> sStreams s, sWorld s) (stSid <$> sStreams s', sWorld s').
Proof.
  unfold server_step. set (m := stSid <$> sStreams s). destruct e as [ctx_Err fuel r id|id ev| |r].
  - destruct (sStreams s !! id) eqn:Hid; [done|]. assert (Hm : m !! id = None) by (unfold m; by rewrite lookup_fmap, Hid).
    destruct (Handler ctx_Err fuel r (open_conn (sWorld s))) as [[o c]|] eqn:E; [|done]. intros [= <-]. cbn [sStreams sWorld].
    apply (Handler_holds (fun w => rtc section_step (m, sWorld s) (m, w)) (fun sid w => rtc section_step (m, sWorld s) (<[id := sid]> m, w))) in E.
    + destruct o as [st|]; [|exact E]. by rewrite fmap_insert.
    + apply sections_closed.
    + intros sid. apply sections_closed.
    + intros sid w Hw. eapply rtc_r; [exact Hw|by constructor].
    + intros sid w Hw. rewrite <-(delete_insert_id m id sid Hm) at 2. eapply rtc_r; [exact Hw|]. constructor. apply lookup_insert_eq.
    + apply rtc_refl.
  - destruct (sStreams s !! id) as [st|] eqn:Hid; [|done]. assert (Hm : m !! id = Some (stSid st)) by (unfold m; by rewrite lookup_fmap, Hid).
    pose proof (stream_turn_holds (fun w => rtc section_step (m, sWorld s) (delete id m, w)) (fun sid w => sid = stSid st /\ rtc section_step (m, sWorld s) (m, w))) as Ht.
    specialize (Ht ltac:(intros sid; split; [intros w [-> Hw]|intros o w Ho [-> Hw]]; (split; [done|]); [by apply (closed_tick _ (sections_closed _ _))|by apply (closed_op _ (sections_closed _ _))])).
    specialize (Ht ltac:(intros sid w [-> Hw]; eapply rtc_r; [exact Hw|by constructor]) ev st (open_conn (sWorld s)) ltac:(split; [done|apply rtc_refl])).
    destruct (stream_turn ev st (open_conn (sWorld s))) as [o c]. intros [= <-]. cbn [sStreams sWorld].
    destruct o as [st'|]; [|by rewrite fmap_delete]. destruct Ht as (-> & _ & Ht). by rewrite insert_id.
  - intros [= <-]. apply rtc_once. by apply (section_quiet m (sWorld s) OLiveRegionIDs).
  - intros [= <-]. apply rtc_once. by apply (section_quiet m (sWorld s) (OMinPollInterval r)).
Qed.

Definition server_ok (p : string) (s : Server) : Prop := counted p (open_of (sStreams s)) (sWorld s).

Lemma server_step_ok p e s s' : server_ok p s -> server_step e s = Some s' -> server_ok p s'.
Proof.
  intros Hok Hs%server_step_sections. apply (sections_ok p) in Hs.
  - eapply counted_ext; [|exact Hs]. intros sid. apply held_streams.
  - eapply counted_ext; [|exact Hok]. intros sid. symmetry. apply held_streams.
Qed.

(** ** Requests that the client stays for *)

(** Nothing has been sent yet. *)
Definition unanswered (c : Conn) : Prop := rStatus (cResp c) = None /\ rOut (cResp c) = [].

(** The response is the text of an error. *)
Definition answers (c : Conn) (code : Z) (msg : string) : Prop :=
  rStatus (cResp c) = Some code /\ rOut (cResp c) = [Text (msg +:+ newline)].

(** The readings of the clock are no further apart than a session may idle. *)
Definition brisk : Prop := forall j k st, LastSeen st = clock j -> sessionExpired st (clock k) = false.

Lemma send_connected ch c : (forall n, wire n = None) ->
  send ch c = (None, {| cWorld := ticked (cWorld c); cResp := write_chunk ch (cResp c); cCookie := cCookie c; cChanged := cChanged c |}).
Proof. intros Hw. unfold send, lift, tick, mbind, H_bind. by rewrite Hw. Qed.

Lemma http_Error_connected msg code c : (forall n, wire n = None) -> unanswered c ->
  let c' := (http_Error msg code c).2 in
  answers c' code msg /\ store (cWorld c') = store (cWorld c) /\ cChanged c' = cChanged c.
Proof.
  intros Hw [Hs Ho]. unfold http_Error, resp, mbind, H_bind. rewrite send_connected by done. cbn.
  unfold answers. cbn. by rewrite Hs, Ho.
Qed.

Lemma writeJSON_connected j c : (forall n, wire n = None) -> unanswered c ->
  let c' := (writeJSON (Ok j) c).2 in
  rStatus (cResp c') = Some 200 /\ rOut (cResp c') = [JsonBody j] /\ sessions (store (cWorld c')) = sessions (store (cWorld c)) /\
  cChanged c' = cChanged c.
Proof.
  intros Hw [Hs Ho]. unfold writeJSON, resp, mbind, H_bind. rewrite send_connected by done. cbn. by rewrite Hs, Ho.
Qed.

Definition with_world (w : World) (c : Conn) : Conn :=
  {| cWorld := w; cResp := cResp c; cCookie := cCookie c; cChanged := cChanged c |}.

Lemma bind_lift {A B} (m : M A) (f : A -> H B) c a w : m (cWorld c) = (a, w) -> (lift m ≫= f) c = f a (with_world w c).
Proof. intros E. unfold mbind, H_bind, lift. by rewrite E. Qed.

Lemma bind_eq {A B} (m : H A) (f : A -> H B) c a c' : m c = (a, c') -> (m ≫= f) c = f a c'.
Proof. intros E. unfold mbind, H_bind. by rewrite E. Qed.

(** A session that is stored and will not expire reads as it is stored. *)
Definition keeps_session (sid : string) (st : sessionState) (w : World) : Prop := sessions (store w) !! sid = Some st.

Lemma prune_persist_session sid st w : (forall k, sessionExpired st (clock k) = false) -> keeps_session sid st w ->
  keeps_session sid st (prune_persist clock disk w).2.
Proof. intros Hf Hs. unfold keeps_session. rewrite prune_persist_store. by apply unexpired_Some. Qed.

Lemma stateLocked_session sid st w : keeps_session sid st w -> sPollSeconds st <> 0 -> stateLocked clock sid w = (st, w).
Proof.
  intros Hs Hp. unfold stateLocked, gets, mbind, M_bind. rewrite Hs. by rewrite (proj2 (Z.eqb_neq _ 0)).
Qed.

Lemma Region_session sid st w : (forall k, sessionExpired st (clock k) = false) -> sPollSeconds st <> 0 -> keeps_session sid st w ->
  exists w', Region clock disk sid w = (sRegion st, w') /\ keeps_session sid st w'.
Proof.
  intros Hf Hp Hs. pose proof (prune_persist_session _ _ _ Hf Hs) as Hs'. unfold Region, mbind, M_bind.
  destruct (prune_persist clock disk w) as [[] w']. rewrite (stateLocked_session sid st) by done. eauto.
Qed.

Lemma PollSeconds_session sid st w : (forall k, sessionExpired st (clock k) = false) -> sPollSeconds st <> 0 -> keeps_session sid st w ->
  exists w', PollSeconds clock disk sid w = (sPollSeconds st, w') /\ keeps_session sid st w'.
Proof.
  intros Hf Hp Hs. pose proof (prune_persist_session _ _ _ Hf Hs) as Hs'. unfold PollSeconds, mbind, M_bind.
  destruct (prune_persist clock disk w) as [[] w']. rewrite (stateLocked_session sid st) by done. eauto.
Qed.

Lemma region_lookup_session {A} sid st w (f : string -> A) : (forall k, sessionExpired st (clock k) = false) ->
  sPollSeconds st <> 0 -> keeps_session sid st w ->
  exists w', (id ← Region clock disk sid; mret (f id)) w = (f (sRegion st), w') /\ keeps_session sid st w'.
Proof.
  intros Hf Hp Hs. destruct (Region_session sid st w Hf Hp Hs) as (w' & E & Hs'). exists w'.
  unfold mbind, M_bind. by rewrite E.
Qed.

(** A switch that is accepted is stored, whatever the disk answers. *)
Lemma SetRegion_stored sid id rg w : brisk -> store_ok (store w) -> RegionByID id = Ok rg ->
  exists st, keeps_session sid st (SetRegion clock disk sid id w).2 /\ sRegion st = id /\ sPollSeconds st ∈ AllowedPollSeconds /\
    forall k, sessionExpired st (clock k) = false.
Proof.
  intros Hb Hok Hr. unfold SetRegion. rewrite Hr. unfold mbind at 1, M_bind at 1.
  pose proof (stateLocked_store clock sid w) as Hs.
  assert (Ha : sPollSeconds (stateLocked clock sid w).1 ∈ AllowedPollSeconds).
  { unfold stateLocked, gets, mbind, M_bind. destruct (sessions (store w) !! sid) as [st|] eqn:E.
    - apply (proj1 Hok) in E as [_ E]. by destruct (sPollSeconds st =? 0) eqn:E0; [left|].
    - by left. }
  destruct (stateLocked clock sid w) as [st w1]. cbn [fst snd] in *.
  unfold Now, put_session, modify, mbind, M_bind. cbn -[pruneExpiredLocked persistLocked].
  match goal with |- context [pruneExpiredLocked ?n ?w'] => destruct (prune_spec n w') as (b & -> & _) end.
  match goal with |- context [{| sRegion := id; sPollSeconds := _; LastSeen := ?t |}] =>
    exists {| sRegion := id; sPollSeconds := sPollSeconds st; LastSeen := t |} end.
  assert (Hf : forall k, sessionExpired {| sRegion := id; sPollSeconds := sPollSeconds st; LastSeen := clock (ticks w1) |} (clock k) = false)
    by (intros k; by apply (Hb (ticks w1))).
  unfold keeps_session. rewrite persist_store. cbn -[unexpired]. split_and!; [|done..].
  apply unexpired_Some. split; [by rewrite lookup_insert_eq|]. apply Hf.
Qed.

Lemma enc_list_ok {A} (f : A -> json) l : enc_list (fun a => Ok (f a)) l = Ok (f <$> l).
Proof. induction l as [|a l IH]; [done|]. cbn. by rewrite IH. Qed.

Lemma region_views_encode : forallb (fun r => match enc_regionView {| rvID := rID r; rvLabel := rLabel r; rvCenter := rCenter r;
  rvZoom := rZoom r; rvAgencies := rAgencies r; rvActive := false |} with Ok _ => true | Err _ => false end) mapRegions = true.
Proof. by vm_compute. Qed.

Lemma enc_region_ok rg : rg ∈ mapRegions -> enc_regionView {| rvID := rID rg; rvLabel := rLabel rg;
  rvCenter := rCenter rg; rvZoom := rZoom rg; rvAgencies := rAgencies rg; rvActive := false |} =
  Ok (JObj [("id", enc_str (rID rg)); ("label", enc_str (rLabel rg)); ("center", JArr [JFloat (rCenter rg).1; JFloat (rCenter rg).2]);
            ("zoom", JInt (rZoom rg)); ("agencies", enc_strings (rAgencies rg))]).
Proof.
  intros Hin. pose proof region_views_encode as Ha. rewrite forallb_forall in Ha. apply list_elem_of_In in Hin. specialize (Ha _ Hin).
  unfold enc_regionView, enc_float in *. cbn [rvCenter rvID] in *. destruct (f64_finite (rCenter rg).1); [|done].
  by destruct (f64_finite (rCenter rg).2).
Qed.

Lemma getRegion_session r st c : (forall n, wire n = None) -> unanswered c ->
  (forall k, sessionExpired st (clock k) = false) -> session_ok st -> keeps_session (sessionID r) st (cWorld c) ->
  let c' := (getRegion r c).2 in
  keeps_session (sessionID r) st (cWorld c') /\ cChanged c' = cChanged c /\ rStatus (cResp c') = Some 200 /\
  exists rg feeds, RegionByID (sRegion st) = Ok rg /\ FeedsForRegion (sRegion st) = Ok feeds /\
    rOut (cResp c') = [JsonBody (region_payload rg feeds (sPollSeconds st))].
Proof.
  intros Hw Hu Hf [[rg Hrg] Hp] Hs. apply allowed_pos in Hp as Hp'. assert (Hp0 : sPollSeconds st <> 0) by lia.
  assert (Hfeeds : exists feeds, FeedsForRegion (sRegion st) = Ok feeds) by (unfold FeedsForRegion; rewrite Hrg; eauto).
  destruct Hfeeds as [feeds Hfeeds]. apply RegionByID_ok in Hrg as Hin. destruct Hin as [Hin Hid].
  pose proof (enc_region_ok rg Hin) as Henc. cbv zeta. set (sid := sessionID r) in *.
  destruct (region_lookup_session sid st (cWorld c) (fun id => match RegionByID id with Ok r => r | Err _ => zero_region end) Hf Hp0 Hs) as (w1 & E1 & Hs1).
  destruct (region_lookup_session sid st w1 FeedsForRegion Hf Hp0 Hs1) as (w2 & E2 & Hs2). cbv beta in E1. rewrite Hrg in E1. rewrite Hfeeds in E2.
  destruct (PollSeconds_session sid st w2 Hf Hp0 Hs2) as (w3 & E3 & Hs3).
  assert (Hpay : activeRegionPayload r c = (Ok ({| rvID := rID rg; rvLabel := rLabel rg; rvCenter := rCenter rg; rvZoom := rZoom rg;
               rvAgencies := rAgencies rg; rvActive := false |}, feeds), with_world w2 c)).
  { unfold activeRegionPayload. cbv zeta. rewrite (bind_lift _ _ c rg w1 E1), (bind_lift _ _ (with_world w1 c) (Ok feeds) w2 E2). done. }
  unfold getRegion. rewrite (bind_eq _ _ _ _ _ Hpay). unfold writeRegionPayload.
  rewrite (bind_lift _ _ (with_world w2 c) _ w3 E3). unfold enc_slice. unfold enc_feedView.
  rewrite enc_list_ok. cbn [mbind result_bind]. rewrite Henc. cbn [mbind result_bind].
  match goal with |- context [writeJSON (Ok ?j) ?c0] => destruct (writeJSON_connected j c0 Hw Hu) as (H1 & H2 & H3 & H4) end.
  split_and!; [unfold keeps_session; by rewrite H3|exact H4|exact H1|]. exists rg, feeds. split_and!; [done|done|]. rewrite H2.
  unfold region_payload, feedViews. by rewrite <-list_fmap_compose.
Qed.

(** ** The events of a playback *)

Definition frame_events (x : shown) : list (chunk page) :=
  [SSE "vehicles" (JArr (vehicle_json <$> replayViews x.1));
   SSE "progress" (enc_progress (Frame x.2) (Total x.2) (Some (formatReplayTime (At x.2))) "playing")].

Definition end_events (e : option error) : list (chunk page) :=
  match e with
  | Some e => if errors_Is e SCanceled || errors_Is e SEOF then [] else [SSE "error" (JObj [("message", enc_str (Error e))])]
  | None => [SSE "done" (JObj [("status", JStr "complete")])]
  end.

Definition finite_shown (l : list shown) : Prop := Forall (fun x : shown => Forall (fun pos => finite_pos pos = true) x.1) l.

(** The response after more events. *)
Definition emitted (c : Conn) (evs : list (chunk page)) (c' : Conn) : Prop :=
  rOut (cResp c') = rOut (cResp c) ++ evs /\ (rStatus (cResp c) = Some 200 -> rStatus (cResp c') = Some 200).

Lemma emitted_trans c evs c1 evs' c2 : emitted c evs c1 -> emitted c1 evs' c2 -> emitted c (evs ++ evs') c2.
Proof. intros [H1 H2] [H3 H4]. split; [by rewrite H3, H1, app_assoc|auto]. Qed.

Lemma writeSSE_connected ev j c : flusher = true -> (forall n, wire n = None) ->
  exists c', writeSSE ev (Ok j) c = (None, c') /\ emitted c [SSE ev j] c' /\ rStatus (cResp c') = Some (default 200 (rStatus (cResp c))).
Proof.
  intros Hf Hw. unfold writeSSE. rewrite Hf. cbn [negb]. rewrite send_connected by done. eexists. split; [done|]. split; [|done].
  split; [done|]. cbn. by intros ->.
Qed.

Lemma on_frame_connected l pr c : flusher = true -> (forall n, wire n = None) -> Forall (fun pos => finite_pos pos = true) l ->
  exists c', on_frame l pr c = (None, c') /\ emitted c (frame_events (l, pr)) c'.
Proof.
  intros Hf Hw Hl. unfold on_frame, replayViews. rewrite (enc_views_ok l toView) by done.
  destruct (writeSSE_connected "vehicles" (JArr (vehicle_json <$> (toView <$> l))) c Hf Hw) as (c1 & E1 & H1 & _).
  rewrite (bind_eq _ _ _ _ _ E1).
  destruct (writeSSE_connected "progress" (enc_progress (Frame pr) (Total pr) (Some (formatReplayTime (At pr))) "playing") c1 Hf Hw)
    as (c2 & E2 & H2 & _).
  rewrite E2. exists c2. split; [done|]. by apply (emitted_trans _ [_] c1 [_]).
Qed.

Lemma emit_frames_connected ids delay total i frames merged n c : flusher = true -> (forall n, wire n = None) ->
  finite_shown (frames_out ids total i merged frames) ->
  exists c', emit_frames never_cancelled on_frame ids delay total i frames merged n c = (None, c') /\
    emitted c (frames_out ids total i merged frames ≫= frame_events) c'.
Proof.
  intros Hf Hw. revert i merged n c. induction frames as [|f fs IH]; intros i merged n c Hfin; cbn [emit_frames frames_out].
  { exists c. split; [done|]. split; [cbn; by rewrite app_nil_r|done]. }
  cbn [frames_out] in Hfin. apply Forall_cons in Hfin as [Hl Hfin]. unfold never_cancelled at 1.
  destruct (on_frame_connected (frame_view ids (merge_frame merged f)) {| Frame := i + 1; Total := total; At := frAt f |} c Hf Hw Hl)
    as (c1 & -> & H1).
  assert (Hrest : forall n', exists c', emit_frames never_cancelled on_frame ids delay total (i + 1) fs (merge_frame merged f) n' c1 = (None, c') /\
    emitted c (frame_events (frame_view ids (merge_frame merged f), {| Frame := i + 1; Total := total; At := frAt f |}) ++
               (frames_out ids total (i + 1) (merge_frame merged f) fs ≫= frame_events)) c').
  { intros n'. destruct (IH (i + 1) (merge_frame merged f) n' c1 Hfin) as (c2 & E & H2). exists c2. split; [done|].
    by eapply emitted_trans. }
  unfold sleepCtx, never_cancelled at 1 2. destruct (i + 1 <? total); [destruct (delay <=? 0)|]; apply Hrest.
Qed.

(** A playback to the client sends the events of the playback that is recorded. *)
Lemma RunReplay_connected fuel opts p e full p' c : flusher = true -> (forall n, wire n = None) ->
  RunReplay never_cancelled record_frame fuel opts p [] = Some ((e, full), p') -> finite_shown full ->
  exists c', RunReplay never_cancelled on_frame fuel opts p c = Some ((e, c'), p') /\ emitted c (full ≫= frame_events) c'.
Proof.
  intros Hf Hw. assert (Hnil : emitted c [] c) by (split; [by rewrite app_nil_r|done]).
  unfold RunReplay. destruct (buildReplayFrames fuel opts p) as [[[frames|e0] p1]|]; [|intros [= <- <- <-] _; by exists c|done].
  destruct frames as [|f fs]; [intros [= <- <- <-] _; by exists c|].
  destruct (RegionByID (RegionID opts)) as [region|e0]; [|intros [= <- <- <-] _; by exists c].
  destruct (skip_before _ _ _) as [merged frames]. case_bool_decide; [intros [= <- <- <-] _; by exists c|].
  rewrite emit_frames_record. intros [= <- <- <-] Hfin. cbn [app] in Hfin.
  destruct (emit_frames_connected (AgencySet (rAgencies region)) (Z.quot replayFrameInterval (if roSpeed opts <=? 0 then 1 else roSpeed opts))
    (Z.of_nat (length frames)) 0 frames merged 0%nat c Hf Hw Hfin) as (c' & -> & H'). by exists c'.
Qed.

Lemma replay_end_connected e c : flusher = true -> (forall n, wire n = None) -> emitted c (end_events e) (replay_end e c).2.
Proof.
  intros Hf Hw. assert (Hnil : emitted c [] c) by (split; [by rewrite app_nil_r|done]).
  destruct e as [e|]; cbn [replay_end end_events].
  - destruct (_ || _); [done|].
    destruct (writeSSE_connected "error" (JObj [("message", enc_str (Error e))]) c Hf Hw) as (c1 & E & H1 & _).
    by rewrite (bind_eq _ _ _ _ _ E).
  - destruct (writeSSE_connected "done" (JObj [("status", JStr "complete")]) c Hf Hw) as (c1 & E & H1 & _).
    by rewrite (bind_eq _ _ _ _ _ E).
Qed.

Lemma replay_region_unanswered r c : cResp (replay_region r c).2 = cResp c.
Proof. unfold replay_region. case_bool_decide; [|done]. unfold lift. by destruct (Region _ _ _ _). Qed.

(** ** A push to the live map *)

Definition stats_json (region last : string) (count events : Z) : json :=
  JObj [("activeRegion", enc_str region); ("eventCount", JInt events); ("lastUpdate", enc_str last); ("vehicleCount", JInt count)].

Definition ingest_json (rec : IngestRecord) : json :=
  JObj [("agency", enc_str (igAgency rec));
        ("at", enc_str (if is_zero (igAt rec) then "—" else format_clock 0 (igAt rec)));
        ("lat", JFloat (igLat rec)); ("lng", JFloat (igLng rec)); ("vehicle", enc_str (igVehicleID rec))].

Definition panel_json (rg : MapRegion) (polled : list string) (recs : list IngestRecord) : json :=
  JObj [("activeLabel", enc_str (rLabel rg)); ("activeRegion", enc_str (rID rg));
        ("polledAgencies", enc_strings polled); ("records", JArr (ingest_json <$> recs))].

Lemma finite_live ids t p : finite_pipeline p -> Forall (fun pos => finite_pos pos = true) (LivePositionsFor ids t p).
Proof.
  intros [Hv _]. unfold LivePositionsFor. apply Forall_forall. intros pos Hin.
  apply list_elem_of_In, filter_In in Hin as [Hin%list_elem_of_In _].
  apply list_elem_of_fmap in Hin as ([k q] & -> & Hq%elem_of_range). by apply (Hv k).
Qed.

Lemma enc_ingest_ok l : Forall (fun rec => f64_finite (igLat rec) = true /\ f64_finite (igLng rec) = true) l ->
  enc_slice enc_ingest l = Ok (JArr (ingest_json <$> l)).
Proof.
  intros Hl. unfold enc_slice. rewrite (enc_list_Forall _ ingest_json); [done|].
  eapply Forall_impl; [exact Hl|]. intros rec [H1 H2]. unfold enc_ingest, enc_float. by rewrite H1, H2.
Qed.

Lemma bind_read {A B} (f : Pipeline -> A) (g : A -> H B) c : (read f ≫= g) c = g (f (pipe (ticks (cWorld c)))) (with_world (ticked (cWorld c)) c).
Proof. done. Qed.

Lemma bind_now {B} (g : time -> H B) c : (now ≫= g) c = g (clock (ticks (cWorld c))) (with_world (ticked (cWorld c)) c).
Proof. done. Qed.

Section Push.
Variables (sid : string) (st : sessionState) (rg : MapRegion) (p : Pipeline).
Hypothesis Hflush : flusher = true.
Hypothesis Hwire : forall n, wire n = None.
Hypothesis Hpipe : forall n, pipe n = p.
Hypothesis Hfin : finite_pipeline p.
Hypothesis Hlive : forall k, sessionExpired st (clock k) = false.
Hypothesis Hok : session_ok st.
Hypothesis Hrg : RegionByID (sRegion st) = Ok rg.

Lemma poll_nonzero : sPollSeconds st <> 0.
Proof. destruct Hok as [_ Hp%allowed_pos]. lia. Qed.

Definition held (c : Conn) : Prop := keeps_session sid st (cWorld c).

Definition clock_text (offset : Z) (t : time) : string := if is_zero t then "—" else format_clock offset t.

Lemma ActiveRegion_session w : keeps_session sid st w ->
  exists w', ActiveRegion clock disk sid w = (rg, w') /\ keeps_session sid st w'.
Proof.
  intros Hs. unfold ActiveRegion.
  destruct (region_lookup_session sid st w (fun id => match RegionByID id with Ok r => r | Err _ => zero_region end) Hlive poll_nonzero Hs)
    as (w' & E & Hw). cbv beta in E. rewrite Hrg in E. eauto.
Qed.

Lemma ActiveAgencies_session w : keeps_session sid st w ->
  exists w', ActiveAgencies clock disk sid w = (Ok (AgencySet (rAgencies rg)), w') /\ keeps_session sid st w'.
Proof.
  intros Hs. unfold ActiveAgencies.
  destruct (region_lookup_session sid st w (fun id => ids ← AgenciesForRegion id; Ok (AgencySet ids)) Hlive poll_nonzero Hs)
    as (w' & E & Hw). unfold AgenciesForRegion in E at 2. rewrite Hrg in E. eauto.
Qed.

Lemma send_event ev j c : held c -> exists c', writeSSE ev (Ok j) c = (None, c') /\ held c' /\ emitted c [SSE ev j] c'.
Proof.
  intros Hh. unfold writeSSE. rewrite Hflush. cbn [negb]. rewrite send_connected by done. eexists. split; [done|].
  split; [done|]. split; [done|]. cbn. by intros ->.
Qed.

Lemma push_stats ids c : held c -> exists c' t, pushStats ids sid c = (None, c') /\ held c' /\
  emitted c [SSE "stats" (stats_json (rID rg) (clock_text (local_zone (lastPollAt p)) (lastPollAt p))
    (Z.of_nat (length (LivePositionsFor ids t p))) (eventCount p))] c'.
Proof.
  intros Hh. unfold pushStats. rewrite bind_now, bind_read, Hpipe, StatsFor_count. cbv zeta iota beta.
  match goal with |- context [with_world (ticked (cWorld ?c1)) ?c1] => set (c2 := with_world (ticked (cWorld c1)) c1) end.
  assert (Hh2 : held c2) by exact Hh.
  destruct (Region_session sid st (cWorld c2) Hlive poll_nonzero Hh2) as (w & E & Hw). rewrite (bind_lift _ _ c2 _ w E).
  apply RegionByID_ok in Hrg as [_ <-]. unfold stats_json, clock_text.
  match goal with |- context [writeSSE "stats" (Ok ?j) ?c3] => destruct (send_event "stats" j c3 Hw) as (c4 & E4 & H4 & H5) end.
  exists c4. eexists. split; [exact E4|]. split; [done|exact H5].
Qed.

Lemma push_ingest c : held c -> exists c', pushIngest sid c = (None, c') /\ held c' /\
  emitted c [SSE "ingest" (panel_json rg (List.filter (fun a => bool_decide (a ∈ AgencySet (rAgencies rg))) (lastPolled p))
    (RecentIngestForRegion (rID rg) p))] c'.
Proof.
  intros Hh. apply RegionByID_ok in Hrg as Hid. destruct Hid as [_ Hid]. unfold pushIngest.
  destruct (Region_session sid st (cWorld c) Hlive poll_nonzero Hh) as (w & E & Hw). rewrite (bind_lift _ _ c _ w E).
  destruct (ActiveRegion_session w Hw) as (w1 & E1 & Hw1). rewrite (bind_lift _ _ (with_world w c) _ w1 E1).
  destruct (ActiveAgencies_session w1 Hw1) as (w2 & E2 & Hw2). rewrite (bind_lift _ _ (with_world w1 (with_world w c)) _ w2 E2).
  rewrite !bind_read, !Hpipe. unfold LastPolledAgencies. cbv zeta.
  rewrite enc_ingest_ok by (unfold RecentIngestForRegion; apply Forall_forall; intros rec Hin; apply list_elem_of_In, filter_In in Hin as [Hin%list_elem_of_In _];
    destruct Hfin as [_ Hi]; rewrite Forall_forall in Hi; by apply Hi).
  cbn [mbind result_bind].
  match goal with |- context [writeSSE "ingest" (Ok ?j) ?c3] => destruct (send_event "ingest" j c3 Hw2) as (c4 & E4 & H4 & H5) end.
  exists c4. split; [exact E4|]. split; [done|]. unfold panel_json. rewrite Hid. exact H5.
Qed.

Lemma push_snapshot_spec ids c : held c -> exists c' t, pushSnapshot ids sid c = (None, c') /\ held c' /\
  emitted c [SSE "vehicles" (JArr (vehicle_json <$> liveViews (LivePositionsFor ids (clock (ticks (cWorld c))) p) (clock (ticks (cWorld c)))));
             SSE "stats" (stats_json (rID rg) (clock_text (local_zone (lastPollAt p)) (lastPollAt p))
               (Z.of_nat (length (LivePositionsFor ids t p))) (eventCount p));
             SSE "ingest" (panel_json rg (List.filter (fun a => bool_decide (a ∈ AgencySet (rAgencies rg))) (lastPolled p))
               (RecentIngestForRegion (rID rg) p))] c'.
Proof.
  intros Hh. unfold pushSnapshot. rewrite bind_now, bind_read, Hpipe. set (t0 := clock (ticks (cWorld c))).
  unfold liveViews at 1. rewrite (enc_views_ok _ (fun pos => set_stale (LiveMapFreshWindow <? time_sub t0 (Timestamp pos)) (toView pos)))
    by (done || by apply finite_live).
  match goal with |- context [(writeSSE "vehicles" (Ok ?j) ≫= _) ?c1] => destruct (send_event "vehicles" j c1 Hh) as (c2 & E2 & H2 & M2) end.
  rewrite (bind_eq _ _ _ _ _ E2). destruct (push_stats ids c2 H2) as (c3 & t & E3 & H3 & M3). rewrite (bind_eq _ _ _ _ _ E3).
  destruct (push_ingest c3 H3) as (c4 & E4 & H4 & M4). rewrite E4. exists c4, t. split; [done|]. split; [done|].
  apply (emitted_trans _ [_] c2 [_; _]); [exact M2|]. by apply (emitted_trans _ [_] c3 [_]).
Qed.
End Push.

(** ** Theorems *)

Lemma counted_start t0 fs p st : OpenSessionStore t0 (Ok (fs !! p)) p = Ok st ->
  counted p (held_viewers ∅) {| store := st; files := fs; ticks := 0 |}.
Proof.
  intros Ho. split; [by eapply open_inv|]. intros sid. cbn. unfold viewers, counter, held_viewers.
  rewrite (open_live _ _ _ _ Ho), map_filter_empty, map_size_empty. cbn. by case_bool_decide.
Qed.

(** C6: the server from its start-up, under any interleaving of requests, stream
    events and the poll loop's questions, any clock and any failure of the disk
    or of a connection: the viewer counter of a session is the number of its
    open streams, the session store satisfies its invariant, and every region
    the poll loop is told to poll is the region of a session that has a stream
    open. *)
Theorem viewers_are_streams t0 fs p st s :
  OpenSessionStore t0 (Ok (fs !! p)) p = Ok st ->
  reachable {| sWorld := {| store := st; files := fs; ticks := 0 |}; sStreams := ∅ |} s ->
  (forall sid, sid <> "" -> viewers (store (sWorld s)) sid = open_of (sStreams s) sid) /\
  store_ok (store (sWorld s)) /\
  forall r, r ∈ (LiveRegionIDs clock disk (sWorld s)).1 ->
    exists id str sess, sStreams s !! id = Some str /\ sessions (store (sWorld s)) !! stSid str = Some sess /\ sRegion sess = r.
Proof.
  intros Ho Hr. assert (Hok : server_ok p s).
  { induction Hr as [|e s1 s2 _ IH Hs]; [|by eapply server_step_ok]. by eapply counted_start. }
  destruct Hok as [(Hs & _) Hc]. split_and!; [|done|].
  - intros sid Hsid. rewrite Hc. unfold counter. by rewrite bool_decide_false.
  - intros r Hin. destruct (LiveRegionIDs clock disk (sWorld s)) as [ids w'] eqn:E.
    destruct (live_loop_watched _ _ _ _ _ E r Hin) as (sid & sess & ((n & Hl & Hn) & Hsess & Hreg & _) & _).
    specialize (Hc sid). unfold viewers, counter in Hc. rewrite Hl in Hc. cbn in Hc.
    case_bool_decide; [lia|]. unfold open_of in Hc.
    destruct (map_choose (filter (fun kv : nat * stream => stSid kv.2 = sid) (sStreams s))) as (id & str & Hid).
    { intros He. rewrite He, map_size_empty in Hc. lia. }
    apply map_lookup_filter_Some in Hid as [Hid Hstr]. simpl in Hstr. exists id, str, sess. by rewrite Hstr.
Qed.

(** The viewer counters at the grain of the lock: whatever critical sections of
    other requests come between those of a handler, the counter of a session is
    the number of its streams between their [AcquireLive] and their
    [ReleaseLive], one that is being opened or is ending included. *)
Theorem viewers_interleaved t0 fs p st m w :
  OpenSessionStore t0 (Ok (fs !! p)) p = Ok st ->
  rtc section_step (∅, {| store := st; files := fs; ticks := 0 |}) (m, w) ->
  (forall sid, sid <> "" -> viewers (store w) sid = held_viewers m sid) /\ store_ok (store w).
Proof.
  intros Ho Hr. apply (sections_ok p) in Hr as [(Hs & _) Hc]; [|by eapply counted_start].
  split; [|done]. intros sid Hsid. rewrite Hc. unfold counter. by rewrite bool_decide_false.
Qed.

(** C25: a POST to /api/region.  A body that does not decode and an unknown region
    are answered 400 and change nothing.  For a known region the session is on it
    afterwards, whatever the disk does; when the write to disk succeeds the poll
    loop is told once and the answer is 200 with that region, its feeds and the
    session's interval; when it fails the answer is 400 and the poll loop is not
    told. *)
Theorem post_region r w : let sid := sessionID r in let c' := (handleRegion r (open_conn w)).2 in
  brisk -> (forall n, wire n = None) -> store_ok (store w) -> rqMethod r = "POST" ->
  match dec_setRegion (rqBody r) with
  | Err _ => answers c' 400 "invalid json" /\ store (cWorld c') = store w /\ cChanged c' = []
  | Ok id =>
      match RegionByID id with
      | Err e => answers c' 400 (Error e) /\ store (cWorld c') = store w /\ cChanged c' = []
      | Ok rg =>
          (exists st, keeps_session sid st (cWorld c') /\ sRegion st = id) /\
          match (SetRegion clock disk sid id w).1 with
          | Some e => answers c' 400 (Error e) /\ cChanged c' = []
          | None =>
              cChanged c' = (if has_callback then [id] else []) /\ rStatus (cResp c') = Some 200 /\
              exists feeds poll, FeedsForRegion id = Ok feeds /\ poll ∈ AllowedPollSeconds /\
                rOut (cResp c') = [JsonBody (region_payload rg feeds poll)]
          end
      end
  end.
Proof.
  cbv zeta. intros Hb Hw Hok Hm. unfold handleRegion. rewrite bool_decide_true by done. unfold postRegion.
  set (sid := sessionID r). set (c := open_conn w). assert (Hu : unanswered c) by done.
  destruct (dec_setRegion (rqBody r)) as [id|e]; [|by destruct (http_Error_connected "invalid json" 400 c Hw Hu) as (? & ? & ?)].
  destruct (RegionByID id) as [rg|e] eqn:Hr.
  2:{ assert (E : SetRegion clock disk sid id (cWorld c) = (Some e, w)) by (unfold SetRegion; by rewrite Hr).
      rewrite (bind_lift _ _ c _ w E).
      by destruct (http_Error_connected (Error e) 400 (with_world w c) Hw Hu) as (? & ? & ?). }
  destruct (SetRegion_stored sid id rg w Hb Hok Hr) as (st & Hst & Hid & Hp & Hf).
  destruct (SetRegion clock disk sid id w) as [e w1] eqn:E. cbn [fst snd] in *. rewrite (bind_lift _ _ c _ w1 E). destruct e as [e|].
  - destruct (http_Error_connected (Error e) 400 (with_world w1 c) Hw Hu) as (H1 & H2 & H3).
    split; [|by split]. exists st. split; [|done]. unfold keeps_session. by rewrite H2.
  - unfold mbind, H_bind, region_changed.
    set (c1 := if has_callback then _ else _). assert (Hc1 : unanswered c1 /\ cWorld c1 = w1 /\ cChanged c1 = (if has_callback then [id] else []))
      by (unfold c1; by destruct has_callback).
    destruct Hc1 as (Hu1 & Hw1 & Hch). assert (Hso : session_ok st) by (split; [rewrite Hid; eauto|done]).
    assert (Hk : keeps_session (sessionID r) st (cWorld c1)) by by rewrite Hw1.
    destruct (getRegion_session r st c1 Hw Hu1 Hf Hso Hk) as (K1 & K2 & K3 & rg' & feeds & K0 & K4 & K5).
    split; [eauto|]. rewrite Hid in K0, K4. rewrite Hr in K0. injection K0 as <-. split; [by rewrite K2|]. split; [done|]. eauto 10.
Qed.

(** The events of a replay stream, for the theorem and for the page. *)
Lemma replay_stream_events fuel r w p : flusher = true -> has_replay = true -> (forall n, wire n = None) -> (forall n, pipe n = p) ->
  match replay_bound "from" r, replay_bound "to" r with
  | None, _ => exists c', handleReplayStream never_cancelled fuel r (open_conn w) = Some c' /\ answers c' 400 "invalid from timestamp"
  | _, None => exists c', handleReplayStream never_cancelled fuel r (open_conn w) = Some c' /\ answers c' 400 "invalid to timestamp"
  | Some from, Some to =>
      let opts := {| RegionID := (replay_region r (open_conn w)).1; roSpeed := replay_speed r; roFrom := from; roTo := to |} in
      forall e full p', RunReplay never_cancelled record_frame fuel opts p [] = Some ((e, full), p') -> finite_shown full ->
      exists c', handleReplayStream never_cancelled fuel r (open_conn w) = Some c' /\ rStatus (cResp c') = Some 200 /\
        rOut (cResp c') = SSE "progress" (enc_progress 0 0 None "starting") :: (full ≫= frame_events) ++ end_events e
  end.
Proof.
  intros Hf Hr Hw Hpipe. unfold handleReplayStream. rewrite Hr. cbn [negb].
  pose proof (replay_region_unanswered r (open_conn w)) as Hc0. destruct (replay_region r (open_conn w)) as [id c0]. cbn [fst snd] in *.
  assert (Hu : unanswered c0) by (unfold unanswered; by rewrite Hc0).
  destruct (replay_bound "from" r) as [from|].
  2:{ eexists. split; [done|]. by apply (http_Error_connected "invalid from timestamp"). }
  destruct (replay_bound "to" r) as [to|].
  2:{ eexists. split; [done|]. by apply (http_Error_connected "invalid to timestamp"). }
  cbv zeta. intros e full p' Hrun Hfin. unfold initSSE, resp.
  match goal with |- context [writeSSE "progress" ?j ?c] => set (c1 := c) end.
  destruct (writeSSE_connected "progress" (enc_progress 0 0 None "starting") c1 Hf Hw) as (c2 & -> & [H2 _] & Hs2).
  unfold read, lift, tick, Datatypes.id. rewrite Hpipe. cbv beta iota.
  match goal with |- context [RunReplay never_cancelled on_frame fuel _ p ?c] => set (c3 := c) end.
  destruct (RunReplay_connected fuel _ p e full p' c3 Hf Hw Hrun Hfin) as (c4 & -> & H4).
  pose proof (emitted_trans _ _ _ _ _ H4 (replay_end_connected e c4 Hf Hw)) as [H5 H6].
  eexists. split; [done|]. assert (E1 : rStatus (cResp c1) = None /\ rOut (cResp c1) = []) by (unfold c1; cbn; by rewrite Hc0).
  destruct E1 as [E1 E1']. rewrite E1 in Hs2. rewrite E1' in H2. cbn in Hs2. split; [by apply H6|].
  rewrite H5. change (rOut (cResp c3)) with (rOut (cResp c2)). by rewrite H2.
Qed.

(** With fuel for the feeds the handler of a replay stream returns. *)
Lemma handleReplayStream_total `{!IsleDBLaws I} ctx_Err fuel r c : (forall n, fueled fuel (pipe n)) ->
  exists c', handleReplayStream ctx_Err fuel r c = Some c'.
Proof.
  intros Hp. unfold handleReplayStream. destruct (negb has_replay); [by eexists|]. destruct (replay_region r c) as [regionID c0].
  destruct (replay_bound "from" r); [|by eexists]. destruct (replay_bound "to" r); [|by eexists].
  destruct (initSSE c0). destruct (writeSSE _ _ _) as [[e|] c2]; [by eexists|]. unfold read, lift, tick, Datatypes.id. cbv zeta beta iota.
  match goal with |- context [RunReplay ?x ?y ?f ?o (pipe ?n) ?q] =>
    destruct (RunReplay_total x y f o (pipe n) q (Hp n)) as (e & c3 & p' & ->) end.
  by eexists.
Qed.

(** C21: the events of a replay stream to a client that stays, from a pipeline [p]
    that does not change meanwhile.  A bound that is not an RFC 3339 instant is
    answered 400.  Otherwise, with fuel for the feeds of [p], the playback comes to
    its end and the handler returns; and when the coordinates of the playback can
    be written as JSON, the stream is a starting event, then for every frame of
    the playback its vehicles and its progress, in order, and then [done], or
    the error that ended the playback. *)
Theorem replay_stream `{!IsleDBLaws I} fuel r w p : flusher = true -> has_replay = true ->
  (forall n, wire n = None) -> (forall n, pipe n = p) -> fueled fuel p ->
  match replay_bound "from" r, replay_bound "to" r with
  | None, _ => exists c', handleReplayStream never_cancelled fuel r (open_conn w) = Some c' /\ answers c' 400 "invalid from timestamp"
  | _, None => exists c', handleReplayStream never_cancelled fuel r (open_conn w) = Some c' /\ answers c' 400 "invalid to timestamp"
  | Some from, Some to =>
      let opts := {| RegionID := (replay_region r (open_conn w)).1; roSpeed := replay_speed r; roFrom := from; roTo := to |} in
      exists e full p' c', RunReplay never_cancelled record_frame fuel opts p [] = Some ((e, full), p') /\
        handleReplayStream never_cancelled fuel r (open_conn w) = Some c' /\
        (finite_shown full -> rStatus (cResp c') = Some 200 /\
           rOut (cResp c') = SSE "progress" (enc_progress 0 0 None "starting") :: (full ≫= frame_events) ++ end_events e)
  end.
Proof.
  intros Hf Hr Hw Hp Hfuel. pose proof (replay_stream_events fuel r w p Hf Hr Hw Hp) as H.
  destruct (replay_bound "from" r) as [from|]; [|exact H]. destruct (replay_bound "to" r) as [to|]; [|exact H].
  cbv zeta in *. match type of H with forall e full p', RunReplay _ _ _ ?o _ _ = _ -> _ => set (opts := o) in * end.
  destruct (RunReplay_total never_cancelled record_frame fuel opts p [] Hfuel) as (e & full & p' & Hrun).
  destruct (handleReplayStream_total never_cancelled fuel r (open_conn w)) as [c' Hc]; [intros n; by rewrite Hp|].
  exists e, full, p', c'. split_and!; [done|done|]. intros Hfin. destruct (H e full p' Hrun Hfin) as (c1 & Hc1 & Hout).
  rewrite Hc in Hc1. by injection Hc1 as <-.
Qed.

Lemma bound_of_time r t :
  t mod second = 0 -> is_zero t = false -> 0 <= (civil_of_days (t / second / day_seconds)).1.1 <= 9999 ->
  rqQuery r !! "from" = Some (formatReplayTime t) -> replay_bound "from" r = Some t.
Proof.
  intros Ht Hz Hy Hq. unfold replay_bound, query. rewrite Hq. cbn [default from_option id]. unfold formatReplayTime. rewrite Hz.
  destruct (civil_of_days (t / second / day_seconds)) as [[y m] d] eqn:E. cbn [fst] in Hy.
  pose proof (parse_format t y m d E Hy) as Hp. rewrite bool_decide_false by (intros E0; by rewrite E0 in Hp).
  rewrite Hp. f_equal. unfold second in *. pose proof (Z.div_mod t 1000000000). lia.
Qed.

(** The time a replay shows can be given back as its start: the text of a
    frame's progress event, used as the [from] parameter, is read as the time of
    that frame. *)
Theorem replay_time_roundtrip r t :
  t mod second = 0 -> is_zero t = false -> 0 <= (civil_of_days (t / second / day_seconds)).1.1 <= 9999 ->
  rqQuery r !! "from" = Some (formatReplayTime t) -> replay_bound "from" r = Some t.
Proof. apply bound_of_time. Qed.

(** The session of a request.  A request with a session cookie keeps it and
    is sent none; one without gets a new session, which is sent back and which
    the next request with that cookie is in; different random bytes give
    different sessions; without random bytes the answer is 500. *)
Theorem session_identity r w : (forall n, wire n = None) -> (forall n b, rand n = Ok b -> b <> "") ->
  match session_of r (open_conn w) with
  | (Some sid, c) => sid <> "" /\ unanswered c /\
      (forall v, rqCookie r = Some v -> v <> "" -> sid = v /\ cCookie c = None) /\
      (default "" (rqCookie r) = "" -> cCookie c = Some sid /\
         exists b, rand (ticks w) = Ok b /\ forall n b', rand n = Ok b' -> hex b' = sid <-> b' = b) /\
      forall r' w', rqCookie r' = Some sid -> session_of r' (open_conn w') = (Some sid, open_conn w')
  | (None, c) => answers c 500 "session init failed"
  end.
Proof.
  intros Hw Hb. assert (Hback : forall sid r' w', sid <> "" -> rqCookie r' = Some sid -> session_of r' (open_conn w') = (Some sid, open_conn w')).
  { intros sid r' w' Hs E. unfold session_of. rewrite E. cbv zeta. cbn [default from_option id]. by rewrite bool_decide_false. }
  unfold session_of. cbv zeta. case_bool_decide as Hsid.
  - unfold newSessionID, lift, tick, set_cookie, mbind, H_bind. cbn [open_conn cWorld ticks]. destruct (rand (ticks w)) as [b|e] eqn:E.
    + cbn. assert (hex b <> "") by (pose proof (Hb _ _ E); by destruct b). split_and!; [done|done| | |by intros; apply Hback].
      * intros v Ev Hv. rewrite Ev in Hsid. done.
      * intros _. split; [done|]. exists b. split; [done|]. intros n b' _. split; [apply hex_inj|by intros ->].
    + cbn -[http_Error]. match goal with |- context [http_Error ?m ?k ?c] => pose proof (http_Error_connected m k c Hw) as Hh; destruct (http_Error m k c) end.
      cbn. by apply Hh.
  - cbn. split_and!; [done|done| |by intros|by intros; apply Hback]. intros v -> _. done.
Qed.


(** A push to an open stream whose client stays, for a session on the region
    [rg] and a pipeline [p] that does not change meanwhile: exactly the vehicles,
    the statistics and the ingest panel, in this order; the vehicles are the live
    positions of the stream's agencies at the time of the push, marked stale when
    older than five minutes; the panel has the records and the polled agencies of
    the session's region; the stream stays open. *)
Theorem push_snapshot ids sid st rg p c : flusher = true -> (forall n, wire n = None) -> (forall n, pipe n = p) ->
  finite_pipeline p -> (forall k, sessionExpired st (clock k) = false) -> session_ok st -> RegionByID (sRegion st) = Ok rg ->
  keeps_session sid st (cWorld c) ->
  let t := clock (ticks (cWorld c)) in
  exists c' t', pushSnapshot ids sid c = (None, c') /\
    rOut (cResp c') = rOut (cResp c) ++
      [SSE "vehicles" (JArr (vehicle_json <$> liveViews (LivePositionsFor ids t p) t));
       SSE "stats" (stats_json (rID rg) (clock_text (local_zone (lastPollAt p)) (lastPollAt p))
         (Z.of_nat (length (LivePositionsFor ids t' p))) (eventCount p));
       SSE "ingest" (panel_json rg (List.filter (fun a => bool_decide (a ∈ AgencySet (rAgencies rg))) (lastPolled p))
         (RecentIngestForRegion (rID rg) p))].
Proof.
  intros Hf Hw Hp Hfin Hl Hok Hrg Hk. destruct (push_snapshot_spec sid st rg p Hf Hw Hp Hfin Hl Hok Hrg ids c Hk) as (c' & t & E & _ & H' & _).
  eauto.
Qed.
End DemoServer.

(** ** A concrete server *)

#[local] Existing Instance MemStore.isledb.
#[local] Existing Instance canonical_range.

Definition same_noon (_ : nat) : time := noon.
Definition good_disk (_ : nat) : disk_io := disk_ok.
Definition calm_pipe (_ : nat) : Pipeline := flushed.
Definition good_wire (_ : nat) : option error := None.
Definition lcg (_ : nat) : result string := Ok "0123456789abcdef".
Definition utc (_ : time) : Z := 0.

Definition request (method path : string) (cookie : option string) (q : gmap string string) (body : value) (sid : string) : Request :=
  {| rqMethod := method; rqPath := path; rqCookie := cookie; rqQuery := q; rqBody := body; rqSid := sid |}.

#[local] Abbreviation demo_step :=
  (server_step (SS := merge_slice_sort false) same_noon good_disk calm_pipe good_wire lcg true utc true true).
#[local] Abbreviation demo_reachable :=
  (reachable (SS := merge_slice_sort false) same_noon good_disk calm_pipe good_wire lcg true utc true true).

Definition start : Server := {| sWorld := {| store := opened; files := {[ "s.json" := session_file ]}; ticks := 0 |}; sStreams := ∅ |}.

Definition run_server (es : list server_event) (s : Server) : option Server :=
  foldl (fun o e => s ← o; demo_step e s) (Some s) es.

Lemma run_none es : foldl (fun o e => s ← o; demo_step e s) None es = None.
Proof. by induction es. Qed.

Lemma run_server_reachable es s0 s s' : demo_reachable s0 s -> run_server es s = Some s' -> demo_reachable s0 s'.
Proof.
  unfold run_server. revert s. induction es as [|e es IH]; intros s Hr; cbn [foldl]; [by intros [= <-]|].
  cbn [mbind option_bind]. destruct (demo_step e s) as [s1|] eqn:E; [|by rewrite run_none]. apply IH. by eapply reach_step.
Qed.

(** A new browser opens the map twice, is pushed to, and closes one map. *)
Definition visit : list server_event :=
  [Serve never_cancelled 5 (request "GET" "/api/vehicles/stream" None ∅ (Raw "") "") 0;
   Turn 0 PollSignal; PollerAsks;
   Serve never_cancelled 5 (request "GET" "/api/vehicles/stream" (Some (hex "0123456789abcdef")) ∅ (Raw "") "") 1;
   Turn 1 Heartbeat; Turn 0 ClientGone].

Definition visited : Server := default start (run_server visit start).

Lemma visit_runs : match run_server visit start with Some _ => true | None => false end = true.
Proof. by vm_compute. Qed.

Lemma visited_eq : run_server visit start = Some visited.
Proof. pose proof visit_runs as H. unfold visited. by destruct (run_server visit start). Qed.

Example one_map_open : viewers (store (sWorld visited)) (hex "0123456789abcdef") = 1.
Proof. by vm_compute. Qed.

Lemma viewers_are_streams_witness :
  viewers (store (sWorld visited)) (hex "0123456789abcdef") = open_of (sStreams visited) (hex "0123456789abcdef").
Proof.
  refine (proj1 (viewers_are_streams (SS := merge_slice_sort false) same_noon good_disk calm_pipe good_wire lcg true utc true true
    noon {[ "s.json" := session_file ]} "s.json" opened visited _ _) (hex "0123456789abcdef") _).
  - by vm_compute.
  - eapply run_server_reachable; [apply reach_start|apply visited_eq].
  - discriminate.
Defined.

(** Two requests of one session interleaved: the second opens while the first
    has not pushed, and the first ends. *)
Lemma viewers_interleaved_witness : exists m w,
  rtc (section_step (MR := canonical_range) same_noon good_disk) (∅, {| store := opened; files := {[ "s.json" := session_file ]}; ticks := 0 |}) (m, w) /\
  viewers (store w) "a" = held_viewers m "a" /\ held_viewers m "a" = 1.
Proof.
  eexists _, _. split; [|split].
  - eapply rtc_l; [apply (section_acquire _ _ _ _ 0 "a"); reflexivity|].
    eapply rtc_l; [apply (section_acquire _ _ _ _ 1 "a"); reflexivity|].
    eapply rtc_l; [apply (section_quiet _ _ _ _ (OTouch "a")); exact Logic.I|].
    eapply rtc_l; [apply (section_release _ _ _ _ 0 "a"); reflexivity|apply rtc_refl].
  - refine (proj1 (viewers_interleaved (MR := canonical_range) same_noon good_disk utc noon {[ "s.json" := session_file ]} "s.json" opened _ _ _ _) "a" _).
    + by vm_compute.
    + eapply rtc_l; [apply (section_acquire _ _ _ _ 0 "a"); reflexivity|].
      eapply rtc_l; [apply (section_acquire _ _ _ _ 1 "a"); reflexivity|].
      eapply rtc_l; [apply (section_quiet _ _ _ _ (OTouch "a")); exact Logic.I|].
      eapply rtc_l; [apply (section_release _ _ _ _ 0 "a"); reflexivity|apply rtc_refl].
    + discriminate.
  - by vm_compute.
Defined.

(** The session "a" goes from Johor to Penang. *)
Definition to_penang : Request :=
  request "POST" "/api/region" (Some "a") ∅ (Doc (JObj [("id", JStr "penang")])) "a".

Lemma same_noon_brisk : brisk same_noon.
Proof.
  intros j k st Hst. unfold sessionExpired. rewrite Hst. unfold same_noon. by vm_compute.
Qed.

Lemma opened_ok : store_ok opened.
Proof.
  split; [|apply map_Forall_empty]. apply map_Forall_singleton. split; [by eexists|]. right. left.
Qed.

Lemma post_region_witness :
  let c' := (handleRegion (MR := canonical_range) same_noon good_disk good_wire true to_penang (open_conn (sWorld start))).2 in
  (exists st, keeps_session "a" st (cWorld c') /\ sRegion st = "penang") /\ cChanged c' = ["penang"] /\ rStatus (cResp c') = Some 200.
Proof.
  pose proof (post_region (MR := canonical_range) same_noon good_disk good_wire true to_penang (sWorld start)
    same_noon_brisk (fun _ => eq_refl) opened_ok eq_refl) as H.
  cbv zeta in H |- *. change (dec_setRegion (rqBody to_penang)) with (@Ok string "penang") in H. cbv iota in H.
  destruct (RegionByID "penang") as [rg|] eqn:E; [|discriminate E].
  change (SetRegion same_noon good_disk (sessionID to_penang) "penang" (sWorld start)).1
    with (SetRegion same_noon good_disk "a" "penang" (sWorld start)).1 in H.
  assert (Hp : (SetRegion same_noon good_disk "a" "penang" (sWorld start)).1 = None) by by vm_compute.
  rewrite Hp in H. destruct H as (H1 & H2 & H3 & _). split; [exact H1|]. split; [exact H2|exact H3].
Defined.

Definition replay_request : Request :=
  request "GET" "/api/replay/stream" (Some "a") {[ "region" := "national"; "speed" := "10" ]} (Raw "") "a".

Lemma finite_shown_check (full : list shown) : forallb (fun x : shown => forallb finite_pos x.1) full = true -> finite_shown full.
Proof.
  rewrite forallb_forall. intros Ha. apply Forall_forall. intros x Hx. apply Forall_forall. intros pos Hpos.
  apply list_elem_of_In, Ha in Hx. rewrite forallb_forall in Hx. by apply Hx, list_elem_of_In.
Qed.

Definition played_check (o : option ((option error * list shown) * Pipeline)) : bool :=
  match o with Some ((_, full), _) => forallb (fun x : shown => forallb finite_pos x.1) full | None => false end.

Lemma play_check : played_check (play zero_time) = true.
Proof. by vm_compute. Qed.

Lemma play_finite full p' : play zero_time = Some ((None, full), p') -> finite_shown full.
Proof. intros E. pose proof play_check as H. rewrite E in H. by apply finite_shown_check. Qed.

Lemma replay_stream_witness : exists full c',
  handleReplayStream (MR := canonical_range) (SS := merge_slice_sort false) same_noon good_disk calm_pipe good_wire true true
    never_cancelled 5 replay_request (open_conn (sWorld start)) = Some c' /\
  rOut (cResp c') = SSE "progress" (enc_progress 0 0 None "starting") :: (full ≫= frame_events) ++ end_events None /\ full <> [].
Proof.
  destruct (play_runs zero_time) as (full & p' & Hfull); [vm_compute; reflexivity|].
  pose proof (replay_stream (MR := canonical_range) (SS := merge_slice_sort false) same_noon good_disk calm_pipe good_wire true true
    (IsleDBLaws0 := MemStore.laws) 5 replay_request (sWorld start) flushed eq_refl eq_refl (fun _ => eq_refl) (fun _ => eq_refl) fueled_flushed) as H.
  change (replay_bound "from" replay_request) with (Some zero_time) in H.
  change (replay_bound "to" replay_request) with (Some zero_time) in H. cbv zeta iota in H.
  destruct H as (e & full' & p1 & c' & Hrun & H1 & H2).
  assert (E : Some ((e, full'), p1) = Some ((None, full), p')) by (rewrite <-Hrun; exact Hfull). injection E as -> -> ->.
  exists full, c'. split; [exact H1|]. split; [apply (H2 (play_finite full p' Hfull))|].
  intros ->. apply (f_equal (fun x => match x with Some ((_, []), _) => true | _ => false end)) in Hfull. vm_compute in Hfull. discriminate Hfull.
Defined.

Definition from_request : Request :=
  request "GET" "/api/replay/stream" (Some "a") {[ "from" := "2026-07-25T17:20:00Z" ]} (Raw "") "a".

Lemma replay_time_roundtrip_witness : replay_bound "from" from_request = Some noon.
Proof.
  apply (replay_time_roundtrip from_request noon); [by vm_compute|by vm_compute| |by vm_compute].
  vm_compute. split; discriminate.
Defined.

Lemma session_identity_witness :
  match session_of good_wire lcg (request "GET" "/" None ∅ (Raw "") "") (open_conn (sWorld start)) with
  | (Some sid, c) => sid <> "" /\ cCookie c = Some sid
  | (None, _) => False
  end.
Proof.
  pose proof (session_identity good_wire lcg (request "GET" "/" None ∅ (Raw "") "") (sWorld start) (fun _ => eq_refl)) as H.
  assert (Hb : forall n b, lcg n = Ok b -> b <> "") by (intros n b [= <-]; discriminate).
  specialize (H Hb). destruct (session_of _ _ _ _) as [[sid|] c] eqn:E; [|discriminate E].
  destruct H as (H1 & _ & _ & H4 & _). split; [exact H1|]. exact (proj1 (H4 eq_refl)).
Defined.

Definition finite_check (p : Pipeline) : bool :=
  forallb (fun kv => finite_pos kv.2) (map_to_list (vehicleSeen p)) &&
  forallb (fun rec => f64_finite (igLat rec) && f64_finite (igLng rec)) (ingestBuf p).

Lemma finite_check_ok p : finite_check p = true -> finite_pipeline p.
Proof.
  unfold finite_check. rewrite andb_true_iff, !forallb_forall. intros [Hv Hi]. split.
  - apply map_Forall_lookup. intros k pos Hk. apply (Hv (k, pos)). by apply list_elem_of_In, elem_of_map_to_list.
  - apply Forall_forall. intros rec Hrec. apply andb_true_iff, Hi. by apply list_elem_of_In.
Qed.

Lemma flushed_finite : finite_pipeline flushed.
Proof. apply finite_check_ok. by vm_compute. Qed.

(** The map of the session "a", in Johor. *)
Definition johor_session : sessionState := {| sRegion := "johor"; sPollSeconds := 20; LastSeen := noon - minute |}.

Lemma push_snapshot_witness : exists rg c' t',
  pushSnapshot (MR := canonical_range) same_noon good_disk calm_pipe good_wire true utc (AgencySet ["mybas-johor"]) "a" (open_conn (sWorld start)) = (None, c') /\
  rOut (cResp c') =
    [SSE "vehicles" (JArr (vehicle_json <$> liveViews (LivePositionsFor (AgencySet ["mybas-johor"]) noon flushed) noon));
     SSE "stats" (stats_json (rID rg) (clock_text (utc (lastPollAt flushed)) (lastPollAt flushed))
       (Z.of_nat (length (LivePositionsFor (AgencySet ["mybas-johor"]) t' flushed))) (eventCount flushed));
     SSE "ingest" (panel_json rg (List.filter (fun a => bool_decide (a ∈ AgencySet (rAgencies rg))) (lastPolled flushed))
       (RecentIngestForRegion (rID rg) flushed))].
Proof.
  destruct (RegionByID "johor") as [rg|] eqn:E; [|discriminate E].
  destruct (push_snapshot (MR := canonical_range) same_noon good_disk calm_pipe good_wire true utc (AgencySet ["mybas-johor"]) "a" johor_session rg flushed
    (open_conn (sWorld start)) eq_refl (fun _ => eq_refl) (fun _ => eq_refl) flushed_finite) as (c' & t' & H1 & H2).
  - intros k. by vm_compute.
  - split; [by exists rg|right; left].
  - exact E.
  - by vm_compute.
  - exists rg, c', t'. split; [exact H1|exact H2].
Defined.
