(* ===== verification/Dashboard.v ===== *)
(** * The simulation dashboard (internal/web/server.go)

    The development server: it starts one simulation at a time, keeps the last
    result of each backend, and shows the backends' status.  The server's fields
    and the goroutine a simulation runs in are the state of a step function; a
    step is a request, a critical section of the goroutine, or the whole of
    [simulation.Run]. *)

From S2P Require Import Prelude GoStrings Json Floats IsleDB EventGen Tenant Store PrefixDB Simulation Status Web.

Record Server := {
  running : bool;
  lastMinIO : option Result;
  lastTigris : option Result
}.

Definition NewServer : Server := {| running := false; lastMinIO := None; lastTigris := None |}.

Record backendView := { bvStatus : BackendStatus; bvLastRun : option Result }.

Record dashboardView := {
  dvRunning : bool;
  dvMinIO : backendView;
  dvTigris : backendView;
  dvUpdatedAt : time
}.

(** ** Requests *)

Definition http_Error (msg : string) (code : Z) : Response dashboardView :=
  write_chunk (Text (msg +:+ newline)) (error_header code no_response).

(** [runSimulation] up to the goroutine: whether one is started, the response. *)
Definition runSimulation (method accept : string) (s : Server) : bool * Response dashboardView * Server :=
  if negb (bool_decide (method = "POST")) then (false, http_Error "method not allowed" 405, s)
  else if running s then (false, http_Error "simulation already running" 409, s)
  else
    let s := {| running := true; lastMinIO := lastMinIO s; lastTigris := lastTigris s |} in
    let r := if bool_decide (accept = "application/json")
             then write_chunk (JsonBody (JObj [("status", JStr "started")])) (set_header "Content-Type" "application/json" no_response)
             else write_header 303 (set_header "Location" "/" no_response) in
    (true, r, s).

(** The options of the run a goroutine starts. *)
Definition sim_options (backend : Backend) (unix : Z) : Options :=
  let o := DevOptions backend in
  {| oBackend := oBackend o; oDuration := oDuration o; oEvents := oEvents o; oPrefixSuffix := "run-" +:+ itoa unix;
     oFast := oFast o; oCacheRoot := oCacheRoot o |}.

Definition publish (backend : Backend) (res : Result) (s : Server) : Server :=
  if bool_decide (backend = BackendMinIO)
  then {| running := running s; lastMinIO := Some res; lastTigris := lastTigris s |}
  else {| running := running s; lastMinIO := lastMinIO s; lastTigris := Some res |}.

Definition reset (s : Server) : Server := {| running := false; lastMinIO := lastMinIO s; lastTigris := lastTigris s |}.

Section Dashboard.
Context {I : IsleDB} {MR : MapRange} {R : RandSource}.
Variable answer : list (call * option error) -> call -> option error.
Variable prefix_db : StoreConfig -> string -> db.
Variable sin : float64 -> float64.

(** Both configurations are read before the backends are probed. *)
Definition buildView (now : time) (s : Server) (w : world) : dashboardView * world :=
  let minCfg := StoreConfigFromEnv (wEnv w) BackendMinIO "" in
  let tigCfg := StoreConfigFromEnv (wEnv w) BackendTigris "" in
  let '(min, w) := Probe answer prefix_db minCfg w in
  let '(tig, w) := Probe answer prefix_db tigCfg w in
  ({| dvRunning := running s; dvMinIO := {| bvStatus := min; bvLastRun := lastMinIO s |};
      dvTigris := {| bvStatus := tig; bvLastRun := lastTigris s |}; dvUpdatedAt := now |}, w).

Definition enc_counts (m : gmap string Z) : json := enc_map (JInt <$> m).

(** Structs without tags: the members are the fields' names. *)
Definition enc_status (st : BackendStatus) : json :=
  JObj [("Backend", enc_str (stBackend st)); ("OK", JBool (stOK st)); ("Error", enc_str (stError st));
        ("Bucket", enc_str (Bucket st)); ("Endpoint", enc_str (Endpoint st)); ("TotalKeys", JInt (TotalKeys st));
        ("KeysByTenant", enc_counts (stKeysByTenant st))].

Definition enc_result (r : Result) : result json :=
  t0 ← enc_time (StartedAt r); t1 ← enc_time (FinishedAt r);
  Ok (JObj [("Backend", enc_str (rBackend r)); ("StartedAt", t0); ("FinishedAt", t1); ("OK", JBool (rOK r));
            ("Error", enc_str (rError r)); ("PutCount", JInt (rPutCount r)); ("UniqueExpected", JInt (UniqueExpected r));
            ("PreCompactKeys", JInt (PreCompactKeys r)); ("PostCompactKeys", JInt (PostCompactKeys r));
            ("TailByTenant", enc_counts (TailByTenant r))]).

Definition enc_backendView (v : backendView) : result json :=
  last ← (match bvLastRun v with Some r => enc_result r | None => Ok JNull end);
  Ok (JObj [("Status", enc_status (bvStatus v)); ("LastRun", last)]).

Definition enc_dashboardView (v : dashboardView) : result json :=
  min ← enc_backendView (dvMinIO v); tig ← enc_backendView (dvTigris v); t ← enc_time (dvUpdatedAt v);
  Ok (JObj [("Running", JBool (dvRunning v)); ("MinIO", min); ("Tigris", tig); ("UpdatedAt", t)]).

Definition handleDashboard (path : string) (now : time) (s : Server) (w : world) : Response dashboardView * world :=
  if negb (bool_decide (path = "/")) then (http_Error "404 page not found" 404, w)
  else
    let '(v, w) := buildView now s w in
    (write_chunk (Page v) (set_header "Content-Type" "text/html; charset=utf-8" no_response), w).

Definition handleStatus (now : time) (s : Server) (w : world) : Response dashboardView * world :=
  let r := set_header "Content-Type" "application/json" no_response in
  let '(v, w) := buildView now s w in
  match enc_dashboardView v with
  | Ok j => (write_chunk (JsonBody j) r, w)
  | Err _ => (r, w)
  end.

(** ** The server over time *)

(** Where the goroutine of a simulation is. *)
Inductive job := Simulating (backend : Backend) | Finished (backend : Backend) (res : Result) | Published.

Record state := { dServer : Server; dJobs : gmap nat job; dWorld : world }.

(** [id] names a goroutine; a simulation comes with its uuids, context and
    clock. *)
Inductive event :=
  | PostMinIO (method accept : string) (id : nat)
  | PostTigris (method accept : string) (id : nat)
  | Simulated (id : nat) (uuid : nat -> result string) (ctx_Err : nat -> option error) (now : nat -> time) (unix : Z) (fuel : nat)
  | Publish (id : nat)
  | Reset (id : nat)
  | GetPage (path : string) (now : time)
  | GetStatus (now : time).

Definition post (method accept : string) (backend : Backend) (id : nat) (st : state) : option state :=
  match dJobs st !! id with
  | Some _ => None
  | None =>
      let '(started, _, s) := runSimulation method accept (dServer st) in
      Some {| dServer := s; dJobs := if started then <[id := Simulating backend]> (dJobs st) else dJobs st; dWorld := dWorld st |}
  end.

Definition dash_step (e : event) (st : state) : option state :=
  match e with
  | PostMinIO method accept id => post method accept BackendMinIO id st
  | PostTigris method accept id => post method accept BackendTigris id st
  | Simulated id uuid ctx_Err now unix fuel =>
      match dJobs st !! id with
      | Some (Simulating b) =>
          match Run answer prefix_db sin uuid ctx_Err now fuel (sim_options b unix) (dWorld st) with
          | Some ((res, _), w) => Some {| dServer := dServer st; dJobs := <[id := Finished b res]> (dJobs st); dWorld := w |}
          | None => None
          end
      | _ => None
      end
  | Publish id =>
      match dJobs st !! id with
      | Some (Finished b res) => Some {| dServer := publish b res (dServer st); dJobs := <[id := Published]> (dJobs st); dWorld := dWorld st |}
      | _ => None
      end
  | Reset id =>
      match dJobs st !! id with
      | Some Published => Some {| dServer := reset (dServer st); dJobs := delete id (dJobs st); dWorld := dWorld st |}
      | _ => None
      end
  | GetPage path now => Some {| dServer := dServer st; dJobs := dJobs st; dWorld := (handleDashboard path now (dServer st) (dWorld st)).2 |}
  | GetStatus now => Some {| dServer := dServer st; dJobs := dJobs st; dWorld := (handleStatus now (dServer st) (dWorld st)).2 |}
  end.

Inductive reachable : state -> Prop :=
  | reach_start w : reachable {| dServer := NewServer; dJobs := ∅; dWorld := w |}
  | reach_step e s s' : reachable s -> dash_step e s = Some s' -> reachable s'.

(** ** A result is of the backend it was asked for *)

Lemma run_opened_backend fuel ems p res fin r p' : run_opened fuel ems p res fin = Some (r, p') -> rBackend r = rBackend res.
Proof. unfold run_opened. repeat case_match; try done; by intros [= <- _]. Qed.

Lemma Run_backend uuid ctx_Err now fuel opts w r p w' :
  Run answer prefix_db sin uuid ctx_Err now fuel opts w = Some ((r, p), w') -> rBackend r = oBackend opts.
Proof.
  unfold Run. destruct (generate _ _ _ _ _) as [[ems [e|]] n]; [by intros [= <- _ _]|].
  destruct (New answer _ _ w) as [[tenants|e] w1]; [|by intros [= <- _ _]].
  destruct (run_opened _ _ _ _ _) as [[r0 p0]|] eqn:E; [|done]. apply run_opened_backend in E.
  destruct (CloseAll answer tenants w1) as [e2 w2]. by intros [= <- _ _].
Qed.

(** ** The invariant *)

Definition result_of (b : Backend) (o : option Result) : Prop := forall r, o = Some r -> rBackend r = b.

Definition job_ok (j : job) : Prop :=
  match j with
  | Simulating b => b = BackendMinIO \/ b = BackendTigris
  | Finished b res => (b = BackendMinIO \/ b = BackendTigris) /\ rBackend res = b
  | Published => True
  end.

Record state_ok (s : state) : Prop := {
  ok_alone : forall i j x y, dJobs s !! i = Some x -> dJobs s !! j = Some y -> i = j;
  ok_running : running (dServer s) = true <-> dJobs s <> ∅;
  ok_jobs : map_Forall (fun _ j => job_ok j) (dJobs s);
  ok_minio : result_of BackendMinIO (lastMinIO (dServer s));
  ok_tigris : result_of BackendTigris (lastTigris (dServer s))
}.

Lemma jobs_update_ok s s' id j j' : state_ok s -> dJobs s !! id = Some j -> dJobs s' = <[id := j']> (dJobs s) -> job_ok j' ->
  running (dServer s') = running (dServer s) -> result_of BackendMinIO (lastMinIO (dServer s')) ->
  result_of BackendTigris (lastTigris (dServer s')) -> state_ok s'.
Proof.
  intros [Ha Hr Hj _ _] Hid E Hok Hrun Hm Ht. constructor; [| | |done|done].
  - intros a b x y. rewrite E, !lookup_insert_Some. intros [[<- _]|[? H1]] [[<- _]|[? H2]]; [done|by apply (Ha id b j y)|by apply (Ha a id x j)|by apply (Ha a b x y)].
  - rewrite Hrun, E, Hr. split; intros _; [apply insert_non_empty|]. intros E'. by rewrite E', lookup_empty in Hid.
  - rewrite E. by apply map_Forall_insert_2.
Qed.

Lemma post_ok method accept b id s s' : b = BackendMinIO \/ b = BackendTigris -> state_ok s -> post method accept b id s = Some s' -> state_ok s'.
Proof.
  intros Hb Hok. unfold post. destruct (dJobs s !! id) eqn:Hid; [done|]. unfold runSimulation.
  destruct (negb _); [intros [= <-]; by destruct Hok|]. destruct (running (dServer s)) eqn:Hrun; [intros [= <-]; by destruct s, Hok|].
  intros [= <-]. destruct Hok as [_ Hr Hj Hm Ht].
  assert (E : dJobs s = ∅).
  { destruct (decide (dJobs s = ∅)) as [|Hne]; [done|]. apply Hr in Hne. congruence. }
  constructor; cbn; rewrite ?E; [| | |exact Hm|exact Ht].
  - intros i j x y. rewrite !lookup_insert_Some, !lookup_empty. naive_solver.
  - split; [intros _; apply insert_non_empty|done].
  - apply map_Forall_insert_2; [exact Hb|apply map_Forall_empty].
Qed.

Lemma dash_step_ok e s s' : state_ok s -> dash_step e s = Some s' -> state_ok s'.
Proof.
  intros Hok. destruct e as [m a id|m a id|id uuid ctx now unix fuel|id|id|path now|now]; cbn [dash_step].
  - apply post_ok; [by left|done].
  - apply post_ok; [by right|done].
  - destruct (dJobs s !! id) as [[b| |]|] eqn:Hid; try done.
    destruct (Run _ _ _ _ _ _ _ _ _) as [[[res p] w]|] eqn:E; [|done]. intros [= <-].
    apply Run_backend in E. pose proof (ok_jobs _ Hok id _ Hid) as Hb.
    eapply (jobs_update_ok s _ id _ (Finished b res) Hok Hid); [done|by split|done|apply (ok_minio _ Hok)|apply (ok_tigris _ Hok)].
  - destruct (dJobs s !! id) as [[|b res|]|] eqn:Hid; try done. intros [= <-].
    pose proof (ok_jobs _ Hok id _ Hid) as [Hb Hres].
    eapply (jobs_update_ok s _ id _ Published Hok Hid); [done|done| | |]; cbn; unfold publish; case_bool_decide as Eb; cbn; try done.
    + intros r [= <-]. by rewrite Hres.
    + apply (ok_minio _ Hok).
    + apply (ok_tigris _ Hok).
    + intros r [= <-]. rewrite Hres. by destruct Hb.
  - destruct (dJobs s !! id) as [[| |]|] eqn:Hid; try done. intros [= <-]. destruct Hok as [Ha Hr Hj Hm Ht].
    assert (E : delete id (dJobs s) = ∅).
    { apply map_eq. intros i. rewrite lookup_empty, lookup_delete_None. destruct (decide (id = i)) as [|Hne]; [by left|right].
      destruct (dJobs s !! i) eqn:Hi; [|done]. by destruct (Hne (Ha _ _ _ _ Hid Hi)). }
    constructor; cbn; rewrite ?E; [|split; done|apply map_Forall_empty|exact Hm|exact Ht].
    intros i j x y. by rewrite lookup_empty.
  - intros [= <-]. destruct Hok. by constructor.
  - intros [= <-]. destruct Hok. by constructor.
Qed.

(** ** The environment the probes share *)

(** A property of the world that every call and every set-up of the environment
    for [cfg] keeps is kept by a probe. *)
Section Probing.
Variables (P : world -> Prop) (cfg : StoreConfig).
Hypothesis Hcall : forall c w, P w -> P (do_call answer c w).2.
Hypothesis Hnote : forall c w, P w -> P (note_call c w).
Hypothesis Henv : forall w, P w -> P (with_env (ensureS3Env cfg) w).

Lemma close_ignored_keeps b h w : P w -> P (close_ignored answer b h w).
Proof. destruct b; [apply Hcall|done]. Qed.

Lemma ensureBucket_keeps w : P w -> P (ensureBucket answer cfg w).2.
Proof. intros Hw. unfold ensureBucket, ensureS3Bucket. repeat case_bool_decide; cbn -[do_call]; auto. Qed.

(** The calls of a step one by one. *)
Ltac keep_calls :=
  repeat match goal with
  | |- P (close_ignored _ _ _ _) => apply close_ignored_keeps
  | |- context [do_call answer ?c ?w] =>
      let H := fresh "K" in assert (H : P (do_call answer c w).2) by (apply Hcall; auto);
      destruct (do_call answer c w) as [[?|] ?]; cbn [snd] in H
  | |- _ => progress cbn [snd fst]
  end; auto.

Lemma openIsleDB_keeps id w : P w -> P (openIsleDB answer cfg id w).2.
Proof.
  intros Hw. assert (Hs : forall url, P (open_s3 answer cfg id url w).2).
  { intros url. unfold open_s3. pose proof (ensureBucket_keeps _ (Henv _ Hw)) as Hb.
    destruct (ensureBucket answer cfg _) as [[e|] w1]; cbn [snd] in *; [exact Hb|]. keep_calls. }
  unfold openIsleDB. repeat case_bool_decide; try apply Hs; [|done]. cbv zeta. keep_calls.
Qed.

Lemma OpenReaderDB_keeps id w : P w -> P (OpenReaderDB answer cfg id w).2.
Proof.
  intros Hw. unfold OpenReaderDB. pose proof (openIsleDB_keeps id w Hw) as Ho.
  destruct (openIsleDB answer cfg id w) as [[b|e] w1]; cbn [snd] in *; [|exact Ho]. cbv zeta. keep_calls.
Qed.

Lemma reader_closer_keeps id b w : P w -> P (reader_closer answer id b w).2.
Proof. intros Hw. unfold reader_closer. keep_calls; destruct b; auto. Qed.

Lemma probe_loop_keeps ids st w : P w -> P (probe_loop answer prefix_db cfg ids st w).2.
Proof.
  revert st w. induction ids as [|id ids IH]; intros st w Hw; cbn [probe_loop]; [done|].
  assert (Hp : P (probeTenantKeyCount answer prefix_db cfg id w).2).
  { unfold probeTenantKeyCount. pose proof (OpenReaderDB_keeps id w Hw) as Ho.
    destruct (OpenReaderDB answer cfg id w) as [[b|e] w1]; [|exact Ho]. cbn [snd] in *. by apply reader_closer_keeps. }
  destruct (probeTenantKeyCount answer prefix_db cfg id w) as [[n [e|]] w1]; [exact Hp|by apply IH].
Qed.

Lemma Probe_keeps w : P w -> P (Probe answer prefix_db cfg w).2.
Proof.
  intros Hw. unfold Probe. cbv zeta. case_bool_decide; [|by apply probe_loop_keeps].
  pose proof (ensureBucket_keeps w Hw) as Hb. destruct (ensureBucket answer cfg w) as [[e|] w1]; [exact Hb|by apply probe_loop_keeps].
Qed.
End Probing.

(** The region, once set, stays; the calls made so far stay. *)
Definition region_is (r : string) (w : world) : Prop := Getenv (wEnv w) "AWS_REGION" = r.

Lemma region_kept cfg r w : r <> "" -> region_is r w -> region_is r (with_env (ensureS3Env cfg) w).
Proof.
  unfold region_is. cbn. intros Hr H. rewrite Getenv_ensureS3Env. unfold ensured. rewrite H.
  repeat (case_bool_decide; simpl); naive_solver.
Qed.

Lemma probe_extends cfg w : exists l, wCalls (Probe answer prefix_db cfg w).2 = wCalls w ++ l.
Proof.
  apply (Probe_keeps (fun w' => exists l, wCalls w' = wCalls w ++ l) cfg).
  - intros c w1 [l Hl]. exists (l ++ [(c, answer (wCalls w1) c)]). cbn. by rewrite Hl, app_assoc.
  - intros c w1 [l Hl]. exists (l ++ [(c, None)]). cbn. by rewrite Hl, app_assoc.
  - done.
  - exists []. by rewrite app_nil_r.
Qed.

(** The first thing a probe of a named bucket does. *)
Lemma probe_starts cfg w url : cfgBackend cfg = BackendMinIO /\ MinBucket cfg <> "" /\ url = minioBucketURL (wEnv w) (MinBucket cfg) (MinEndpoint cfg) \/
    cfgBackend cfg = BackendTigris /\ TigrisBucket cfg <> "" /\ url = tigrisBucketURL (wEnv w) (TigrisBucket cfg) ->
  exists l, wCalls (Probe answer prefix_db cfg w).2 = wCalls w ++ (EnsureS3Bucket url, answer (wCalls w) (EnsureS3Bucket url)) :: l.
Proof.
  intros Hc. set (w1 := (do_call answer (EnsureS3Bucket url) (with_env (ensureS3Env cfg) w)).2).
  assert (Eb : ensureBucket answer cfg w = (answer (wCalls w) (EnsureS3Bucket url), w1)).
  { unfold ensureBucket, ensureS3Bucket. destruct Hc as [(-> & H1 & ->)|(-> & H1 & ->)]; repeat (case_bool_decide; try done). }
  unfold Probe. cbv zeta. rewrite bool_decide_true by naive_solver. rewrite Eb.
  destruct (answer (wCalls w) (EnsureS3Bucket url)) as [e|] eqn:Ea.
  - exists []. unfold w1. cbn. by rewrite Ea.
  - assert (He : exists l, wCalls (probe_loop answer prefix_db cfg AllTenantIDs (initial_status cfg) w1).2 = wCalls w1 ++ l).
    { apply (probe_loop_keeps (fun w' => exists l, wCalls w' = wCalls w1 ++ l) cfg).
      - intros c w2 [l Hl]. exists (l ++ [(c, answer (wCalls w2) c)]). cbn. by rewrite Hl, app_assoc.
      - intros c w2 [l Hl]. exists (l ++ [(c, None)]). cbn. by rewrite Hl, app_assoc.
      - done.
      - exists []. by rewrite app_nil_r. }
    destruct He as [l Hl]. exists l. rewrite Hl. unfold w1. cbn. by rewrite Ea, <-app_assoc.
Qed.

Lemma envOr_nonempty env k def : def <> "" -> envOr env k def <> "".
Proof. intros Hd. unfold envOr. by repeat case_bool_decide. Qed.

(** ** Theorems *)

(** C30: in every state the dashboard can reach, whatever requests arrive and
    however its goroutines are scheduled: at most one simulation goroutine
    exists, the server says it is running exactly when there is one, and the
    last result shown for a backend is a result of that backend; a POST while
    one is running is answered 409 and starts nothing, and a POST otherwise
    starts one. *)
Theorem one_simulation s : reachable s ->
  (forall i j x y, dJobs s !! i = Some x -> dJobs s !! j = Some y -> i = j) /\
  (running (dServer s) = true <-> dJobs s <> ∅) /\
  result_of BackendMinIO (lastMinIO (dServer s)) /\ result_of BackendTigris (lastTigris (dServer s)) /\
  forall accept b id s', dJobs s !! id = None -> post "POST" accept b id s = Some s' ->
    let '(started, r, _) := runSimulation "POST" accept (dServer s) in
    if running (dServer s) then started = false /\ rStatus r = Some 409 /\ s' = s
    else started = true /\ dJobs s' = {[ id := Simulating b ]} /\ running (dServer s') = true.
Proof.
  intros Hr. assert (Hok : state_ok s).
  { induction Hr as [w|e s1 s2 _ IH Hs]; [|by eapply dash_step_ok].
    constructor; cbn; [intros i j x y; by rewrite lookup_empty|done|apply map_Forall_empty|done|done]. }
  split_and!; [apply Hok..|]. intros accept b id s' Hid. unfold post. rewrite Hid. unfold runSimulation. cbn [negb bool_decide].
  rewrite bool_decide_true by done. cbn [negb]. destruct (running (dServer s)) eqn:E.
  - intros [= <-]. split_and!; [done|done|by destruct s].
  - intros [= <-]. cbn. split_and!; [done| |done].
    assert (dJobs s = ∅) as ->; [|done]. destruct (decide (dJobs s = ∅)) as [|Hne]; [done|]. apply (ok_running _ Hok) in Hne. congruence.
Qed.

(** The dashboard probes MinIO first, in the same process environment: with
    [AWS_REGION] unset, Tigris is then asked for a bucket in the region MinIO
    defaults to, us-east-1, where a process that probes Tigris alone asks for
    its own default, auto. *)
Theorem tigris_region_after_minio now s w : Getenv (wEnv w) "AWS_REGION" = "" ->
  let bucket := TigrisBucket (StoreConfigFromEnv (wEnv w) BackendTigris "") in
  let asks w w' region := exists l1 e l2, wCalls w' = wCalls w ++ l1 ++ (EnsureS3Bucket ("s3://" +:+ bucket +:+ "?region=" +:+ region), e) :: l2 in
  asks w (buildView now s w).2 "us-east-1" /\
  asks w (Probe answer prefix_db (StoreConfigFromEnv (wEnv w) BackendTigris "") w).2 "auto".
Proof.
  intros Hw. cbv zeta. set (min := StoreConfigFromEnv (wEnv w) BackendMinIO ""). set (tig := StoreConfigFromEnv (wEnv w) BackendTigris "").
  assert (Hmb : MinBucket min <> "") by (by apply envOr_nonempty). assert (Htb : TigrisBucket tig <> "") by (by apply envOr_nonempty).
  assert (Hurl : forall env r, Getenv env "AWS_REGION" = r -> r <> "" -> tigrisBucketURL env (TigrisBucket tig) = "s3://" +:+ TigrisBucket tig +:+ "?region=" +:+ r).
  { intros env r Hr Hne. unfold tigrisBucketURL, envOr. cbv zeta. rewrite Hr. by rewrite bool_decide_false. }
  split.
  - unfold buildView. fold min tig. destruct (probe_extends min w) as [l1 Hl1].
    assert (Hreg : region_is "us-east-1" (Probe answer prefix_db min w).2).
    { assert (H1 : region_is "us-east-1" (ensureBucket answer min w).2).
      { assert (H0 : Getenv (ensureS3Env min (wEnv w)) "AWS_REGION" = "us-east-1").
        { rewrite Getenv_ensureS3Env. unfold ensured. by rewrite Hw. }
        unfold ensureBucket, ensureS3Bucket. by repeat (case_bool_decide; try done). }
      unfold Probe. cbv zeta. rewrite bool_decide_true by (by left).
      destruct (ensureBucket answer min w) as [[e|] w1]; [exact H1|]. cbn [snd] in H1.
      apply (probe_loop_keeps (region_is "us-east-1") min); [done|done| |done]. intros w2. by apply region_kept. }
    destruct (Probe answer prefix_db min w) as [st1 w1]. cbn [snd] in *.
    destruct (probe_starts tig w1 (tigrisBucketURL (wEnv w1) (TigrisBucket tig))) as [l2 Hl2]; [by right|].
    destruct (Probe answer prefix_db tig w1) as [st2 w2]. cbn [snd] in *.
    rewrite (Hurl _ _ Hreg) in Hl2 by done. exists l1. eexists _, l2. rewrite Hl2, Hl1, <-app_assoc. reflexivity.
  - destruct (probe_starts tig w (tigrisBucketURL (wEnv w) (TigrisBucket tig))) as [l2 Hl2]; [by right|].
    exists []. eexists _, l2. rewrite Hl2. unfold tigrisBucketURL, envOr. cbv zeta. rewrite Hw. reflexivity.
Qed.
End Dashboard.

(** ** A concrete dashboard *)

#[local] Existing Instance MemStore.steady.
#[local] Existing Instance canonical_range.

#[local] Abbreviation dash := (dash_step (I := MemStore.steady) (MR := canonical_range) (R := walk) no_failure empty_prefix no_wave).
#[local] Abbreviation dash_reachable := (reachable (I := MemStore.steady) (MR := canonical_range) (R := walk) no_failure empty_prefix no_wave).

(** Two clicks: the second finds the first one's simulation running. *)
Definition clicked : state :=
  {| dServer := {| running := true; lastMinIO := None; lastTigris := None |};
     dJobs := {[ 0%nat := Simulating BackendMinIO ]}; dWorld := start |}.

Lemma clicked_reachable : dash_reachable clicked.
Proof.
  eapply (reach_step _ _ _ (PostMinIO "POST" "" 0)); [apply (reach_start _ _ _ start)|]. by vm_compute.
Qed.

Lemma one_simulation_witness : (running (dServer clicked) = true <-> dJobs clicked <> ∅) /\
  post "POST" "" BackendTigris 1 clicked = Some clicked.
Proof.
  destruct (one_simulation (I := MemStore.steady) (MR := canonical_range) (R := walk) no_failure empty_prefix no_wave clicked clicked_reachable)
    as (_ & Hrun & _ & _ & Hpost). split; [exact Hrun|].
  destruct (post "POST" "" BackendTigris 1 clicked) as [s'|] eqn:E; [|discriminate E].
  destruct (Hpost "" BackendTigris 1%nat s' eq_refl E) as (_ & _ & ->). reflexivity.
Defined.

Lemma tigris_region_after_minio_witness :
  exists l1 e l2, wCalls (buildView (I := MemStore.steady) no_failure empty_prefix 0 NewServer start).2 =
    l1 ++ (EnsureS3Bucket "s3://gedung-peristiwa?region=us-east-1", e) :: l2.
Proof.
  destruct (tigris_region_after_minio (I := MemStore.steady) no_failure empty_prefix 0 NewServer start eq_refl) as [(l1 & e & l2 & H) _].
  exists l1, e, l2. exact H.
Defined.
