(* ===== verification/Harness.v ===== *)
(** * The IsleDB debugging harness (internal/isledbdebug/harness.go, cmd/isledb-debug/main.go)

    Experiments on one prefix: how long after a flush the change feed shows the
    keys, whether a reader that starts at the head sees just the new ones, and
    how many changes there are.  Each ends in a verdict, and the tool's exit code
    says whether one failed.  Effects are numbered: [clock n] is what the n-th
    one reads when it is a reading of the clock, [wait n] how it ends when it is a
    wait for a timer or the context.  The page loops run on fuel, as in
    ChangeFeed; the texts of a verdict are left out. *)

From Stdlib Require Import Ascii.
From S2P Require Import Prelude GoStrings Json GoTime IsleDB ChangeFeed Store PrefixDB.

Definition keyPrefix : string := "debug:feed:".

(** [fmt.Sprintf("%04d", z)]: the sign counts in the width. *)
Fixpoint zeros (n : nat) : string := match n with O => "" | S n => String "0"%char (zeros n) end.
Definition fmt04 (z : Z) : string :=
  let digits := itoa (Z.abs z) in
  if z <? 0 then "-" +:+ zeros (3 - String.length digits) +:+ digits else zeros (4 - String.length digits) +:+ digits.

Definition key (seq : Z) : string := keyPrefix +:+ fmt04 seq.
Definition minKey : string := keyPrefix.
Definition maxKey : string := keyPrefix +:+ String (ascii_of_N 255) "".

(** The changes the harness counts: the keys from [minKey] to [maxKey]. *)
Definition counted_key (ch : Change) : bool := str_le minKey (chKey ch) && str_le (chKey ch) maxKey.

(** [strings.ToLower], up to letters whose lower case is not ASCII: two letters
    outside ASCII have an ASCII one. *)
Fixpoint ToLower (s : string) : string :=
  match s with
  | "" => ""
  | String "196" (String "176" s) => String "i" (ToLower s)
  | String "226" (String "132" (String "170" s)) => String "k" (ToLower s)
  | String c s => String (ascii_lower c) (ToLower s)
  end.

Record VisibilityRow := { DelayMs : Z; KeysSeen : Z; RowErr : string }.

Record IncrementalResult := { WroteKeys : Z; TailEvents : Z; FirstNewKeyMs : Z; Timeout : bool }.
Definition no_incremental : IncrementalResult := {| WroteKeys := 0; TailEvents := 0; FirstNewKeyMs := 0; Timeout := false |}.

Record ReplayResult := { EventsInWindow : Z; WindowMs : Z }.

(** time.Duration.Milliseconds *)
Definition millisecond : Z := 1000000.
Definition Milliseconds (d : Z) : Z := Z.quot d millisecond.

(** ** Opening *)

Definition harness_open (cfg : StoreConfig) : PrefixOpenConfig := {|
  ocStore := cfg; ocPrefixID := "debug-feed"; FlushEvery := 5 * second;
  Retention := negb (bool_decide (cfgBackend cfg = BackendMemory));
  RunMaint := negb (bool_decide (cfgBackend cfg = BackendMemory))
|}.

(** [Open]: the prefix database and the label the tool prints. *)
Definition Open_ (answer : list (call * option error) -> call -> option error) (backend : Backend) (prefixSuffix : string) (w : world)
  : result (PrefixDB * string) * world :=
  match OpenPrefixDB answer (harness_open (StoreConfigFromEnv (wEnv w) backend prefixSuffix)) w with
  | (Err e, w) => (Err e, w)
  | (Ok pdb, w) => (Ok (pdb, "debug-feed-" +:+ prefixSuffix), w)
  end.

Section Harness.
Context {I : IsleDB}.
Variable clock : nat -> time.
Variable wait : nat -> option error.

(** The prefix and the number of effects so far. *)
Record Harness := { hDB : db; hTicks : nat }.

Definition set_db (d : db) (h : Harness) : Harness := {| hDB := d; hTicks := hTicks h |}.
Definition ticked (h : Harness) : Harness := {| hDB := hDB h; hTicks := S (hTicks h) |}.

(** ** Writing *)

(** The value has the time of the write. *)
Definition seq_value (seq : Z) (h : Harness) : value :=
  Raw ("v-" +:+ itoa (unix_nano (clock (hTicks h))) +:+ "-" +:+ itoa seq).

Fixpoint write_batch (n : nat) (seq : Z) (h : Harness) : option error * Harness :=
  match n with
  | O => (None, h)
  | S n =>
      match writer_put (key seq) (seq_value seq h) (hDB h) with
      | (Some e, d) => (Some e, set_db d (ticked h))
      | (None, d) => write_batch n (seq + 1) (set_db d (ticked h))
      end
  end.

Definition WriteBatch (n startSeq : Z) (h : Harness) : option error * Harness := write_batch (Z.to_nat n) startSeq h.

Definition Flush (h : Harness) : option error * Harness :=
  match writer_flush (hDB h) with
  | (Some e, d) => (Some e, set_db d h)
  | (None, d) => let '(e, d) := RefreshReader false d in (e, set_db d h)
  end.

(** ** Reading the change feed *)

(** The page loop, with the cursor it has reached. *)
Fixpoint read_loop (step : Z -> list Change -> Z) (fuel : nat) (d : db) (next : cursor) (total : Z) : option ((Z * cursor) * option error) :=
  match fuel with
  | O => None
  | S fuel =>
      match change_read d next with
      | Err e => Some ((total, next), Some e)
      | Ok page =>
          let total := step total (pgChanges page) in
          if pgCaughtUp page then Some ((total, pgNext page), None) else read_loop step fuel d (pgNext page) total
      end
  end.

Definition count_keys (total : Z) (chs : list Change) : Z :=
  foldl (fun n ch => if counted_key ch then n + 1 else n) total chs.

(** From the cursor, or from the head when it is the zero cursor. *)
Definition readChangesSince (fuel : nat) (cur : cursor) (d : db) : option ((Z * cursor) * option error) :=
  match change_open d with
  | Some e => Some ((0, cur), Some e)
  | None =>
      if cursor_is_zero cur then
        match change_bounds d with
        | Err e => Some ((0, cur), Some e)
        | Ok (_, head) => read_loop count_keys fuel d head 0
        end
      else read_loop count_keys fuel d cur 0
  end.

(** The cursor after every committed change; the cursor that comes with an error
    is not used. *)
Definition drainToHead (fuel : nat) (d : db) : option (result cursor) :=
  match change_open d with
  | Some e => Some (Err e)
  | None =>
      match change_bounds d with
      | Err e => Some (Err e)
      | Ok (oldest, head) =>
          if cursor_is_zero oldest then Some (Ok head)
          else match read_loop (fun _ _ => 0) fuel d oldest 0 with
               | None => None
               | Some ((_, _), Some e) => Some (Err e)
               | Some ((_, cur), None) => Some (Ok cur)
               end
      end
  end.

(** ** The experiments *)

Definition delays : list Z := [0; 50; 100; 250; 500; 1000; 2000; 5000].

Fixpoint visibility_loop (fuel : nat) (head : cursor) (flushAt : time) (ds : list Z) (rows : list VisibilityRow) (h : Harness)
  : option ((list VisibilityRow * option error) * Harness) :=
  match ds with
  | [] => Some ((rows, None), h)
  | d :: ds =>
      let elapsed := time_sub (clock (hTicks h)) flushAt in
      let h := ticked h in
      let want := wrap64 (d * millisecond - elapsed) in
      let '(e, h) := if 0 <? want then (wait (hTicks h), ticked h) else (None, h) in
      match e with
      | Some e => Some ((rows, Some e), h)
      | None =>
          match readChangesSince fuel head (hDB h) with
          | None => None
          | Some ((n, _), e) =>
              visibility_loop fuel head flushAt ds
                (rows ++ [{| DelayMs := d; KeysSeen := n; RowErr := match e with Some e => Error e | None => "" end |}]) h
          end
      end
  end.

(** [None] is running out of fuel. *)
Definition RunVisibility (fuel : nat) (batchSize : Z) (h : Harness) : option ((list VisibilityRow * option error) * Harness) :=
  match WriteBatch batchSize 1 h with
  | (Some e, h) => Some (([], Some e), h)
  | (None, h) =>
    match Flush h with
    | (Some e, h) => Some (([], Some e), h)
    | (None, h) =>
      match drainToHead fuel (hDB h) with
      | None => None
      | Some (Err e) => Some (([], Some e), h)
      | Some (Ok head) =>
        match WriteBatch batchSize (batchSize + 1) h with
        | (Some e, h) => Some (([], Some e), h)
        | (None, h) =>
          let flushAt := clock (hTicks h) in
          match Flush (ticked h) with
          | (Some e, h) => Some (([], Some e), h)
          | (None, h) => visibility_loop fuel head flushAt delays [] h
          end
        end
      end
    end
  end.

(** The polling loop; [rounds] is fuel for its rounds. *)
Fixpoint incremental_loop (rounds fuel : nat) (head : cursor) (start deadline : time) (newKeys : Z) (total : Z) (first : option Z) (h : Harness)
  : option ((IncrementalResult * option error) * Harness) :=
  match rounds with
  | O => None
  | S rounds =>
      let firstMs := default 0 first in
      if negb (time_before (clock (hTicks h)) deadline) then
        Some (({| WroteKeys := newKeys; TailEvents := total; FirstNewKeyMs := firstMs; Timeout := true |}, None), ticked h)
      else
        let h := ticked h in
        match readChangesSince fuel head (hDB h) with
        | None => None
        | Some (_, Some e) => Some ((no_incremental, Some e), h)
        | Some ((n, _), None) =>
            let '(first, h) :=
              if total <? n then
                match first with
                | Some _ => (first, h)
                | None => (Some (Milliseconds (time_sub (clock (hTicks h)) start)), ticked h)
                end
              else (first, h) in
            let total := if total <? n then n else total in
            if newKeys <=? total then
              Some (({| WroteKeys := newKeys; TailEvents := total; FirstNewKeyMs := default 0 first; Timeout := false |}, None), h)
            else
              match wait (hTicks h) with
              | Some e => Some ((no_incremental, Some e), ticked h)
              | None => incremental_loop rounds fuel head start deadline newKeys total first (ticked h)
              end
        end
  end.

Definition RunIncremental (rounds fuel : nat) (priorKeys newKeys : Z) (timeout : Z) (h : Harness)
  : option ((IncrementalResult * option error) * Harness) :=
  match drainToHead fuel (hDB h) with
  | None => None
  | Some (Err e) => Some ((no_incremental, Some e), h)
  | Some (Ok head) =>
    let start := clock (hTicks h) in
    match WriteBatch newKeys (priorKeys + 1) (ticked h) with
    | (Some e, h) => Some ((no_incremental, Some e), h)
    | (None, h) =>
      match Flush h with
      | (Some e, h) => Some ((no_incremental, Some e), h)
      | (None, h) =>
        let deadline := clock (hTicks h) + timeout in
        incremental_loop rounds fuel head start deadline newKeys 0 None (ticked h)
      end
    end
  end.

Definition RunReplay (fuel : nat) (window : Z) (h : Harness) : option (ReplayResult * option error) :=
  match CountChangeFeed fuel (hDB h) with
  | None => None
  | Some (_, Some e) => Some ({| EventsInWindow := 0; WindowMs := 0 |}, Some e)
  | Some (n, None) => Some ({| EventsInWindow := n; WindowMs := Milliseconds window |}, None)
  end.

(** ** The tool (cmd/isledb-debug/main.go) *)

Definition visibilityBatch : Z := 5.
Definition memoryVisibilityMaxMs : Z := 500.
Definition s3VisibilityMaxMs : Z := 5000.
Definition incrementalFirstNewMs : Z := 2000.
Definition replayWindow : Z := 2 * second.

Inductive verdictStatus := verdictPass | verdictFail | verdictInfo.

#[export] Instance verdictStatus_eq_dec : EqDecision verdictStatus.
Proof. solve_decision. Defined.

Definition verdict : Type := string * verdictStatus.

Definition visibilityBudget (b : Backend) : Z :=
  if bool_decide (b = BackendMemory) then memoryVisibilityMaxMs else s3VisibilityMaxMs.

(** The loop over the rows: the first delay with all keys, -1 before one. *)
Definition first_visible (first : Z) (r : VisibilityRow) : Z :=
  if (visibilityBatch <=? KeysSeen r) && (first <? 0) && bool_decide (RowErr r = "") then DelayMs r else first.

Definition runVisibility (fuel : nat) (b : Backend) (h : Harness) : option (verdict * Harness) :=
  match RunVisibility fuel visibilityBatch h with
  | None => None
  | Some ((_, Some _), h) => Some (("visibility", verdictFail), h)
  | Some ((rows, None), h) =>
      let firstVisible := foldl first_visible (-1) rows in
      Some (("visibility", if firstVisible <? 0 then verdictFail
                           else if visibilityBudget b <? firstVisible then verdictFail else verdictPass), h)
  end.

Definition runIncremental (rounds fuel : nat) (timeout : Z) (h : Harness) : option (verdict * Harness) :=
  let fail h := Some (("incremental", verdictFail), h) in
  match WriteBatch 10 1 h with
  | (Some _, h) => fail h
  | (None, h) =>
    match Flush h with
    | (Some _, h) => fail h
    | (None, h) =>
      match RunIncremental rounds fuel 10 5 timeout h with
      | None => None
      | Some ((_, Some _), h) => fail h
      | Some ((res, None), h) =>
          Some (("incremental", if Timeout res then verdictFail
                                else if TailEvents res <? WroteKeys res then verdictFail
                                else if incrementalFirstNewMs <=? FirstNewKeyMs res then verdictFail else verdictPass), h)
      end
    end
  end.

Definition runReplay (fuel : nat) (h : Harness) : option (verdict * Harness) :=
  let fail h := Some (("replay", verdictFail), h) in
  match WriteBatch 20 1 h with
  | (Some _, h) => fail h
  | (None, h) =>
    match Flush h with
    | (Some _, h) => fail h
    | (None, h) =>
      match RunReplay fuel replayWindow h with
      | None => None
      | Some (_, Some _) => fail h
      | Some (res, None) => if 0 <? EventsInWindow res then Some (("replay", verdictInfo), h) else fail h
      end
    end
  end.

(** [if exp == "all" || exp == name { verdicts = append(verdicts, m) }] *)
Definition chosen (exp name : string) (m : Harness -> option (verdict * Harness)) (o : option (list verdict * Harness))
  : option (list verdict * Harness) :=
  match o with
  | None => None
  | Some (vs, h) =>
      if bool_decide (exp = "all" \/ exp = name) then
        match m h with Some (v, h) => Some (vs ++ [v], h) | None => None end
      else Some (vs, h)
  end.

Definition experiments (rounds fuel : nat) (exp : string) (b : Backend) (timeout : Z) (h : Harness) : option (list verdict * Harness) :=
  let exp := ToLower exp in
  chosen exp "replay" (runReplay fuel)
    (chosen exp "incremental" (runIncremental rounds fuel timeout)
      (chosen exp "visibility" (runVisibility fuel b) (Some ([], h)))).

Definition anyFailed (vs : list verdict) : bool := existsb (fun v => bool_decide (v.2 = verdictFail)) vs.
Definition failedVerdicts (vs : list verdict) : list verdict := List.filter (fun v => bool_decide (v.2 = verdictFail)) vs.

(** [run]: the exit code.  [prefix_db] is what the opened prefix holds. *)
Definition run_tool (answer : list (call * option error) -> call -> option error) (prefix_db : StoreConfig -> string -> db)
    (rounds fuel : nat) (b : Backend) (exp prefixSuffix : string) (timeout : Z) (w : world) : option (Z * world) :=
  if bool_decide (b = BackendTigris) &&
     (bool_decide (Getenv (wEnv w) "AWS_ACCESS_KEY_ID" = "") || bool_decide (Getenv (wEnv w) "AWS_SECRET_ACCESS_KEY" = "")) then Some (1, w)
  else
    let cfg := StoreConfigFromEnv (wEnv w) b prefixSuffix in
    match Open_ answer b prefixSuffix w with
    | (Err _, w) => Some (1, w)
    | (Ok (pdb, _), w) =>
        match experiments rounds fuel exp b timeout {| hDB := prefix_db cfg (pID pdb); hTicks := 0 |} with
        | None => None
        | Some (vs, _) => let '(_, w) := Close answer pdb w in Some (if anyFailed vs then 1 else 0, w)
        end
    end.

(** ** The keys *)

Lemma str_le_negb_lt x y : str_le x y = negb (str_lt y x).
Proof. by rewrite str_lt_negb_le, negb_involutive. Qed.

Lemma str_le_app p a b : str_le (p +:+ a) (p +:+ b) = str_le a b.
Proof.
  rewrite !str_le_negb_lt. f_equal. induction p as [|c p IH]; [done|].
  rewrite !str_app_cons, str_lt_cons, N.ltb_irrefl, N.eqb_refl. exact IH.
Qed.

Lemma below_ff s : has_byte (ascii_of_N 255) s = false -> str_le s (String (ascii_of_N 255) "") = true.
Proof.
  destruct s as [|c s]; [done|]. cbn [has_byte]. intros [Hc _]%orb_false_iff. apply bool_decide_eq_false in Hc.
  rewrite str_le_negb_lt, str_lt_cons. pose proof (N_of_ascii_bound c) as Hb.
  assert (N_of_ascii c <> 255%N) by (intros E; apply Hc, N_of_ascii_inj; by rewrite E).
  rewrite (N_ascii_embedding 255) by done. rewrite (proj2 (N.ltb_ge _ _)), (proj2 (N.eqb_neq _ _)) by lia. done.
Qed.

Lemma has_byte_zeros n : has_byte (ascii_of_N 255) (zeros n) = false.
Proof. by induction n. Qed.

Lemma fmt04_below z : has_byte (ascii_of_N 255) (fmt04 z) = false.
Proof.
  assert (Hi : forall z, has_byte (ascii_of_N 255) (itoa z) = false).
  { intros z'. apply has_byte_itoa; [|done]. intros d Hd. unfold pretty_N_char. by repeat case_match. }
  unfold fmt04. case_match; by rewrite !has_byte_app, has_byte_zeros, Hi.
Qed.

Lemma key_counted seq v : counted_key (put_change (key seq) v) = true.
Proof.
  unfold counted_key, key, minKey, maxKey. cbn [put_change chKey]. apply andb_true_iff. split.
  - change keyPrefix with (keyPrefix +:+ "") at 1. rewrite str_le_app. by destruct (fmt04 seq).
  - rewrite str_le_app. apply below_ff, fmt04_below.
Qed.

(** ** What an experiment does on a store that answers *)

Context {L : IsleDBLaws I} {R : IsleDBReliable I} {C : IsleDBCursors I}.

(** The feed grows; cursors stay where they are. *)
Definition grows (d d' : db) : Prop :=
  (exists l, feed_log d' = feed_log d ++ l) /\ forall c n, cursor_at d c n -> cursor_at d' c n.

#[local] Instance grows_preorder : PreOrder grows.
Proof.
  split; [intros d; split; [exists []; by rewrite app_nil_r|done]|].
  intros d1 d2 d3 [[l1 H1] H2] [[l2 H3] H4]. split; [exists (l1 ++ l2); by rewrite H3, H1, app_assoc|auto].
Qed.

Lemma write_batch_spec n seq h : exists h' chs, write_batch n seq h = (None, h') /\
  hTicks h' = (hTicks h + n)%nat /\ grows (hDB h) (hDB h') /\ length chs = n /\ Forall (fun ch => counted_key ch = true) chs /\
  feed_log (hDB h') ++ unflushed (hDB h') = feed_log (hDB h) ++ unflushed (hDB h) ++ chs.
Proof.
  revert seq h. induction n as [|n IH]; intros seq h; cbn [write_batch].
  { exists h, []. rewrite app_nil_r. split_and!; [done|lia|done..|constructor|done]. }
  pose proof (put_reliable (key seq) (seq_value seq h) (hDB h)) as Hr.
  destruct (writer_put (key seq) (seq_value seq h) (hDB h)) as [e d] eqn:E. cbn [fst] in Hr. subst e.
  destruct (IH (seq + 1) (set_db d (ticked h))) as (h' & chs & Hw & Ht & Hg & Hlen & Hc & Hlog).
  exists h', (put_change (key seq) (seq_value seq h) :: chs). cbn [set_db ticked hDB hTicks] in *.
  destruct (put_law _ _ _ _ E) as [_ Hp]. split_and!; [exact Hw|lia| |simpl; lia|constructor; [apply key_counted|done]|].
  - etrans; [|exact Hg]. split; [by eapply put_log|intros c k; by eapply put_cursor].
  - rewrite Hlog. rewrite app_assoc, Hp, <-!app_assoc. done.
Qed.

Lemma harness_flush h : exists h', Flush h = (None, h') /\ hTicks h' = hTicks h /\ grows (hDB h) (hDB h') /\
  unflushed (hDB h') = [] /\ feed_log (hDB h') = feed_log (hDB h) ++ unflushed (hDB h).
Proof.
  unfold Flush. pose proof (flush_reliable (hDB h)) as Hr. destruct (writer_flush (hDB h)) as [e d] eqn:E. cbn [fst] in Hr. subst e.
  unfold RefreshReader. pose proof (refresh_reliable d) as Hr. destruct (reader_refresh d) as [e d'] eqn:E'. cbn [fst] in Hr. subst e.
  eexists. split; [done|]. cbn [set_db hDB hTicks]. destruct (flush_law _ _ E) as (_ & Hu & Hl).
  destruct (refresh_law _ _ E') as (_ & Hu' & Hl' & _). split_and!; [done| |congruence|congruence]. split.
  - rewrite Hl', Hl. eauto.
  - intros c n Hc. eapply refresh_cursor; [exact E'|]. by eapply flush_cursor.
Qed.

(** A batch of counted keys, committed. *)
Definition batch_done (n : nat) (d d' : db) : Prop :=
  grows d d' /\ unflushed d' = [] /\ exists chs, length chs = n /\ Forall (fun ch => counted_key ch = true) chs /\
    feed_log d' = feed_log d ++ unflushed d ++ chs.

Lemma WriteBatch_spec n seq h : exists h1, WriteBatch n seq h = (None, h1) /\ hTicks h1 = (hTicks h + Z.to_nat n)%nat /\
  forall k, exists h2, Flush {| hDB := hDB h1; hTicks := k |} = (None, h2) /\ hTicks h2 = k /\ batch_done (Z.to_nat n) (hDB h) (hDB h2).
Proof.
  unfold WriteBatch. destruct (write_batch_spec (Z.to_nat n) seq h) as (h1 & chs & Hw & Ht & Hg & Hlen & Hc & Hlog).
  exists h1. split; [done|]. split; [done|]. intros k.
  destruct (harness_flush {| hDB := hDB h1; hTicks := k |}) as (h2 & Hf & Ht2 & Hg2 & Hu & Hl). exists h2. cbn [hDB hTicks] in *.
  split_and!; [done..|]. split_and!; [by etrans|done|]. exists chs. split_and!; [done..|]. by rewrite Hl, Hlog.
Qed.

Lemma read_loop_spec (step : Z -> list Change -> Z) fuel d cur n t :
  (forall t a b, step (step t a) b = step t (a ++ b)) -> cursor_at d cur n -> (length (feed_log d) - n < fuel)%nat ->
  exists cur', read_loop step fuel d cur t = Some ((step t (drop n (feed_log d)), cur'), None) /\ cursor_at d cur' (length (feed_log d)).
Proof.
  intros Hs. revert cur n t. induction fuel as [|fuel IH]; intros cur n t Hc Hf; [lia|]. cbn [read_loop].
  destruct (read_reliable d cur) as [page Hp]. rewrite Hp.
  destruct (read_law d cur n page Hc Hp) as (m & Hpage & Hnext & Hcaught & Hmore). rewrite Hpage.
  pose proof (cursor_bounded _ _ _ Hnext) as Hb. destruct (pgCaughtUp page) eqn:E.
  - exists (pgNext page). pose proof (proj1 Hcaught eq_refl) as Hle. assert (Hm : (n + m)%nat = length (feed_log d)) by lia.
    rewrite Hm in Hnext. rewrite take_ge by (rewrite length_drop; lia). by split.
  - specialize (Hmore eq_refl). destruct (IH (pgNext page) (n + m)%nat (step t (take m (drop n (feed_log d)))) Hnext) as (cur' & Hr & Hc'); [lia|].
    exists cur'. split; [|done]. rewrite Hr, Hs. do 4 f_equal. by rewrite <-drop_drop, take_drop.
Qed.

Lemma count_keys_app t a b : count_keys (count_keys t a) b = count_keys t (a ++ b).
Proof. unfold count_keys. by rewrite foldl_app. Qed.

Lemma count_keys_all t chs : Forall (fun ch => counted_key ch = true) chs -> count_keys t chs = t + Z.of_nat (length chs).
Proof.
  intros Hc. revert t. induction Hc as [|ch chs Hch _ IH]; intros t; [simpl; lia|]. unfold count_keys in *. cbn [foldl length].
  rewrite Hch, IH. lia.
Qed.

(** Draining ends at the last change of a feed that has some. *)
Lemma drainToHead_spec fuel d : feed_log d <> [] -> (length (feed_log d) < fuel)%nat ->
  exists cur, drainToHead fuel d = Some (Ok cur) /\ cursor_at d cur (length (feed_log d)).
Proof.
  intros Hne Hf. unfold drainToHead. rewrite change_open_reliable. destruct (bounds_reliable d) as [[oldest head] Hb]. rewrite Hb.
  apply feed_open in Hb. destruct (cursor_is_zero oldest); [done|].
  destruct (read_loop_spec (fun _ _ => 0) fuel d oldest 0 0 (fun _ _ _ => eq_refl) Hb) as (cur & Hr & Hc); [lia|].
  rewrite Hr. eauto.
Qed.

(** A reader at the end of a feed sees just the batch written since. *)
Lemma readChangesSince_spec fuel d d' cur n : cursor_at d cur (length (feed_log d)) -> unflushed d = [] -> batch_done n d d' ->
  (length (feed_log d') < fuel)%nat -> exists cur', readChangesSince fuel cur d' = Some ((Z.of_nat n, cur'), None).
Proof.
  intros Hc Hu ([_ Hg] & _ & chs & Hlen & Hall & Hlog) Hf. unfold readChangesSince. rewrite change_open_reliable.
  apply Hg in Hc. rewrite (cursor_nonzero _ _ _ Hc).
  destruct (read_loop_spec count_keys fuel d' cur (length (feed_log d)) 0 count_keys_app Hc) as (cur' & Hr & _); [lia|].
  exists cur'. rewrite Hr, Hlog, Hu. cbn [app]. rewrite drop_app_length, (count_keys_all _ _ Hall). do 4 f_equal. lia.
Qed.
(** ** The verdicts *)

Lemma visibility_rows fuel head flushAt n cur ds rows h : (forall k, wait k = None) ->
  readChangesSince fuel head (hDB h) = Some ((n, cur), None) ->
  exists h', visibility_loop fuel head flushAt ds rows h =
      Some ((rows ++ ((fun d => {| DelayMs := d; KeysSeen := n; RowErr := "" |}) <$> ds), None), h') /\ hDB h' = hDB h.
Proof.
  intros Hw. revert rows h. induction ds as [|d ds IH]; intros rows h Hr; cbn [visibility_loop fmap list_fmap].
  { exists h. by rewrite app_nil_r. }
  rewrite (Hw (hTicks (ticked h))). set (h1 := if 0 <? _ then _ else _).
  assert (H1 : exists h2, h1 = (None, h2) /\ hDB h2 = hDB h) by (subst h1; case_match; eauto).
  destruct H1 as (h2 & -> & Hd). rewrite Hd, Hr. destruct (IH (rows ++ [{| DelayMs := d; KeysSeen := n; RowErr := "" |}]) h2) as (h' & -> & Hd').
  { by rewrite Hd. }
  exists h'. split; [|congruence]. by rewrite <-app_assoc.
Qed.

(** The committed feed and what is pending, together. *)
Definition feed_length (d : db) : nat := length (feed_log d ++ unflushed d).

Lemma batch_length n d d' : batch_done n d d' -> feed_length d' = (feed_length d + n)%nat /\ length (feed_log d') = (feed_length d + n)%nat.
Proof.
  intros (_ & Hu & chs & Hn & _ & Hl). unfold feed_length. rewrite Hu, app_nil_r, Hl, app_assoc, length_app, Hn. lia.
Qed.

Lemma batch_nonempty n d d' : (0 < n)%nat -> batch_done n d d' -> feed_log d' <> [].
Proof. intros Hn Hb E. apply batch_length in Hb as [_ Hb]. rewrite E in Hb. simpl in Hb. lia. Qed.

Lemma harness_eta h : h = {| hDB := hDB h; hTicks := hTicks h |}.
Proof. by destruct h. Qed.

Lemma runVisibility_spec fuel b h : (forall k, wait k = None) -> (feed_length (hDB h) + 10 < fuel)%nat ->
  exists h', runVisibility fuel b h = Some (("visibility", verdictPass), h') /\ feed_length (hDB h') = (feed_length (hDB h) + 10)%nat.
Proof.
  intros Hw Hf. unfold runVisibility, RunVisibility.
  destruct (WriteBatch_spec visibilityBatch 1 h) as (h1 & -> & _ & Hflush). destruct (Hflush (hTicks h1)) as (h2 & Hf2 & _ & Hb2).
  rewrite (harness_eta h1), Hf2. destruct (batch_length _ _ _ Hb2) as [Hlen2 Hlen2']. change (Z.to_nat visibilityBatch) with 5%nat in *.
  destruct (drainToHead_spec fuel (hDB h2)) as (head & -> & Hc); [eapply batch_nonempty; [|exact Hb2]; lia|lia|].
  destruct (WriteBatch_spec visibilityBatch (visibilityBatch + 1) h2) as (h3 & -> & _ & Hflush3). destruct (Hflush3 (S (hTicks h3))) as (h4 & Hf4 & _ & Hb4).
  unfold ticked at 1. rewrite Hf4. destruct (batch_length _ _ _ Hb4) as [Hlen4 Hlen4']. change (Z.to_nat visibilityBatch) with 5%nat in *.
  destruct (readChangesSince_spec fuel _ _ head 5 Hc (proj1 (proj2 Hb2)) Hb4) as (cur & Hr); [lia|].
  destruct (visibility_rows fuel head (clock (hTicks h3)) 5 cur delays [] h4 Hw Hr) as (h' & -> & Hd). exists h'. split; [|rewrite Hd; lia].
  cbn [app]. change (foldl first_visible (-1) _) with 0. unfold visibilityBudget. by case_bool_decide.
Qed.

Lemma runIncremental_spec rounds fuel timeout h : (forall i j, (i <= j)%nat -> 0 <= clock j - clock i < 2 * second) -> 2 * second <= timeout ->
  (0 < rounds)%nat -> (feed_length (hDB h) + 15 < fuel)%nat ->
  exists h', runIncremental rounds fuel timeout h = Some (("incremental", verdictPass), h') /\ feed_length (hDB h') = (feed_length (hDB h) + 15)%nat.
Proof.
  intros Hck Ht Hr Hf. unfold runIncremental.
  destruct (WriteBatch_spec 10 1 h) as (h1 & -> & _ & Hflush). destruct (Hflush (hTicks h1)) as (h2 & Hf2 & _ & Hb2).
  rewrite (harness_eta h1), Hf2. destruct (batch_length _ _ _ Hb2) as [Hlen2 Hlen2']. change (Z.to_nat 10) with 10%nat in *.
  unfold RunIncremental. destruct (drainToHead_spec fuel (hDB h2)) as (head & -> & Hc); [eapply batch_nonempty; [|exact Hb2]; lia|lia|].
  destruct (WriteBatch_spec 5 (10 + 1) (ticked h2)) as (h3 & -> & Ht3 & Hflush3). destruct (Hflush3 (hTicks h3)) as (h4 & Hf4 & Ht4 & Hb4).
  rewrite (harness_eta h3), Hf4. destruct (batch_length _ _ _ Hb4) as [Hlen4 Hlen4']. change (Z.to_nat 5) with 5%nat in *.
  cbn [ticked hDB hTicks] in *.
  destruct (readChangesSince_spec fuel _ _ head 5 Hc (proj1 (proj2 Hb2)) Hb4) as (cur & Hread); [lia|].
  destruct rounds as [|rounds]; [lia|]. cbn [incremental_loop ticked hDB hTicks].
  assert (Hdl : time_before (clock (S (hTicks h4))) (clock (hTicks h4) + timeout) = true).
  { unfold time_before. apply Z.ltb_lt. pose proof (Hck (hTicks h4) (S (hTicks h4)) ltac:(lia)). lia. }
  rewrite Hdl. cbn [negb]. rewrite Hread. change (Z.of_nat 5) with 5. change (0 <? 5) with true. cbv iota beta. change (5 <=? 5) with true. cbv iota beta.
  exists (ticked (ticked (ticked h4))). split; [|cbn [ticked hDB]; rewrite Hlen4, Hlen2; lia]. cbn [Timeout TailEvents WroteKeys FirstNewKeyMs default from_option id].
  change (5 <? 5) with false. cbv iota. set (ms := Milliseconds _).
  assert (Hms : ms < incrementalFirstNewMs).
  { subst ms. unfold Milliseconds, incrementalFirstNewMs, time_sub, millisecond, second, int64_max, int64_min in *.
    pose proof (Hck (hTicks h2) (S (S (hTicks h4))) ltac:(lia)) as Hd. apply Z.quot_lt_upper_bound; lia. }
  by rewrite (proj2 (Z.leb_gt _ _) Hms).
Qed.

Lemma runReplay_spec fuel h : (feed_length (hDB h) + 20 < fuel)%nat ->
  exists h', runReplay fuel h = Some (("replay", verdictInfo), h').
Proof.
  intros Hf. unfold runReplay.
  destruct (WriteBatch_spec 20 1 h) as (h1 & -> & _ & Hflush). destruct (Hflush (hTicks h1)) as (h2 & Hf2 & _ & Hb2).
  rewrite (harness_eta h1), Hf2. destruct (batch_length _ _ _ Hb2) as [Hlen2 Hlen2']. change (Z.to_nat 20) with 20%nat in *.
  unfold RunReplay. rewrite CountChangeFeed_reliable by lia. cbn [EventsInWindow]. rewrite (proj2 (Z.ltb_lt _ _)) by lia. eauto.
Qed.

(** Reading a feed back is enough for the tool to be satisfied: on a store that
    answers and keeps IsleDB's promises, with a clock that advances less than two
    seconds and no cancellation, all three experiments pass, so the tool exits
    with 0. *)
Theorem harness_verdicts rounds fuel b exp timeout h :
  (forall k, wait k = None) -> (forall i j, (i <= j)%nat -> 0 <= clock j - clock i < 2 * second) -> 2 * second <= timeout ->
  (0 < rounds)%nat -> (feed_length (hDB h) + 45 < fuel)%nat -> ToLower exp = "all" ->
  exists h', experiments rounds fuel exp b timeout h =
    Some ([("visibility", verdictPass); ("incremental", verdictPass); ("replay", verdictInfo)], h').
Proof.
  intros Hw Hck Ht Hr Hf He. unfold experiments, chosen. rewrite He, !bool_decide_eq_true_2 by by left.
  destruct (runVisibility_spec fuel b h Hw) as (h1 & -> & H1); [lia|].
  destruct (runIncremental_spec rounds fuel timeout h1 Hck Ht Hr) as (h2 & -> & H2); [lia|].
  destruct (runReplay_spec fuel h2) as (h3 & ->); [lia|]. by exists h3.
Qed.
End Harness.

(** The tool closes the prefix it opened, whatever the experiments find; and an
    experiment it does not know is not an error: nothing is run and it exits
    with 0. *)
Theorem tool_exit {I : IsleDB} clock wait answer (prefix_db : StoreConfig -> string -> db) rounds fuel b exp suffix timeout w :
  closed "debug-feed" w ->
  (forall code w', run_tool clock wait answer prefix_db rounds fuel b exp suffix timeout w = Some (code, w') ->
     (code = 0 \/ code = 1) /\ live w' = live w) /\
  (ToLower exp ∉ ["all"; "visibility"; "incremental"; "replay"] -> b <> BackendTigris ->
     (exists p w1, Open_ answer b suffix w = (Ok p, w1)) ->
     exists w', run_tool clock wait answer prefix_db rounds fuel b exp suffix timeout w = Some (0, w')).
Proof.
  intros Hc. unfold run_tool, Open_. set (cfg := StoreConfigFromEnv _ _ _).
  pose proof (OpenPrefixDB_live answer (harness_open cfg) w Hc) as Ho. split.
  - intros code w'. destruct (_ && _); [intros [= <- <-]; by split; [right|]|].
    destruct (OpenPrefixDB answer (harness_open cfg) w) as [[p|e] w1]; [|intros [= <- <-]; by split; [right|]].
    destruct Ho as [Hid Hl]. destruct (experiments _ _ _ _ _ _ _ _) as [[vs h]|]; [|done].
    destruct (Close_run answer p w1) as (_ & _ & _ & _ & Hcl). destruct (Close answer p w1) as [e w2]. intros [= <- <-].
    split; [case_match; auto|]. simpl in Hcl. rewrite Hcl, Hl. apply set_eq. intros [k i].
    assert ((k, i) ∈ handles p -> (k, i) ∉ live w) by (intros Hi; apply handles_id in Hi as ->; rewrite Hid; apply Hc).
    set_solver.
  - intros He Hb (p & w1 & E). rewrite bool_decide_eq_false_2 by done. cbn [andb].
    destruct (OpenPrefixDB answer (harness_open cfg) w) as [[pdb|e] w2]; [|done].
    unfold experiments, chosen. rewrite !bool_decide_eq_false_2 by (intros [Hx|Hx]; rewrite Hx in He; set_solver).
    destruct (Close answer pdb w2) as [e w3]. by exists w3.
Qed.

(** ** A concrete run *)

Definition millis (n : nat) : time := Z.of_nat (Nat.min n 1000) * millisecond.

Definition fresh_prefix : Harness (I := MemStore.steady) := Build_Harness (I := MemStore.steady) MemStore.empty 0.

Lemma harness_verdicts_witness : exists h',
  experiments (I := MemStore.steady) millis (fun _ => None) 1 50 "ALL" BackendMemory (10 * second) fresh_prefix =
    Some ([("visibility", verdictPass); ("incremental", verdictPass); ("replay", verdictInfo)], h').
Proof.
  apply (harness_verdicts (I := MemStore.steady) (L := MemStore.steady_laws) (R := MemStore.steady_reliable) (C := MemStore.steady_cursors)
    millis (fun _ => None) 1 50 BackendMemory "ALL" (10 * second) fresh_prefix).
  - intros k. reflexivity.
  - intros i j Hij. unfold millis, millisecond, second. lia.
  - unfold second. lia.
  - lia.
  - vm_compute. lia.
  - vm_compute. reflexivity.
Defined.

Lemma tool_exit_witness : exists w',
  run_tool (I := MemStore.steady) millis (fun _ => None) (fun _ _ => None) (fun _ _ => MemStore.empty) 1 5
    BackendMemory "visiblity" "x" (10 * second) start = Some (0, w').
Proof.
  apply (proj2 (tool_exit (I := MemStore.steady) millis (fun _ => None) (fun _ _ => None) (fun _ _ => MemStore.empty) 1 5
    BackendMemory "visiblity" "x" (10 * second) start (fun k => not_elem_of_empty _))).
  - apply (bool_decide_unpack _). vm_compute. reflexivity.
  - vm_compute. discriminate.
  - eexists. eexists. vm_compute. reflexivity.
Defined.
