(* ===== verification/Demo.v ===== *)
(** * The demo process (cmd/demo/main.go)

    Start-up, the poll loop's [select], the web server and the signals, composed
    of LiveStores, Session, PollLoop and DemoServer.  A process is a state and a
    step is one request, one turn of a live stream, one round of the poll loop,
    or the end of the context.  This is coarser than the code, which takes the
    locks of the sessions and of the pipeline once per call within a request, a
    turn or a round: each step runs on the pipeline as it is then, and nothing
    comes between its effects.  Elsewhere the grain is finer: in DemoServer the
    pipeline is another one at every effect of a handler, and the viewer counters
    are proved per critical section ([viewers_interleaved]); the notification of
    the streams, which is one step here, is taken apart in Notify. *)

From S2P Require Import Prelude GoStrings GoTime Json Vehicle Regions Poller IsleDB ChangeFeed Store PrefixDB Session Coordinator LivePipeline LiveStores Replay PollLoop Web Views DemoServer.

Section Demo.
Context {MR : MapRange} {I : IsleDB} {SS : SliceSort}.
Variable clock : nat -> time.
Variable disk : nat -> disk_io.
Variable wire : nat -> option error.
Variable rand : nat -> result string.
Variable flusher : bool.
Variable local_zone : time -> Z.
Variable unmarshal : string -> result FeedMessage.

(** ** The state *)

(** [psPollNow] is the channel of capacity one; [psSignals] are the streams whose
    poll channel holds a signal; [psCancelled] says that the context is done and
    [psLoopDone] that the poll loop has returned. *)
Record Process := {
  psLoop : LoopState;
  psServer : Server;
  psPollNow : option string;
  psSignals : gset nat;
  psCancelled : bool;
  psLoopDone : bool
}.

(** [select { case pollNow <- regionID: default: }] *)
Definition post_region (pollNow : option string) (regionID : string) : option string :=
  match pollNow with None => Some regionID | Some _ => pollNow end.

(** The [ctx] of the poll loop: cancelled by a signal, by the listener, or by the
    loop itself. *)
Definition ctx_done (s : Process) : bool := psCancelled s || lStopped (psLoop s).

Inductive action :=
  | Request_ (ctx_Err : nat -> option error) (fuel : nat) (r : Request) (id : nat)
  | StreamTurn (id : nat) (ev : event)
  | Tick (env : cycle) (t : time)
  | RegionPoll (env : cycle) (t : time)
  | LoopExit
  | Cancel.

(** A stream's next turn consumes its signal. *)
Definition take_signal (id : nat) (ev : event) (signals : gset nat) : option (gset nat) :=
  match ev with
  | PollSignal => if decide (id ∈ signals) then Some (signals ∖ {[id]}) else None
  | _ => Some signals
  end.

(** After a round of the poll loop: [NotifyPoll] leaves a signal for every
    stream. *)
Definition after_round (pollNow : option string) (env : cycle) (s : Process) (o : LoopState * World) : Process :=
  let '(ls, w) := o in
  {| psLoop := ls; psServer := {| sWorld := w; sStreams := sStreams (psServer s) |}; psPollNow := pollNow;
     psSignals := if bool_decide (lNotified ls = lNotified (psLoop s)) then psSignals s else dom (sStreams (psServer s));
     psCancelled := psCancelled s || bool_decide (is_Some (cCtxErr env)); psLoopDone := psLoopDone s |}.

(** A round sees a context that was done before it. *)
Definition round_ok (env : cycle) (s : Process) : bool :=
  negb (psLoopDone s) && (negb (ctx_done s) || bool_decide (is_Some (cCtxErr env))).

Definition process_step (a : action) (s : Process) : option Process :=
  let pipe := fun _ : nat => lPipe (psLoop s) in
  match a with
  | Request_ ctx_Err fuel r id =>
      if bool_decide (rqPath r = "/healthz") then Some s
      else match sStreams (psServer s) !! id,
                 Handler clock disk pipe wire rand flusher local_zone true true ctx_Err fuel r (open_conn (sWorld (psServer s))) with
           | None, Some (o, c) =>
               Some {| psLoop := psLoop s;
                       psServer := {| sWorld := cWorld c;
                                      sStreams := match o with Some st => <[id := st]> (sStreams (psServer s))
                                                  | None => sStreams (psServer s) end |};
                       psPollNow := foldl post_region (psPollNow s) (cChanged c); psSignals := psSignals s;
                       psCancelled := psCancelled s; psLoopDone := psLoopDone s |}
           | _, _ => None
           end
  | StreamTurn id ev =>
      match sStreams (psServer s) !! id, take_signal id ev (psSignals s) with
      | Some st, Some signals =>
          let '(o, c) := stream_turn clock disk pipe wire flusher local_zone ev st (open_conn (sWorld (psServer s))) in
          Some {| psLoop := psLoop s;
                  psServer := {| sWorld := cWorld c;
                                 sStreams := match o with Some st => <[id := st]> (sStreams (psServer s))
                                             | None => delete id (sStreams (psServer s)) end |};
                  psPollNow := psPollNow s;
                  psSignals := match o with Some _ => signals | None => signals ∖ {[id]} end;
                  psCancelled := psCancelled s; psLoopDone := psLoopDone s |}
      | _, _ => None
      end
  | Tick env t =>
      if round_ok env s then
        Some (after_round (psPollNow s) env s (scheduled unmarshal DefaultBackoff clock disk env t (sWorld (psServer s)) (psLoop s)))
      else None
  | RegionPoll env t =>
      match psPollNow s with
      | Some regionID =>
          if round_ok env s then
            Some (after_round None env s (forRegion unmarshal DefaultBackoff clock disk env t regionID (sWorld (psServer s)) (psLoop s)))
          else None
      | None => None
      end
  | LoopExit =>
      if ctx_done s && negb (psLoopDone s) then
        Some {| psLoop := psLoop s; psServer := psServer s; psPollNow := psPollNow s; psSignals := psSignals s;
                psCancelled := psCancelled s; psLoopDone := true |}
      else None
  | Cancel =>
      Some {| psLoop := psLoop s; psServer := psServer s; psPollNow := psPollNow s; psSignals := psSignals s;
              psCancelled := true; psLoopDone := psLoopDone s |}
  end.

(** ** Start-up and shutdown *)

Variable answer : list (call * option error) -> call -> option error.
Variable prefix_db : StoreConfig -> string -> db.

(** [run] up to the start of its goroutines.  [now] and [file] are the time and
    the session file that [OpenSessionStore] reads, [fs] the files of the disk.
    The left result is the exit code. *)
Definition start_demo (backend : Backend) (pollInterval threshold : Z) (now : time) (file : result (option value)) (fs : gmap string value)
    (w : PrefixDB.world) : (Z + gmap string PrefixDB * Process) * PrefixDB.world :=
  if negb (bool_decide (backend = BackendMemory)) && negb (bool_decide (backend = BackendMinIO)) then (inl 1, w)
  else
    let cfg := StoreConfigFromEnv (wEnv w) backend "demo-kl" in
    match StartPipeline answer prefix_db cfg AllFeeds w with
    | (Err _, w) => (inl 1, w)
    | (Ok p, w) =>
        match OpenSessionStore now file DefaultSessionStorePath with
        | Err _ => let '(_, w) := StopPipeline answer p w in (inl 1, w)
        | Ok st =>
            (inr (lpHandles p,
              {| psLoop := {| lPipe := lpState p; lCoord := NewPollCoordinator pollInterval; lHealth := NewWriteHealth threshold;
                              lStopped := false; lNotified := 0 |};
                 psServer := {| sWorld := {| store := st; files := fs; ticks := 0 |}; sStreams := ∅ |};
                 psPollNow := None; psSignals := ∅; psCancelled := false; psLoopDone := false |}), w)
        end
    end.

(** [run] after [<-ctx.Done()]: the deferred [pipe.Close]; the exit code is 0. *)
Definition stop_demo (handles : gmap string PrefixDB) (w : PrefixDB.world) : Z * PrefixDB.world :=
  (0, snd (CloseAll answer handles w)).

(** ** The live state over a round *)

(** Agencies without the key separator, and every position under its own key. *)
Definition seen_ok (p : Pipeline) : Prop :=
  (forall id, is_Some (agencies p !! id) -> no_colon id = true) /\
  map_Forall (fun vk q => vehicle_key q = vk /\ no_colon (Agency q) = true) (vehicleSeen p).

Definition live_ok (p : Pipeline) : Prop := finite_pipeline p /\ seen_ok p.

(** No vehicle is forgotten or goes back in time. *)
Definition seen_le (p p' : Pipeline) : Prop :=
  forall vk q, vehicleSeen p !! vk = Some q -> exists q', vehicleSeen p' !! vk = Some q' /\ Timestamp q <= Timestamp q'.

#[local] Instance seen_le_preorder : PreOrder seen_le.
Proof.
  split; [intros p vk q Hq; exists q; by split|]. intros p1 p2 p3 H12 H23 vk q Hq.
  destruct (H12 vk q Hq) as (q2 & Hq2 & ?). destruct (H23 vk q2 Hq2) as (q3 & ? & ?). exists q3. split; [done|lia].
Qed.

Definition same_view (p p' : Pipeline) : Prop :=
  dom (agencies p') = dom (agencies p) /\ vehicleSeen p' = vehicleSeen p /\ ingestBuf p' = ingestBuf p.

(** Properties that the rounds of the poll loop keep. *)
Record kept (P : Pipeline -> Prop) : Prop := {
  kept_view p p' : same_view p p' -> P p -> P p';
  kept_write pos v p : P p -> is_Some (agencies p !! Agency pos) -> ValueBytes pos = Ok v -> P (record_write pos p)
}.

Lemma runPoll_keeps P env feeds ids s : kept P -> P (lPipe s) ->
  P (lPipe (runPoll unmarshal DefaultBackoff env feeds ids s)).
Proof.
  intros [Hv Hw] HP. unfold runPoll. case_bool_decide; [done|].
  assert (HP0 : P (SetLastPolledAgencies (AgencyIDs feeds) (lPipe s))) by (eapply Hv; [|exact HP]; done).
  case_bool_decide; [done|]. case_bool_decide; [eapply Hv; [|exact HP0]; done|].
  destruct (Write _ _) as [[n [e|]] p1] eqn:E.
  all: assert (HP1 : P p1) by (eapply (write_loop_keeps P); [|exact Hw|exact E|exact HP0];
    intros pos aw q Hq [d Ha]; eapply Hv; [|exact Hq]; split; [|done]; simpl; rewrite dom_insert_L; apply elem_of_dom_2 in Ha; set_solver).
  { exact HP1. }
  destruct (FlushAll p1) as [[e|] p2] eqn:Ef; apply FlushAll_keeps in Ef as [Hd Hp].
  all: assert (HP2 : P p2) by (eapply Hv; [|exact HP1]; rewrite Hp; done).
  - exact HP2.
  - simpl. eapply Hv; [|exact HP2]. done.
Qed.

Lemma kept_live_ok : kept live_ok.
Proof.
  split.
  - intros p p' (Hd & Hs & Hi) ([H1 H2] & H3 & H4). split; split; rewrite ?Hs, ?Hi; try done.
    intros id Hid%elem_of_dom. rewrite Hd in Hid. by apply H3, elem_of_dom.
  - intros pos v p ([H1 H2] & H3 & H4) Ha Hv. split; [|split; [done|]].
    + apply record_write_finite; [|by split]. apply encodable_finite, ValueBytes_ok. eauto.
    + intros vk q. simpl. rewrite keep_latest_spec. destruct (decide (vk = vehicle_key pos)) as [->|]; [|apply H4].
      destruct (vehicleSeen p !! vehicle_key pos) as [q0|] eqn:E; [case_match|]; intros [= <-]; auto.
Qed.

Lemma kept_seen_le p0 : kept (seen_le p0).
Proof.
  split.
  - intros p p' (_ & Hs & _) Hp vk q Hq. rewrite Hs. by apply Hp.
  - intros pos v p Hp _ _. etrans; [exact Hp|]. intros vk q Hq. simpl. rewrite keep_latest_spec.
    destruct (decide (vk = vehicle_key pos)) as [->|]; [|by exists q]. rewrite Hq. unfold time_after.
    destruct (Z.ltb_spec (Timestamp q) (Timestamp pos)); eexists; (split; [done|lia]).
Qed.

(** A round that notifies has every position it polled in memory, or a later one
    of the vehicle. *)
Definition has_position (pos : VehiclePosition) (p : Pipeline) : Prop :=
  no_colon (Agency pos) = true /\ exists q, vehicleSeen p !! vehicle_key pos = Some q /\ Timestamp pos <= Timestamp q.

Lemma has_position_le pos p p' : seen_le p p' -> has_position pos p -> has_position pos p'.
Proof.
  intros Hle (Hn & q & Hq & Ht). split; [done|]. destruct (Hle _ _ Hq) as (q' & Hq' & ?). exists q'. split; [done|lia].
Qed.

Lemma record_write_has pos p : no_colon (Agency pos) = true -> has_position pos (record_write pos p).
Proof.
  intros Hn. split; [done|]. simpl. rewrite keep_latest_spec, decide_True by done.
  destruct (vehicleSeen p !! vehicle_key pos) as [q|]; [|exists pos; split; [done|lia]].
  unfold time_after. destruct (Z.ltb_spec (Timestamp q) (Timestamp pos)); eexists; (split; [done|lia]).
Qed.

Lemma write_loop_has ps puts p n p' : write_loop ps puts p = ((n, None), p') ->
  (forall id, is_Some (agencies p !! id) -> no_colon id = true) -> Forall (fun pos => has_position pos p') ps.
Proof.
  revert puts p. induction ps as [|pos ps IH]; intros puts p; cbn [write_loop]; [constructor|].
  destruct (agencies p !! Agency pos) as [aw|] eqn:Ha; [|done]. destruct (ValueBytes pos) as [v|] eqn:Ev; [|done].
  destruct (writer_put _ _ _) as [[e|] aw']; [done|]. intros Hw Hag. set (p1 := set_agencies _ p) in Hw. constructor.
  - eapply has_position_le; [|apply (record_write_has pos p1), Hag; by rewrite Ha].
    eapply (write_loop_keeps (seen_le (record_write pos p1))); [| |exact Hw|done]; intros ? ? q Hq; [done|].
    intros Hi Hv. by eapply (kept_write _ (kept_seen_le _)).
  - eapply IH; [exact Hw|]. intros id Hid. apply Hag. simpl in Hid. destruct (decide (id = Agency pos)) as [->|]; [by rewrite Ha|].
    by rewrite lookup_insert_ne in Hid.
Qed.

Lemma runPoll_stored env feeds ids s : live_ok (lPipe s) ->
  let s' := runPoll unmarshal DefaultBackoff env feeds ids s in
  lNotified s' <> lNotified s -> Forall (fun pos => has_position pos (lPipe s')) (cycle_positions unmarshal DefaultBackoff env feeds).
Proof.
  intros [_ [Hag _]]. cbv zeta. unfold runPoll. case_bool_decide; [done|]. case_bool_decide; [done|].
  fold (cycle_positions unmarshal DefaultBackoff env feeds).
  case_bool_decide; [done|]. set (all := cycle_positions _ _ env feeds). set (p0 := SetLastPolledAgencies _ _).
  destruct (Write all p0) as [[n [e|]] p1] eqn:E; [done|]. destruct (FlushAll p1) as [[e|] p2] eqn:Ef; [done|].
  intros _. cbn [lPipe mark_done]. apply FlushAll_keeps in Ef as [_ Hp].
  eapply Forall_impl; [eapply write_loop_has; [exact E|exact Hag]|]. intros pos. apply has_position_le.
  intros vk q Hq. exists q. rewrite Hp. by split.
Qed.
(** ** The sessions over a round *)

Section Rounds.
Variable P : World -> Prop.
Hypothesis HP : closed_under clock disk P.

Definition quiet_op {A} (m : M A) : Prop := forall w, P w -> P (m w).2.

Lemma quiet_ret {A} (a : A) : quiet_op (mret a).
Proof. by intros w Hw. Qed.

Lemma quiet_bind {A B} (m : M A) (f : A -> M B) : quiet_op m -> (forall a, quiet_op (f a)) -> quiet_op (a ← m; f a).
Proof. intros Hm Hf w Hw. unfold mbind, M_bind. specialize (Hm w Hw). destruct (m w) as [a w']. by apply Hf. Qed.

Lemma quiet_interval c id : quiet_op (intervalLocked clock disk c id).
Proof.
  apply quiet_bind; [|intros d; apply quiet_ret]. intros w. by apply (closed_op _ _ _ HP (OMinPollInterval id)).
Qed.

Lemma quiet_stale c id t : quiet_op (isStaleLocked clock disk c id t).
Proof.
  unfold isStaleLocked. destruct (lastPoll c !! id); [|apply quiet_ret].
  apply quiet_bind; [apply quiet_interval|intros i; apply quiet_ret].
Qed.

Lemma quiet_priority c id t : quiet_op (effectivePollPriorityLocked clock disk c id t).
Proof.
  unfold effectivePollPriorityLocked. case_match; [apply quiet_ret|]. destruct (lastPoll c !! id); [|apply quiet_ret].
  apply quiet_bind; [apply quiet_interval|intros i; apply quiet_ret].
Qed.

Lemma quiet_due c t ids best : quiet_op (next_due_loop clock disk c t ids best).
Proof.
  revert best. induction ids as [|id ids IH]; intros best; cbn [next_due_loop]; [apply quiet_ret|].
  apply quiet_bind; [apply quiet_stale|intros stale]. destruct (negb stale); [apply IH|].
  apply quiet_bind; [apply quiet_priority|intros pri]. cbv zeta. repeat case_match; apply IH.
Qed.

Lemma quiet_scheduled c t : quiet_op (FeedsForScheduledPoll clock disk c t).
Proof.
  apply quiet_bind; [|intros id; apply quiet_ret]. apply quiet_bind; [intros w; by apply (closed_op _ _ _ HP OLiveRegionIDs)|].
  intros ids. case_bool_decide; [apply quiet_ret|]. apply quiet_bind; [apply quiet_due|intros best; apply quiet_ret].
Qed.

Lemma quiet_switch c t id : quiet_op (FeedsForRegionSwitch clock disk c t id).
Proof.
  unfold FeedsForRegionSwitch. case_bool_decide; [apply quiet_scheduled|].
  apply quiet_bind; [apply quiet_stale|intros stale; apply quiet_ret].
Qed.
End Rounds.

(** ** A round, planned and run *)

(** What the coordinator plans for an action of the poll loop. *)
Definition planned (a : action) (s : Process) : list Feed :=
  let w := sWorld (psServer s) in
  match a with
  | Tick _ t => match (FeedsForScheduledPoll clock disk (lCoord (psLoop s)) t w).1 with Ok (feeds, _) => feeds | Err _ => [] end
  | RegionPoll _ t =>
      match psPollNow s with
      | Some id => match (FeedsForRegionSwitch clock disk (lCoord (psLoop s)) t id w).1 with Ok (feeds, _) => feeds | Err _ => [] end
      | None => []
      end
  | _ => []
  end.

(** The positions the feeds of the plan report. *)
Definition fetched (a : action) (s : Process) : list VehiclePosition :=
  match a with
  | Tick env _ | RegionPoll env _ => cycle_positions unmarshal DefaultBackoff env (planned a s)
  | _ => []
  end.

(** What a round does to the loop and the sessions. *)
Definition round (ls ls' : LoopState) (w w' : World) (env : cycle) (feeds : list Feed) : Prop :=
  (forall P, closed_under clock disk P -> P w -> P w') /\
  (ls' = ls \/ exists ids, ls' = runPoll unmarshal DefaultBackoff env feeds ids ls).

Lemma scheduled_round env t w ls : let o := scheduled unmarshal DefaultBackoff clock disk env t w ls in
  round ls o.1 w o.2 env (match (FeedsForScheduledPoll clock disk (lCoord ls) t w).1 with Ok (feeds, _) => feeds | Err _ => [] end).
Proof.
  cbv zeta. unfold scheduled. pose proof (fun P HP => quiet_scheduled P HP (lCoord ls) t w) as Hq.
  destruct (FeedsForScheduledPoll clock disk (lCoord ls) t w) as [[[feeds ids]|e] w1]; simpl in *; (split; [exact Hq|]); [right; eauto|by left].
Qed.

Lemma switch_round env t id w ls : let o := forRegion unmarshal DefaultBackoff clock disk env t id w ls in
  round ls o.1 w o.2 env (match (FeedsForRegionSwitch clock disk (lCoord ls) t id w).1 with Ok (feeds, _) => feeds | Err _ => [] end).
Proof.
  cbv zeta. unfold forRegion. pose proof (fun P HP => quiet_switch P HP (lCoord ls) t id w) as Hq.
  destruct (FeedsForRegionSwitch clock disk (lCoord ls) t id w) as [[[feeds ids]|e] w1]; simpl in *; [case_bool_decide|]; (split; [exact Hq|]);
    [by left|right; eauto|by left].
Qed.

Lemma round_live ls ls' w w' env feeds : round ls ls' w w' env feeds -> live_ok (lPipe ls) ->
  live_ok (lPipe ls') /\ seen_le (lPipe ls) (lPipe ls') /\
  (lNotified ls' <> lNotified ls -> Forall (fun pos => has_position pos (lPipe ls')) (cycle_positions unmarshal DefaultBackoff env feeds)).
Proof.
  intros [_ [->|[ids ->]]] Hok; [done|]. split_and!.
  - apply runPoll_keeps; [apply kept_live_ok|done].
  - by apply (runPoll_keeps (seen_le (lPipe ls))); [apply kept_seen_le|].
  - by apply runPoll_stored.
Qed.
(** ** Steps *)

Inductive exec : list action -> Process -> Process -> Prop :=
  | exec_nil s : exec [] s s
  | exec_cons a l s s1 s2 : process_step a s = Some s1 -> exec l s1 s2 -> exec (a :: l) s s2.

Definition process_ok (s : Process) : Prop :=
  server_ok DefaultSessionStorePath (psServer s) /\ live_ok (lPipe (psLoop s)) /\ psSignals s ⊆ dom (sStreams (psServer s)).

(** The steps of the web server are those of DemoServer, on the current
    pipeline. *)
Definition server_step_of (s : Process) : server_event -> Server -> option Server :=
  server_step clock disk (fun _ => lPipe (psLoop s)) wire rand flusher local_zone true true.

Lemma step_server a s s' : process_step a s = Some s' ->
  match a with
  | Request_ ctx fuel r id =>
      s' = s \/ server_step_of s (Serve ctx fuel r id) (psServer s) = Some (psServer s') /\
        sStreams (psServer s) !! id = None /\ psLoop s' = psLoop s /\ psSignals s' = psSignals s
  | StreamTurn id ev =>
      server_step_of s (Turn id ev) (psServer s) = Some (psServer s') /\ psLoop s' = psLoop s /\
      psSignals s' ⊆ psSignals s /\ (forall id', id' ∈ psSignals s -> id' <> id -> id' ∈ psSignals s') /\
      (id ∈ psSignals s' -> sStreams (psServer s') !! id <> None) /\
      (ev = Heartbeat -> psSignals s' = psSignals s)
  | Tick env _ | RegionPoll env _ =>
      round (psLoop s) (psLoop s') (sWorld (psServer s)) (sWorld (psServer s')) env (planned a s) /\
      sStreams (psServer s') = sStreams (psServer s) /\
      psSignals s' = (if bool_decide (lNotified (psLoop s') = lNotified (psLoop s)) then psSignals s else dom (sStreams (psServer s)))
  | LoopExit | Cancel => psLoop s' = psLoop s /\ psServer s' = psServer s /\ psSignals s' = psSignals s
  end.
Proof.
  destruct a as [ctx fuel r id|id ev|env t|env t| |]; cbn [process_step]; unfold server_step_of, server_step.
  - case_bool_decide; [intros [= <-]; by left|]. destruct (sStreams (psServer s) !! id) eqn:E; [done|].
    destruct (Handler _ _ _ _ _ _ _ _ _ _ _ _) as [[o c]|]; [|done]. intros [= <-]. by right.
  - destruct (sStreams (psServer s) !! id) as [st|] eqn:E; [|done].
    destruct (take_signal id ev (psSignals s)) as [signals|] eqn:Et; [|done].
    assert (Hs : signals ⊆ psSignals s /\ (forall id', id' ∈ psSignals s -> id' <> id -> id' ∈ signals)).
    { unfold take_signal in Et. destruct ev; [|case_decide|..]; simplify_eq; set_solver. }
    assert (Hh : ev = Heartbeat -> signals = psSignals s) by (intros ->; by injection Et).
    destruct (stream_turn clock disk (fun _ => lPipe (psLoop s)) wire flusher local_zone ev st (open_conn (sWorld (psServer s)))) as [o c] eqn:Eo.
    intros [= <-]. cbn. destruct Hs as [H1 H2]. split_and!; [done|done|destruct o; set_solver|destruct o; set_solver| |].
    + destruct o; [by rewrite lookup_insert_eq|set_solver].
    + intros ->. rewrite Hh by done. unfold stream_turn, mbind, H_bind in Eo. destruct (lift _ _) in Eo. by injection Eo as <- _.
  - destruct (round_ok env s); [|done]. pose proof (scheduled_round env t (sWorld (psServer s)) (psLoop s)) as Hr. cbv zeta in Hr.
    destruct (scheduled _ _ _ _ _ _ _ _) as [ls w]. by intros [= <-].
  - destruct (psPollNow s) as [r|] eqn:Ep; [|done]. destruct (round_ok env s); [|done].
    pose proof (switch_round env t r (sWorld (psServer s)) (psLoop s)) as Hr. cbv zeta in Hr. cbn [planned]. rewrite Ep.
    destruct (forRegion _ _ _ _ _ _ _ _ _) as [ls w]. by intros [= <-].
  - destruct (_ && _); [|done]. by intros [= <-].
  - by intros [= <-].
Qed.

Lemma process_step_ok a s s' : process_ok s -> process_step a s = Some s' ->
  process_ok s' /\ seen_le (lPipe (psLoop s)) (lPipe (psLoop s')).
Proof.
  intros (Hsv & Hl & Hsig) Hs. apply step_server in Hs. destruct a as [ctx fuel r id|id ev|env t|env t| |].
  - destruct Hs as [->|(Hs & Hid & HL & HS)]; [done|]. unfold process_ok. rewrite HL, HS. split; [|done].
    split_and!; [eapply server_step_ok; [exact Hsv|exact Hs]|done|]. unfold server_step_of, server_step in Hs. rewrite Hid in Hs.
    destruct (Handler _ _ _ _ _ _ _ _ _ _ _ _) as [[[st|] c]|]; [| |done]; injection Hs as <-; cbn; [rewrite dom_insert_L|]; set_solver.
  - destruct Hs as (Hs & HL & HS & _ & Hin & _). unfold process_ok. rewrite HL. split; [|done].
    split_and!; [eapply server_step_ok; [exact Hsv|exact Hs]|done|]. intros id' Hid'. destruct (decide (id' = id)) as [->|Hne].
    { apply elem_of_dom. specialize (Hin Hid'). by destruct (sStreams (psServer s') !! id). }
    apply HS, Hsig in Hid'. unfold server_step_of, server_step in Hs. destruct (sStreams (psServer s) !! id); [|done].
    destruct (stream_turn _ _ _ _ _ _ _ _ _) as [[st|] c]; injection Hs as <-; cbn; [rewrite dom_insert_L|rewrite dom_delete_L]; set_solver.
  - destruct Hs as (Hr & Hst & HS). pose proof (round_live _ _ _ _ _ _ Hr Hl) as (Hl' & Hle & _).
    split; [|done]. split_and!; [|done|rewrite HS, Hst; by case_bool_decide].
    unfold server_ok. rewrite Hst. apply Hr; [apply counted_closed|exact Hsv].
  - destruct Hs as (Hr & Hst & HS). pose proof (round_live _ _ _ _ _ _ Hr Hl) as (Hl' & Hle & _).
    split; [|done]. split_and!; [|done|rewrite HS, Hst; by case_bool_decide].
    unfold server_ok. rewrite Hst. apply Hr; [apply counted_closed|exact Hsv].
  - destruct Hs as (HL & HV & HS). unfold process_ok. by rewrite HL, HV, HS.
  - destruct Hs as (HL & HV & HS). unfold process_ok. by rewrite HL, HV, HS.
Qed.

Lemma process_exec_ok l s s' : process_ok s -> exec l s s' -> process_ok s' /\ seen_le (lPipe (psLoop s)) (lPipe (psLoop s')).
Proof.
  intros Hok He. revert Hok. induction He as [s|a l s s1 s2 Hs _ IH]; [done|]. intros Hok.
  destruct (process_step_ok _ _ _ Hok Hs) as [Hok1 H1]. destruct (IH Hok1) as [Hok2 H2]. split; [done|]. by etrans.
Qed.

(** A stream whose client stays and that is not pushed to keeps its signal. *)
Definition waits (id : nat) (a : action) : Prop := forall ev, a = StreamTurn id ev -> ev = Heartbeat.

Lemma step_signal a s s' id st : waits id a -> sStreams (psServer s) !! id = Some st -> id ∈ psSignals s ->
  psSignals s ⊆ dom (sStreams (psServer s)) -> process_step a s = Some s' ->
  sStreams (psServer s') !! id = Some st /\ id ∈ psSignals s'.
Proof.
  intros Hw Hid Hin Hsub Hs. apply step_server in Hs. destruct a as [ctx fuel r id'|id' ev|env t|env t| |].
  - destruct Hs as [->|(Hs & Hid' & _ & HS)]; [done|]. rewrite HS. split; [|done]. unfold server_step_of, server_step in Hs.
    rewrite Hid' in Hs. destruct (Handler _ _ _ _ _ _ _ _ _ _ _ _) as [[[st'|] c]|]; [| |done]; injection Hs as <-; cbn; [|done].
    by rewrite lookup_insert_ne by congruence.
  - destruct Hs as (Hs & _ & _ & Hoth & _ & Hb). unfold server_step_of, server_step in Hs. destruct (decide (id' = id)) as [->|Hne].
    + pose proof (Hw ev eq_refl) as ->. rewrite Hb by done. split; [|done]. rewrite Hid in Hs. revert Hs.
      unfold stream_turn, mbind, H_bind. destruct (lift _ _) as [[] c]. cbn. intros [= <-]. cbn. by rewrite lookup_insert_eq.
    + split; [|by apply Hoth]. destruct (sStreams (psServer s) !! id'); [|done].
      destruct (stream_turn _ _ _ _ _ _ _ _ _) as [[st'|] c]; injection Hs as <-; cbn; [by rewrite lookup_insert_ne|by rewrite lookup_delete_ne].
  - destruct Hs as (_ & -> & ->). split; [done|]. case_bool_decide; [done|]. by apply elem_of_dom_2 in Hid.
  - destruct Hs as (_ & -> & ->). split; [done|]. case_bool_decide; [done|]. by apply elem_of_dom_2 in Hid.
  - by destruct Hs as (_ & -> & ->).
  - by destruct Hs as (_ & -> & ->).
Qed.

Lemma exec_signal l s s' id st : Forall (waits id) l -> sStreams (psServer s) !! id = Some st -> id ∈ psSignals s ->
  process_ok s -> exec l s s' -> sStreams (psServer s') !! id = Some st /\ id ∈ psSignals s'.
Proof.
  intros Hw Hid Hin Hok He. revert Hw Hid Hin Hok. induction He as [s|a l s s1 s2 Hs _ IH]; [done|].
  intros [Ha Hl]%Forall_cons Hid Hin Hok. destruct (step_signal _ _ _ _ _ Ha Hid Hin (proj2 (proj2 Hok)) Hs) as [H1 H2].
  apply IH; [done..|]. by apply (process_step_ok a s).
Qed.
(** ** What a push shows *)

(** A handler that only appends to the response. *)
Definition appends {A} (h : H A) : Prop := forall c, rOut (cResp c) `prefix_of` rOut (cResp (h c).2).

Lemma appends_ret {A} (a : A) : appends (mret a).
Proof. by intros c. Qed.

Lemma appends_bind {A B} (m : H A) (f : A -> H B) : appends m -> (forall a, appends (f a)) -> appends (a ← m; f a).
Proof.
  intros Hm Hf c. unfold mbind, H_bind. specialize (Hm c). destruct (m c) as [a c1]. etrans; [exact Hm|apply Hf].
Qed.

Lemma appends_lift {A} (m : M A) : appends (lift m).
Proof. intros c. unfold lift. by destruct (m (cWorld c)). Qed.

Lemma appends_resp f : (forall r, rOut r `prefix_of` rOut (f r)) -> appends (resp f).
Proof. intros Hf c. apply Hf. Qed.

Lemma appends_SSE ev j : appends (writeSSE wire flusher ev j).
Proof.
  unfold writeSSE. destruct (negb flusher); [apply appends_ret|]. destruct j as [j|e]; [|apply appends_ret].
  apply appends_bind; [apply appends_lift|]. intros [e|]; (apply appends_bind; [apply appends_resp|intros; apply appends_ret]).
  - done.
  - intros r. by apply prefix_app_r.
Qed.

Ltac appending :=
  repeat match goal with
  | |- appends (_ ≫= _) => apply appends_bind; [|intros ?]
  | |- appends (mret _) => apply appends_ret
  | |- appends (lift _) => apply appends_lift
  | |- appends (now _) => apply appends_lift
  | |- appends (read _ _) => apply appends_lift
  | |- appends (writeSSE _ _ _ _) => apply appends_SSE
  | |- appends (match ?x with _ => _ end) => destruct x
  end.

Lemma turn_output p st c : flusher = true -> (forall n, wire n = None) -> finite_pipeline p -> exists k rest,
  rOut (cResp (stream_turn clock disk (fun _ => p) wire flusher local_zone PollSignal st c).2) =
    rOut (cResp c) ++ SSE "vehicles" (JArr (vehicle_json <$> liveViews (LivePositionsFor (stAgencies st) (clock k) p) (clock k))) :: rest.
Proof.
  intros Hf Hw Hfin. unfold stream_turn. pose proof (appends_lift (Touch clock disk (stSid st)) c) as Hc0.
  assert (E0 : rOut (cResp (lift (Touch clock disk (stSid st)) c).2) = rOut (cResp c)) by (unfold lift; by destruct (Touch _ _ _ _)).
  destruct (lift (Touch clock disk (stSid st)) c) as [[] c0] eqn:Et. rewrite (bind_eq _ _ _ _ _ Et). cbn [snd] in E0. clear Hc0 Et.
  set (k := ticks (cWorld c0)). exists k. unfold pushSnapshot.
  match goal with |- exists rest, rOut (cResp ((?m ≫= ?f) c0).2) = _ =>
    set (push := m); set (after := f) end.
  assert (Hafter : forall e, appends (after e)) by (intros [e|]; subst after; cbv beta iota; appending).
  assert (Hpush : exists rest, rOut (cResp (push c0).2) = rOut (cResp c) ++
    SSE "vehicles" (JArr (vehicle_json <$> liveViews (LivePositionsFor (stAgencies st) (clock k) p) (clock k))) :: rest).
  { subst push. rewrite bind_now, bind_read. fold k.
    unfold liveViews at 1. rewrite (enc_views_ok _ (fun pos => set_stale (LiveMapFreshWindow <? time_sub (clock k) (Timestamp pos)) (toView pos)))
      by (done || by apply finite_live).
    match goal with |- context [(writeSSE wire flusher "vehicles" (Ok ?j) ≫= ?f) ?c1] =>
      destruct (writeSSE_connected wire flusher "vehicles" j c1 Hf Hw) as (c2 & E2 & [H2 _] & _); rewrite (bind_eq _ f _ _ _ E2);
      assert (Hap : appends (f None)) by (cbv beta iota; unfold pushStats, pushIngest; cbv zeta; appending); destruct (Hap c2) as [rest Hrest] end.
    exists rest. rewrite Hrest, H2. cbn [with_world cResp]. by rewrite E0, <-app_assoc. }
  destruct Hpush as [rest Hrest]. unfold mbind, H_bind. destruct (push c0) as [e c1] eqn:Ep.
  destruct (Hafter e c1) as [rest' Hr']. exists (rest ++ rest'). rewrite Hr'. cbn [snd] in Hrest. rewrite Hrest.
  by rewrite <-app_assoc.
Qed.
(** A stored position of a visible agency that is recent enough is on the map, or
    a later one of the vehicle is. *)
Lemma same_agency x y : no_colon (Agency x) = true -> no_colon (Agency y) = true -> vehicle_key x = vehicle_key y -> Agency x = Agency y.
Proof.
  unfold no_colon. intros Hx%negb_true_iff Hy%negb_true_iff E. apply (f_equal (str_cut colon)) in E. unfold vehicle_key in E.
  change (":" +:+ VehicleID x) with (String colon (VehicleID x)) in E. change (":" +:+ VehicleID y) with (String colon (VehicleID y)) in E.
  rewrite !str_cut_app in E by done. congruence.
Qed.

Lemma has_position_shown pos p ids t : seen_ok p -> has_position pos p -> Agency pos ∈ ids ->
  t - Timestamp pos <= LiveMapVisibleWindow ->
  exists q, q ∈ LivePositionsFor ids t p /\ vehicle_key q = vehicle_key pos /\ Timestamp pos <= Timestamp q.
Proof.
  intros [_ Hs] (Hn & q & Hq & Ht) Hin Hw. exists q. destruct (Hs _ _ Hq) as [Hk Hnq]. split_and!; [|done|done].
  destruct (LivePositionsFor_spec ids t p) as (_ & Hl & Hlat). apply Hl. split; [|lia]. apply Hlat.
  rewrite (same_agency q pos Hnq Hn Hk). eauto.
Qed.

(** What the client of a stream gets when the stream takes its signal. *)
Definition pushed (id : nat) (s : Process) : list (chunk page) :=
  match sStreams (psServer s) !! id with
  | Some st => rOut (cResp (stream_turn clock disk (fun _ => lPipe (psLoop s)) wire flusher local_zone PollSignal st
                              (open_conn (sWorld (psServer s)))).2)
  | None => []
  end.

(** ** Start-up *)

Context {L : IsleDBLaws I}.

Lemma feeds_no_colon id : id ∈ fAgency <$> AllFeeds -> no_colon id = true.
Proof.
  intros Hid. assert (H : forallb no_colon (fAgency <$> AllFeeds) = true) by (vm_compute; reflexivity).
  rewrite forallb_forall in H. apply H. by apply list_elem_of_In.
Qed.

Lemma drop_zero_finite f : f64_finite f = true -> f64_finite (drop_zero_sign f) = true.
Proof. unfold drop_zero_sign. by destruct (f64_is_zero f). Qed.

Lemma started_live_ok (stores : gmap string db) p : kv_ok stores -> (forall id d, stores !! id = Some d -> unflushed d = []) ->
  (forall id, is_Some (stores !! id) -> no_colon id = true) -> NewPipeline stores = Ok p -> live_ok p.
Proof.
  intros Hkv Hu Hn Hp. destruct (hydrate_from_store _ _ Hkv Hu Hp) as [-> Hs]. set (seen := vehicleSeen p) in *. split; split; simpl.
  - eapply map_Forall_impl; [exact Hs|]. intros vk q (_ & pos & (Henc & _) & ->). apply encodable_finite in Henc.
    revert Henc. unfold finite_pos. simpl. rewrite !andb_true_iff. intros [[[-> ->] Hs1] Hb]. by rewrite !drop_zero_finite.
  - constructor.
  - exact Hn.
  - eapply map_Forall_impl; [exact Hs|]. intros vk q (Hk & pos & (_ & _ & Hc & _) & ->). by split.
Qed.

Lemma start_demo_spec backend poll threshold now fs w :
  (forall id, id ∈ fAgency <$> AllFeeds -> closed id w) -> (forall cfg, prefixes_ok prefix_db cfg) ->
  match start_demo backend poll threshold now (Ok (fs !! DefaultSessionStorePath)) fs w with
  | (inl code, w') => code = 1 /\ PrefixDB.live w' = PrefixDB.live w
  | (inr (handles, s), w') => process_ok s /\ PrefixDB.live (snd (stop_demo handles w')) = PrefixDB.live w
  end.
Proof.
  intros Hc Hp. unfold start_demo. destruct (_ && _); [done|]. set (cfg := StoreConfigFromEnv _ _ _).
  pose proof (StartPipeline_spec answer prefix_db cfg AllFeeds w AllFeeds_NoDup Hc (Hp cfg)) as Hs.
  destruct (StartPipeline answer prefix_db cfg AllFeeds w) as [[p|e] w1] eqn:E; [|done]. destruct Hs as (Hd & Hst & Hcons & Hl).
  destruct (OpenSessionStore now _ _) as [st|e] eqn:Ho; [|by destruct (StopPipeline answer p w1)].
  split; [|exact Hl]. split_and!; cbn [psServer psLoop psSignals lPipe].
  - split; [by eapply open_inv|]. intros sid. cbn. unfold viewers, counter, open_of. rewrite (open_live _ _ _ _ Ho), map_filter_empty, map_size_empty.
    cbn. by case_bool_decide.
  - unfold StartPipeline in E. destruct (open_all _ _ _ _ _) as [[opened|e] w2]; [|done].
    destruct (NewPipeline _) as [p0|e] eqn:En; [|by destruct (CloseAll _ _ _)]. injection E as <- _. cbn [lpState lpHandles] in *.
    apply started_live_ok in En; [done|by apply prefixes_kv_ok| |].
    + intros id d Hd'. rewrite agency_stores_lookup in Hd'. apply fmap_Some in Hd' as (? & _ & ->). apply (Hp cfg).
    + intros id Hid. destruct (hydrate_consistent _ _ (prefixes_kv_ok _ _ _ (Hp cfg)) ltac:(intros id' d' Hd'; rewrite agency_stores_lookup in Hd';
        apply fmap_Some in Hd' as (? & _ & ->); apply (Hp cfg)) En) as [Ha _]. rewrite <-Ha in Hid. apply elem_of_dom in Hid.
      rewrite Hd in Hid. apply feeds_no_colon. by apply elem_of_list_to_set in Hid.
  - done.
Qed.

(** A session file that cannot be read ends the start-up. *)
Lemma start_demo_unreadable backend poll threshold now e fs w :
  (forall id, id ∈ fAgency <$> AllFeeds -> closed id w) -> (forall cfg, prefixes_ok prefix_db cfg) ->
  match start_demo backend poll threshold now (Err e) fs w with
  | (inl code, w') => code = 1 /\ PrefixDB.live w' = PrefixDB.live w
  | (inr _, _) => False
  end.
Proof.
  intros Hc Hp. unfold start_demo. destruct (_ && _); [done|]. set (cfg := StoreConfigFromEnv _ _ _).
  pose proof (StartPipeline_spec answer prefix_db cfg AllFeeds w AllFeeds_NoDup Hc (Hp cfg)) as Hs.
  destruct (StartPipeline answer prefix_db cfg AllFeeds w) as [[p|e'] w1]; [|done]. destruct Hs as (_ & _ & _ & Hl).
  cbn [OpenSessionStore load]. by destruct (StopPipeline answer p w1).
Qed.

(** C29: whatever fails at start-up, the demo either exits with code 1 and no handle
    open, or runs in a state that satisfies the invariant of the process, and its
    shutdown closes every handle it opened.  A session file that cannot be read
    is such a failure, and a backend other than memory and MinIO is refused. *)
Theorem demo_starts backend poll threshold now file fs w :
  (forall id, id ∈ fAgency <$> AllFeeds -> closed id w) -> (forall cfg, prefixes_ok prefix_db cfg) ->
  (file = Ok (fs !! DefaultSessionStorePath) \/ exists e, file = Err e) ->
  match start_demo backend poll threshold now file fs w with
  | (inl code, w') => code = 1 /\ PrefixDB.live w' = PrefixDB.live w
  | (inr (handles, s), w') => process_ok s /\ PrefixDB.live (snd (stop_demo handles w')) = PrefixDB.live w
  end /\
  ((exists e, file = Err e) -> (start_demo backend poll threshold now file fs w).1 = inl 1) /\
  (backend <> BackendMemory -> backend <> BackendMinIO -> start_demo backend poll threshold now file fs w = (inl 1, w)).
Proof.
  intros Hc Hp Hf. split_and!.
  - destruct Hf as [->|[e ->]]; [by apply start_demo_spec|].
    pose proof (start_demo_unreadable backend poll threshold now e fs w Hc Hp) as H.
    by destruct (start_demo _ _ _ _ _ _ _) as [[code|[h s]] w'].
  - intros [e ->]. pose proof (start_demo_unreadable backend poll threshold now e fs w Hc Hp) as H.
    destruct (start_demo _ _ _ _ _ _ _) as [[code|[h s]] w']; [by destruct H as [-> _]|done].
  - intros H1 H2. unfold start_demo. by rewrite !bool_decide_eq_false_2.
Qed.

(** C3: from a feed to the browsers.  In any state the process can reach, let a
    round of the poll loop notify: then every stream that is open has a signal
    waiting; and whenever it takes the signal, whatever requests, rounds and turns
    of other streams happen in between, its client is first sent vehicles that
    include, for every position the round fetched from an agency the stream shows
    and that is at most thirty minutes old at that time, this position or a later
    one of the same vehicle. *)
Theorem fetched_positions_reach_streams backend poll threshold now fs w handles s0 w0 l0 s a s1 id st :
  flusher = true -> (forall n, wire n = None) ->
  (forall id, id ∈ fAgency <$> AllFeeds -> closed id w) -> (forall cfg, prefixes_ok prefix_db cfg) ->
  start_demo backend poll threshold now (Ok (fs !! DefaultSessionStorePath)) fs w = (inr (handles, s0), w0) ->
  exec l0 s0 s -> process_step a s = Some s1 -> lNotified (psLoop s1) <> lNotified (psLoop s) ->
  sStreams (psServer s) !! id = Some st ->
  forall l s2, Forall (waits id) l -> exec l s1 s2 ->
  is_Some (process_step (StreamTurn id PollSignal) s2) /\
  exists k vehicles rest, pushed id s2 = SSE "vehicles" (JArr (vehicle_json <$> vehicles)) :: rest /\
    forall pos, pos ∈ fetched a s -> Agency pos ∈ stAgencies st -> clock k - Timestamp pos <= LiveMapVisibleWindow ->
      exists q stale, Timestamp pos <= Timestamp q /\ vehicle_key q = vehicle_key pos /\ set_stale stale (toView q) ∈ vehicles.
Proof.
  intros Hf Hw Hc Hp Hstart He0 Hs Hnot Hid l s2 Hl He. pose proof (start_demo_spec backend poll threshold now fs w Hc Hp) as Hs0.
  rewrite Hstart in Hs0. destruct Hs0 as [Hok0 _]. destruct (process_exec_ok _ _ _ Hok0 He0) as [Hok _].
  destruct (process_step_ok _ _ _ Hok Hs) as [Hok1 _]. destruct (process_exec_ok _ _ _ Hok1 He) as [(_ & Hl2 & _) Hle].
  assert (Hround : sStreams (psServer s1) !! id = Some st /\ id ∈ psSignals s1 /\ Forall (fun pos => has_position pos (lPipe (psLoop s1))) (fetched a s)).
  { pose proof (step_server _ _ _ Hs) as Hss. destruct a as [ctx fuel r id'|id' ev|env t|env t| |].
    1: destruct Hss as [->|(_ & _ & E & _)]; congruence.
    1: destruct Hss as (_ & E & _); congruence.
    3,4: destruct Hss as (E & _); congruence.
    all: destruct Hss as (Hr & Hst & HS); rewrite Hst, HS, bool_decide_eq_false_2 by done;
      split_and!; [done|by apply elem_of_dom_2 in Hid|]; cbn [fetched]; by apply (round_live _ _ _ _ _ _ Hr (proj1 (proj2 Hok))). }
  destruct Hround as (Hid1 & Hin & Hpos). destruct (exec_signal _ _ _ _ _ Hl Hid1 Hin Hok1 He) as [Hid2 Hin2].
  split. { cbn [process_step take_signal]. rewrite Hid2, decide_True by done. destruct (stream_turn _ _ _ _ _ _ _ _ _). eauto. }
  unfold pushed. rewrite Hid2. destruct (turn_output (lPipe (psLoop s2)) st (open_conn (sWorld (psServer s2))) Hf Hw (proj1 Hl2)) as (k & rest & Hout).
  exists k, (liveViews (LivePositionsFor (stAgencies st) (clock k) (lPipe (psLoop s2))) (clock k)), rest. split; [exact Hout|].
  intros pos Hpin Hag Hwin. rewrite Forall_forall in Hpos.
  destruct (has_position_shown pos _ (stAgencies st) (clock k) (proj2 Hl2) (has_position_le _ _ _ Hle (Hpos _ Hpin)) Hag Hwin) as (q & Hq & Hk & Ht).
  exists q. eexists. split_and!; [exact Ht|exact Hk|]. unfold liveViews. apply list_elem_of_fmap. exists q. split; [reflexivity|exact Hq].
Qed.
End Demo.

(** ** A concrete process *)

#[local] Existing Instance MemStore.steady.
#[local] Existing Instance canonical_range.

Definition no_failure (_ : list (call * option error)) (_ : call) : option error := None.

Local Abbreviation step_demo := (process_step (SS := merge_slice_sort false) same_noon good_disk good_wire lcg true utc one_vehicle).
Local Abbreviation launch_with answer := (start_demo (MR := canonical_range) (I := MemStore.steady) answer new_prefix BackendMemory 0 0 noon (Ok ((∅ : gmap string value) !! DefaultSessionStorePath)) ∅ PrefixDB.start).

Local Abbreviation launch := (launch_with no_failure).

(** A browser opens the map, and the poll loop makes a round; the stream's client
    sends nothing for a while. *)
Definition open_map : action := Request_ never_cancelled 5 (request "GET" "/api/vehicles/stream" None ∅ (Raw "") "") 0.
Definition round_trip : action := Tick good_cycle noon.

(** What the concrete run comes to, evaluated once. *)
Lemma concrete_run :
  match launch with
  | (inr (_, s0), _) =>
      match step_demo open_map s0 with
      | Some s =>
          match step_demo round_trip s with
          | Some s1 =>
              match sStreams (psServer s) !! 0%nat, step_demo (StreamTurn 0 Heartbeat) s1 with
              | Some st, Some _ =>
                  negb (bool_decide (lNotified (psLoop s1) = lNotified (psLoop s))) &&
                  existsb (fun pos => bool_decide (Agency pos ∈ stAgencies st /\ vehicle_key pos = "prasarana-rapid-bus-kl:E1") &&
                                      (noon - Timestamp pos <=? LiveMapVisibleWindow))
                    (fetched same_noon good_disk one_vehicle round_trip s)
              | _, _ => false
              end
          | None => false
          end
      | None => false
      end
  | _ => false
  end = true.
Proof. vm_compute. reflexivity. Qed.

Lemma fetched_positions_reach_streams_witness : exists s0 s s1 s2,
  step_demo open_map s0 = Some s /\ step_demo round_trip s = Some s1 /\ step_demo (StreamTurn 0 Heartbeat) s1 = Some s2 /\
  exists vehicles rest q stale,
    pushed (I := MemStore.steady) same_noon good_disk good_wire true utc 0 s2 = SSE "vehicles" (JArr (vehicle_json <$> vehicles)) :: rest /\
    vehicle_key q = "prasarana-rapid-bus-kl:E1" /\ set_stale stale (toView q) ∈ vehicles.
Proof.
  pose proof concrete_run as Hc. destruct launch as [[|[h s0]] w0] eqn:E0; [discriminate Hc|].
  destruct (step_demo open_map s0) as [s|] eqn:E1; [|discriminate Hc]. destruct (step_demo round_trip s) as [s1|] eqn:E2; [|discriminate Hc].
  destruct (sStreams (psServer s) !! 0%nat) as [st|] eqn:Est; [|discriminate Hc].
  destruct (step_demo (StreamTurn 0 Heartbeat) s1) as [s2|] eqn:E3; [|discriminate Hc].
  apply andb_true_iff in Hc as [Hn Hc]. apply negb_true_iff, bool_decide_eq_false in Hn.
  apply existsb_exists in Hc as (pos & Hpos%list_elem_of_In & [Hk%bool_decide_eq_true Ht%Z.leb_le]%andb_true_iff).
  exists s0, s, s1, s2. split; [exact E1|]. split; [exact E2|]. split; [exact E3|].
  destruct (fetched_positions_reach_streams (I := MemStore.steady) (MR := canonical_range) (SS := merge_slice_sort false) (L := MemStore.steady_laws)
    same_noon good_disk good_wire lcg true utc one_vehicle no_failure new_prefix
    BackendMemory 0 0 noon ∅ PrefixDB.start h s0 w0 [open_map] s round_trip s1 0 st eq_refl (fun _ => eq_refl)
    (fun _ _ k => not_elem_of_empty _) new_prefixes_ok E0
    (exec_cons _ _ _ _ _ _ _ _ _ _ _ _ E1 (exec_nil _ _ _ _ _ _ _ _)) E2 Hn Est [StreamTurn 0 Heartbeat] s2)
    as (_ & k & vehicles & rest & Hout & Hin).
  - constructor; [|constructor]. intros ev E. injection E as <-. reflexivity.
  - eapply exec_cons; [exact E3|apply exec_nil].
  - destruct (Hin pos Hpos (proj1 Hk) Ht) as (q & stale & _ & Hq & Hv). exists vehicles, rest, q, stale.
    split; [exact Hout|]. split; [rewrite Hq; exact (proj2 Hk)|exact Hv].
Defined.

(** Tigris is not a backend of the demo, and a reader that does not open ends the
    start-up with everything closed. *)
Definition no_reader (_ : list (call * option error)) (c : call) : option error :=
  match c with Open (KReader, "mybas-ipoh") _ => Some (Errorf "no reader") | _ => None end.

Lemma demo_starts_witness : exists w',
  launch_with no_reader = (inl 1, w') /\
  PrefixDB.live w' = ∅.
Proof.
  destruct (demo_starts (I := MemStore.steady) (MR := canonical_range) (L := MemStore.steady_laws)
    no_reader new_prefix BackendMemory 0 0 noon _ ∅ PrefixDB.start
    (fun _ _ k => not_elem_of_empty _) new_prefixes_ok (or_introl eq_refl)) as [H _].
  destruct (launch_with no_reader)
    as [[code|[h s]] w'] eqn:E.
  - destruct H as [-> H]. exists w'. split; [reflexivity|]. exact H.
  - exfalso. assert (Hc : (if fst (launch_with no_reader) is inl _ then true else false) = true)
      by (vm_compute; reflexivity). rewrite E in Hc. discriminate Hc.
Defined.
