(* ===== verification/LiveMap.v ===== *)
(** * From the pipeline to the map (internal/web/demo/server.go, sse.go, render.go)

    A push of the server, the bytes it makes, the browser's reading of them and
    the script's work on them, composed of DemoServer, EventStream, Browser and
    LivePage: the markers on the map are the live positions in the pipeline. *)

From Stdlib Require Import Ascii SpecFloat.
From S2P Require Import Prelude GoStrings Json Floats Vehicle Regions IsleDB Session LivePipeline Web Views JsonText EventStream Browser LivePage DemoServer Demo.

(** The agency in the id of a vehicle. *)
Definition agency_of (id : string) : string := fst (str_cut colon id).

(** Positions under their own keys, of agencies without the separator, with text
    that is UTF-8 and numbers that are doubles. *)
Definition displayable_position (vk : string) (q : VehiclePosition) : Prop :=
  vehicle_key q = vk /\ no_colon (Agency q) = true /\ utf8_valid (Agency q) = true /\ utf8_valid (vehicle_key q) = true /\
  f64_ok (Lat q) = true /\ f64_ok (Lng q) = true /\ f64_ok (Speed q) = true /\ f64_ok (Bearing q) = true.

Lemma f64_ok_finite f : f64_ok f = true -> f64_finite f = true.
Proof. unfold f64_ok. by intros [H _]%andb_true_iff. Qed.

(** The view of a position at a time, as the page has it. *)
Definition live_view (t : time) (q : VehiclePosition) : vehicleView :=
  coerced (set_stale (LiveMapFreshWindow <? time_sub t (Timestamp q)) (toView q)).

Lemma live_view_id vk q t : displayable_position vk q ->
  vvID (live_view t q) = vehicle_key q /\ vvAgency (live_view t q) = Agency q /\ vehicle_named agency_of (live_view t q).
Proof.
  intros (_ & Hn & Ha & Hk & _). assert (E1 : vvID (live_view t q) = vehicle_key q).
  { cbn. change (Agency q +:+ ":" +:+ VehicleID q) with (vehicle_key q). by apply utf8_valid_coerce. }
  assert (E2 : vvAgency (live_view t q) = Agency q) by (cbn; by apply utf8_valid_coerce).
  split_and!; [done|done|]. unfold vehicle_named, agency_of. rewrite E1, E2. unfold vehicle_key.
  change (":" +:+ VehicleID q) with (String colon (VehicleID q)). rewrite str_cut_app; [done|].
  unfold no_colon in Hn. by apply negb_true_iff in Hn.
Qed.

Section Live.
Context {MR : MapRange} {I : IsleDB}.

Definition displayable (p : Pipeline) : Prop :=
  map_Forall displayable_position (vehicleSeen p) /\
  Forall (fun rec => f64_ok (igLat rec) = true /\ f64_ok (igLng rec) = true) (ingestBuf p).

Lemma displayable_finite p : displayable p -> finite_pipeline p.
Proof.
  intros [Hv Hi]. split.
  - eapply map_Forall_impl; [exact Hv|]. intros vk q (_ & _ & _ & _ & H1 & H2 & H3 & H4). unfold finite_pos.
    by rewrite !f64_ok_finite.
  - eapply Forall_impl; [exact Hi|]. intros rec [H1 H2]. split; by apply f64_ok_finite.
Qed.

Lemma live_seen ids t p q : q ∈ LivePositionsFor ids t p -> exists vk, vehicleSeen p !! vk = Some q.
Proof. destruct (LivePositionsFor_spec ids t p) as (_ & Hl & Hlat). intros [Hq _]%Hl. by apply Hlat in Hq as [_ Hq]. Qed.

Lemma live_displayable ids t p q : displayable p -> q ∈ LivePositionsFor ids t p -> displayable_position (vehicle_key q) q.
Proof. intros [Hd _] Hq. destruct (live_seen _ _ _ _ Hq) as [vk Hvk]. pose proof (Hd _ _ Hvk) as Hp. by rewrite (proj1 Hp). Qed.

Lemma live_unique ids t p q q' : displayable p -> q ∈ LivePositionsFor ids t p -> q' ∈ LivePositionsFor ids t p ->
  vehicle_key q = vehicle_key q' -> q = q'.
Proof.
  intros [Hd _] Hq Hq' E. destruct (live_seen _ _ _ _ Hq) as [vk Hvk]. destruct (live_seen _ _ _ _ Hq') as [vk' Hvk'].
  destruct (Hd _ _ Hvk) as [<- _]. destruct (Hd _ _ Hvk') as [<- _]. rewrite E in Hvk. congruence.
Qed.

Lemma liveViews_live t l : coerced <$> liveViews l t = live_view t <$> l.
Proof. unfold liveViews. by rewrite <-list_fmap_compose. Qed.

Lemma views_doubles ids t p : displayable p -> Forall doubles (liveViews (LivePositionsFor ids t p) t).
Proof.
  intros Hd. unfold liveViews. rewrite Forall_fmap. apply Forall_forall. intros q Hq.
  by destruct (live_displayable _ _ _ _ Hd Hq) as (_ & _ & _ & _ & H1 & H2 & H3 & H4).
Qed.

(** The last vehicle with an id among the live ones is the one position under it. *)
Lemma live_lookup ids t p id v : displayable p ->
  last (List.filter (fun v => bool_decide (vvID v = id)) (live_view t <$> LivePositionsFor ids t p)) = Some v <->
  exists q, q ∈ LivePositionsFor ids t p /\ vehicle_key q = id /\ v = live_view t q.
Proof.
  intros Hd. assert (Hin : forall v, In v (List.filter (fun v => bool_decide (vvID v = id)) (live_view t <$> LivePositionsFor ids t p)) <->
    exists q, q ∈ LivePositionsFor ids t p /\ vehicle_key q = id /\ v = live_view t q).
  { intros w. rewrite List.filter_In, bool_decide_eq_true, <-list_elem_of_In, list_elem_of_fmap. split.
    - intros [(q & -> & Hq) E]. destruct (live_view_id _ q t (live_displayable _ _ _ _ Hd Hq)) as (Ei & _). exists q. by rewrite <-Ei.
    - intros (q & Hq & E & ->). destruct (live_view_id _ q t (live_displayable _ _ _ _ Hd Hq)) as (Ei & _). rewrite Ei. eauto. }
  split; [intros Hl%last_Some_elem_of%list_elem_of_In; by apply Hin|].
  intros (q & Hq & E & ->). destruct (last _) as [w|] eqn:El.
  - apply last_Some_elem_of, list_elem_of_In, Hin in El as (q' & Hq' & E' & ->). f_equal. f_equal.
    apply (live_unique ids t p); congruence.
  - apply last_None in El. exfalso. apply (in_nil (a := live_view t q)). rewrite <-El. apply Hin. eauto.
Qed.
End Live.

(** ** A push on the map *)

Lemma undisturbed_app toFixed (H : FloatText) a b s :
  undisturbed toFixed a s -> undisturbed toFixed b (live_steps toFixed a s) -> undisturbed toFixed (a ++ b) s.
Proof. revert s. induction a as [|x a IH]; intros s; [done|]. intros [Hx Ha] Hb. split; [done|]. by apply IH. Qed.

Lemma undisturbed_frames toFixed (H : FloatText) k s : undisturbed toFixed (replicate k Frame) s.
Proof. revert s. induction k as [|k IH]; intros s; [done|]. split; [done|]. apply IH. Qed.

Section Push.
Context {MR : MapRange} {I : IsleDB} {SS : SliceSort} {F : FloatText}.
Variable toFixed : nat -> float64 -> string.
Variable clock : nat -> time.
Variable disk : nat -> disk_io.
Variable pipe : nat -> Pipeline.
Variable wire : nat -> option error.
Variable local_zone : time -> Z.

Local Abbreviation live := (live_steps toFixed).

(** The callbacks of the stream [n] for the bytes of a response. *)
Definition received (n : nat) (out : list (chunk page)) : list LivePage.action :=
  (fun e => Message n e.1 e.2) <$> (parsed <$> dispatched (stream_text (event_text <$> sent_events out))).

Lemma received_events n out : Forall event_ok (sent_events out) ->
  received n out = (fun e => Message n e.1 (Some (doc_of e.2))) <$> sent_events out.
Proof. intros Hok. unfold received. rewrite events_dispatched, events_parsed by done. by rewrite <-list_fmap_compose. Qed.

Lemma ingest_json_ok l : Forall (fun rec => f64_ok (igLat rec) = true /\ f64_ok (igLng rec) = true) l ->
  json_ok (JArr (ingest_json <$> l)) = true.
Proof.
  intros Hl. cbn [json_ok]. apply forallb_forall. intros j Hj. apply list_elem_of_In, list_elem_of_fmap in Hj as (rec & -> & Hr).
  rewrite Forall_forall in Hl. destruct (Hl rec Hr) as [H1 H2]. cbn -[f64_ok]. by rewrite H1, H2.
Qed.

Lemma json_ok_strings l : json_ok (enc_strings l) = true.
Proof. unfold enc_strings. destruct l as [|a l]; [done|]. cbn [json_ok]. apply forallb_forall. intros j Hj.
  apply list_elem_of_In, list_elem_of_fmap in Hj as (x & -> & _). done.
Qed.

(** C4: from the pipeline to the pixels.  The server pushes a snapshot to a client
    whose session is on region [rg]; the page, in any state it can get to from a
    server that names its vehicles by agency and id, has read it from the bytes of
    the connection and has no older snapshot under way.  Once the frames for it
    have passed (one for every forty vehicles and one more), whatever else the
    page does in between except another snapshot or a change of region, the
    status is the number of vehicles and the markers are exactly the live
    positions: each is where its vehicle is, grey if it is stale, and shown if its
    agency is one of the page's. *)
Theorem live_map_shows ids sid st rg p c n rg0 feeds0 seconds0 dbg before acts :
  (forall k, wire k = None) -> (forall k, pipe k = p) -> displayable p -> (forall k, sessionExpired st (clock k) = false) ->
  session_ok st -> RegionByID (sRegion st) = Ok rg -> keeps_session sid st (cWorld c) ->
  let s := live before (loaded_page rg0 feeds0 seconds0 dbg) in
  Forall (sends_named agency_of) before -> current n s = true -> runs (lMap s) = [] ->
  let t := clock (ticks (cWorld c)) in
  let l := LivePositionsFor ids t p in
  exists c' out, pushSnapshot clock disk pipe wire true local_zone ids sid c = (None, c') /\
    rOut (cResp c') = rOut (cResp c) ++ out /\
    let s1 := live (received n out) s in
    (undisturbed toFixed acts s1 -> frames acts = chunks (length l) ->
     let s' := live (acts ++ [Frame]) s1 in
     status (lPanel s') = ("Live — " +:+ itoa (Z.of_nat (length l)) +:+ " vehicles", "status ok") /\
     forall id k, markers (lMap s') !! id = Some k <->
       exists q, q ∈ l /\ vehicle_key q = id /\ k = shown_marker toFixed (agencies (lMap s')) (live_view t q)).
Proof.
  intros Hw Hp Hd Hl Hso Hrg Hk s Hb Hc Hr t l. pose proof (displayable_finite p Hd) as Hfin.
  destruct (push_snapshot_spec clock disk pipe wire true local_zone sid st rg p eq_refl Hw Hp Hfin Hl Hso Hrg ids c Hk) as (c' & t' & E & _ & [Hout _]).
  exists c'. eexists. split; [exact E|]. split; [exact Hout|]. cbv zeta. fold t. fold l.
  rewrite received_events.
  2:{ cbn [sent_events]. repeat (apply Forall_cons; split); [..|by constructor]; (split; [done|]); (split; [done|]).
      - apply json_ok_vehicles. by apply views_doubles.
      - done.
      - cbn [snd]. unfold panel_json. cbn [json_ok forallb]. rewrite json_ok_strings.
        unfold RecentIngestForRegion. change (forallb json_ok ?x) with (json_ok (JArr x)). rewrite ingest_json_ok; [done|].
        apply Forall_forall. intros rec Hin. apply list_elem_of_In, filter_In in Hin as [Hin%list_elem_of_In _].
        destruct Hd as [_ Hi]. rewrite Forall_forall in Hi. by apply Hi. }
  cbn [sent_events fmap list_fmap fst snd].
  match goal with |- context [live [_; ?a1; ?a2] s] => set (m1 := a1); set (m2 := a2) end.
  match goal with |- context [live (?a0 :: _) s] => set (m0 := a0) end.
  change (live [m0; m1; m2] s) with (live [m1; m2] (live_step toFixed m0 s)). set (s0 := live_step toFixed m0 s).
  intros Hu Hf. assert (Hq : undisturbed toFixed ([m1; m2] ++ acts) s0) by (apply undisturbed_app; [|exact Hu]; split; [by left|]; split; [by left|done]).
  destruct (live_steps_named toFixed agency_of before _ Hb (loaded_page_named agency_of rg0 feeds0 seconds0 dbg)) as [Hn _].
  assert (El : coerced <$> liveViews l t = live_view t <$> l) by apply liveViews_live.
  destruct (snapshot_arrives toFixed agency_of n (doc_of (JArr (vehicle_json <$> liveViews l t))) (coerced <$> liveViews l t) ([m1; m2] ++ acts) s)
    as (_ & _ & Hs & Hm).
  - exact Hc.
  - exact Hr.
  - exact Hn.
  - apply vehicles_received. by apply views_doubles.
  - rewrite El, Forall_fmap. apply Forall_forall. intros q Hin. by apply (live_view_id _ q t (live_displayable _ _ _ _ Hd Hin)).
  - exact Hq.
  - rewrite El, length_fmap. exact Hf.
  - rewrite El, length_fmap in Hs. rewrite El in Hm. split; [exact Hs|]. intros id k.
    change (live (acts ++ [Frame]) (live [m1; m2] s0)) with (live (([m1; m2] ++ acts) ++ [Frame]) s0).
    rewrite Hm, fmap_Some. split.
    + intros (v & Hv & ->). apply live_lookup in Hv as (q & H1 & H2 & ->); [|done]. eauto.
    + intros (q & H1 & H2 & ->). exists (live_view t q). split; [|done]. apply live_lookup; [done|]. eauto.
Qed.
End Push.

(** ** A concrete map *)

#[local] Existing Instance MemStore.isledb.
#[local] Existing Instance canonical_range.
#[local] Existing Instance scaled_floats.

Definition displayable_check (p : Pipeline) : bool :=
  forallb (fun kv => bool_decide (vehicle_key kv.2 = kv.1) && no_colon (Agency kv.2) && utf8_valid (Agency kv.2) && utf8_valid (vehicle_key kv.2) &&
                     f64_ok (Lat kv.2) && f64_ok (Lng kv.2) && f64_ok (Speed kv.2) && f64_ok (Bearing kv.2)) (map_to_list (vehicleSeen p)) &&
  forallb (fun rec => f64_ok (igLat rec) && f64_ok (igLng rec)) (ingestBuf p).

Lemma displayable_check_ok p : displayable_check p = true -> displayable p.
Proof.
  unfold displayable_check. rewrite andb_true_iff, !forallb_forall. intros [Hv Hi]. split.
  - apply map_Forall_lookup. intros k q Hk. specialize (Hv (k, q)). cbn [fst snd] in Hv. rewrite !andb_true_iff, bool_decide_eq_true in Hv.
    unfold displayable_position. destruct Hv as [[[[[[[? ?] ?] ?] ?] ?] ?] ?]; [by apply list_elem_of_In, elem_of_map_to_list|done].
  - apply Forall_forall. intros rec Hrec. apply andb_true_iff, Hi. by apply list_elem_of_In.
Qed.

Lemma flushed_displayable : displayable flushed.
Proof. apply displayable_check_ok. by vm_compute. Qed.

Definition johor_ids : gset string := AgencySet ["mybas-johor"].

(** Two minutes into the time of its positions. *)
Definition soon (_ : nat) : time := 120 * second.
Definition early_session : sessionState := {| sRegion := "johor"; sPollSeconds := 20; LastSeen := 60 * second |}.
Definition early_world : World :=
  {| store := {| sessions := {[ "a" := early_session ]}; Session.live := ∅; path := "s.json" |}; files := ∅; ticks := 0 |}.

Definition opening : list LivePage.action := [Start; Answer 0 (Body (Some (doc_of (region_payload home [] 20))))].

Lemma some_live : exists q, q ∈ LivePositionsFor johor_ids (soon 0) flushed.
Proof.
  assert (Hl : bool_decide (LivePositionsFor johor_ids (soon 0) flushed = []) = false) by by vm_compute.
  destruct (LivePositionsFor johor_ids (soon 0) flushed) as [|q l]; [discriminate Hl|]. exists q. by left.
Qed.

Lemma live_map_shows_witness :
  let l := LivePositionsFor johor_ids (soon 0) flushed in
  exists c' out,
    pushSnapshot soon good_disk calm_pipe good_wire true utc johor_ids "a" (open_conn early_world) = (None, c') /\
    let s' := live_steps plain (replicate (chunks (length l)) Frame ++ [Frame]) (live_steps plain (received 1 out) (live_steps plain opening (loaded_page home [] 20 false))) in
    status (lPanel s') = ("Live — " +:+ itoa (Z.of_nat (length l)) +:+ " vehicles", "status ok") /\
    exists q k, q ∈ l /\ markers (lMap s') !! vehicle_key q = Some k /\ mLat k = Lat q.
Proof.
  destruct (RegionByID "johor") as [rg|] eqn:E; [|discriminate E]. cbv zeta.
  destruct (live_map_shows plain soon good_disk calm_pipe good_wire utc johor_ids "a" early_session rg flushed
    (open_conn early_world) 1 home [] 20 false opening
    (replicate (chunks (length (LivePositionsFor johor_ids (soon 0) flushed))) Frame)) as (c' & out & H1 & _ & H3).
  - reflexivity.
  - reflexivity.
  - exact flushed_displayable.
  - intros k. by vm_compute.
  - split; [by exists rg|right; left].
  - exact E.
  - by vm_compute.
  - repeat constructor.
  - by vm_compute.
  - by vm_compute.
  - exists c', out. split; [exact H1|]. cbv zeta in H3. change (ticks (cWorld (open_conn early_world))) with 0%nat in H3. destruct H3 as [H3 H4].
    + apply undisturbed_frames.
    + by vm_compute.
    + destruct some_live as [q Hq]. pose proof (proj2 (H4 (vehicle_key q) _) (ex_intro _ q (conj Hq (conj eq_refl eq_refl)))) as Hm.
      split; [exact H3|]. eexists q, _. split; [exact Hq|]. split; [exact Hm|reflexivity].
Defined.
