(* ===== verification/ReplayMap.v ===== *)
(** * From the change feed to the replay map (internal/web/demo/replay.go, sse.go, replay_render.go)

    The response of the replay stream, the browser's reading of it and the
    script's work on it, composed of DemoServer, EventStream and ReplayPage; and
    the way back: the address that the page resumes with, as the handler reads
    it. *)

From Stdlib Require Import Ascii SpecFloat.
From S2P Require Import Prelude GoStrings GoTime Json Floats Vehicle Regions IsleDB Session LivePipeline Replay Web Views JsonText EventStream Browser Url ReplayPage DemoServer.

(** ** The text of an instant *)

Lemma utf8_coerce_ascii s : all_bytes (byte_in 0 127) s = true -> utf8_coerce s = s.
Proof.
  induction s as [|c s IH]; intros Hs; [done|]. cbn [all_bytes] in Hs. apply andb_true_iff in Hs as [Hc Hs]. cbn [utf8_coerce].
  by rewrite Hc, IH.
Qed.

Lemma digit_ascii x : 0 <= x <= 9 -> byte_in 0 127 (digit x) = true.
Proof. intros Hx. assert (x = 0 \/ x = 1 \/ x = 2 \/ x = 3 \/ x = 4 \/ x = 5 \/ x = 6 \/ x = 7 \/ x = 8 \/ x = 9) as Hd by lia.
  by repeat (destruct Hd as [->|Hd]; [by vm_compute|]); subst. Qed.

Lemma pad2_ascii x : 0 <= x <= 99 -> all_bytes (byte_in 0 127) (pad2 x) = true.
Proof. intros Hx. cbn [all_bytes pad2]. rewrite !digit_ascii; [done|zdm|zdm]. Qed.

Lemma format_ascii t : 0 <= (civil_of_days (t / second / day_seconds)).1.1 <= 9999 -> all_bytes (byte_in 0 127) (format_rfc3339 t) = true.
Proof.
  unfold format_rfc3339. destruct (civil_of_days (t / second / day_seconds)) as [[y m] d] eqn:E. cbn [fst]. intros Hy.
  apply civil_days in E as (Hm & Hd & _). assert (Hd31 : days_in m y <= 31) by (unfold days_in; repeat case_match; lia).
  unfold format_clock, year_text. set (s := (t / second + 0) mod day_seconds).
  assert (Hs : 0 <= s < day_seconds) by (apply Z.mod_pos_bound; done). unfold day_seconds in Hs. clearbody s.
  rewrite (proj2 (Z.ltb_ge y 0)), (proj2 (Z.leb_le (Z.abs y) 9999)), Z.abs_eq by lia.
  unfold pad4. rewrite !all_bytes_app, !pad2_ascii by zdm. done.
Qed.

Lemma utf8_coerce_nonempty s : s <> "" -> utf8_coerce s <> "".
Proof. destruct s as [|c r]; [done|]. intros _. cbn [utf8_coerce]. by repeat case_match. Qed.

Lemma replay_time_nonempty t : utf8_coerce (formatReplayTime t) <> "".
Proof.
  apply utf8_coerce_nonempty. unfold formatReplayTime. destruct (is_zero t); [done|]. unfold format_rfc3339.
  destruct (civil_of_days _) as [[y m] d].
  intros E. apply (f_equal String.length) in E. rewrite !length_app_str in E. cbn in E. lia.
Qed.

(** ** A frame *)

Section Play.
Context {F : FloatText}.
Variable toFixed : nat -> float64 -> string.
Variable toISOString : string -> option string.

Local Abbreviation step := (replay_step toFixed toISOString).
Local Abbreviation steps := (replay_steps toFixed toISOString).

(** The callbacks of source [n] for events, and for the bytes of a response. *)
Definition events_to (n : nat) (es : list (string * json)) : list replayAction :=
  (fun e => Event n e.1 (Some (doc_of e.2))) <$> es.
Definition received_by (n : nat) (out : list (chunk page)) : list replayAction :=
  (fun e => Event n e.1 e.2) <$> (parsed <$> dispatched (stream_text (event_text <$> sent_events out))).

Lemma received_by_events n out : Forall event_ok (sent_events out) -> received_by n out = events_to n (sent_events out).
Proof. intros Hok. unfold received_by, events_to. rewrite events_dispatched, events_parsed by done. by rewrite <-list_fmap_compose. Qed.

(** A frame of a playback whose numbers a document can carry. *)
Definition carried_frame (x : shown) : Prop :=
  Forall doubles (replayViews x.1) /\ in_int64 (Frame x.2) /\ in_int64 (Total x.2).

Lemma frames_finite full : Forall carried_frame full -> finite_shown full.
Proof.
  intros Hok. eapply Forall_impl; [exact Hok|]. intros x (Hd & _). unfold replayViews in Hd. rewrite Forall_fmap in Hd.
  eapply Forall_impl; [exact Hd|]. intros pos (H1 & H2 & H3 & H4). unfold finite_pos, f64_ok in *. cbn in *.
  repeat match goal with H : _ && _ = true |- _ => apply andb_true_iff in H as [-> _] end. done.
Qed.

Definition frame_time (x : shown) : string := utf8_coerce (formatReplayTime (At x.2)).

(** The page shows a frame of source [n]. *)
Definition shows_frame (n : nat) (x : shown) (s : replayPage) : Prop :=
  playing n s = true /\
  (forall id, pMarkers (rMap s) !! id = replay_marker toFixed (pSelected (rMap s)) <$>
     last (List.filter (fun v => bool_decide (vvID v = id)) (coerced <$> replayViews x.1))) /\
  cLast (rControls s) = Some (frame_time x) /\
  sbStatus (rSidebar s) =
    ("Frame " +:+ itoa (Frame x.2) +:+ " / " +:+ itoa (Total x.2) +:+ " · " +:+ frame_time x, "status ok").

Lemma progress_received (frame total : Z) (at_ : option string) status : in_int64 frame -> in_int64 total ->
  progress_of (doc_of (enc_progress frame total at_ status)) =
    Some {| prStatus := utf8_coerce status; prAt := utf8_coerce <$> at_; prFrame := frame; prTotal := total |}.
Proof.
  intros Hf Ht. unfold progress_of, enc_progress, enc_str. destruct at_ as [a|]; cbn -[as_int utf8_coerce itoa];
    by rewrite !as_int_itoa by done.
Qed.

Lemma frame_event_ok x : carried_frame x -> Forall event_ok (sent_events (frame_events x)).
Proof.
  intros (Hd & _). unfold frame_events. cbn [sent_events]. apply Forall_cons. split.
  - split_and!; [done|done|by apply json_ok_vehicles].
  - by apply Forall_singleton.
Qed.

Lemma vehicles_step n l s : Forall doubles l -> playing n s = true ->
  step (Event n "vehicles" (Some (doc_of (JArr (vehicle_json <$> l))))) s = with_map (applyVehicles toFixed (coerced <$> l) (rMap s)) s.
Proof.
  intros Hl Hp. cbn [replay_step]. rewrite Hp. unfold stream_event. rewrite bool_decide_true by done. cbn [mbind option_bind].
  by rewrite vehicles_received.
Qed.

Lemma progress_step n frame total at_ status s : in_int64 frame -> in_int64 total -> playing n s = true ->
  step (Event n "progress" (Some (doc_of (enc_progress frame total at_ status)))) s =
    on_progress {| prStatus := utf8_coerce status; prAt := utf8_coerce <$> at_; prFrame := frame; prTotal := total |} s.
Proof.
  intros Hf Ht Hp. cbn [replay_step]. rewrite Hp. unfold stream_event. rewrite bool_decide_false, bool_decide_true by done.
  cbn [mbind option_bind]. by rewrite progress_received.
Qed.

Lemma frame_steps n x s : carried_frame x -> playing n s = true -> replay_ok s ->
  let s' := steps (events_to n (sent_events (frame_events x))) s in shows_frame n x s' /\ replay_ok s' /\
    cMade (rControls s') = cMade (rControls s).
Proof.
  intros (Hd & Hf & Ht) Hp Hok s'. assert (Hok' : replay_ok s') by by apply replay_steps_ok.
  set (s1 := with_map (applyVehicles toFixed (coerced <$> replayViews x.1) (rMap s)) s).
  assert (E : s' = on_progress {| prStatus := "playing"; prAt := Some (frame_time x); prFrame := Frame x.2; prTotal := Total x.2 |} s1).
  { subst s'. unfold frame_events. change (steps (events_to n (sent_events [?a; ?b])) s) with (steps (events_to n (sent_events [b])) (steps (events_to n (sent_events [a])) s)).
    unfold replay_steps, events_to. cbn [sent_events fmap list_fmap fst snd foldl]. rewrite vehicles_step by done.
    rewrite progress_step by done. done. }
  assert (Ht' : truthy (Some (frame_time x)) = Some (frame_time x)).
  { pose proof (replay_time_nonempty (At x.2)) as Hne. unfold frame_time. by destruct (utf8_coerce _). }
  unfold on_progress in E. rewrite bool_decide_false in E by done. cbn [prAt prFrame prTotal] in E. rewrite Ht' in E.
  destruct (applyVehicles_spec toFixed (coerced <$> replayViews x.1) (rMap s) (proj2 Hok)) as [Hm _].
  split_and!; [|done|by rewrite E]. unfold shows_frame. rewrite E. split_and!; [exact Hp|exact Hm|done|done].
Qed.

Lemma sent_frames full l : sent_events ((full ≫= frame_events) ++ l) = (full ≫= (fun x => sent_events (frame_events x))) ++ sent_events l.
Proof. induction full as [|x full IH]; [done|]. cbn [mbind list_bind]. rewrite <-!app_assoc. cbn. by rewrite IH. Qed.

Lemma steps_app a b s : steps (a ++ b) s = steps b (steps a s).
Proof. apply foldl_app. Qed.

Lemma events_to_app n a b : events_to n (a ++ b) = events_to n a ++ events_to n b.
Proof. apply fmap_app. Qed.

(** The frames one after the other. *)
Lemma playback_steps n full s : Forall carried_frame full -> playing n s = true -> replay_ok s ->
  let s' := steps (events_to n (full ≫= (fun x => sent_events (frame_events x)))) s in
  playing n s' = true /\ replay_ok s' /\ forall x, last full = Some x -> shows_frame n x s'.
Proof.
  induction full as [|x full IH] using rev_ind; intros Hfull Hp Hok; [done|].
  apply Forall_app in Hfull as [Hfull [Hx _]%Forall_cons]. destruct (IH Hfull Hp Hok) as (Hp' & Hok' & _).
  cbv zeta. rewrite bind_app, events_to_app, steps_app. cbn [mbind list_bind]. rewrite app_nil_r.
  destruct (frame_steps n x _ Hx Hp' Hok') as (Hs & Hok2 & _). split; [apply Hs|]. split; [exact Hok2|].
  intros y. rewrite last_snoc. by intros [= <-].
Qed.

Lemma starting_step n s : playing n s = true ->
  step (Event n "progress" (Some (doc_of (enc_progress 0 0 None "starting")))) s = s.
Proof. intros Hp. rewrite progress_step by (done || by split). done. Qed.

Lemma done_step n d s : playing n s = true -> step (Event n "done" d) s = resetReplay (status_text "Replay complete." s).
Proof. intros Hp. cbn [replay_step]. by rewrite Hp. Qed.

Lemma frames_length (full : list shown) : length (full ≫= (fun x => sent_events (frame_events x))) = (2 * length full)%nat.
Proof. induction full as [|x full IH]; [done|]. cbn [mbind list_bind length]. rewrite length_app, IH. cbn. lia. Qed.

Lemma frames_event_ok full : Forall carried_frame full -> Forall event_ok (full ≫= (fun x => sent_events (frame_events x))).
Proof. induction 1 as [|x full Hx _ IH]; [constructor|]. cbn [mbind list_bind]. apply Forall_app. split; [by apply frame_event_ok|done]. Qed.

Lemma end_event_ok e : Forall event_ok (sent_events (end_events e)).
Proof. destruct e as [e|]; cbn [end_events]; [destruct (_ || _); [constructor|]|]; by apply Forall_singleton. Qed.
End Play.

Section Replay.
Context {MR : MapRange} {I : IsleDB} {SS : SliceSort} {F : FloatText}.
Variable toFixed : nat -> float64 -> string.
Variable toISOString : string -> option string.
Variable clock : nat -> time.
Variable disk : nat -> disk_io.
Variable pipe : nat -> Pipeline.
Variable wire : nat -> option error.

Local Abbreviation steps := (replay_steps toFixed toISOString).

(** What the bytes of a whole replay stream do to a page that plays it. *)
Lemma playback_shown n e full c' s : replay_ok s -> playing n s = true -> Forall carried_frame full ->
  rOut (cResp c') = SSE "progress" (enc_progress 0 0 None "starting") :: (full ≫= frame_events) ++ end_events e ->
  let acts := received_by n (rOut (cResp c')) in
  (forall l1 x l2, full = l1 ++ x :: l2 -> shows_frame toFixed n x (steps (take (3 + 2 * length l1) acts) s)) /\
  (e = None -> let s' := steps acts s in
     (sbStatus (rSidebar s')).1 = "Replay complete." /\ cSource (rControls s') = None /\
     cPlay (rControls s') = (false, "Play") /\ cStop (rControls s') = (true, "Stop") /\
     forall x, last full = Some x -> forall id, pMarkers (rMap s') !! id =
       replay_marker toFixed (pSelected (rMap s')) <$> last (List.filter (fun v => bool_decide (vvID v = id)) (coerced <$> replayViews x.1))).
Proof.
  intros Hinv Hs Hok Hout. set (start := SSE "progress" (enc_progress 0 0 None "starting")) in Hout.
  assert (Hsent : sent_events (rOut (cResp c')) = ("progress", enc_progress 0 0 None "starting") ::
    ((full ≫= (fun x => sent_events (frame_events x))) ++ sent_events (end_events e))) by (rewrite Hout; cbn [sent_events start]; by rewrite <-sent_frames).
  cbv zeta. rewrite received_by_events.
  2:{ rewrite Hsent. apply Forall_cons. split; [done|]. apply Forall_app. split; [by apply frames_event_ok|apply end_event_ok]. }
  rewrite Hsent. change (events_to n (?a :: ?l)) with (events_to n [a] ++ events_to n l). rewrite events_to_app.
  assert (Hstart : forall l, steps (events_to n [("progress", enc_progress 0 0 None "starting")] ++ l) s = steps l s).
  { intros l. rewrite steps_app. f_equal. by apply starting_step. }
  split.
  - intros l1 x l2 Hfull. change (3 + 2 * length l1)%nat with (S (2 + 2 * length l1)).
    change (take (S ?m) (events_to n [?a] ++ ?l)) with (events_to n [a] ++ take m l). rewrite Hstart.
    rewrite Hfull in Hok |- *. rewrite (app_assoc l1 [x] l2 : l1 ++ x :: l2 = (l1 ++ [x]) ++ l2) in Hok |- *.
    apply Forall_app in Hok as [Hok _]. rewrite bind_app, events_to_app, <-app_assoc.
    rewrite take_app_length'.
    + destruct (playback_steps toFixed toISOString n (l1 ++ [x]) s Hok Hs Hinv) as (_ & _ & Hl). apply Hl. by rewrite last_snoc.
    + unfold events_to. rewrite length_fmap, frames_length, length_app. cbn. lia.
  - intros ->. rewrite Hstart, steps_app. destruct (playback_steps toFixed toISOString n full s Hok Hs Hinv) as (Hp' & _ & Hl).
    set (s1 := steps _ s) in *. cbn [end_events sent_events]. unfold events_to, replay_steps. cbn [fmap list_fmap foldl fst snd].
    rewrite done_step by done. split_and!; [done|done|done|done|]. intros x Hx. destruct (Hl x Hx) as (_ & Hm & _). exact Hm.
Qed.

(** C7: from the change feed to the replay map.  The handler of the replay stream
    answers a client that stays, from a pipeline that does not change meanwhile,
    with fuel for its feeds; the page, in any state it can get to, has opened the
    stream as its source [n] and read its bytes.  The playback comes to its end
    and the handler returns.  When the playback's positions can be carried by the
    stream, then after the events of any frame of the playback the page shows
    exactly that frame: the markers are its vehicles, with the followed one
    highlighted, the status has its number and time, and its time is where a
    pause will resume.  When the playback ends without an error, the markers stay
    on its last frame, the status says so and the controls are idle again. *)
Theorem replay_reaches_map `{!IsleDBLaws I} fuel r w p from to rg before n :
  (forall k, wire k = None) -> (forall k, pipe k = p) -> fueled fuel p ->
  replay_bound "from" r = Some from -> replay_bound "to" r = Some to ->
  let s := steps before (loaded_replay rg) in playing n s = true ->
  exists e full p' c', RunReplay never_cancelled record_frame fuel
    {| RegionID := (replay_region clock disk r (open_conn w)).1; roSpeed := replay_speed r; roFrom := from; roTo := to |} p []
    = Some ((e, full), p') /\
  handleReplayStream clock disk pipe wire true true never_cancelled fuel r (open_conn w) = Some c' /\
  (Forall carried_frame full ->
    let acts := received_by n (rOut (cResp c')) in
    (forall l1 x l2, full = l1 ++ x :: l2 -> shows_frame toFixed n x (steps (take (3 + 2 * length l1) acts) s)) /\
    (e = None -> let s' := steps acts s in
       (sbStatus (rSidebar s')).1 = "Replay complete." /\ cSource (rControls s') = None /\
       cPlay (rControls s') = (false, "Play") /\ cStop (rControls s') = (true, "Stop") /\
       forall x, last full = Some x -> forall id, pMarkers (rMap s') !! id =
         replay_marker toFixed (pSelected (rMap s')) <$> last (List.filter (fun v => bool_decide (vvID v = id)) (coerced <$> replayViews x.1)))).
Proof.
  intros Hw Hp Hfuel Hfrom Hto s Hs. pose proof (replay_steps_ok toFixed toISOString before _ (loaded_replay_ok rg)) as Hinv.
  fold s in Hinv. pose proof (replay_stream_events clock disk pipe wire true true fuel r w p eq_refl eq_refl Hw Hp) as H.
  rewrite Hfrom, Hto in H. cbv zeta in H.
  match type of H with forall e full p', RunReplay _ _ _ ?o _ _ = _ -> _ => set (opts := o) in * end.
  destruct (RunReplay_total never_cancelled record_frame fuel opts p [] Hfuel) as (e & full & p' & Hrun).
  destruct (handleReplayStream_total clock disk pipe wire true true never_cancelled fuel r (open_conn w)) as [c' Hc]; [intros k; by rewrite Hp|].
  exists e, full, p', c'. split; [done|]. split; [done|]. intros Hok.
  destruct (H e full p' Hrun (frames_finite full Hok)) as (c1 & Hc1 & _ & Hout). rewrite Hc in Hc1. injection Hc1 as <-. clear H.
  by apply playback_shown.
Qed.

(** C18: pause and resume.  When Stop is clicked while a stream plays, and again,
    the page opens a new source without touching its markers or the vehicle it
    follows; and the handler that gets the new address reads from it the region
    of the page, its speed, and, as the start, exactly the time of the frame that
    was shown last. *)
Theorem resume_continues s t q : replay_ok s -> is_Some (cSource (rControls s)) ->
  cLast (rControls s) = Some (utf8_coerce (formatReplayTime t)) ->
  t mod second = 0 -> is_zero t = false -> 0 <= (civil_of_days (t / second / day_seconds)).1.1 <= 9999 ->
  let s1 := replay_step toFixed toISOString ClickStop s in
  let s2 := replay_step toFixed toISOString ClickStop s1 in
  cSource (rControls s1) = None /\ (sbStatus (rSidebar s1)).1 = "Paused at " +:+ formatReplayTime t +:+ "." /\
  rMap s2 = rMap s /\
  exists so query_text, cSource (rControls s2) = Some so /\ soURL so = "/api/replay/stream?" +:+ query_text /\
    (rqQuery q = parse_query query_text ->
     query "region" q = sbRegion (rSidebar s) /\ query "speed" q = cSpeed (rControls s) /\ replay_bound "from" q = Some t).
Proof.
  intros [[Hplay Hc] _] [so Hso] Hlast Ht Hz Hy. rewrite Hso in Hc. destruct Hc as (_ & _ & Hstop).
  assert (Hcoe : utf8_coerce (formatReplayTime t) = formatReplayTime t).
  { unfold formatReplayTime. rewrite Hz. by apply utf8_coerce_ascii, format_ascii. }
  rewrite Hcoe in Hlast. assert (Htr : truthy (Some (formatReplayTime t)) = Some (formatReplayTime t)).
  { pose proof (replay_time_nonempty t) as Hne. rewrite Hcoe in Hne. by destruct (formatReplayTime t). }
  assert (E1 : replay_step toFixed toISOString ClickStop s = pauseReplay s) by (cbn [replay_step]; by rewrite Hstop, Hso).
  cbv zeta. rewrite E1.
  assert (E2 : replay_step toFixed toISOString ClickStop (pauseReplay s) = startReplay (Some (formatReplayTime t)) (pauseReplay s)).
  { cbn [replay_step pauseReplay status_text with_status with_sidebar with_controls rControls cStop cSource cLast]. by rewrite Hstop, Hlast. }
  rewrite E2. split_and!; [done| | |].
  - unfold pauseReplay. cbn [status_text with_status with_sidebar rSidebar sbStatus fst]. by rewrite Hlast, Htr.
  - unfold startReplay. by rewrite Htr.
  - eexists _, (query_string [("region", sbRegion (rSidebar s)); ("speed", cSpeed (rControls s)); ("from", formatReplayTime t)]).
    unfold startReplay. rewrite Htr. split; [reflexivity|]. split; [reflexivity|]. intros Hq.
    assert (Hk : rqQuery q = foldr (fun kv m => <[kv.1 := kv.2]> m) ∅
      [("region", sbRegion (rSidebar s)); ("speed", cSpeed (rControls s)); ("from", formatReplayTime t)]).
    { rewrite Hq. apply parse_query_string; [|done]. by repeat constructor. }
    unfold query. rewrite Hk. cbn [foldr fst snd]. split_and!; [by simplify_map_eq|by simplify_map_eq|].
    apply bound_of_time; try done. rewrite Hk. cbn [foldr fst snd]. by simplify_map_eq.
Qed.
End Replay.

(** ** A concrete playback *)

#[local] Existing Instance MemStore.isledb.
#[local] Existing Instance canonical_range.
#[local] Existing Instance scaled_floats.

Definition frame_check (x : shown) : bool :=
  forallb (fun v => f64_ok (vvLat v) && f64_ok (vvLng v) && f64_ok (vvSpeed v) && f64_ok (vvBearing v)) (replayViews x.1) &&
  bool_decide (in_int64 (Frame x.2)) && bool_decide (in_int64 (Total x.2)).

Lemma frame_check_ok full : forallb frame_check full = true -> Forall carried_frame full.
Proof.
  rewrite forallb_forall. intros Ha. apply Forall_forall. intros x Hx%list_elem_of_In%Ha. unfold frame_check in Hx.
  rewrite !andb_true_iff, forallb_forall, !bool_decide_eq_true in Hx. destruct Hx as [[Hd Hf] Ht]. split; [|by split].
  apply Forall_forall. intros v Hv%list_elem_of_In%Hd. rewrite !andb_true_iff in Hv. by destruct Hv as [[[? ?] ?] ?].
Qed.

Lemma played_frames : match play zero_time with Some ((_, full), _) => forallb frame_check full && negb (bool_decide (full = [])) | None => false end = true.
Proof. by vm_compute. Qed.

Lemma replay_reaches_map_witness : exists full c' x l,
  handleReplayStream (MR := canonical_range) (SS := merge_slice_sort false) same_noon good_disk calm_pipe good_wire true true
    never_cancelled 5 replay_request (open_conn (sWorld start)) = Some c' /\ full = x :: l /\
  let s := run_replay [ClickPlay] fresh_page in
  shows_frame plain_fixed 1 x (run_replay (take 3 (received_by 1 (rOut (cResp c')))) s) /\
  (sbStatus (rSidebar (run_replay (received_by 1 (rOut (cResp c'))) s))).1 = "Replay complete.".
Proof.
  destruct (play_runs zero_time) as (full & p' & Hfull); [vm_compute; reflexivity|]. pose proof played_frames as Hc. rewrite Hfull in Hc.
  apply andb_true_iff in Hc as [Hok Hne]. destruct full as [|x l]; [discriminate Hne|].
  destruct (replay_reaches_map (MR := canonical_range) (SS := merge_slice_sort false) plain_fixed same_iso same_noon good_disk calm_pipe good_wire
    (IsleDBLaws0 := MemStore.laws) 5 replay_request (sWorld start) flushed zero_time zero_time
    {| rID := "kl"; rLabel := "KL"; rCenter := (f64_of_Z 3, f64_of_Z 101); rZoom := 11; rAgencies := ["ktmb"] |} [ClickPlay] 1)
    as (e & full' & p1 & c' & Hrun & H1 & H2); [reflexivity|reflexivity|exact fueled_flushed|reflexivity|reflexivity|reflexivity|].
  assert (E : Some ((e, full'), p1) = Some ((None, x :: l), p')) by (rewrite <-Hrun; exact Hfull). injection E as -> -> ->.
  destruct (H2 (frame_check_ok _ Hok)) as [H3 H4].
  exists (x :: l), c', x, l. split; [exact H1|]. split; [reflexivity|]. split.
  - exact (H3 [] x l eq_refl).
  - exact (proj1 (H4 eq_refl)).
Defined.

Definition paused_at : string := "2026-01-02T03:04:05Z".
Definition instant : time := default zero_time (parse_rfc3339 paused_at).

Definition resume_request : Request :=
  request "GET" "/api/replay/stream" (Some "a") (parse_query "region=kl&speed=10&from=2026-01-02T03%3A04%3A05Z") (Raw "") "a".

Lemma resume_continues_witness : exists so query_text,
  cSource (rControls (run_replay [ClickStop; ClickStop] following)) = Some so /\
  soURL so = "/api/replay/stream?" +:+ query_text /\ replay_bound "from" resume_request = Some instant.
Proof.
  destruct (resume_continues plain_fixed same_iso following instant resume_request) as (_ & _ & _ & so & txt & H1 & H2 & H3).
  - apply replay_steps_ok, loaded_replay_ok.
  - eexists. vm_compute. reflexivity.
  - vm_compute. reflexivity.
  - vm_compute. reflexivity.
  - vm_compute. reflexivity.
  - vm_compute. split; discriminate.
  - exists so, txt. split; [exact H1|]. split; [exact H2|].
    assert (E : txt = "region=kl&speed=10&from=2026-01-02T03%3A04%3A05Z").
    { vm_compute in H1. injection H1 as <-. vm_compute in H2. by injection H2 as <-. }
    apply H3. by rewrite E.
Defined.
