(* ===== verification/Wire.v ===== *)
(** * Protobuf messages (github.com/VictoriaMetrics/easyproto)

    What the metrics prototype uses of easyproto, a library outside the
    repository: [Easyproto] is a marshaler that writes fields one after the other
    and a [FieldContext] that reads them back, with the laws the code relies on.
    [protobuf_wire] is one implementation, on the protobuf wire format, with
    which definitions are evaluated. *)

From Stdlib Require Import Ascii SpecFloat.
From S2P Require Import Prelude GoStrings Floats.

(** ** The interface *)

(** What a field holds: a scalar, a string or the bytes of a nested message. *)
Inductive content :=
  | CInt64 (z : Z)
  | CInt32 (z : Z)
  | CDouble (f : float64)
  | CBool (b : bool)
  | CString (s : string)
  | CMessage (m : string).

Definition int32_min : Z := - 2 ^ 31.
Definition int32_max : Z := 2 ^ 31 - 1.
Definition in_int32 (z : Z) : Prop := int32_min <= z <= int32_max.

(** A float64 as the hardware has it: mantissa and exponent in canonical form. *)
Definition f64_valid (f : float64) : Prop := valid_binary 53 1024 f = true.

Class Easyproto := {
  FieldContext : Type;
  (** [fc.NextField(src)]: the field that was read, and what follows it. *)
  NextField : string -> result (FieldContext * string);
  FieldNum : FieldContext -> Z;
  fcInt64 : FieldContext -> option Z;
  fcInt32 : FieldContext -> option Z;
  fcDouble : FieldContext -> option float64;
  fcBool : FieldContext -> option bool;
  fcString : FieldContext -> option string;
  fcMessageData : FieldContext -> option string;
  (** The bytes of one field. *)
  encode_field : Z -> content -> string
}.

(** The reader returns what the writer was given. *)
Definition reads `{Easyproto} (fc : FieldContext) (c : content) : Prop :=
  match c with
  | CInt64 z => in_int64 z -> fcInt64 fc = Some z
  | CInt32 z => in_int32 z -> fcInt32 fc = Some z
  | CDouble f => exists g, fcDouble fc = Some g /\ (f64_valid f -> g = f)
  | CBool b => fcBool fc = Some b
  | CString s => fcString fc = Some s
  | CMessage m => fcMessageData fc = Some m
  end.

Class EasyprotoLaws `{Easyproto} : Prop := {
  (** A field that was written is read back, whatever follows it. *)
  next_encoded n c tail : 1 <= n < 2 ^ 29 ->
    exists fc, NextField (encode_field n c +:+ tail) = Ok (fc, tail) /\ FieldNum fc = n /\ reads fc c;
  (** Reading advances, and a nested message or a string lies within the field. *)
  next_shorter d fc tail : NextField d = Ok (fc, tail) -> (String.length tail < String.length d)%nat;
  message_shorter d fc tail m : NextField d = Ok (fc, tail) -> fcMessageData fc = Some m ->
    (String.length m + String.length tail < String.length d)%nat;
  string_shorter d fc tail s : NextField d = Ok (fc, tail) -> fcString fc = Some s ->
    (String.length s + String.length tail < String.length d)%nat
}.

(** A [MessageMarshaler] is what was appended to it; [Marshal] returns it. *)
Section marshaler.
Context {E : Easyproto}.
Definition AppendInt64 (n z : Z) (mm : string) : string := mm +:+ encode_field n (CInt64 z).
Definition AppendInt32 (n z : Z) (mm : string) : string := mm +:+ encode_field n (CInt32 z).
Definition AppendDouble (n : Z) (f : float64) (mm : string) : string := mm +:+ encode_field n (CDouble f).
Definition AppendBool (n : Z) (b : bool) (mm : string) : string := mm +:+ encode_field n (CBool b).
Definition AppendString (n : Z) (s : string) (mm : string) : string := mm +:+ encode_field n (CString s).
Definition AppendMessage (n : Z) (m : string) (mm : string) : string := mm +:+ encode_field n (CMessage m).
End marshaler.

(** ** The protobuf wire format *)

Definition byte (n : N) : ascii := ascii_of_N n.

(** Base-128 varints, least significant group first. *)
Fixpoint varint_loop (fuel : nat) (n : N) : string :=
  match fuel with
  | O => ""
  | S fuel => if (n <? 128)%N then String (byte n) ""
              else String (byte (n mod 128 + 128)) (varint_loop fuel (n / 128))
  end.
Definition varint (n : N) : string := varint_loop (S (N.to_nat (N.log2 n))) n.

Fixpoint read_varint (s : string) : option (N * string) :=
  match s with
  | "" => None
  | String c r =>
      if (N_of_ascii c <? 128)%N then Some (N_of_ascii c, r) else
      match read_varint r with
      | Some (n, r) => Some (N_of_ascii c - 128 + 128 * n, r)%N
      | None => None
      end
  end.

Lemma N_of_byte n : (n < 256)%N -> N_of_ascii (byte n) = n.
Proof. apply N_ascii_embedding. Qed.

Lemma read_varint_loop fuel n tail : (N.to_nat (N.log2 n) < fuel)%nat ->
  read_varint (varint_loop fuel n +:+ tail) = Some (n, tail).
Proof.
  revert n. induction fuel as [|fuel IH]; intros n Hf; [lia|]. cbn [varint_loop].
  destruct (N.ltb_spec n 128) as [Hn|Hn].
  - change (String (byte n) "" +:+ tail) with (String (byte n) tail). cbn [read_varint].
    rewrite N_of_byte by lia. by rewrite (proj2 (N.ltb_lt _ _)).
  - change (String ?c ?a +:+ tail) with (String c (a +:+ tail)). cbn [read_varint].
    assert (Hlt : (n mod 128 < 128)%N) by (by apply N.mod_lt).
    rewrite N_of_byte by lia. rewrite (proj2 (N.ltb_ge _ _)) by apply N.le_add_l.
    rewrite IH.
    + f_equal. f_equal. rewrite N.add_sub. pose proof (N.div_mod' n 128). lia.
    + assert (7 <= N.log2 n)%N by (by apply (N.log2_le_mono 128)).
      change 128%N with (2 ^ 7)%N. rewrite <-N.shiftr_div_pow2, N.log2_shiftr. lia.
Qed.

Lemma read_varint_app n tail : read_varint (varint n +:+ tail) = Some (n, tail).
Proof. apply read_varint_loop. lia. Qed.

Lemma read_varint_shorter s n r : read_varint s = Some (n, r) -> (String.length r < String.length s)%nat.
Proof.
  revert n r. induction s as [|c s IH]; intros n r; [done|]. cbn [read_varint String.length].
  case_match; [intros [= <- <-]; lia|]. destruct (read_varint s) as [[m r']|]; [|done].
  intros [= <- <-]. specialize (IH _ _ eq_refl). lia.
Qed.

(** Little-endian words of [k] bytes. *)
Fixpoint le_split (k : nat) (n : N) : string :=
  match k with O => "" | S k => String (byte (n mod 256)) (le_split k (n / 256)) end.
Fixpoint read_le (k : nat) (s : string) : option (N * string) :=
  match k, s with
  | O, _ => Some (0%N, s)
  | S _, "" => None
  | S k, String c s =>
      match read_le k s with Some (n, r) => Some (N_of_ascii c + 256 * n, r)%N | None => None end
  end.

Lemma read_le_split k n tail : (n < 256 ^ N.of_nat k)%N ->
  read_le k (le_split k n +:+ tail) = Some (n, tail).
Proof.
  revert n. induction k as [|k IH]; intros n Hn.
  - simpl in Hn. by replace n with 0%N by lia.
  - cbn [le_split]. change (String ?c ?a +:+ tail) with (String c (a +:+ tail)). cbn [read_le].
    rewrite IH.
    + rewrite N_of_byte by (by apply N.mod_lt). f_equal. f_equal. pose proof (N.div_mod' n 256). lia.
    + apply N.Div0.div_lt_upper_bound. rewrite Nat2N.inj_succ, N.pow_succ_r' in Hn. lia.
Qed.

Lemma read_le_shorter k s n r : read_le k s = Some (n, r) -> (k + String.length r = String.length s)%nat.
Proof.
  revert s n r. induction k as [|k IH]; intros s n r; [by intros [= <- <-]|].
  destruct s as [|c s]; [done|]. cbn [read_le String.length]. destruct (read_le k s) as [[m r']|] eqn:Hr; [|done].
  intros [= <- <-]. apply IH in Hr. lia.
Qed.

Arguments read_le : simpl never.

(** The first [k] bytes and the others. *)
Fixpoint read_bytes (k : nat) (s : string) : option (string * string) :=
  match k, s with
  | O, _ => Some ("", s)
  | S _, "" => None
  | S k, String c s => match read_bytes k s with Some (a, r) => Some (String c a, r) | None => None end
  end.

Lemma read_bytes_app a tail : read_bytes (String.length a) (a +:+ tail) = Some (a, tail).
Proof.
  induction a as [|c a IH]; [done|]. change (String c a +:+ tail) with (String c (a +:+ tail)).
  cbn [String.length read_bytes]. by rewrite IH.
Qed.

Lemma read_bytes_split k s a r : read_bytes k s = Some (a, r) -> s = a +:+ r.
Proof.
  revert s a r. induction k as [|k IH]; intros s a r; [by intros [= <- <-]|].
  destruct s as [|c s]; [done|]. cbn [read_bytes]. destruct (read_bytes k s) as [[b r']|] eqn:Hr; [|done].
  intros [= <- <-]. by rewrite (IH _ _ _ Hr).
Qed.

(** ** The bits of a float64 *)

Definition two52 : Z := 2 ^ 52.

Definition Float64bits (f : float64) : Z :=
  match f with
  | S754_zero s => if s then 2 ^ 63 else 0
  | S754_infinity s => (if s then 2 ^ 63 else 0) + 2047 * two52
  | S754_nan => 2047 * two52 + 1
  | S754_finite s m e =>
      (if s then 2 ^ 63 else 0)
      + (if Z.pos m <? two52 then Z.pos m else (e + 1075) * two52 + (Z.pos m - two52))
  end.

Definition Float64frombits (b : Z) : float64 :=
  let s := 2 ^ 63 <=? b in
  let a := if s then b - 2 ^ 63 else b in
  let ex := a / two52 in
  let mant := a mod two52 in
  if ex =? 2047 then (if mant =? 0 then S754_infinity s else S754_nan)
  else if ex =? 0 then (match mant with Z.pos m => S754_finite s m (-1074) | _ => S754_zero s end)
  else (match mant + two52 with Z.pos m => S754_finite s m (ex - 1075) | _ => S754_nan end).

Lemma digits2_pos_bounds p : 2 ^ (Z.pos (digits2_pos p) - 1) <= Z.pos p < 2 ^ Z.pos (digits2_pos p).
Proof.
  induction p as [p IH|p IH|]; cbn [digits2_pos]; [| |done];
    rewrite Pos2Z.inj_succ, <-Z.add_1_r, Z.add_simpl_r, Z.pow_add_r by lia;
    assert (2 ^ Z.pos (digits2_pos p) = 2 * 2 ^ (Z.pos (digits2_pos p) - 1))
      by (rewrite <-Z.pow_succ_r by lia; f_equal; lia); lia.
Qed.

Lemma valid_finite s m e : f64_valid (S754_finite s m e) ->
  (Z.pos m < two52 /\ e = -1074) \/ (two52 <= Z.pos m < 2 * two52 /\ -1074 <= e <= 971).
Proof.
  unfold f64_valid, valid_binary, bounded, canonical_mantissa, fexp, emin, two52.
  rewrite andb_true_iff, Z.eqb_eq, Z.leb_le. intros [Hc He].
  pose proof (digits2_pos_bounds m) as Hd. set (d := Z.pos (digits2_pos m)) in *.
  assert (d <= 53) by lia. assert (e = -1074 \/ d = 53) as [->|Hd53] by lia.
  - destruct (decide (d = 53)) as [->|]; [right; simpl in Hd; lia|].
    left. split; [|done]. assert (2 ^ d <= 2 ^ 52) by (apply Z.pow_le_mono_r; lia). lia.
  - right. rewrite Hd53 in Hd. simpl in Hd. lia.
Qed.

(** ** Products of doubles are doubles *)

Lemma digits_unique m k : 0 <= k -> 2 ^ k <= m < 2 ^ (k + 1) -> Zdigits2 m = k + 1.
Proof.
  intros Hk [H1 H2]. pose proof (Z.pow_pos_nonneg 2 k ltac:(lia) Hk).
  pose proof (Zdigits2_spec m (k + 1) ltac:(lia) H2). destruct m as [|m|m]; try lia. simpl in *.
  pose proof (digits2_pos_bounds m) as Hd. destruct (decide (k + 1 <= Z.pos (digits2_pos m))); [lia|].
  assert (2 ^ Z.pos (digits2_pos m) <= 2 ^ k) by (apply Z.pow_le_mono_r; lia). lia.
Qed.

Lemma digits_shift m k : 0 <= k -> 0 < m / 2 ^ k -> Zdigits2 (m / 2 ^ k) = Zdigits2 m - k.
Proof.
  intros Hk Hm. pose proof (Z.pow_pos_nonneg 2 k ltac:(lia) Hk) as Hp.
  assert (0 < m).
  { destruct (decide (0 < m)); [done|]. assert (m / 2 ^ k <= 0 / 2 ^ k) by (apply Z.div_le_mono; lia).
    rewrite Z.div_0_l in * by lia. lia. }
  destruct m as [|p|p]; try lia. simpl Zdigits2 at 2. pose proof (digits2_pos_bounds p) as [H1 H2].
  set (d := Z.pos (digits2_pos p)) in *.
  assert (k <= d - 1).
  { destruct (decide (k <= d - 1)); [done|]. assert (2 ^ d <= 2 ^ k) by (apply Z.pow_le_mono_r; lia).
    rewrite Z.div_small in Hm; lia. }
  replace (d - k) with (d - 1 - k + 1) by lia. apply digits_unique; [lia|]. split.
  - apply Z.div_le_lower_bound; [done|]. rewrite <-Z.pow_add_r by lia. by replace (k + (d - 1 - k)) with (d - 1) by lia.
  - apply Z.div_lt_upper_bound; [done|]. rewrite <-Z.pow_add_r by lia. by replace (k + (d - 1 - k + 1)) with d by lia.
Qed.

(** After a shift the exponent is the one that the digits ask for. *)
Lemma shr_fexp_canonical m e l : 0 <= m -> e <= fexp 53 1024 (Zdigits2 m + e) ->
  let '(r, e') := shr_fexp 53 1024 m e l in
  e' = fexp 53 1024 (Zdigits2 m + e) /\ shr_m r = m / 2 ^ (e' - e) /\
  (0 < shr_m r -> fexp 53 1024 (Zdigits2 (shr_m r) + e') = e').
Proof.
  intros Hm He. unfold shr_fexp. assert (Hr : shr_m (shr_record_of_loc m l) = m) by (by destruct l as [|[]]).
  set (f := fexp 53 1024 (Zdigits2 m + e)) in *.
  assert (Hshr : shr (shr_record_of_loc m l) e (f - e) =
    (if decide (f = e) then shr_record_of_loc m l else Nat.iter (Z.to_nat (f - e)) shr_1 (shr_record_of_loc m l), f)).
  { unfold shr. destruct (f - e) as [|p|p] eqn:Ek; [|rewrite iter_pos_iter|lia]; case_decide; try lia; f_equal; lia. }
  rewrite Hshr. clear Hshr. split; [done|].
  assert (Hm' : shr_m (if decide (f = e) then shr_record_of_loc m l
                       else Nat.iter (Z.to_nat (f - e)) shr_1 (shr_record_of_loc m l)) = m / 2 ^ (f - e)).
  { case_decide as Hfe; [rewrite Hr, Hfe, Z.sub_diag; by rewrite Z.div_1_r|].
    rewrite iter_shr_1_m by (rewrite Hr; lia). rewrite Hr. by rewrite Z2Nat.id by lia. }
  rewrite Hm'. split; [done|]. intros Hpos. rewrite digits_shift by lia.
  replace (Zdigits2 m - (f - e) + f) with (Zdigits2 m + e) by lia. done.
Qed.

Lemma fexp_spec x : fexp 53 1024 x = Z.max (x - 53) (-1074).
Proof. done. Qed.

Lemma Zdigits2_nonneg m : 0 <= m -> 0 <= Zdigits2 m.
Proof. destruct m; simpl; lia. Qed.

Lemma digits_succ m : 0 <= m -> Zdigits2 m <= Zdigits2 (m + 1).
Proof.
  intros Hm. destruct m as [|p|p]; [done| |lia]. simpl Zdigits2 at 1. pose proof (digits2_pos_bounds p) as [H1 H2].
  destruct (Z.pos p + 1) as [|q|q] eqn:Hq; try lia. simpl. pose proof (digits2_pos_bounds q) as [H3 H4].
  destruct (decide (Z.pos (digits2_pos p) <= Z.pos (digits2_pos q))); [done|].
  assert (2 ^ Z.pos (digits2_pos q) <= 2 ^ (Z.pos (digits2_pos p) - 1)) by (apply Z.pow_le_mono_r; lia). lia.
Qed.

Lemma binary_round_aux_valid s m e l : 0 < m -> e <= fexp 53 1024 (Zdigits2 m + e) ->
  f64_valid (binary_round_aux 53 1024 s m e l).
Proof.
  intros Hm He. unfold binary_round_aux.
  pose proof (shr_fexp_canonical m e l ltac:(lia) He) as H1.
  destruct (shr_fexp 53 1024 m e l) as [r1 e1]. destruct H1 as (He1 & Hm1 & Hc1).
  pose proof (round_nearest_even_le (shr_m r1) (loc_of_shr_record r1)) as Hround.
  set (m2 := round_nearest_even _ _) in *.
  assert (H0 : 0 <= shr_m r1) by (rewrite Hm1; apply Z.div_pos; [lia|]; apply Z.pow_pos_nonneg; lia).
  assert (H2 : e1 <= fexp 53 1024 (Zdigits2 m2 + e1)).
  { rewrite ?fexp_spec in *. destruct (decide (0 < shr_m r1)) as [Hp|].
    - specialize (Hc1 Hp).
      assert (Zdigits2 (shr_m r1) <= Zdigits2 m2); [|lia].
      destruct (decide (m2 = shr_m r1)) as [->|]; [lia|]. replace m2 with (shr_m r1 + 1) by lia. by apply digits_succ.
    - (* everything was shifted out: the exponent is the least one *)
      assert (Hz : m / 2 ^ (e1 - e) = 0) by lia. apply Z.div_small_iff in Hz; [|apply Z.pow_nonzero; lia].
      assert (Zdigits2 m <= e1 - e) by (apply Zdigits2_spec; lia). lia. }
  pose proof (shr_fexp_canonical m2 e1 loc_Exact ltac:(lia) H2) as H3.
  destruct (shr_fexp 53 1024 m2 e1 loc_Exact) as [r2 e2]. destruct H3 as (He2 & Hm2 & Hc2).
  destruct (shr_m r2) as [|p|p] eqn:Hp; [done| |done].
  destruct (Z.leb_spec e2 (1024 - 53)) as [Hle|]; [|done].
  unfold f64_valid, valid_binary, bounded, canonical_mantissa. specialize (Hc2 ltac:(lia)). simpl in Hc2.
  rewrite Hc2, Z.eqb_refl. apply Z.leb_le. lia.
Qed.

Lemma f64_mul_valid x y : f64_valid x -> f64_valid y -> f64_valid (f64_mul x y).
Proof.
  destruct x as [sx|sx| |sx mx ex], y as [sy|sy| |sy my ey]; intros Hx Hy; try done.
  apply binary_round_aux_valid; [lia|]. rewrite fexp_spec.
  apply valid_finite in Hx, Hy. unfold two52 in *.
  assert (Hd : forall k, 0 <= k -> 2 ^ k <= Z.pos (mx * my) -> k + 1 <= Zdigits2 (Z.pos (mx * my))).
  { intros k Hk Hle. simpl. pose proof (digits2_pos_bounds (mx * my)) as [_ H2].
    destruct (decide (k + 1 <= Z.pos (digits2_pos (mx * my)))); [done|].
    assert (2 ^ Z.pos (digits2_pos (mx * my)) <= 2 ^ k) by (apply Z.pow_le_mono_r; lia). lia. }
  destruct Hx as [[Hx ->]|[Hx Hex]], Hy as [[Hy ->]|[Hy Hey]].
  - lia.
  - specialize (Hd 52 ltac:(lia)). nia.
  - specialize (Hd 52 ltac:(lia)). nia.
  - specialize (Hd 104 ltac:(lia)). change (2 ^ 104) with (2 ^ 52 * 2 ^ 52) in Hd. nia.
Qed.

Lemma frombits_sign b : 0 <= b < 2 ^ 63 ->
  Float64frombits (2 ^ 63 + b) =
  match Float64frombits b with
  | S754_zero _ => S754_zero true
  | S754_infinity _ => S754_infinity true
  | S754_finite _ m e => S754_finite true m e
  | S754_nan => S754_nan
  end.
Proof.
  intros Hb. unfold Float64frombits. rewrite (proj2 (Z.leb_le _ _)), (proj2 (Z.leb_gt _ b)) by lia.
  replace (2 ^ 63 + b - 2 ^ 63) with b by lia. by repeat case_match.
Qed.

Lemma frombits_parts ex mant : 0 <= ex <= 2047 -> 0 <= mant < two52 ->
  Float64frombits (ex * two52 + mant) =
  if ex =? 2047 then (if mant =? 0 then S754_infinity false else S754_nan)
  else if ex =? 0 then (match mant with Z.pos m => S754_finite false m (-1074) | _ => S754_zero false end)
  else (match mant + two52 with Z.pos m => S754_finite false m (ex - 1075) | _ => S754_nan end).
Proof.
  unfold two52. intros He Hm. unfold Float64frombits, two52.
  rewrite (proj2 (Z.leb_gt (2 ^ 63) _)) by lia.
  rewrite Z.div_add_l, Z.div_small, Z.add_0_r by lia.
  by rewrite (Z.add_comm (ex * _)), Z.mod_add, Z.mod_small by lia.
Qed.

Lemma f64_bits_range f : f64_valid f -> 0 <= Float64bits f < 2 ^ 64.
Proof.
  destruct f as [s|s| |s m e]; unfold Float64bits, two52; [destruct s; lia..|lia|].
  intros [[Hm ->]|[Hm He]]%valid_finite; unfold two52 in *; destruct s, (Z.ltb_spec (Z.pos m) (2 ^ 52)); lia.
Qed.

Lemma f64_bits_roundtrip f : f64_valid f -> Float64frombits (Float64bits f) = f.
Proof.
  intros Hv. destruct f as [s|s| |s m e].
  - by destruct s.
  - by destruct s.
  - done.
  - enough (Float64frombits (Float64bits (S754_finite false m e)) = S754_finite false m e
            /\ 0 <= Float64bits (S754_finite false m e) < 2 ^ 63) as [Hf Hr].
    { destruct s; [|done]. change (Float64bits (S754_finite true m e)) with (2 ^ 63 + Float64bits (S754_finite false m e)).
      by rewrite frombits_sign, Hf. }
    unfold Float64bits. rewrite Z.add_0_l. apply valid_finite in Hv as [[Hm ->]|[Hm He]].
    + rewrite (proj2 (Z.ltb_lt _ _)) by done. split; [|unfold two52 in *; lia].
      change (Z.pos m) with (0 * two52 + Z.pos m) at 1. by rewrite frombits_parts by lia.
    + rewrite (proj2 (Z.ltb_ge _ _)) by lia. split; [|unfold two52 in *; lia].
      rewrite frombits_parts by lia. rewrite (proj2 (Z.eqb_neq _ 2047)), (proj2 (Z.eqb_neq _ 0)) by lia.
      replace (Z.pos m - two52 + two52) with (Z.pos m) by lia. f_equal. lia.
Qed.

(** ** Fields on the wire *)

Inductive wire_value :=
  | WVarint (n : N)
  | W64 (n : N)
  | WLen (s : string)
  | W32 (n : N).

Record wire_field := { wfNum : Z; wfValue : wire_value }.

Definition wire_type (v : wire_value) : N :=
  match v with WVarint _ => 0 | W64 _ => 1 | WLen _ => 2 | W32 _ => 5 end%N.

Definition wire_body (v : wire_value) : string :=
  match v with
  | WVarint n => varint n
  | W64 n => le_split 8 n
  | WLen s => varint (N.of_nat (String.length s)) +:+ s
  | W32 n => le_split 4 n
  end.

Definition wire_content (c : content) : wire_value :=
  match c with
  | CInt64 z | CInt32 z => WVarint (Z.to_N (z mod 2 ^ 64))
  | CDouble f => W64 (Z.to_N (Float64bits f mod 2 ^ 64))
  | CBool b => WVarint (if b then 1 else 0)
  | CString s | CMessage s => WLen s
  end.

Definition wire_encode (n : Z) (c : content) : string :=
  varint (8 * Z.to_N n + wire_type (wire_content c)) +:+ wire_body (wire_content c).

Definition read_body (t : N) (s : string) : option (wire_value * string) :=
  match t with
  | 0%N => x ← read_varint s; Some (WVarint x.1, x.2)
  | 1%N => x ← read_le 8 s; Some (W64 x.1, x.2)
  | 2%N => x ← read_varint s; y ← read_bytes (N.to_nat x.1) x.2; Some (WLen y.1, y.2)
  | 5%N => x ← read_le 4 s; Some (W32 x.1, x.2)
  | _ => None
  end.

Definition wire_next (s : string) : result (wire_field * string) :=
  match read_varint s with
  | None => Err (Errorf "cannot unmarshal field tag")
  | Some (tag, r) =>
      match read_body (tag mod 8)%N r with
      | None => Err (Errorf "cannot unmarshal field value")
      | Some (v, r) => Ok ({| wfNum := Z.of_N (tag / 8); wfValue := v |}, r)
      end
  end.

Definition wire_int (f : wire_field) : option Z :=
  match wfValue f with WVarint n => Some (wrap64 (Z.of_N n)) | _ => None end.
Definition wire_len (f : wire_field) : option string :=
  match wfValue f with WLen s => Some s | _ => None end.

Definition protobuf_wire : Easyproto := {|
  FieldContext := wire_field;
  NextField := wire_next;
  FieldNum := wfNum;
  fcInt64 := wire_int;
  fcInt32 f := z ← wire_int f; if bool_decide (int32_min <= z <= int32_max) then Some z else None;
  fcDouble f := match wfValue f with W64 n => Some (Float64frombits (Z.of_N n)) | _ => None end;
  fcBool f := match wfValue f with WVarint 0%N => Some false | WVarint 1%N => Some true | _ => None end;
  fcString := wire_len;
  fcMessageData := wire_len;
  encode_field := wire_encode
|}.

Lemma read_wire_body c tail :
  read_body (wire_type (wire_content c)) (wire_body (wire_content c) +:+ tail) = Some (wire_content c, tail).
Proof.
  destruct c; cbn [wire_content wire_type wire_body read_body];
    rewrite ?str_app_assoc, ?read_varint_app; try (cbn; by rewrite ?Nat2N.id, ?read_bytes_app).
  rewrite read_le_split; [done|].
  apply N2Z.inj_lt. rewrite Z2N.id by (apply Z.mod_pos_bound; lia).
  change (Z.of_N (256 ^ N.of_nat 8)) with (2 ^ 64). by apply Z.mod_pos_bound.
Qed.

Lemma wrap64_mod z : in_int64 z -> wrap64 (Z.of_N (Z.to_N (z mod 2 ^ 64))) = z.
Proof.
  intros Hz. rewrite Z2N.id by (apply Z.mod_pos_bound; lia).
  unfold wrap64. rewrite Z.add_mod_idemp_l by lia. apply wrap64_id, Hz.
Qed.

Lemma read_body_shorter t s v r : read_body t s = Some (v, r) ->
  (String.length r <= String.length s)%nat /\
  match v with WLen m => (String.length m + String.length r < String.length s)%nat | _ => True end.
Proof.
  unfold read_body. intros H. repeat case_match; simplify_option_eq; try done;
    repeat match goal with
    | H : read_varint ?s = Some ?x |- _ => destruct x; apply read_varint_shorter in H
    | H : read_le _ _ = Some ?x |- _ => destruct x; apply read_le_shorter in H
    | H : read_bytes _ _ = Some ?x |- _ => destruct x; apply read_bytes_split in H
    end; simplify_eq/=; rewrite ?length_app_str in *; split; done || lia.
Qed.

Lemma wire_len_shorter d fc tail m : wire_next d = Ok (fc, tail) -> wire_len fc = Some m ->
  (String.length m + String.length tail < String.length d)%nat.
Proof.
  unfold wire_next. destruct (read_varint d) as [[tag r]|] eqn:Hr; [|done].
  destruct (read_body _ r) as [[v r']|] eqn:Hb; [|done]. intros [= <- <-] Hm. unfold wire_len in Hm. simpl in Hm.
  apply read_varint_shorter in Hr. apply read_body_shorter in Hb as [_ Hb]. destruct v; simplify_eq. lia.
Qed.

#[export] Instance protobuf_wire_laws : @EasyprotoLaws protobuf_wire.
Proof.
  split.
  - intros n c tail Hn. simpl. unfold wire_next, wire_encode. rewrite str_app_assoc, read_varint_app.
    assert (Ht : (wire_type (wire_content c) < 8)%N) by (by destruct c).
    rewrite N.mul_comm, N.add_comm, N.Div0.mod_add, N.mod_small, read_wire_body by done.
    rewrite N.div_add, N.div_small by done. eexists. split; [done|]. simpl.
    split; [lia|]. destruct c; simpl; try done.
    + intros Hz. unfold wire_int. simpl. by rewrite wrap64_mod.
    + intros Hz. unfold wire_int. simpl. unfold in_int32, int32_min, int32_max in *.
      rewrite wrap64_mod by (unfold in_int64, int64_min, int64_max; lia). simpl. by rewrite bool_decide_eq_true_2.
    + eexists. split; [done|]. intros Hf. pose proof (f64_bits_range f Hf).
      rewrite Z2N.id by (apply Z.mod_pos_bound; lia). rewrite Z.mod_small by done. by apply f64_bits_roundtrip.
    + by destruct b.
  - intros d fc tail. simpl. unfold wire_next. destruct (read_varint d) as [[tag r]|] eqn:Hr; [|done].
    destruct (read_body _ r) as [[v r']|] eqn:Hb; [|done]. intros [= <- <-].
    apply read_varint_shorter in Hr. apply read_body_shorter in Hb as [? _]. lia.
  - apply wire_len_shorter.
  - apply wire_len_shorter.
Qed.
