(* ===== verification/Metrics.v ===== *)
(** * Metric points (ARCHIVE/Jul252026: internal/shared/types.go and the codecs of
    internal/client/main.go and internal/server/main.go)

    The archived prototype: a metric point, how the client writes it as a
    protobuf message and how the server reads it back.  The reader is written by
    hand over [FieldContext]; its loops are one combinator, [fields_loop], whose
    fuel is the length of the data. *)

From Stdlib Require Import Ascii SpecFloat.
From S2P Require Import Prelude GoStrings Json Wire.

(** ** internal/shared/types.go *)

Definition ValueType_UNSPECIFIED : Z := 0.
Definition ValueType_INT : Z := 1.
Definition ValueType_FLOAT : Z := 2.
Definition ValueType_STRING : Z := 3.
Definition ValueType_LIST : Z := 4.

#[warnings="-register-all"]
Inductive Value := {
  vType : Z;
  IntVal : option Z;
  FloatVal : option float64;
  StringVal : option string;
  ListVal : list Value
}.

Record Label := { lName : string; lValue : string }.

(** A nil map reads as an empty one. *)
Record KeyValue := { Items : gmap string Value }.

Record MetricPoint := {
  Timestamp : Z;
  mValue : float64;
  IsNull : bool;
  Labels : list Label;
  Properties : option KeyValue
}.

Definition zero_Value : Value :=
  {| vType := 0; IntVal := None; FloatVal := None; StringVal := None; ListVal := [] |}.

(** Induction that reaches the items of a list value. *)
Lemma Value_nested_ind (P : Value -> Prop) :
  (forall t i f s l, Forall P l ->
     P {| vType := t; IntVal := i; FloatVal := f; StringVal := s; ListVal := l |}) ->
  forall v, P v.
Proof.
  intros Hv. fix IH 1. intros [t i f s l]. apply Hv.
  induction l as [|v l IHl]; constructor; [apply IH|apply IHl].
Qed.

(** A test of every value of a map, on a list of its entries. *)
Lemma forallb_entries {V} (f : V -> bool) (m : gmap string V) l : l ≡ₚ map_to_list m ->
  forallb (fun kv => f kv.2) l = bool_decide (map_Forall (fun _ v => f v = true) m).
Proof.
  intros Hp. apply eq_true_iff_eq. rewrite forallb_forall, bool_decide_eq_true. split.
  - intros H k v Hk. apply (H (k, v)). apply list_elem_of_In. rewrite Hp. by apply elem_of_map_to_list.
  - intros H [k v] Hin. apply list_elem_of_In in Hin. rewrite Hp in Hin. apply elem_of_map_to_list in Hin. by apply (H k v).
Qed.

Section codec.
Context {E : Easyproto} {MR : MapRange}.

(** ** The client's marshaling *)

Fixpoint marshalValue (v : Value) (mm : string) : string :=
  match v with
  | {| vType := t; IntVal := i; FloatVal := f; StringVal := s; ListVal := l |} =>
      let mm := AppendInt32 1 t mm in
      if t =? ValueType_INT then
        match i with Some i => AppendInt64 2 i mm | None => mm end
      else if t =? ValueType_FLOAT then
        match f with Some f => AppendDouble 3 f mm | None => mm end
      else if t =? ValueType_STRING then
        match s with Some s => AppendString 4 s mm | None => mm end
      else if t =? ValueType_LIST then
        foldl (fun mm item => AppendMessage 5 (marshalValue item "") mm) mm l
      else mm
  end.

Definition marshalLabel (label : Label) : string :=
  AppendString 2 (lValue label) (AppendString 1 (lName label) "").

Definition marshalItem (kv : string * Value) : string :=
  AppendMessage 2 (marshalValue kv.2 "") (AppendString 1 kv.1 "").

Definition marshalItems (kv : KeyValue) : string :=
  foldl (fun mm item => AppendMessage 1 (marshalItem item) mm) "" (range (Items kv)).

Definition marshalMetricPoint (mp : MetricPoint) : string :=
  let mm := AppendBool 3 (IsNull mp) (AppendDouble 2 (mValue mp) (AppendInt64 1 (Timestamp mp) "")) in
  let mm := foldl (fun mm label => AppendMessage 4 (marshalLabel label) mm) mm (Labels mp) in
  match Properties mp with
  | None => mm
  | Some kv => AppendMessage 5 (marshalItems kv) mm
  end.

(** ** The server's unmarshaling *)

(** [for len(remaining) > 0 { remaining, err = fc.NextField(remaining); ... }];
    [None] is lack of fuel, of the loop or of what handles a field. *)
Fixpoint fields_loop {A} (fuel : nat) (what : string) (field : FieldContext -> A -> option (result A))
    (remaining : string) (st : A) : option (result A) :=
  match fuel with
  | O => None
  | S fuel =>
      match remaining with
      | "" => Some (Ok st)
      | _ =>
          match NextField remaining with
          | Err e => Some (Err (Errorf (what +:+ Error e)))
          | Ok (fc, remaining) =>
              match field fc st with
              | Some (Ok st) => fields_loop fuel what field remaining st
              | r => r
              end
          end
      end
  end.

(** The loop on all of [data]. *)
Definition decode_fields {A} (what : string) (field : FieldContext -> A -> option (result A))
    (data : string) (st : A) : option (result A) :=
  fields_loop (S (String.length data)) what field data st.

Definition fail_with {A} (msg : string) : option (result A) := Some (Err (Errorf msg)).
Definition return_ok {A} (a : A) : option (result A) := Some (Ok a).

Definition value_field (unmarshalValue : string -> option (result Value)) (fc : FieldContext) (value : Value)
    : option (result Value) :=
  let '{| vType := t; IntVal := i; FloatVal := f; StringVal := s; ListVal := l |} := value in
  match FieldNum fc with
  | 1 => match fcInt32 fc with
         | Some v => return_ok {| vType := v; IntVal := i; FloatVal := f; StringVal := s; ListVal := l |}
         | None => fail_with "invalid value type field"
         end
  | 2 => match fcInt64 fc with
         | Some v => return_ok {| vType := t; IntVal := Some v; FloatVal := f; StringVal := s; ListVal := l |}
         | None => fail_with "invalid int value field"
         end
  | 3 => match fcDouble fc with
         | Some v => return_ok {| vType := t; IntVal := i; FloatVal := Some v; StringVal := s; ListVal := l |}
         | None => fail_with "invalid float value field"
         end
  | 4 => match fcString fc with
         | Some v => return_ok {| vType := t; IntVal := i; FloatVal := f; StringVal := Some v; ListVal := l |}
         | None => fail_with "invalid string value field"
         end
  | 5 => match fcMessageData fc with
         | None => fail_with "invalid list item message"
         | Some itemData =>
             match unmarshalValue itemData with
             | None => None
             | Some (Err e) => fail_with ("failed to unmarshal list item: " +:+ Error e)
             | Some (Ok item) =>
                 return_ok {| vType := t; IntVal := i; FloatVal := f; StringVal := s; ListVal := l ++ [item] |}
             end
         end
  | _ => return_ok value
  end.

(** [depth] bounds the nesting of lists. *)
Fixpoint unmarshalValue (depth : nat) (data : string) : option (result Value) :=
  match depth with
  | O => None
  | S depth =>
      decode_fields "failed to get next field in value: " (value_field (unmarshalValue depth)) data zero_Value
  end.

Definition entry_field (fc : FieldContext) (st : string * option Value) : option (result (string * option Value)) :=
  let '(key, value) := st in
  match FieldNum fc with
  | 1 => match fcString fc with
         | Some v => return_ok (v, value)
         | None => fail_with "invalid map key field"
         end
  | 2 => match fcMessageData fc with
         | None => fail_with "invalid value message"
         | Some valueData =>
             match unmarshalValue (S (String.length valueData)) valueData with
             | None => None
             | Some (Err e) => fail_with ("failed to unmarshal value: " +:+ Error e)
             | Some (Ok value) => return_ok (key, Some value)
             end
         end
  | _ => return_ok st
  end.

Definition unmarshalMapEntry (data : string) : option (result (string * Value)) :=
  match decode_fields "failed to get next field in map entry: " entry_field data ("", None) with
  | None => None
  | Some (Err e) => Some (Err e)
  | Some (Ok (key, value)) =>
      if bool_decide (key = "") then fail_with "missing map key" else
      match value with
      | None => fail_with "missing map value"
      | Some value => return_ok (key, value)
      end
  end.

Definition keyvalue_field (fc : FieldContext) (kv : KeyValue) : option (result KeyValue) :=
  match FieldNum fc with
  | 1 => match fcMessageData fc with
         | None => fail_with "invalid item message"
         | Some itemData =>
             match unmarshalMapEntry itemData with
             | None => None
             | Some (Err e) => fail_with ("failed to unmarshal map entry: " +:+ Error e)
             | Some (Ok (key, value)) => return_ok {| Items := <[key := value]> (Items kv) |}
             end
         end
  | _ => return_ok kv
  end.

Definition unmarshalKeyValue (data : string) (kv : KeyValue) : option (result KeyValue) :=
  decode_fields "failed to get next field in keyvalue: " keyvalue_field data kv.

Definition label_field (fc : FieldContext) (label : Label) : option (result Label) :=
  match FieldNum fc with
  | 1 => match fcString fc with
         | Some v => return_ok {| lName := v; lValue := lValue label |}
         | None => fail_with "invalid label name field"
         end
  | 2 => match fcString fc with
         | Some v => return_ok {| lName := lName label; lValue := v |}
         | None => fail_with "invalid label value field"
         end
  | _ => return_ok label
  end.

Definition unmarshalLabel (data : string) : option (result Label) :=
  decode_fields "failed to get next field in label: " label_field data {| lName := ""; lValue := "" |}.

Definition new_point : MetricPoint :=
  {| Timestamp := 0; mValue := f64_zero; IsNull := false; Labels := []; Properties := Some {| Items := ∅ |} |}.

(** [mp.Properties] is never nil here: it was allocated with the point. *)
Definition point_field (fc : FieldContext) (mp : MetricPoint) : option (result MetricPoint) :=
  let '{| Timestamp := ts; mValue := x; IsNull := nl; Labels := ls; Properties := ps |} := mp in
  match FieldNum fc with
  | 1 => match fcInt64 fc with
         | Some v => return_ok {| Timestamp := v; mValue := x; IsNull := nl; Labels := ls; Properties := ps |}
         | None => fail_with "invalid timestamp field"
         end
  | 2 => match fcDouble fc with
         | Some v => return_ok {| Timestamp := ts; mValue := v; IsNull := nl; Labels := ls; Properties := ps |}
         | None => fail_with "invalid value field"
         end
  | 3 => match fcBool fc with
         | Some v => return_ok {| Timestamp := ts; mValue := x; IsNull := v; Labels := ls; Properties := ps |}
         | None => fail_with "invalid isNull field"
         end
  | 4 => match fcMessageData fc with
         | None => fail_with "invalid label message"
         | Some labelData =>
             match unmarshalLabel labelData with
             | None => None
             | Some (Err e) => fail_with ("failed to unmarshal label: " +:+ Error e)
             | Some (Ok label) =>
                 return_ok {| Timestamp := ts; mValue := x; IsNull := nl; Labels := ls ++ [label]; Properties := ps |}
             end
         end
  | 5 => match fcMessageData fc with
         | None => fail_with "invalid properties message"
         | Some propsData =>
             match unmarshalKeyValue propsData (default {| Items := ∅ |} ps) with
             | None => None
             | Some (Err e) => fail_with ("failed to unmarshal properties: " +:+ Error e)
             | Some (Ok kv) =>
                 return_ok {| Timestamp := ts; mValue := x; IsNull := nl; Labels := ls; Properties := Some kv |}
             end
         end
  | _ => return_ok mp
  end.

Definition unmarshalMetricPoint (data : string) : option (result MetricPoint) :=
  decode_fields "failed to get next field: " point_field data new_point.


(** ** The reading loop *)

Context {L : EasyprotoLaws}.

Abbreviation len := String.length.

(** A field of [data], with what follows it. *)
Definition field_of (data : string) (fc : FieldContext) (tail : string) : Prop := NextField data = Ok (fc, tail).

Lemma fields_loop_fuel {A} f1 f2 what (field : FieldContext -> A -> option (result A)) d st :
  (len d < f1)%nat -> (len d < f2)%nat ->
  fields_loop f1 what field d st = fields_loop f2 what field d st.
Proof.
  revert f2 d st. induction f1 as [|f1 IH]; intros [|f2] d st H1 H2; try lia. cbn [fields_loop].
  destruct d as [|c d]; [done|]. destruct (NextField (String c d)) as [[fc tail]|e] eqn:Hn; [|done].
  apply next_shorter in Hn. destruct (field fc st) as [[st'|e]|]; try done. apply IH; lia.
Qed.

Lemma decode_fields_nil {A} what (field : FieldContext -> A -> option (result A)) st :
  decode_fields what field "" st = Some (Ok st).
Proof. done. Qed.

Lemma fields_loop_next {A} f what (field : FieldContext -> A -> option (result A)) d st fc tail :
  field_of d fc tail ->
  fields_loop (S f) what field d st =
  match field fc st with Some (Ok st') => fields_loop f what field tail st' | r => r end.
Proof.
  intros Hf. pose proof (next_shorter _ _ _ Hf). cbn [fields_loop]. destruct d; [simpl in *; lia|].
  by rewrite Hf.
Qed.

(** A field that was written is handled, and then what follows it. *)
Lemma decode_fields_encoded {A} what (field : FieldContext -> A -> option (result A)) n c tail st r :
  1 <= n < 2 ^ 29 -> (forall fc, FieldNum fc = n -> reads fc c -> field fc st = r) ->
  decode_fields what field (encode_field n c +:+ tail) st =
  match r with Some (Ok st') => decode_fields what field tail st' | _ => r end.
Proof.
  intros Hn Hr. destruct (next_encoded n c tail Hn) as (fc & Hf & Hfn & Hreads).
  pose proof (next_shorter _ _ _ Hf). unfold decode_fields.
  rewrite (fields_loop_next _ _ _ _ _ _ _ Hf), (Hr fc) by done.
  destruct r as [[st'|e]|]; try done. apply fields_loop_fuel; lia.
Qed.

(** The loop ends if every field of the data is handled. *)
Lemma decode_fields_total {A} what (field : FieldContext -> A -> option (result A)) d st :
  (forall d' fc tail st, (len d' <= len d)%nat -> field_of d' fc tail -> is_Some (field fc st)) ->
  is_Some (decode_fields what field d st).
Proof.
  unfold decode_fields. intros Hf. assert (Hlt : (len d < S (len d))%nat) by lia. revert Hlt.
  generalize (S (len d)) as f. intros f. revert d st Hf.
  induction f as [|f IH]; intros d st Hf Hd; [lia|]. cbn [fields_loop].
  destruct d as [|c d]; [done|]. destruct (NextField (String c d)) as [[fc tail]|e] eqn:Hn; [|done].
  destruct (Hf _ _ _ st (Nat.le_refl _) Hn) as [[st'|e] ->]; [|done].
  apply next_shorter in Hn. apply IH; [|lia]. intros d' fc' tail' st'' Hle. apply Hf. lia.
Qed.

(** A measure of the state that each field increases by at most its length. *)
Lemma decode_fields_bound {A} (size : A -> nat) what (field : FieldContext -> A -> option (result A)) d st st' :
  (forall d' fc tail st st', field_of d' fc tail -> field fc st = Some (Ok st') ->
     (size st' + len tail <= size st + len d')%nat) ->
  decode_fields what field d st = Some (Ok st') -> (size st' <= size st + len d)%nat.
Proof.
  intros Hf. unfold decode_fields. generalize (S (len d)) as f. intros f. revert d st.
  induction f as [|f IH]; intros d st; [done|]. cbn [fields_loop].
  destruct d as [|c d]; [intros [= ->]; lia|].
  destruct (NextField (String c d)) as [[fc tail]|e] eqn:Hn; [|done].
  destruct (field fc st) as [[st1|e]|] eqn:Hs; [|done..]. intros H. apply IH in H.
  specialize (Hf _ _ _ _ _ Hn Hs). lia.
Qed.

(** ** Termination *)

Hint Unfold return_ok fail_with : core.

Ltac handled := unfold return_ok, fail_with; repeat case_match; eauto.

Lemma value_field_total um d fc tail value : field_of d fc tail ->
  (forall m, (len m < len d)%nat -> is_Some (um m)) -> is_Some (value_field um fc value).
Proof.
  intros Hf Hum. unfold value_field. handled.
  match goal with H : fcMessageData fc = Some ?m, H' : um ?m = None |- _ =>
    apply (message_shorter _ _ _ _ Hf) in H; destruct (Hum m); [lia|congruence] end.
Qed.

Lemma unmarshalValue_total depth d : (len d < depth)%nat -> is_Some (unmarshalValue depth d).
Proof.
  revert d. induction depth as [|depth IH]; intros d Hd; [lia|]. cbn [unmarshalValue].
  apply decode_fields_total. intros d' fc tail st Hle Hf. eapply value_field_total; [done|].
  intros m Hm. apply IH. lia.
Qed.

(** More depth changes nothing. *)
Lemma fields_loop_ext {A} f what (field field' : FieldContext -> A -> option (result A)) d st :
  (forall d' fc tail st, (len d' <= len d)%nat -> field_of d' fc tail -> field fc st = field' fc st) ->
  fields_loop f what field d st = fields_loop f what field' d st.
Proof.
  revert d st. induction f as [|f IH]; intros d st Hf; [done|]. cbn [fields_loop].
  destruct d as [|c d]; [done|]. destruct (NextField (String c d)) as [[fc tail]|e] eqn:Hn; [|done].
  rewrite (Hf (String c d) _ tail) by done. destruct (field' fc st) as [[st'|e]|]; [|done..].
  apply next_shorter in Hn. apply IH. intros d' fc' tail' st'' Hle. apply Hf. lia.
Qed.

Lemma unmarshalValue_depth d1 d2 d : (len d < d1)%nat -> (len d < d2)%nat -> unmarshalValue d1 d = unmarshalValue d2 d.
Proof.
  revert d2 d. induction d1 as [|d1 IH]; intros [|d2] d H1 H2; try lia. cbn [unmarshalValue].
  unfold decode_fields. apply fields_loop_ext. intros d' fc tail st Hle Hf. unfold value_field.
  destruct st. destruct (FieldNum fc) as [|[p|[p|[p|p|]|]|]|]; try done.
  destruct (fcMessageData fc) as [m|] eqn:Hm; [|done]. apply (message_shorter _ _ _ _ Hf) in Hm.
  by rewrite (IH d2) by lia.
Qed.

Lemma unmarshalMapEntry_total d : is_Some (unmarshalMapEntry d).
Proof.
  unfold unmarshalMapEntry. destruct (decode_fields_total "failed to get next field in map entry: " entry_field d ("", None)) as [r ->].
  - intros d' fc tail [key value] _ _. unfold entry_field. handled.
    match goal with H : unmarshalValue ?k ?m = None |- _ => destruct (unmarshalValue_total k m); [lia|congruence] end.
  - handled.
Qed.

Lemma unmarshalKeyValue_total d kv : is_Some (unmarshalKeyValue d kv).
Proof.
  apply decode_fields_total. intros d' fc tail st _ _. unfold keyvalue_field. handled.
  match goal with H : unmarshalMapEntry ?m = None |- _ => destruct (unmarshalMapEntry_total m); congruence end.
Qed.

Lemma unmarshalLabel_total d : is_Some (unmarshalLabel d).
Proof. apply decode_fields_total. intros d' fc tail st _ _. unfold label_field. handled. Qed.

Lemma unmarshalMetricPoint_total d : is_Some (unmarshalMetricPoint d).
Proof.
  apply decode_fields_total. intros d' fc tail st _ _. unfold point_field. handled.
  - match goal with H : unmarshalKeyValue ?m ?kv = None |- _ => destruct (unmarshalKeyValue_total m kv); congruence end.
  - match goal with H : unmarshalLabel ?m = None |- _ => destruct (unmarshalLabel_total m); congruence end.
Qed.


(** ** Round trip *)

(** What survives: the payload that belongs to the type. *)
Fixpoint kept_value (v : Value) : Value :=
  match v with
  | {| vType := t; IntVal := i; FloatVal := f; StringVal := s; ListVal := l |} =>
      {| vType := t;
         IntVal := if t =? ValueType_INT then i else None;
         FloatVal := if t =? ValueType_FLOAT then f else None;
         StringVal := if t =? ValueType_STRING then s else None;
         ListVal := if t =? ValueType_LIST then kept_value <$> l else [] |}
  end.

Definition kept_point (mp : MetricPoint) : MetricPoint :=
  {| Timestamp := Timestamp mp; mValue := mValue mp; IsNull := IsNull mp; Labels := Labels mp;
     Properties := Some {| Items := kept_value <$> match Properties mp with Some kv => Items kv | None => ∅ end |} |}.

(** Integers and floats are those of Go's types. *)
Fixpoint value_ok (v : Value) : Prop :=
  match v with
  | {| vType := t; IntVal := i; FloatVal := f; StringVal := s; ListVal := l |} =>
      in_int32 t /\
      match i with Some i => in_int64 i | None => True end /\
      match f with Some f => f64_valid f | None => True end /\
      foldr (fun v P => value_ok v /\ P) True l
  end.

Definition items_of (mp : MetricPoint) : gmap string Value :=
  match Properties mp with Some kv => Items kv | None => ∅ end.

Definition point_ok (mp : MetricPoint) : Prop :=
  in_int64 (Timestamp mp) /\ f64_valid (mValue mp) /\
  map_Forall (fun _ v => value_ok v) (items_of mp).

Lemma foldl_AppendMessage {A} n (f : A -> string) l mm :
  foldl (fun mm x => AppendMessage n (f x) mm) mm l =
  mm +:+ foldr (fun x r => encode_field n (CMessage (f x)) +:+ r) "" l.
Proof.
  revert mm. induction l as [|x l IH]; intros mm; simpl; [by rewrite app_str_nil_r|].
  rewrite IH. unfold AppendMessage. by rewrite str_app_assoc.
Qed.

Lemma encode_message_longer n m : 1 <= n < 2 ^ 29 -> (len m < len (encode_field n (CMessage m)))%nat.
Proof.
  intros Hn. destruct (next_encoded n (CMessage m) "" Hn) as (fc & Hf & _ & Hr).
  pose proof (message_shorter _ _ _ _ Hf Hr) as H. rewrite app_str_nil_r in H. simpl in H. lia.
Qed.

(** A run of nested messages under one field number. *)
Lemma decode_messages {A B} what (field : FieldContext -> A -> option (result A)) n
    (f : B -> string) (add : A -> B -> A) l tail st :
  1 <= n < 2 ^ 29 ->
  (forall x fc st, x ∈ l -> FieldNum fc = n -> fcMessageData fc = Some (f x) -> field fc st = Some (Ok (add st x))) ->
  decode_fields what field (foldr (fun x r => encode_field n (CMessage (f x)) +:+ r) "" l +:+ tail) st =
  decode_fields what field tail (foldl add st l).
Proof.
  intros Hn. revert st. induction l as [|x l IH]; intros st Hf; [done|].
  cbn [foldr foldl]. rewrite str_app_assoc.
  rewrite (decode_fields_encoded _ _ _ _ _ _ (Some (Ok (add st x)))).
  - apply IH. intros y fc st' Hy. apply Hf. by right.
  - done.
  - intros fc Hfn Hr. apply Hf; [by left|done..].
Qed.

Lemma message_in_foldr {A} n (f : A -> string) x l : 1 <= n < 2 ^ 29 -> x ∈ l ->
  (len (f x) < len (foldr (fun x r => encode_field n (CMessage (f x)) +:+ r) "" l))%nat.
Proof.
  intros Hn Hx. induction Hx as [x l|x y l Hx IH]; simpl; rewrite length_app_str.
  - pose proof (encode_message_longer n (f x) Hn). lia.
  - lia.
Qed.


(** Reads the next written field of the goal, giving the new state. *)
Ltac next_field st' :=
  rewrite (decode_fields_encoded _ _ _ _ _ _ (Some (Ok st')));
    [|lia|let fc := fresh "fc" in let Hn := fresh in let Hr := fresh "Hr" in intros fc Hn Hr; simpl in Hr;
        unfold value_field, entry_field, keyvalue_field, label_field, point_field; rewrite Hn].

Lemma value_ok_items l : foldr (fun v P => value_ok v /\ P) True l -> Forall value_ok l.
Proof. induction l; simpl; [constructor|]. intros [? ?]. constructor; auto. Qed.

Lemma marshalValue_eq t i f s l : marshalValue {| vType := t; IntVal := i; FloatVal := f; StringVal := s; ListVal := l |} "" =
  encode_field 1 (CInt32 t) +:+
  (if t =? ValueType_INT then match i with Some i => encode_field 2 (CInt64 i) | None => "" end
   else if t =? ValueType_FLOAT then match f with Some f => encode_field 3 (CDouble f) | None => "" end
   else if t =? ValueType_STRING then match s with Some s => encode_field 4 (CString s) | None => "" end
   else if t =? ValueType_LIST then
     foldr (fun x r => encode_field 5 (CMessage (marshalValue x "")) +:+ r) "" l
   else "").
Proof.
  cbn [marshalValue]. rewrite foldl_AppendMessage. unfold AppendInt32, AppendInt64, AppendDouble, AppendString.
  change ("" +:+ ?a) with a. repeat case_match; by rewrite ?app_str_nil_r.
Qed.

Lemma unmarshal_marshalValue v : value_ok v -> forall depth, (len (marshalValue v "") < depth)%nat ->
  unmarshalValue depth (marshalValue v "") = Some (Ok (kept_value v)).
Proof.
  induction v as [t i f s l IH] using Value_nested_ind. intros (Ht & Hi & Hf & Hl) [|depth] Hd; [lia|].
  rewrite marshalValue_eq in *. cbn [unmarshalValue]. unfold zero_Value.
  next_field {| vType := t; IntVal := None; FloatVal := None; StringVal := None; ListVal := [] |};
    [|by rewrite Hr].
  cbn [kept_value]. unfold ValueType_INT, ValueType_FLOAT, ValueType_STRING, ValueType_LIST in *.
  destruct (Z.eqb_spec t 1) as [->|]; [|destruct (Z.eqb_spec t 2) as [->|]; [|destruct (Z.eqb_spec t 3) as [->|];
    [|destruct (Z.eqb_spec t 4) as [->|]]]]; simpl.
  - destruct i as [i|]; [|done]. rewrite <-(app_str_nil_r (encode_field 2 _)).
    next_field {| vType := 1; IntVal := Some i; FloatVal := None; StringVal := None; ListVal := [] |}; [done|].
    by rewrite Hr.
  - destruct f as [f|]; [|done]. rewrite <-(app_str_nil_r (encode_field 3 _)).
    next_field {| vType := 2; IntVal := None; FloatVal := Some f; StringVal := None; ListVal := [] |}; [done|].
    destruct Hr as (g & -> & Hg). by rewrite Hg.
  - destruct s as [s|]; [|done]. rewrite <-(app_str_nil_r (encode_field 4 _)).
    next_field {| vType := 3; IntVal := None; FloatVal := None; StringVal := Some s; ListVal := [] |}; [done|].
    by rewrite Hr.
  - rewrite <-(app_str_nil_r (foldr _ _ _)).
    rewrite (decode_messages _ _ 5 (fun x => marshalValue x "") (fun v x =>
      {| vType := vType v; IntVal := IntVal v; FloatVal := FloatVal v; StringVal := StringVal v;
         ListVal := ListVal v ++ [kept_value x] |})); [|lia|].
    + rewrite decode_fields_nil. do 2 f_equal.
      enough (forall k, foldl (fun v x => {| vType := vType v; IntVal := IntVal v; FloatVal := FloatVal v;
        StringVal := StringVal v; ListVal := ListVal v ++ [kept_value x] |})
        {| vType := 4; IntVal := None; FloatVal := None; StringVal := None; ListVal := k |} l =
        {| vType := 4; IntVal := None; FloatVal := None; StringVal := None; ListVal := k ++ (kept_value <$> l) |}) as ->; [done|].
      clear. induction l as [|x l IHl]; intros k; simpl; [by rewrite app_nil_r|]. by rewrite IHl, <-app_assoc.
    + intros x fc [t' i' f' s' l'] Hx Hn Hm. unfold value_field. rewrite Hn, Hm.
      rewrite Forall_forall in IH. apply value_ok_items in Hl. rewrite Forall_forall in Hl.
      rewrite IH; [done|done|by apply Hl|].
      pose proof (message_in_foldr 5 (fun x => marshalValue x "") x l ltac:(lia) Hx).
      simpl in Hd. rewrite length_app_str in Hd. lia.
  - done.
Qed.

Lemma unmarshal_marshalLabel label : unmarshalLabel (marshalLabel label) = Some (Ok label).
Proof.
  destruct label as [n v]. unfold unmarshalLabel, marshalLabel, AppendString. simpl lName. simpl lValue.
  change ("" +:+ ?a) with a.
  next_field {| lName := n; lValue := "" |}; [|by rewrite Hr].
  rewrite <-(app_str_nil_r (encode_field 2 _)).
  next_field {| lName := n; lValue := v |}; [done|]. by rewrite Hr.
Qed.

Lemma unmarshal_marshalItem k v : value_ok v ->
  unmarshalMapEntry (marshalItem (k, v)) =
  if bool_decide (k = "") then Some (Err (Errorf "missing map key")) else Some (Ok (k, kept_value v)).
Proof.
  intros Hv. unfold unmarshalMapEntry, marshalItem, AppendString, AppendMessage. simpl fst. simpl snd.
  change ("" +:+ ?a) with a.
  next_field (k, None : option Value); [|by rewrite Hr].
  rewrite <-(app_str_nil_r (encode_field 2 _)).
  next_field (k, Some (kept_value v)); [done|].
  by rewrite Hr, unmarshal_marshalValue by (done || lia).
Qed.


Definition missing_key : error :=
  Errorf "failed to unmarshal properties: failed to unmarshal map entry: missing map key".

Lemma foldl_insert_fmap {V W} (g : V -> W) (m : gmap string V) :
  foldl (fun a x => <[x.1 := g x.2]> a) ∅ (range m) = g <$> m.
Proof.
  transitivity (foldl (fun (a : gmap string W) kv => <[kv.1 := kv.2]> a) ∅ (prod_map id g <$> range m)).
  { generalize (∅ : gmap string W). induction (range m) as [|x l IH]; intros a; simpl; [done|]. apply IH. }
  assert (Hnd : NoDup (prod_map id g <$> range m).*1).
  { rewrite <-list_fmap_compose. change (fst ∘ prod_map id g) with (@fst string V). apply NoDup_range_keys. }
  rewrite foldl_insert_list, map_union_empty by done.
  apply map_eq. intros k. apply option_eq. intros w. rewrite <-elem_of_list_to_map by done.
  rewrite lookup_fmap, fmap_Some, list_elem_of_fmap. split.
  - intros ([k' v] & Hx & Hin). apply elem_of_range in Hin. simplify_eq/=. eauto.
  - intros (v & Hin & ->). exists (k, v). by rewrite elem_of_range.
Qed.

Lemma decode_items what l kv : Forall (fun x => value_ok x.2) l ->
  decode_fields what keyvalue_field
    (foldr (fun x r => encode_field 1 (CMessage (marshalItem x)) +:+ r) "" l) kv =
  if bool_decide ("" ∈ l.*1) then fail_with "failed to unmarshal map entry: missing map key"
  else Some (Ok {| Items := foldl (fun m x => <[x.1 := kept_value x.2]> m) (Items kv) l |}).
Proof.
  intros Hl. revert kv. induction Hl as [|[k v] l Hv Hl IH]; intros kv; [by destruct kv|]. cbn [foldr fmap list_fmap foldl fst snd].
  destruct (decide (k = "")) as [->|Hk].
  - rewrite (decode_fields_encoded _ _ _ _ _ _ (fail_with "failed to unmarshal map entry: missing map key")); [|lia|].
    + rewrite bool_decide_eq_true_2 by left. done.
    + intros fc Hn Hr. simpl in Hr. unfold keyvalue_field. by rewrite Hn, Hr, unmarshal_marshalItem.
  - next_field {| Items := <[k := kept_value v]> (Items kv) |}.
    + rewrite IH. cbn [Items]. rewrite (bool_decide_ext ("" ∈ l.*1) ("" ∈ k :: l.*1)); [done|].
      rewrite elem_of_cons. naive_solver.
    + by rewrite Hr, unmarshal_marshalItem, bool_decide_eq_false_2.
Qed.

Lemma unmarshal_marshalItems kv : map_Forall (fun _ v => value_ok v) (Items kv) ->
  unmarshalKeyValue (marshalItems kv) {| Items := ∅ |} =
  match Items kv !! "" with
  | Some _ => fail_with "failed to unmarshal map entry: missing map key"
  | None => Some (Ok {| Items := kept_value <$> Items kv |})
  end.
Proof.
  intros Hv. unfold unmarshalKeyValue, marshalItems. rewrite foldl_AppendMessage.
  change ("" +:+ ?a) with a. rewrite decode_items.
  - cbn [Items]. rewrite foldl_insert_fmap. destruct (Items kv !! "") as [v|] eqn:He.
    + rewrite bool_decide_eq_true_2; [done|]. apply list_elem_of_fmap. exists ("", v). by rewrite elem_of_range.
    + rewrite bool_decide_eq_false_2; [done|]. intros ([k v] & Hk & Hin)%list_elem_of_fmap.
      apply elem_of_range in Hin. by simplify_eq/=.
  - apply Forall_forall. intros [k v] Hin%elem_of_range. by eapply Hv.
Qed.

Lemma marshalMetricPoint_eq mp : marshalMetricPoint mp =
  encode_field 1 (CInt64 (Timestamp mp)) +:+ encode_field 2 (CDouble (mValue mp)) +:+ encode_field 3 (CBool (IsNull mp)) +:+
  foldr (fun x r => encode_field 4 (CMessage (marshalLabel x)) +:+ r) "" (Labels mp) +:+
  match Properties mp with None => "" | Some kv => encode_field 5 (CMessage (marshalItems kv)) end.
Proof.
  unfold marshalMetricPoint. rewrite foldl_AppendMessage. unfold AppendInt64, AppendDouble, AppendBool, AppendMessage.
  change ("" +:+ ?a) with a. destruct (Properties mp); by rewrite ?app_str_nil_r, !str_app_assoc.
Qed.

Lemma unmarshal_marshalMetricPoint mp : point_ok mp ->
  unmarshalMetricPoint (marshalMetricPoint mp) =
  match items_of mp !! "" with
  | Some _ => Some (Err missing_key)
  | None => Some (Ok (kept_point mp))
  end.
Proof.
  destruct mp as [ts x nl ls ps]. intros (Hts & Hx & Hv). rewrite marshalMetricPoint_eq.
  unfold unmarshalMetricPoint, new_point, kept_point, items_of in *. cbn [Timestamp mValue IsNull Labels Properties] in *.
  set (e := Some {| Items := ∅ |}).
  next_field {| Timestamp := ts; mValue := f64_zero; IsNull := false; Labels := []; Properties := e |}; [|by rewrite Hr].
  next_field {| Timestamp := ts; mValue := x; IsNull := false; Labels := []; Properties := e |};
    [|destruct Hr as (g & -> & Hg); by rewrite Hg].
  next_field {| Timestamp := ts; mValue := x; IsNull := nl; Labels := []; Properties := e |}; [|by rewrite Hr].
  rewrite (decode_messages _ _ 4 marshalLabel (fun mp l =>
      {| Timestamp := Timestamp mp; mValue := mValue mp; IsNull := IsNull mp; Labels := Labels mp ++ [l];
         Properties := Properties mp |})); [|lia|].
  2: { intros l fc [? ? ? ? ?] _ Hn Hm. unfold point_field. by rewrite Hn, Hm, unmarshal_marshalLabel. }
  assert (Hls : forall k, foldl (fun mp l => {| Timestamp := Timestamp mp; mValue := mValue mp; IsNull := IsNull mp;
      Labels := Labels mp ++ [l]; Properties := Properties mp |})
    {| Timestamp := ts; mValue := x; IsNull := nl; Labels := k; Properties := e |} ls =
    {| Timestamp := ts; mValue := x; IsNull := nl; Labels := k ++ ls; Properties := e |}).
  { induction ls as [|l ls IH]; intros k; simpl; [by rewrite app_nil_r|]. by rewrite IH, <-app_assoc. }
  rewrite Hls. clear Hls. simpl. destruct ps as [kv|].
  - rewrite <-(app_str_nil_r (encode_field 5 _)).
    rewrite (decode_fields_encoded _ _ _ _ _ _
      (match Items kv !! "" with
       | Some _ => Some (Err missing_key)
       | None => Some (Ok {| Timestamp := ts; mValue := x; IsNull := nl; Labels := ls;
                             Properties := Some {| Items := kept_value <$> Items kv |} |}) end)); [|lia|].
    + by destruct (Items kv !! "").
    + intros fc Hn Hr. simpl in Hr. unfold point_field, e. rewrite Hn, Hr. simpl default.
      rewrite unmarshal_marshalItems by done. by destruct (Items kv !! "").
  - rewrite lookup_empty, decode_fields_nil. unfold e. by rewrite fmap_empty.
Qed.


(** ** The size of what is read *)

(** Values and the bytes of their strings. *)
Fixpoint value_size (v : Value) : nat :=
  match v with
  | {| StringVal := s; ListVal := l |} =>
      S (len (default "" s) + foldr (fun v n => value_size v + n)%nat O l)
  end.

Definition entry_size (x : string * Value) : nat := (len x.1 + value_size x.2)%nat.
Definition items_size (m : gmap string Value) : nat := sum_list_with entry_size (map_to_list m).
Definition label_size (l : Label) : nat := (len (lName l) + len (lValue l))%nat.
Definition point_size (mp : MetricPoint) : nat :=
  (sum_list_with (fun l => S (label_size l)) (Labels mp) + items_size (items_of mp))%nat.

Lemma items_size_insert k v m : (items_size (<[k := v]> m) <= items_size m + entry_size (k, v))%nat.
Proof.
  assert (Hfresh : forall m, m !! k = None -> items_size (<[k := v]> m) = (entry_size (k, v) + items_size m)%nat).
  { intros m' Hm. unfold items_size. by rewrite (map_to_list_insert m') by done. }
  destruct (m !! k) as [w|] eqn:Hk; [|rewrite Hfresh by done; lia].
  rewrite <-insert_delete_eq, Hfresh by (by rewrite lookup_delete_eq).
  unfold items_size. rewrite <-(map_to_list_delete m k w) by done. simpl. lia.
Qed.

Lemma value_list_size l x : foldr (fun v n => value_size v + n)%nat O (l ++ [x]) =
  (foldr (fun v n => value_size v + n)%nat O l + value_size x)%nat.
Proof. induction l as [|y l IH]; simpl; [lia|]. rewrite IH. lia. Qed.

(** The facts that the class gives of the field at hand. *)
Ltac field_lengths Hf :=
  pose proof (next_shorter _ _ _ Hf);
  repeat match goal with
  | H : fcMessageData _ = Some _ |- _ => apply (message_shorter _ _ _ _ Hf) in H
  | H : fcString _ = Some _ |- _ => apply (string_shorter _ _ _ _ Hf) in H
  end.

Lemma unmarshalValue_size depth d v : unmarshalValue depth d = Some (Ok v) -> (value_size v <= S (len d))%nat.
Proof.
  revert d v. induction depth as [|depth IH]; intros d v; [done|]. cbn [unmarshalValue]. intros H.
  apply (decode_fields_bound value_size) in H; [done|]. clear d v H.
  intros d fc tail [t i f s l] st' Hf Hs. unfold value_field, return_ok, fail_with in Hs.
  repeat case_match; simplify_eq; field_lengths Hf; simpl; try lia.
  match goal with H : unmarshalValue _ _ = _ |- _ => apply IH in H end.
  rewrite value_list_size. lia.
Qed.

Definition pair_size (st : string * option Value) : nat :=
  (len st.1 + match st.2 with Some v => value_size v | None => 0 end)%nat.

Lemma unmarshalMapEntry_size d k v : unmarshalMapEntry d = Some (Ok (k, v)) -> (entry_size (k, v) <= len d)%nat.
Proof.
  unfold unmarshalMapEntry, return_ok, fail_with. destruct (decode_fields _ _ _ _) as [[[k' v']|e]|] eqn:H; [|done..].
  apply (decode_fields_bound pair_size) in H.
  - case_bool_decide; [done|]. destruct v' as [v'|]; [|done]. intros [= -> ->]. apply H.
  - clear - L. intros d fc tail [k v] st' Hf Hs. unfold entry_field, return_ok, fail_with in Hs.
    repeat case_match; simplify_eq; field_lengths Hf; unfold pair_size; simpl; try lia.
    match goal with H : unmarshalValue _ _ = _ |- _ => apply unmarshalValue_size in H end. lia.
Qed.

Lemma unmarshalKeyValue_size d kv kv' : unmarshalKeyValue d kv = Some (Ok kv') ->
  (items_size (Items kv') <= items_size (Items kv) + len d)%nat.
Proof.
  intros H. apply (decode_fields_bound (fun kv => items_size (Items kv))) in H; [done|]. clear - L.
  intros d fc tail kv kv' Hf Hs. unfold keyvalue_field, return_ok, fail_with in Hs.
  repeat case_match; simplify_eq; field_lengths Hf; simpl; try lia.
  match goal with H : unmarshalMapEntry _ = _ |- _ => apply unmarshalMapEntry_size in H end.
  etrans; [apply Nat.add_le_mono_r, items_size_insert|]. lia.
Qed.

Lemma unmarshalLabel_size d l : unmarshalLabel d = Some (Ok l) -> (label_size l <= len d)%nat.
Proof.
  intros H. apply (decode_fields_bound label_size) in H; [done|]. clear - L.
  intros d fc tail l l' Hf Hs. unfold label_field, return_ok, fail_with in Hs.
  repeat case_match; simplify_eq; field_lengths Hf; unfold label_size; simpl; lia.
Qed.

Lemma unmarshalMetricPoint_size d mp : unmarshalMetricPoint d = Some (Ok mp) -> (point_size mp <= len d)%nat.
Proof.
  intros H. apply (decode_fields_bound point_size) in H; [done|]. clear - L.
  intros d fc tail [ts x nl ls ps] st' Hf Hs. unfold point_field, return_ok, fail_with in Hs.
  repeat case_match; simplify_eq; field_lengths Hf; unfold point_size, items_of; simpl; try lia.
  - match goal with H : unmarshalKeyValue _ _ = _ |- _ => apply unmarshalKeyValue_size in H end.
    destruct ps; simpl in *; unfold items_size in *; rewrite ?map_to_list_empty in *; simpl in *; lia.
  - match goal with H : unmarshalLabel _ = _ |- _ => apply unmarshalLabel_size in H end.
    rewrite sum_list_with_app. simpl. lia.
Qed.

End codec.

(** ** Properties *)

(** C20: a point read back from the bytes the client wrote is the point itself,
    with each property reduced to the payload of its type and with absent
    properties become an empty map; a property whose key is empty makes the
    server refuse the whole point.  This holds in every order in which the map
    of properties is ranged over. *)
Theorem metric_roundtrip {E : Easyproto} {L : EasyprotoLaws} {MR : MapRange} mp : point_ok mp ->
  unmarshalMetricPoint (marshalMetricPoint mp) =
  match items_of mp !! "" with
  | Some _ => Some (Err missing_key)
  | None => Some (Ok (kept_point mp))
  end.
Proof. exact (unmarshal_marshalMetricPoint mp). Qed.

(** C33: whatever bytes arrive, reading them ends, and what they become is no
    larger than they are: the labels, properties and nested values with all
    their strings count at most one for each byte of the data. *)
Theorem unmarshal_bounded {E : Easyproto} {L : EasyprotoLaws} d :
  exists r, unmarshalMetricPoint d = Some r /\
    forall mp, r = Ok mp -> (point_size mp <= String.length d)%nat.
Proof.
  destruct (unmarshalMetricPoint_total d) as [r Hr]. exists r. split; [done|].
  intros mp ->. by apply unmarshalMetricPoint_size.
Qed.

(** ** Witnesses *)

(** A run that was computed, with what was tested of its end. *)
Lemma computed {A} (o : option A) (f : A -> bool) :
  match o with Some a => f a | None => false end = true -> exists a, o = Some a /\ f a = true.
Proof. destruct o as [a|]; [by exists a|done]. Qed.

Definition example_point : MetricPoint :=
  {| Timestamp := -5; mValue := f64_of_Z 3; IsNull := true; Labels := [{| lName := "host"; lValue := "server1" |}];
     Properties := Some {| Items := {["tags" :=
       {| vType := ValueType_LIST; IntVal := Some 7; FloatVal := None; StringVal := None;
          ListVal := [{| vType := ValueType_STRING; IntVal := None; FloatVal := None; StringVal := Some "test"; ListVal := [] |}] |}]} |} |}.

Lemma example_point_ok : point_ok example_point.
Proof.
  split; [done|]. split; [done|]. apply map_Forall_singleton. simpl.
  unfold in_int32, in_int64, int32_min, int32_max, int64_min, int64_max. repeat split; lia || done.
Qed.

Lemma metric_roundtrip_witness :
  @unmarshalMetricPoint protobuf_wire (@marshalMetricPoint protobuf_wire canonical_range example_point) =
  Some (Ok (kept_point example_point)).
Proof. exact (@metric_roundtrip protobuf_wire protobuf_wire_laws canonical_range example_point example_point_ok). Defined.

Lemma unmarshal_bounded_witness :
  exists r, @unmarshalMetricPoint protobuf_wire (@marshalMetricPoint protobuf_wire canonical_range example_point) = Some r /\
    forall mp, r = Ok mp ->
      (point_size mp <= String.length (@marshalMetricPoint protobuf_wire canonical_range example_point))%nat.
Proof. exact (@unmarshal_bounded protobuf_wire protobuf_wire_laws _). Defined.
