(* ===== verification/MetricsServer.v ===== *)
(** * The metrics stream (ARCHIVE/Jul252026/internal/server/main.go, ProcessMetrics)

    One gRPC stream on the server.  Every iteration of the loop starts a goroutine
    that calls [RecvMsg] and sends its result to a channel of its own, and waits
    for that channel or for five seconds; after a timeout the goroutine stays.
    The model is a labelled step function: an action is a step of the loop, of a
    receiving goroutine, or of the client at the other end.  A trace ends when two
    goroutines are in [RecvMsg] of the stream at once ([contended]), since gRPC
    documents that as unsafe and says nothing of what happens then.

    MetricsClient puts the client's goroutines (internal/client/main.go,
    sendMetricsBatch) on the other side of the stream. *)

From S2P Require Import Prelude GoStrings Wire Metrics.

Section server.
Context {E : Easyproto} {MR : MapRange}.

(** ** One message *)

(** [MetricsResponse.Data] *)
Definition response (ok : bool) (text : string) : string := AppendString 2 text (AppendBool 1 ok "").

(** Logging a property dereferences the pointer its type calls for. *)
Definition has_payload (v : Value) : bool :=
  if vType v =? ValueType_INT then match IntVal v with Some _ => true | None => false end
  else if vType v =? ValueType_FLOAT then match FloatVal v with Some _ => true | None => false end
  else if vType v =? ValueType_STRING then match StringVal v with Some _ => true | None => false end
  else true.

(** A response, or the nil dereference that ends the process. *)
Inductive handled := Responded (data : string) | NilDereference.

Definition handle_message (data : string) : option handled :=
  match unmarshalMetricPoint data with
  | None => None
  | Some (Err e) => Some (Responded (response false (Error e)))
  | Some (Ok metric) =>
      if forallb (fun kv => has_payload kv.2) (range (items_of metric))
      then Some (Responded (response true "Processed successfully"))
      else Some NilDereference
  end.

(** ** The loop *)

(** What a call of [RecvMsg] ends with. *)
Inductive received := Message (data : string) | EndOfStream | Canceled | RecvFailed (e : error).

(** What a call of [SendMsg] ends with. *)
Inductive sent := SendOk | SendCanceled | SendFailed (e : error).

(** Where the loop is; [Returned None] is a return of nil. *)
Inductive phase := Top | Waiting | Returned (e : option error) | Panicked.

(** Iterations are numbered; [receivers] are the iterations whose [RecvMsg] has
    not returned, [results] the buffered values of their channels. *)
#[export] Instance phase_eq_dec : EqDecision phase.
Proof. solve_decision. Defined.

Record stream := {
  inbox : list string;
  clientClosed : bool;
  ctxDone : bool;
  round : nat;
  loop : phase;
  receivers : gset nat;
  results : gmap nat received;
  responses : list string
}.

Definition new_stream : stream := {|
  inbox := []; clientClosed := false; ctxDone := false; round := 0; loop := Top;
  receivers := ∅; results := ∅; responses := [] |}.

Inductive action :=
  | ClientSend (data : string)     (* the client's SendMsg *)
  | ClientClose                    (* the client's CloseSend *)
  | Cancel                         (* the stream's context ends *)
  | Begin                          (* the outer select *)
  | Receive (k : nat) (r : received)   (* RecvMsg of iteration k returns *)
  | Take (s : sent)                (* the inner select takes errChan *)
  | Timeout.                       (* the inner select takes readCtx.Done() *)

Definition alive (st : stream) : bool :=
  match loop st with Returned _ | Panicked => false | _ => true end.

Definition set_loop (p : phase) (st : stream) : stream :=
  {| inbox := inbox st; clientClosed := clientClosed st; ctxDone := ctxDone st; round := round st; loop := p;
     receivers := receivers st; results := results st; responses := responses st |}.

(** The next iteration of the loop. *)
Definition next_round (st : stream) : stream :=
  {| inbox := inbox st; clientClosed := clientClosed st; ctxDone := ctxDone st; round := S (round st); loop := Top;
     receivers := receivers st; results := results st; responses := responses st |}.

Definition begin_round (st : stream) : option stream :=
  match loop st with
  | Top =>
      if ctxDone st then Some (set_loop (Returned None) st)
      else Some {| inbox := inbox st; clientClosed := clientClosed st; ctxDone := ctxDone st; round := round st;
                   loop := Waiting; receivers := {[round st]} ∪ receivers st; results := results st;
                   responses := responses st |}
  | _ => None
  end.

(** [RecvMsg] returns: the next message of the stream, its end after all of
    them, or an error. *)
Definition receive (k : nat) (r : received) (st : stream) : option stream :=
  if bool_decide (k ∈ receivers st) && alive st then
    let put inbox :=
      Some {| inbox := inbox; clientClosed := clientClosed st; ctxDone := ctxDone st; round := round st; loop := loop st;
              receivers := receivers st ∖ {[k]}; results := <[k := r]> (results st); responses := responses st |} in
    match r with
    | Message data =>
        match inbox st with
        | d :: rest => if bool_decide (d = data) then put rest else None
        | [] => None
        end
    | EndOfStream => match inbox st with [] => if clientClosed st then put [] else None | _ => None end
    | Canceled => if ctxDone st then put (inbox st) else None
    | RecvFailed _ => put (inbox st)
    end
  else None.

(** [SendMsg(resp)] and what the loop does with its error. *)
Definition send_response (success : bool) (resp : string) (s : sent) (st : stream) : stream :=
  match s with
  | SendOk => next_round {| inbox := inbox st; clientClosed := clientClosed st; ctxDone := ctxDone st; round := round st;
                            loop := loop st; receivers := receivers st; results := results st;
                            responses := responses st ++ [resp] |}
  | SendCanceled => set_loop (Returned (if success then None else Some (Sentinel SCanceled "context canceled"))) st
  | SendFailed e => set_loop (Returned (Some e)) st
  end.

(** Whether [unmarshalMetricPoint] succeeds decides which of the two sends it is. *)
Definition unmarshals (data : string) : bool :=
  match unmarshalMetricPoint data with Some (Ok _) => true | _ => false end.

Definition take_result (s : sent) (st : stream) : option stream :=
  match loop st, results st !! round st with
  | Waiting, Some r =>
      let st := {| inbox := inbox st; clientClosed := clientClosed st; ctxDone := ctxDone st; round := round st;
                   loop := loop st; receivers := receivers st; results := delete (round st) (results st);
                   responses := responses st |} in
      match r with
      | EndOfStream | Canceled => Some (set_loop (Returned None) st)
      | RecvFailed e => Some (set_loop (Returned (Some e)) st)
      | Message data =>
          match handle_message data with
          | None => None
          | Some NilDereference => Some (set_loop Panicked st)
          | Some (Responded resp) => Some (send_response (unmarshals data) resp s st)
          end
      end
  | _, _ => None
  end.

(** [readCtx] is done, by its timeout or with its parent. *)
Definition time_out (st : stream) : option stream :=
  match loop st with
  | Waiting => Some (if ctxDone st then set_loop (Returned None) st else next_round st)
  | _ => None
  end.

Definition act (a : action) (st : stream) : option stream :=
  match a with
  | ClientSend data =>
      if clientClosed st then None else
      Some {| inbox := inbox st ++ [data]; clientClosed := false; ctxDone := ctxDone st; round := round st;
              loop := loop st; receivers := receivers st; results := results st; responses := responses st |}
  | ClientClose =>
      Some {| inbox := inbox st; clientClosed := true; ctxDone := ctxDone st; round := round st;
              loop := loop st; receivers := receivers st; results := results st; responses := responses st |}
  | Cancel =>
      Some {| inbox := inbox st; clientClosed := clientClosed st; ctxDone := true; round := round st;
              loop := loop st; receivers := receivers st; results := results st; responses := responses st |}
  | Begin => begin_round st
  | Receive k r => receive k r st
  | Take s => take_result s st
  | Timeout => time_out st
  end.

(** Two goroutines are in [RecvMsg] of the stream at once.  gRPC documents that
    this is not safe and promises nothing of a stream that is used so: a trace
    ends there. *)
Definition contended (st : stream) : bool := (1 <? size (receivers st))%nat.

Definition step (a : action) (st : stream) : option stream := if contended st then None else act a st.

Fixpoint exec (l : list action) (st : stream) : option stream :=
  match l with
  | [] => Some st
  | a :: l => match step a st with Some st => exec l st | None => None end
  end.

(** The messages the client sent in a trace. *)
Definition sent_of (l : list action) : list string :=
  omap (fun a => match a with ClientSend data => Some data | _ => None end) l.

Definition timeouts_of (l : list action) : nat :=
  length (List.filter (fun a => match a with Timeout => true | _ => false end) l).


(** ** Accounting *)

(** The messages in the channels. *)
Definition message_of (r : received) : option string := match r with Message d => Some d | _ => None end.
Definition messages (m : gmap nat received) : nat := length (omap message_of (map_to_list m).*2).

(** The message that the loop will take in this iteration. *)
Definition current (st : stream) : list string :=
  match results st !! round st with Some (Message d) => [d] | _ => [] end.

(** Messages in the channels that the loop no longer reads. *)
Definition lost (st : stream) : nat := messages (delete (round st) (results st)).

Definition answers (d r : string) : Prop := handle_message d = Some (Responded r).

Record accounted (l : list action) (st : stream) : Prop := {
  acc_receivers k : k ∈ receivers st -> (k <= round st)%nat /\ results st !! k = None;
  acc_results k r : results st !! k = Some r -> (k <= round st)%nat;
  acc_top : loop st = Top -> (round st ∉ receivers st) /\ results st !! round st = None;
  acc_waiting : loop st = Waiting -> round st ∈ receivers st \/ is_Some (results st !! round st);
  acc_size : (size (receivers st) + size (results st) =
              timeouts_of l + if bool_decide (loop st = Waiting) then 1 else 0)%nat;
  acc_sent : exists taken handled,
    sent_of l = taken ++ inbox st /\ (handled ++ current st) `sublist_of` taken /\
    Forall2 answers handled (responses st) /\ length taken = (length handled + messages (results st))%nat
}.

Lemma messages_insert k r m : m !! k = None ->
  messages (<[k := r]> m) = (match message_of r with Some _ => 1 | None => 0 end + messages m)%nat.
Proof. intros Hk. unfold messages. rewrite (map_to_list_insert m) by done. simpl. by destruct (message_of r). Qed.

Lemma messages_delete k r m : m !! k = Some r ->
  messages m = (match message_of r with Some _ => 1 | None => 0 end + messages (delete k m))%nat.
Proof.
  intros Hk. rewrite <-(insert_delete_id m k r) at 1 by done. apply messages_insert. apply lookup_delete_eq.
Qed.

Lemma messages_size m : (messages m <= size m)%nat.
Proof.
  unfold messages. rewrite <-(length_map_to_list m), <-(length_fmap snd). generalize (map_to_list m).*2.
  intros l. induction l as [|r l IH]; [done|]. rewrite omap_cons. destruct (message_of r); cbn [length]; lia.
Qed.

Lemma step_act a st st' : step a st = Some st' -> contended st = false /\ act a st = Some st'.
Proof. unfold step. by destruct (contended st). Qed.

Lemma sent_of_app l a : sent_of (l ++ [a]) = sent_of l ++ match a with ClientSend d => [d] | _ => [] end.
Proof. unfold sent_of. rewrite omap_app. by destruct a. Qed.

Lemma timeouts_of_app l a : timeouts_of (l ++ [a]) = (timeouts_of l + match a with Timeout => 1 | _ => 0 end)%nat.
Proof. unfold timeouts_of. rewrite List.filter_app, length_app. by destruct a. Qed.

Lemma stream_exec_app l1 l2 st : exec (l1 ++ l2) st = match exec l1 st with Some st' => exec l2 st' | None => None end.
Proof. revert st. induction l1 as [|a l1 IH]; intros st; [done|]. simpl. destruct (step a st); [apply IH|done]. Qed.

Lemma accounted_new : accounted [] new_stream.
Proof.
  split; simpl; try done.
  exists [], []. unfold current. simpl. by rewrite lookup_empty.
Qed.

(** Nothing but the inbox and the client's flags changes. *)
Lemma accounted_inbox l a st st' : accounted l st -> round st' = round st -> loop st' = loop st ->
  receivers st' = receivers st -> results st' = results st -> responses st' = responses st ->
  inbox st' = inbox st ++ match a with ClientSend d => [d] | _ => [] end -> a <> Timeout ->
  accounted (l ++ [a]) st'.
Proof.
  intros [H1 H2 H3 H4 H5 (tk & hd & H6)] Hro Hlo Hrc Hrs Hre Hin Ha.
  split; rewrite ?Hro, ?Hlo, ?Hrc, ?Hrs, ?sent_of_app, ?timeouts_of_app; try done.
  - rewrite H5. destruct a; lia || done.
  - exists tk, hd. unfold current. rewrite Hro, Hrs, Hre, Hin. destruct H6 as (-> & H6). by rewrite app_assoc.
Qed.

Lemma accounted_begin l st st' : accounted l st -> begin_round st = Some st' -> alive st' = true ->
  accounted (l ++ [Begin]) st'.
Proof.
  intros [H1 H2 H3 H4 H5 H6] Hb Ha. unfold begin_round in Hb.
  destruct (loop st) eqn:Hl; try done. destruct (ctxDone st); simplify_eq; try done. destruct (H3 eq_refl) as [Hn1 Hn2].
  split; simpl; rewrite ?sent_of_app, ?timeouts_of_app, ?app_nil_r; try done.
  - intros k. rewrite elem_of_union, elem_of_singleton. intros [->|Hk]; [done|auto].
  - intros _. left. set_solver.
  - rewrite size_union, size_singleton by set_solver. simpl in H5. lia.
Qed.

Lemma accounted_timeout l st st' : accounted l st -> time_out st = Some st' -> alive st' = true ->
  accounted (l ++ [Timeout]) st'.
Proof.
  intros [H1 H2 H3 H4 H5 (tk & hd & H6 & H7 & H8 & H9)] Hb Ha. unfold time_out in Hb.
  destruct (loop st) eqn:Hl; try done. destruct (ctxDone st); simplify_eq; try done.
  assert (Hn : results st !! S (round st) = None).
  { destruct (results st !! S (round st)) as [r|] eqn:Hr; [|done]. apply H2 in Hr. lia. }
  split; simpl; rewrite ?sent_of_app, ?timeouts_of_app, ?app_nil_r; try done.
  - intros k Hk. apply H1 in Hk as [? ?]. split; [lia|done].
  - intros k r Hk. apply H2 in Hk. lia.
  - intros _. split; [|done]. intros Hk. apply H1 in Hk. lia.
  - simpl in H5. lia.
  - exists tk, hd. split; [done|]. split; [|done]. unfold current. simpl. rewrite Hn, app_nil_r.
    etrans; [|exact H7]. by apply sublist_inserts_r.
Qed.

Lemma accounted_receive l k r st st' : accounted l st -> receive k r st = Some st' ->
  accounted (l ++ [Receive k r]) st'.
Proof.
  intros [H1 H2 H3 H4 H5 (tk & hd & H6 & H7 & H8 & H9)] Hb. unfold receive in Hb.
  destruct (bool_decide_reflect (k ∈ receivers st)) as [Hk|]; [|done]. simpl in Hb.
  destruct (alive st) eqn:Hal; [|done]. pose proof (H1 k Hk) as [Hle Hno].
  set (st1 := fun inbox => {| inbox := inbox; clientClosed := clientClosed st; ctxDone := ctxDone st; round := round st;
     loop := loop st; receivers := receivers st ∖ {[k]}; results := <[k:=r]> (results st); responses := responses st |}) in *.
  assert (Hst : exists rest, st' = st1 rest /\ inbox st = match message_of r with Some d => [d] | None => [] end ++ rest).
  { destruct r; repeat case_match; simplify_eq/=; try case_bool_decide; simplify_eq; eauto. }
  destruct Hst as (rest & -> & Hin). clear Hb.
  split; simpl; rewrite ?sent_of_app, ?timeouts_of_app, ?app_nil_r; try done.
  - intros j [Hj Hjk]%elem_of_difference. rewrite elem_of_singleton in Hjk.
    rewrite lookup_insert_ne by done. auto.
  - intros j r'. destruct (decide (j = k)) as [->|]; [auto|]. rewrite lookup_insert_ne by done. eauto.
  - intros Ht. destruct (H3 Ht) as [Hn1 Hn2]. split; [set_solver|]. rewrite lookup_insert_ne by (intros ->; done). done.
  - intros Hw. destruct (decide (k = round st)) as [->|Hne]; [right; rewrite lookup_insert_eq; eauto|].
    rewrite lookup_insert_ne by done. destruct (H4 Hw) as [?|?]; [left; set_solver|by right].
  - rewrite size_difference, size_singleton, map_size_insert_None by (done || set_solver).
    assert (size (receivers st) <> 0%nat) by (intros ?%size_empty_inv; set_solver). lia.
  - exists (tk ++ match message_of r with Some d => [d] | None => [] end), hd.
    rewrite H6, Hin, app_assoc. split; [done|]. rewrite messages_insert by done. split; [|split; [done|]].
    + unfold current in *. simpl. destruct (decide (k = round st)) as [->|Hne].
      * rewrite lookup_insert_eq. rewrite Hno, app_nil_r in H7. by destruct r; apply sublist_app.
      * rewrite lookup_insert_ne by done. by apply sublist_inserts_r.
    + rewrite length_app, H9. destruct (message_of r); simpl; lia.
Qed.

Lemma accounted_take l s st st' : accounted l st -> take_result s st = Some st' -> alive st' = true ->
  accounted (l ++ [Take s]) st'.
Proof.
  intros [H1 H2 H3 H4 H5 (tk & hd & H6 & H7 & H8 & H9)] Hb Ha. unfold take_result in Hb.
  destruct (loop st) eqn:Hl; try done. destruct (results st !! round st) as [r|] eqn:Hr; [|done].
  destruct r as [d| | |e]; simplify_eq; try done.
  destruct (handle_message d) as [[resp|]|] eqn:Hh; simplify_eq; try done.
  destruct s as [| |e]; simpl in *; try done.
  assert (Hdel : forall k, delete (round st) (results st) !! k = (if decide (k = round st) then None else results st !! k)).
  { intros k. case_decide as Hk; [subst; apply lookup_delete_eq|by rewrite lookup_delete_ne]. }
  assert (Hnew : results st !! S (round st) = None).
  { destruct (results st !! S (round st)) as [r|] eqn:Hr'; [|done]. apply H2 in Hr'. lia. }
  split; simpl; rewrite ?sent_of_app, ?timeouts_of_app, ?app_nil_r; try done.
  - intros k Hk. apply H1 in Hk as [? ?]. rewrite Hdel. case_decide; auto.
  - intros k r. rewrite Hdel. case_decide; [done|]. intros Hk. apply H2 in Hk. lia.
  - intros _. rewrite Hdel. case_decide; [lia|]. split; [|done]. intros Hk. apply H1 in Hk. lia.
  - rewrite map_size_delete, Hr. simpl in H5.
    assert (size (results st) <> 0%nat) by (intros He%map_size_empty_inv; by rewrite He, lookup_empty in Hr). lia.
  - unfold current in H7. rewrite Hr in H7. exists tk, (hd ++ [d]). split; [done|].
    rewrite (messages_delete _ _ _ Hr) in H9. simpl in H9. split; [|split].
    + unfold current. simpl. rewrite Hdel. case_decide; [lia|]. by rewrite Hnew, app_nil_r.
    + apply Forall2_app; [done|]. by constructor.
    + rewrite length_app. simpl. lia.
Qed.

Lemma alive_step a st st' : step a st = Some st' -> alive st' = true -> alive st = true.
Proof.
  intros [_ H]%step_act. revert H.
  destruct a; simpl; unfold begin_round, receive, take_result, time_out, alive; intros H Ha;
    repeat case_match; simplify_eq/=; try done; congruence.
Qed.

Lemma accounted_step l a st st' : accounted l st -> step a st = Some st' -> alive st' = true -> accounted (l ++ [a]) st'.
Proof.
  intros Hacc [_ Hs]%step_act Ha. destruct a; simpl in Hs.
  - destruct (clientClosed st); simplify_eq. by eapply accounted_inbox.
  - simplify_eq. eapply accounted_inbox; [exact Hacc|..]; simpl; rewrite ?app_nil_r; done.
  - simplify_eq. eapply accounted_inbox; [exact Hacc|..]; simpl; rewrite ?app_nil_r; done.
  - by eapply accounted_begin.
  - by eapply accounted_receive.
  - by eapply accounted_take.
  - by eapply accounted_timeout.
Qed.

Lemma exec_accounted l st : exec l new_stream = Some st -> alive st = true -> accounted l st.
Proof.
  revert st. induction l as [|a l IH] using rev_ind; intros st; [intros [= <-] _; apply accounted_new|].
  rewrite stream_exec_app. destruct (exec l new_stream) as [st1|] eqn:He; [|done]. simpl.
  destruct (step a st1) as [st2|] eqn:Hs; [|done]. intros [= <-] Ha.
  eapply accounted_step; [|done..]. apply IH; [done|]. by eapply alive_step.
Qed.

(** ** What becomes of a message *)

Lemma has_payload_kept v : has_payload (kept_value v) = has_payload v.
Proof.
  destruct v as [t i f s l]. unfold has_payload. simpl.
  by destruct (Z.eqb_spec t ValueType_INT), (Z.eqb_spec t ValueType_FLOAT), (Z.eqb_spec t ValueType_STRING).
Qed.

(** Every property carries the payload its type calls for. *)
Definition payloads (mp : MetricPoint) : bool := bool_decide (map_Forall (fun _ v => has_payload v = true) (items_of mp)).

Lemma forallb_range (f : Value -> bool) (m : gmap string Value) :
  forallb (fun kv => f kv.2) (range m) = bool_decide (map_Forall (fun _ v => f v = true) m).
Proof. apply forallb_entries, range_perm. Qed.

Context {L : EasyprotoLaws}.

Lemma handle_marshaled mp : point_ok mp ->
  handle_message (marshalMetricPoint mp) =
  Some (match items_of mp !! "" with
        | Some _ => Responded (response false (Error missing_key))
        | None => if payloads mp then Responded (response true "Processed successfully") else NilDereference
        end).
Proof.
  intros Hok. unfold handle_message. rewrite unmarshal_marshalMetricPoint by done.
  destruct (items_of mp !! ""); [done|]. rewrite (forallb_range has_payload).
  replace (bool_decide _) with (payloads mp); [by destruct (payloads mp)|].
  apply bool_decide_ext. unfold kept_point, items_of. simpl. rewrite map_Forall_fmap.
  split; intros H k v Hk; specialize (H k v Hk); simpl in *; by rewrite ?has_payload_kept in *.
Qed.

Lemma handle_message_total d : is_Some (handle_message d).
Proof.
  unfold handle_message. destruct (unmarshalMetricPoint_total d) as [[mp|e] ->]; [|done]. by case_match.
Qed.

(** ** Lost messages stay lost *)

Lemma stale_step l a k r st st' : (alive st = true -> accounted l st) ->
  (k < round st)%nat -> results st !! k = Some r -> step a st = Some st' ->
  (k < round st')%nat /\ results st' !! k = Some r.
Proof.
  intros Hacc Hk Hr [_ Hs]%step_act.
  destruct a; simpl in Hs; unfold begin_round, receive, take_result, time_out in Hs.
  1-4: repeat case_match; simplify_eq; done.
  - destruct (bool_decide_reflect (k0 ∈ receivers st)) as [Hin|]; [|done].
    destruct (alive st) eqn:Ha; [|done]. apply (acc_receivers _ _ (Hacc eq_refl)) in Hin as [_ Hno].
    assert (k0 <> k) by congruence.
    repeat case_match; simplify_eq/=; by rewrite lookup_insert_ne.
  - destruct (loop st); try done. destruct (results st !! round st) as [r0|]; [|done].
    assert (Hd : delete (round st) (results st) !! k = Some r) by (rewrite lookup_delete_ne by lia; done).
    destruct r0 as [d| | |e]; simplify_eq/=; try (split; [lia|done]).
    destruct (handle_message d) as [[resp|]|]; simplify_eq/=; [|split; [lia|done]].
    destruct s; simpl; (split; [lia|done]).
  - destruct (loop st); try done. destruct (ctxDone st); simplify_eq/=; (split; [lia|done]).
Qed.

Lemma stale_exec l l' k r st st' : exec l new_stream = Some st ->
  (k < round st)%nat -> results st !! k = Some r -> exec l' st = Some st' ->
  (k < round st')%nat /\ results st' !! k = Some r.
Proof.
  revert l st. induction l' as [|a l' IH]; intros l st He Hk Hr; [by intros [= ->]|]. simpl.
  destruct (step a st) as [st1|] eqn:Hs; [|done].
  destruct (stale_step l a k r st st1) as [Hk1 Hr1]; [by apply exec_accounted|done..|].
  apply (IH (l ++ [a])); [|done..]. by rewrite stream_exec_app, He; simpl; rewrite Hs.
Qed.

Lemma accounted_total l st : accounted l st ->
  length (sent_of l) = (length (responses st) + length (current st) + lost st + length (inbox st))%nat.
Proof.
  intros Hacc. destruct (acc_sent _ _ Hacc) as (tk & hd & -> & _ & H8 & H9).
  rewrite length_app, H9, (Forall2_length _ _ _ H8). unfold current, lost.
  destruct (results st !! round st) as [r|] eqn:Hr.
  - rewrite (messages_delete _ _ _ Hr). destruct r; simpl; lia.
  - rewrite delete_id by done. simpl. lia.
Qed.

Lemma lost_bounded l st : accounted l st -> (lost st <= timeouts_of l)%nat.
Proof.
  intros Hacc. pose proof (acc_size _ _ Hacc) as Hs. unfold lost. etrans; [apply messages_size|].
  rewrite map_size_delete. case_bool_decide as Hw; [|destruct (results st !! round st); simpl; lia].
  destruct (acc_waiting _ _ Hacc Hw) as [Hin|[r ->]]; [|simpl; lia].
  assert (size (receivers st) <> 0%nat) by (intros ?%size_empty_inv; set_solver).
  destruct (results st !! round st); simpl; lia.
Qed.

Lemma sublist_full {A} (l1 l2 : list A) : l1 `sublist_of` l2 -> (length l2 <= length l1)%nat -> l1 = l2.
Proof.
  induction 1 as [|x l1 l2 Hs IH|x l1 l2 Hs IH]; simpl; intros Hl; [done| |].
  - f_equal. apply IH. lia.
  - apply sublist_length in Hs. lia.
Qed.

(** What the responses answer: a part of the messages in their order, and
    without timeouts the first ones. *)
Lemma accounted_answers l st : accounted l st ->
  exists handled, handled `sublist_of` sent_of l /\ Forall2 answers handled (responses st) /\
    (timeouts_of l = 0%nat -> handled `prefix_of` sent_of l).
Proof.
  intros Hacc. destruct (acc_sent _ _ Hacc) as (tk & hd & Hs & H7 & H8 & H9). exists hd. rewrite Hs.
  assert (Hsub : hd `sublist_of` tk) by (etrans; [|exact H7]; by apply sublist_inserts_r).
  split; [by apply sublist_inserts_r|]. split; [done|]. intros Ht.
  assert (Hlen : length (hd ++ current st) = length tk).
  { pose proof (lost_bounded _ _ Hacc) as Hl. pose proof (accounted_total _ _ Hacc) as Htot.
    rewrite Hs, length_app in Htot. rewrite length_app, (Forall2_length _ _ _ H8). lia. }
  apply sublist_full in H7 as <-; [|lia].
  apply prefix_app_r. by apply prefix_app_r.
Qed.

End server.

(** ** Properties *)

Section properties.
Context {E : Easyproto} {L : EasyprotoLaws} {MR : MapRange}.

(** C40: a metric the client sends is answered with success if no property has
    an empty key and each carries the payload of its type, with an error
    if some key is empty, and otherwise its arrival ends the server's process:
    the loop dereferences the pointer that the client did not send. *)
Theorem metric_answer mp : point_ok mp ->
  handle_message (marshalMetricPoint mp) =
  Some (match items_of mp !! "" with
        | Some _ => Responded (response false (Error missing_key))
        | None => if payloads mp then Responded (response true "Processed successfully") else NilDereference
        end).
Proof. exact (handle_marshaled mp). Qed.

Lemma accounted_contended l st : accounted l st -> contended st = true -> (0 < timeouts_of l)%nat.
Proof.
  intros Hacc Hc%Nat.ltb_lt. pose proof (acc_size _ _ Hacc) as Hs. case_bool_decide; lia.
Qed.

(** C13: while the loop of a stream runs, under every interleaving with its
    receiving goroutines and the client that gRPC says anything about, that is
    until two goroutines are in [RecvMsg] at once, each message sent has been
    answered, is in the channel of this iteration, is in the channel of an
    abandoned one, or has not been received; at most as many are in abandoned
    channels as there were read timeouts; the responses answer a part of the
    messages in their order.  Without timeouts there is never a second
    [RecvMsg], and the responses answer the first messages. *)
Theorem stream_accounting l st : exec l new_stream = Some st -> alive st = true ->
  length (sent_of l) = (length (responses st) + length (current st) + lost st + length (inbox st))%nat /\
  (lost st <= timeouts_of l)%nat /\
  (contended st = true -> (0 < timeouts_of l)%nat) /\
  exists handled, handled `sublist_of` sent_of l /\ Forall2 answers handled (responses st) /\
    (timeouts_of l = 0%nat -> handled `prefix_of` sent_of l).
Proof.
  intros He Ha. pose proof (exec_accounted _ _ He Ha) as Hacc.
  split; [by apply accounted_total|]. split; [by apply lost_bounded|].
  split; [by apply accounted_contended|by apply accounted_answers].
Qed.

(** A client that is silent for five seconds: the read of the iteration times
    out with its [RecvMsg] still open, and the next iteration calls [RecvMsg] on
    the same stream, which gRPC documents as unsafe. *)
Theorem silent_client_contends l st : exec l new_stream = Some st -> contended st = false -> ctxDone st = false ->
  loop st = Waiting -> results st !! round st = None ->
  exists st', exec (l ++ [Timeout; Begin]) new_stream = Some st' /\ contended st' = true.
Proof.
  intros He Hc Hd Hl Hr. assert (Ha : alive st = true) by (unfold alive; by rewrite Hl).
  pose proof (exec_accounted _ _ He Ha) as Hacc.
  destruct (acc_waiting _ _ Hacc Hl) as [Hin|[r Hin]]; [|congruence].
  assert (Hs : step Timeout st = Some (next_round st)) by (unfold step; rewrite Hc; simpl; unfold time_out; by rewrite Hl, Hd).
  eexists. rewrite stream_exec_app, He. cbn [exec]. rewrite Hs. unfold step.
  change (contended (next_round st)) with (contended st). rewrite Hc. simpl. unfold begin_round. simpl. rewrite Hd. split; [done|].
  unfold contended. simpl. apply Nat.ltb_lt.
  assert (Hn : S (round st) ∉ receivers st) by (intros [Hle _]%(acc_receivers _ _ Hacc); lia).
  rewrite size_union, size_singleton by set_solver.
  assert (size (receivers st) <> 0%nat) by (intros Hz%size_empty_inv; by apply Hz, not_elem_of_empty in Hin). lia.
Qed.

Lemma lost_positive k d st : (k < round st)%nat -> results st !! k = Some (Message d) -> (0 < lost st)%nat.
Proof.
  intros Hk Hr. unfold lost. rewrite (messages_delete k (Message d)); [simpl; lia|].
  by rewrite lookup_delete_ne by lia.
Qed.

Lemma lost_someone st : (forall k r, results st !! k = Some r -> (k <= round st)%nat) -> (0 < lost st)%nat ->
  exists k d, (k < round st)%nat /\ results st !! k = Some (Message d).
Proof.
  intros Hle. unfold lost, messages. set (m := delete (round st) (results st)).
  assert (Hin : forall k r, (k, r) ∈ map_to_list m -> (k < round st)%nat /\ results st !! k = Some r).
  { intros k r [Hne Hk]%elem_of_map_to_list%lookup_delete_Some. split; [|done]. apply Hle in Hk. lia. }
  revert Hin. induction (map_to_list m) as [|[k r] rs IH]; intros Hin; [simpl; lia|]. rewrite fmap_cons, omap_cons. simpl.
  destruct r as [d| | |e]; simpl.
  - intros _. exists k, d. apply Hin. by left.
  - intros H. apply IH; [|done]. intros k' r' Hk'. apply Hin. by right.
  - intros H. apply IH; [|done]. intros k' r' Hk'. apply Hin. by right.
  - intros H. apply IH; [|done]. intros k' r' Hk'. apply Hin. by right.
Qed.

Lemma lost_exec l l' st st' : exec l new_stream = Some st -> alive st = true -> (0 < lost st)%nat ->
  exec l' st = Some st' -> (0 < lost st')%nat.
Proof.
  intros He Ha Hl Hx. destruct (lost_someone st (acc_results _ _ (exec_accounted _ _ He Ha)) Hl) as (k & d & Hk & Hr).
  destruct (stale_exec _ _ _ _ _ _ He Hk Hr Hx) as [Hk' Hr']. by eapply lost_positive.
Qed.

(** A message that reached the channel of an iteration that had timed out
    stays there: however the stream goes on, the loop has answered fewer
    messages than were sent. *)
Theorem lost_message_unanswered l l' k d st st' : exec l new_stream = Some st ->
  (k < round st)%nat -> results st !! k = Some (Message d) ->
  exec l' st = Some st' -> alive st' = true ->
  results st' !! k = Some (Message d) /\ (length (responses st') < length (sent_of (l ++ l')))%nat.
Proof.
  intros He Hk Hr Hx Ha. destruct (stale_exec _ _ _ _ _ _ He Hk Hr Hx) as [Hk' Hr']. split; [done|].
  pose proof (lost_positive _ _ _ Hk' Hr'). rewrite (accounted_total (l ++ l') st'); [lia|].
  apply exec_accounted; [by rewrite stream_exec_app, He|done].
Qed.

End properties.

(** ** Witnesses *)

Lemma metric_answer_witness :
  @handle_message protobuf_wire canonical_range (@marshalMetricPoint protobuf_wire canonical_range example_point) =
  Some (Responded (@response protobuf_wire true "Processed successfully")).
Proof. exact (@metric_answer protobuf_wire protobuf_wire_laws canonical_range example_point example_point_ok). Defined.

Definition example_data : string := @marshalMetricPoint protobuf_wire canonical_range example_point.

(** The first read times out, and its goroutine gets the message before the next
    one starts. *)
Definition late_trace : list action :=
  [Begin; Timeout; ClientSend example_data; Receive 0 (Message example_data); Begin].

Definition later : list action :=
  [ClientSend example_data; Receive 1 (Message example_data); Take SendOk].

Lemma late_trace_exec : exists st, @exec protobuf_wire canonical_range late_trace new_stream = Some st /\
  bool_decide (round st = 1%nat) && alive st &&
  match results st !! 0%nat with Some (Message d) => bool_decide (d = example_data) | _ => false end &&
  match @exec protobuf_wire canonical_range later st with
  | Some st' => alive st' && bool_decide (length (responses st') = 1%nat)
  | None => false
  end = true.
Proof. apply computed. vm_compute. done. Qed.

#[local] Opaque example_data late_trace later.

Lemma stream_accounting_witness : exists st,
  @exec protobuf_wire canonical_range late_trace new_stream = Some st /\
  length (sent_of late_trace) = (length (responses st) + length (current st) + lost st + length (inbox st))%nat.
Proof.
  destruct late_trace_exec as (st & He & H). exists st. split; [exact He|].
  apply andb_true_iff in H as [[[_ Ha]%andb_true_iff _]%andb_true_iff _].
  exact (proj1 (@stream_accounting protobuf_wire protobuf_wire_laws canonical_range late_trace st He Ha)).
Defined.

Lemma silent_client_contends_witness : exists st,
  @exec protobuf_wire canonical_range ([Begin] ++ [Timeout; Begin]) new_stream = Some st /\ contended st = true.
Proof.
  eapply (@silent_client_contends protobuf_wire protobuf_wire_laws canonical_range [Begin]); vm_compute; reflexivity.
Defined.

Lemma lost_message_unanswered_witness : exists st st',
  @exec protobuf_wire canonical_range late_trace new_stream = Some st /\
  @exec protobuf_wire canonical_range later st = Some st' /\
  (length (responses st') < length (sent_of (late_trace ++ later)))%nat.
Proof.
  destruct late_trace_exec as (st & He & H).
  apply andb_true_iff in H as [[[Hr Ha]%andb_true_iff Hd]%andb_true_iff Hx].
  apply computed in Hx as (st' & He' & Ha'). exists st, st'. split; [exact He|]. split; [exact He'|].
  apply andb_true_iff in Ha' as [Ha' _]. destruct (results st !! 0%nat) as [[d| | |e]|] eqn:Hk; try discriminate Hd.
  refine (proj2 (@lost_message_unanswered protobuf_wire canonical_range late_trace later 0 d st st' He _ Hk He' Ha')).
  apply bool_decide_eq_true in Hr. rewrite Hr. apply Nat.lt_0_1.
Defined.
