(* ===== verification/MetricsClient.v ===== *)
(** * The metrics client (ARCHIVE/Jul252026/internal/client/main.go)

    [generateRandomMetric], the batches of [main] and [sendMetricsBatch]: the
    goroutines that share one stream, each sending a metric and waiting for a
    response.  A session is the goroutines with the server's loop of
    MetricsServer; which goroutine gets a response is open, as in the code.  A call
    is two events, its start and its return (a message is on its way when [SendMsg]
    returns), and a run ends when two goroutines
    are in [SendMsg], or two in [RecvMsg], at once ([clashing]): gRPC documents
    this use as unsafe, and nothing in the code excludes it
    ([goroutines_clash]). *)

From Stdlib Require Import SpecFloat.
From S2P Require Import Prelude GoStrings Json Floats EventGen Wire Metrics MetricsServer.

(** ** generateRandomMetric *)

(** What else the global functions of [math/rand] promise. *)
Class GlobalRand `{RandSource} := {
  Int63n : Z -> rng -> Z * rng;
  Float32 : rng -> spec_float * rng;
  Int63n_range n r : 0 < n -> 0 <= (Int63n n r).1 < n
}.

(** A comparison of a float32 with the constant [n / 10]. *)
Definition f32_below (x : spec_float) (n : Z) : bool :=
  SFltb x (SFdiv 24 128 (binary_normalize 24 128 n 0 false) (binary_normalize 24 128 10 0 false)).

Definition strVals : list string := ["test"; "prod"; "dev"; "staging"].
Definition envs : list string := ["prod"; "staging"; "dev"; "test"].
Definition hosts : list string := ["server1"; "server2"; "server3"; "server4"; "server5"].
Definition extraLabels : list (string * string) :=
  [("region", "us-west"); ("datacenter", "dc1"); ("service", "api"); ("version", "v1.2.3")].

Definition int_value (i : Z) : Value :=
  {| vType := ValueType_INT; IntVal := Some i; FloatVal := None; StringVal := None; ListVal := [] |}.
Definition float_value (f : float64) : Value :=
  {| vType := ValueType_FLOAT; IntVal := None; FloatVal := Some f; StringVal := None; ListVal := [] |}.
Definition string_value (s : string) : Value :=
  {| vType := ValueType_STRING; IntVal := None; FloatVal := None; StringVal := Some s; ListVal := [] |}.
Definition list_value (l : list Value) : Value :=
  {| vType := ValueType_LIST; IntVal := None; FloatVal := None; StringVal := None; ListVal := l |}.

Section generate.
Context {R : RandSource} {G : GlobalRand}.
Variable clock : nat -> time.

(** [table[rand.Intn(len(table))]] *)
Definition pick (table : list string) (r : rng) : string * rng :=
  let '(i, r) := Intn (Z.of_nat (length table)) r in (nth (Z.to_nat i) table "", r).

(** The loop over [extraLabels]. *)
Fixpoint extra_loop (extra : list (string * string)) (labels : list Label) (r : rng) : list Label * rng :=
  match extra with
  | [] => (labels, r)
  | (name, value) :: extra =>
      let '(x, r) := Float32 r in
      extra_loop extra (if f32_below x 7 then labels ++ [{| lName := name; lValue := value |}] else labels) r
  end.

(** The [n]-th reading of the clock is this metric's. *)
Definition generateRandomMetric (n : nat) (r : rng) : MetricPoint * rng :=
  let '(intVal, r) := Int63n 1000 r in
  let '(x, r) := Float64 r in
  let floatVal := f64_mul x (f64_of_Z 100) in
  let '(strVal, r) := pick strVals r in
  let '(c, r) := Float32 r in
  let isComplex := f32_below c 4 in
  let '(v, r) := Float64 r in
  let '(z, r) := Float32 r in
  let '(host, r) := pick hosts r in
  let '(env, r) := pick envs r in
  let labels := [{| lName := "host"; lValue := host |}; {| lName := "env"; lValue := env |}] in
  let items : gmap string Value := {[ "count" := int_value intVal ]} in
  let point labels items :=
    {| Timestamp := unix_nano (clock n); mValue := f64_mul v (f64_of_Z 1000); IsNull := f32_below z 1;
       Labels := labels; Properties := Some {| Items := items |} |} in
  if isComplex then
    let '(labels, r) := extra_loop extraLabels labels r in
    (point labels (<["tags" := list_value [string_value strVal]]> (<["ratio" := float_value floatVal]> items)), r)
  else (point labels items, r).

Fixpoint generate_loop (n : nat) (i : nat) (r : rng) : list MetricPoint * rng :=
  match n with
  | O => ([], r)
  | S n => let '(m, r) := generateRandomMetric i r in
           let '(ms, r) := generate_loop n (S i) r in (m :: ms, r)
  end.

(** The metrics of [main]. *)
Definition generate_metrics (r : rng) : list MetricPoint :=
  let '(k, r) := Intn 16 r in (generate_loop (Z.to_nat (k + 10)) 0 r).1.
End generate.

(** ** The batches of main *)

Definition batchSize : nat := 5.

(** [for i := 0; i < len(metrics); i += batchSize]; [fuel] is the length. *)
Fixpoint batch_loop {A} (fuel i : nat) (metrics : list A) : list (list A) :=
  match fuel with
  | O => []
  | S fuel =>
      if (i <? length metrics)%nat then
        let last := if (length metrics <? i + batchSize)%nat then length metrics else (i + batchSize)%nat in
        take (last - i) (drop i metrics) :: batch_loop fuel (i + batchSize) metrics
      else []
  end.
Definition batches {A} (metrics : list A) : list (list A) := batch_loop (length metrics) 0 metrics.

Section session.
Context {E : Easyproto} {MR : MapRange}.

(** ** sendMetricsBatch *)

(** Where a goroutine is: between two metrics, in [SendMsg] for the first of its
    metrics, between the two calls, or in [RecvMsg] for the response. *)
Inductive place := Ready | Sending | Sent | Receiving.

#[export] Instance place_eq_dec : EqDecision place.
Proof. solve_decision. Defined.

(** What a goroutine has still to send, and where it is. *)
Record goroutine := { todo : list MetricPoint; at_ : place }.

(** Its metric has been sent and no response received. *)
Definition awaiting (g : goroutine) : bool := match at_ g with Sent | Receiving => true | _ => false end.

Definition finished (g : goroutine) : bool := match todo g, at_ g with [], Ready => true | _, _ => false end.

(** [consumed] responses have been received by the goroutines. *)
Record session := { goroutines : list goroutine; consumed : nat; waited : bool; server : stream }.

Definition start_session (metrics : list MetricPoint) : session := {|
  goroutines := (fun b => {| todo := b; at_ := Ready |}) <$> batches metrics;
  consumed := 0; waited := false; server := new_stream |}.

(** main up to [wg.Wait]: a failure of [grpc.Dial] or [NewStream] is fatal. *)
Definition start_client (dial new_stream : option error) (metrics : list MetricPoint) : option session :=
  match dial, new_stream with
  | None, None => Some (start_session metrics)
  | _, _ => None
  end.

Inductive event :=
  | GSend (i : nat)                (* goroutine i calls SendMsg *)
  | GSent (i : nat)                (* SendMsg of goroutine i returns: the message is on its way *)
  | GCall (i : nat)                (* goroutine i calls RecvMsg *)
  | GRecv (i : nat)                (* RecvMsg of goroutine i returns a response *)
  | GFail (i : nat) (eof : bool)   (* a call of goroutine i fails *)
  | Wait                           (* wg.Wait() returns, CloseSend *)
  | Server (a : action).

Definition set_goroutine (i : nat) (g : goroutine) (n : nat) (st : stream) (s : session) : session :=
  {| goroutines := <[i := g]> (goroutines s); consumed := n; waited := waited s; server := st |}.

(** The actions of the client's end are taken by the other events. *)
Definition server_side (a : action) : bool :=
  match a with ClientSend _ | ClientClose => false | _ => true end.

Definition session_act (e : event) (s : session) : option session :=
  match e with
  | GSend i =>
      match goroutines s !! i with
      | Some {| todo := m :: rest; at_ := Ready |} =>
          Some (set_goroutine i {| todo := m :: rest; at_ := Sending |} (consumed s) (server s) s)
      | _ => None
      end
  | GSent i =>
      match goroutines s !! i with
      | Some {| todo := m :: rest; at_ := Sending |} =>
          match step (ClientSend (marshalMetricPoint m)) (server s) with
          | Some st => Some (set_goroutine i {| todo := m :: rest; at_ := Sent |} (consumed s) st s)
          | None => None
          end
      | _ => None
      end
  | GCall i =>
      match goroutines s !! i with
      | Some {| todo := m :: rest; at_ := Sent |} =>
          Some (set_goroutine i {| todo := m :: rest; at_ := Receiving |} (consumed s) (server s) s)
      | _ => None
      end
  | GRecv i =>
      match goroutines s !! i with
      | Some {| todo := _ :: rest; at_ := Receiving |} =>
          if (consumed s <? length (responses (server s)))%nat
          then Some (set_goroutine i {| todo := rest; at_ := Ready |} (S (consumed s)) (server s) s)
          else None
      | _ => None
      end
  | GFail i eof =>
      match goroutines s !! i with
      | Some {| todo := _ :: rest; at_ := (Sending | Receiving) |} =>
          Some (set_goroutine i {| todo := if eof then [] else rest; at_ := Ready |} (consumed s) (server s) s)
      | _ => None
      end
  | Wait =>
      if forallb finished (goroutines s) && negb (waited s) then
        match step ClientClose (server s) with
        | Some st => Some {| goroutines := goroutines s; consumed := consumed s; waited := true; server := st |}
        | None => None
        end
      else None
  | Server a =>
      if server_side a then
        match step a (server s) with
        | Some st => Some {| goroutines := goroutines s; consumed := consumed s; waited := waited s; server := st |}
        | None => None
        end
      else None
  end.

(** The goroutines that are in a call. *)
Definition calling (p : place) (gs : list goroutine) : nat := sum_list_with (fun g => Nat.b2n (bool_decide (at_ g = p))) gs.

(** Two goroutines are in [SendMsg], or two in [RecvMsg], of the stream at once:
    gRPC documents that this is not safe, and a run ends there.  One in [SendMsg]
    and another in [RecvMsg] is allowed. *)
Definition clashing (s : session) : bool :=
  (1 <? calling Sending (goroutines s))%nat || (1 <? calling Receiving (goroutines s))%nat.

Definition session_step (e : event) (s : session) : option session := if clashing s then None else session_act e s.

Fixpoint session_exec (l : list event) (s : session) : option session :=
  match l with
  | [] => Some s
  | e :: l => match session_step e s with Some s => session_exec l s | None => None end
  end.

End session.

(** ** Batches *)

Lemma batch_loop_spec {A} fuel i (l : list A) : (length l <= i + fuel)%nat ->
  concat (batch_loop fuel i l) = drop i l /\
  Forall (fun b => (0 < length b <= batchSize)%nat) (batch_loop fuel i l).
Proof.
  revert i. induction fuel as [|fuel IH]; intros i Hf; simpl; [by rewrite drop_ge by lia|].
  destruct (Nat.ltb_spec i (length l)) as [Hi|Hi]; [|simpl; by rewrite drop_ge by lia].
  destruct (IH (i + batchSize)%nat ltac:(unfold batchSize in *; lia)) as [Hc Hb]. simpl. rewrite Hc. unfold batchSize in *.
  set (k := ((if (length l <? i + 5)%nat then length l else i + 5) - i)%nat).
  assert (Hk : k = Nat.min 5 (length l - i)) by (unfold k; destruct (Nat.ltb_spec (length l) (i + 5)); lia). split.
  - rewrite <-drop_drop. destruct (decide (k = 5%nat)) as [->|]; [by rewrite take_drop|].
    rewrite take_ge, (drop_ge (drop i l)) by (rewrite length_drop; lia). by rewrite app_nil_r.
  - constructor; [|done]. rewrite length_take, length_drop. lia.
Qed.

Lemma concat_batches {A} (l : list A) : concat (batches l) = l.
Proof. apply batch_loop_spec. lia. Qed.

(** ** Generated metrics are accepted *)

Section accepted.
Context {E : Easyproto} {L : EasyprotoLaws} {MR : MapRange}.

Definition accepted (m : MetricPoint) : Prop :=
  handle_message (marshalMetricPoint m) = Some (Responded (response true "Processed successfully")).

Lemma accepted_spec m : point_ok m -> items_of m !! "" = None ->
  map_Forall (fun _ v => has_payload v = true) (items_of m) -> accepted m.
Proof.
  intros Hok Hk Hp. unfold accepted. rewrite handle_marshaled, Hk by done.
  unfold payloads. by rewrite bool_decide_eq_true_2.
Qed.

Context {R : RandSource} {G : GlobalRand}.
Variable clock : nat -> time.

Definition sound_value (v : Value) : Prop := value_ok v /\ has_payload v = true.

Lemma sound_point ts x nl ls (m : gmap string Value) : in_int64 ts -> f64_valid x -> m !! "" = None ->
  map_Forall (fun _ v => sound_value v) m ->
  accepted {| Timestamp := ts; mValue := x; IsNull := nl; Labels := ls; Properties := Some {| Items := m |} |}.
Proof.
  intros Hts Hx Hk Hm. apply accepted_spec; [split; [done|]; split; [done|]|done|];
    intros k v Hv; by apply (Hm k).
Qed.

Lemma generated_accepted n r : accepted (generateRandomMetric clock n r).1.
Proof.
  unfold generateRandomMetric, pick.
  pose proof (Int63n_range 1000 r ltac:(lia)) as Hi. destruct (Int63n 1000 r) as [i r1]. cbn in Hi.
  pose proof (Float64_valid r1) as Hf. destruct (Float64 r1) as [x r2]. cbn in Hf.
  destruct (Intn _ r2) as [i2 r3]. destruct (Float32 r3) as [c r4].
  pose proof (Float64_valid r4) as Hv. destruct (Float64 r4) as [v r5]. cbn in Hv.
  destruct (Float32 r5) as [z r6]. destruct (Intn _ r6) as [i3 r7]. destruct (Intn _ r7) as [i4 r8].
  assert (Hint : sound_value (int_value i)).
  { split; [|done]. simpl. unfold in_int32, in_int64, int32_min, int32_max, int64_min, int64_max. repeat split; lia || done. }
  assert (Hfloat : sound_value (float_value (f64_mul x (f64_of_Z 100)))).
  { split; [|done]. simpl. repeat split; try done. by apply f64_mul_valid. }
  assert (Hlist : forall s, sound_value (list_value [string_value s])) by done.
  assert (Hval : f64_valid (f64_mul v (f64_of_Z 1000))) by (by apply f64_mul_valid).
  destruct (f32_below c 4); [destruct (extra_loop _ _ _) as [ls r9]|]; (apply sound_point; [apply wrap64_range|done|done|]).
  - apply map_Forall_insert_2; [done|]. apply map_Forall_insert_2; [done|]. by apply map_Forall_singleton.
  - by apply map_Forall_singleton.
Qed.

Lemma generate_loop_accepted n i r : Forall accepted (generate_loop clock n i r).1.
Proof.
  revert i r. induction n as [|n IH]; intros i r; [constructor|]. simpl.
  pose proof (generated_accepted i r) as Hm. destruct (generateRandomMetric clock i r) as [m r'].
  specialize (IH (S i) r'). destruct (generate_loop clock n (S i) r') as [ms r'']. by constructor.
Qed.

Lemma generate_loop_length n i r : length (generate_loop clock n i r).1 = n.
Proof.
  revert i r. induction n as [|n IH]; intros i r; [done|]. simpl. destruct (generateRandomMetric clock i r) as [m r'].
  specialize (IH (S i) r'). destruct (generate_loop clock n (S i) r') as [ms r'']. simpl in *. lia.
Qed.

(** Ten to twenty-five metrics, all of which the server accepts. *)
Lemma generate_metrics_spec r :
  Forall accepted (generate_metrics clock r) /\ (10 <= length (generate_metrics clock r) <= 25)%nat.
Proof.
  unfold generate_metrics. pose proof (Intn_range 16 r ltac:(lia)) as Hk. destruct (Intn 16 r) as [k r']. cbn in Hk.
  split; [apply generate_loop_accepted|]. rewrite generate_loop_length. lia.
Qed.

End accepted.

(** ** Every message is waited for *)

Section balance.
Context {E : Easyproto} {L : EasyprotoLaws} {MR : MapRange}.

Definition count_awaiting (gs : list goroutine) : nat := sum_list_with (fun g => Nat.b2n (awaiting g)) gs.
Definition count_todo (gs : list goroutine) : nat := sum_list_with (fun g => length (todo g)) gs.

Lemma session_step_act e s s' : session_step e s = Some s' -> clashing s = false /\ session_act e s = Some s'.
Proof. unfold session_step. by destruct (clashing s). Qed.

Lemma sum_list_with_insert {A} (f : A -> nat) i x y (l : list A) : l !! i = Some x ->
  (sum_list_with f (<[i := y]> l) + f x = sum_list_with f l + f y)%nat.
Proof.
  revert i. induction l as [|z l IH]; intros [|i] Hi; simplify_eq/=; [lia|]. specialize (IH i Hi). lia.
Qed.

Lemma step_responses a st st' : step a st = Some st' -> (length (responses st) <= length (responses st'))%nat.
Proof.
  intros [_ H]%step_act. revert H.
  destruct a; simpl; unfold begin_round, receive, take_result, time_out; intros H;
    repeat case_match; simplify_eq/=; try lia.
  all: try (destruct s; simpl; rewrite ?length_app; lia).
Qed.

(** The server side of the session is a trace of its own. *)
Record balanced (l : list action) (s : session) : Prop := {
  bal_server : exec l new_stream = Some (server s);
  bal_awaiting : (length (sent_of l) = count_awaiting (goroutines s) + consumed s)%nat;
  bal_consumed : (consumed s <= length (responses (server s)))%nat;
  bal_todo : Forall (fun g => at_ g <> Ready -> todo g <> []) (goroutines s)
}.

(** Failing calls apart. *)
Definition calls_succeed (l : list event) : Prop := Forall (fun e => match e with GFail _ _ => False | _ => True end) l.

(** What an event does to the server. *)
Definition server_action (s : session) (e : event) : list action :=
  match e with
  | GSent i => match goroutines s !! i with Some {| todo := m :: _ |} => [ClientSend (marshalMetricPoint m)] | _ => [] end
  | Wait => [ClientClose]
  | Server a => [a]
  | _ => []
  end.

(** Where a goroutine is changes; its list may shrink. *)
Lemma count_awaiting_insert i g g' gs : gs !! i = Some g ->
  (count_awaiting (<[i := g']> gs) + Nat.b2n (awaiting g) = count_awaiting gs + Nat.b2n (awaiting g'))%nat.
Proof. apply (sum_list_with_insert (fun g => Nat.b2n (awaiting g))). Qed.

Lemma balanced_step l e s s' : balanced l s -> match e with GFail _ _ => False | _ => True end ->
  session_step e s = Some s' -> balanced (l ++ server_action s e) s'.
Proof.
  intros [H1 H2 H3 H4] He [_ Hs]%session_step_act. destruct e as [i|i|i|i|i eof| |a]; simpl in Hs; [| | | |done| |].
  - destruct (goroutines s !! i) as [[[|m rest] []]|] eqn:Hi; try done. simplify_eq. simpl. rewrite app_nil_r.
    pose proof (count_awaiting_insert i _ {| todo := m :: rest; at_ := Sending |} _ Hi) as Hsum.
    split; simpl in *; [done|lia|done|by apply Forall_insert].
  - destruct (goroutines s !! i) as [[[|m rest] []]|] eqn:Hi; try done.
    destruct (step _ (server s)) as [st|] eqn:Hst; [|done]. simplify_eq. simpl. rewrite Hi.
    pose proof (count_awaiting_insert i _ {| todo := m :: rest; at_ := Sent |} _ Hi) as Hsum.
    pose proof (step_responses _ _ _ Hst) as Hresp.
    split; simpl in *; [by rewrite stream_exec_app, H1; simpl; rewrite Hst|rewrite sent_of_app, length_app; simpl; lia|lia|].
    by apply Forall_insert.
  - destruct (goroutines s !! i) as [[[|m rest] []]|] eqn:Hi; try done. simplify_eq. simpl. rewrite app_nil_r.
    pose proof (count_awaiting_insert i _ {| todo := m :: rest; at_ := Receiving |} _ Hi) as Hsum.
    split; simpl in *; [done|lia|done|by apply Forall_insert].
  - destruct (goroutines s !! i) as [[[|m rest] []]|] eqn:Hi; try done.
    destruct (Nat.ltb_spec (consumed s) (length (responses (server s)))); [|done]. simplify_eq. simpl. rewrite app_nil_r.
    pose proof (count_awaiting_insert i _ {| todo := rest; at_ := Ready |} _ Hi) as Hsum.
    split; simpl in *; [done|lia|lia|by apply Forall_insert].
  - destruct (forallb finished (goroutines s) && negb (waited s)); [|done].
    destruct (step ClientClose (server s)) as [st|] eqn:Hst; [|done]. simplify_eq. simpl.
    pose proof (step_responses _ _ _ Hst) as Hresp.
    split; simpl; [by rewrite stream_exec_app, H1; simpl; rewrite Hst|by rewrite sent_of_app, app_nil_r|lia|done].
  - destruct (server_side a) eqn:Ha; [|done]. destruct (step a (server s)) as [st|] eqn:Hst; [|done]. simplify_eq. simpl.
    split; simpl; [by rewrite stream_exec_app, H1; simpl; rewrite Hst| |pose proof (step_responses _ _ _ Hst); lia|done].
    rewrite sent_of_app. destruct a; by rewrite ?app_nil_r.
Qed.

Lemma balanced_start metrics : balanced [] (start_session metrics).
Proof.
  split; simpl; [done| |done|].
  - induction (batches metrics); [done|]. done.
  - apply Forall_fmap, Forall_true. simpl. by intros b [].
Qed.

Lemma balanced_exec l es s s' : balanced l s -> calls_succeed es -> session_exec es s = Some s' ->
  exists l', balanced (l ++ l') s'.
Proof.
  revert l s. induction es as [|e es IH]; intros l s Hb Hc; simpl.
  - intros [= <-]. exists []. by rewrite app_nil_r.
  - inversion Hc as [|? ? He Hc']; subst. destruct (session_step e s) as [s1|] eqn:Hs; [|done]. intros Hx.
    pose proof (balanced_step _ _ _ _ Hb He Hs) as Hb1. destruct (IH _ _ Hb1 Hc' Hx) as [l' Hl'].
    exists (server_action s e ++ l'). by rewrite app_assoc.
Qed.

Lemma sum_positive {A} (f : A -> nat) (l : list A) : (0 < sum_list_with f l)%nat -> exists i x, l !! i = Some x /\ (0 < f x)%nat.
Proof.
  induction l as [|x l IH]; simpl; [lia|]. intros H. destruct (decide (0 < f x)%nat); [by exists 0%nat, x|].
  destruct IH as (i & y & Hi & Hy); [lia|]. by exists (S i), y.
Qed.

Lemma awaiting_someone gs : (0 < count_awaiting gs)%nat -> exists i g, gs !! i = Some g /\ awaiting g = true.
Proof. intros (i & g & Hi & Hb)%sum_positive. exists i, g. split; [done|]. by destruct (awaiting g); simpl in *; [|lia]. Qed.

(** The goroutines in [RecvMsg] are owed what the loop has not answered. *)
Lemma balanced_lost l s : balanced l s -> alive (server s) = true ->
  count_awaiting (goroutines s) =
  (length (responses (server s)) - consumed s + length (current (server s)) + lost (server s) + length (inbox (server s)))%nat.
Proof.
  intros [H1 H2 H3 _] Ha. pose proof (accounted_total _ _ (exec_accounted _ _ H1 Ha)). lia.
Qed.

Lemma unfinished_blocks s i g : goroutines s !! i = Some g -> awaiting g = true -> session_act Wait s = None.
Proof.
  intros Hi Hg. simpl. replace (forallb finished (goroutines s)) with false; [done|]. symmetry.
  apply not_true_is_false. rewrite forallb_forall. intros H. specialize (H g).
  rewrite <-list_elem_of_In in H. specialize (H (list_elem_of_lookup_2 _ _ _ Hi)).
  unfold finished, awaiting in *. by destruct (todo g), (at_ g); try specialize (H eq_refl).
Qed.

End balance.

(** ** A session without timeouts and failures *)

Section healthy.
Context {E : Easyproto} {L : EasyprotoLaws} {MR : MapRange}.

Definition success : string := response true "Processed successfully".
Definition ok_message (d : string) : Prop := handle_message d = Some (Responded success).

(** Calls succeed and no read takes five seconds. *)
Definition regular (e : event) : Prop :=
  match e with
  | GSend _ | GSent _ | GCall _ | GRecv _ | Server Begin | Server (Receive _ (Message _)) | Server (Take SendOk) => True
  | _ => False
  end.

(** The metrics that are not on their way yet, and the steps left to the
    goroutines: four for each metric. *)
Definition unsent (g : goroutine) : nat := length (todo g) - Nat.b2n (awaiting g).
Definition steps_left (g : goroutine) : nat :=
  4 * length (todo g) - match at_ g with Ready => 0 | Sending => 1 | Sent => 2 | Receiving => 3 end.

Record healthy (n : nat) (l : list action) (s : session) : Prop := {
  h_balanced : balanced l s;
  h_timeouts : timeouts_of l = 0%nat;
  h_alive : alive (server s) = true;
  h_ctx : ctxDone (server s) = false;
  h_open : clientClosed (server s) = false;
  h_inbox : Forall ok_message (inbox (server s));
  h_results k r : results (server s) !! k = Some r -> exists d, r = Message d /\ ok_message d;
  h_responses : Forall (fun r => r = success) (responses (server s));
  h_todo : Forall (fun g => Forall accepted (todo g)) (goroutines s);
  h_count : (count_todo (goroutines s) + consumed s = n)%nat
}.

(** What is left to do: three steps of the server for each message. *)
Definition potential (s : session) : nat :=
  (sum_list_with steps_left (goroutines s) +
   3 * sum_list_with unsent (goroutines s) + 3 * length (inbox (server s)) + 2 * length (current (server s))
   + if bool_decide (loop (server s) = Top) then 1 else 0)%nat.

Lemma healthy_accounted n l s : healthy n l s -> accounted l (server s).
Proof. intros H. apply exec_accounted; [apply (h_balanced _ _ _ H)|apply (h_alive _ _ _ H)]. Qed.

(** Without timeouts only the current iteration receives. *)
Lemma receiver_current n l s k : healthy n l s -> k ∈ receivers (server s) ->
  k = round (server s) /\ loop (server s) = Waiting /\ results (server s) = ∅.
Proof.
  intros Hh Hk. pose proof (healthy_accounted _ _ _ Hh) as Hacc. pose proof (acc_size _ _ Hacc) as Hs.
  rewrite (h_timeouts _ _ _ Hh) in Hs.
  assert (size (receivers (server s)) <> 0%nat) by (intros Hz%size_empty_inv; by apply Hz, not_elem_of_empty in Hk).
  case_bool_decide as Hw; [|lia].
  assert (Hr : results (server s) = ∅) by (apply map_size_empty_inv; lia).
  destruct (acc_waiting _ _ Hacc Hw) as [Hin|[r Hin]]; [|by rewrite Hr, lookup_empty in Hin].
  split; [|done]. destruct (size_1_elem_of (receivers (server s))) as [x Hx]; [lia|].
  apply Hx, elem_of_singleton in Hk. apply Hx, elem_of_singleton in Hin. congruence.
Qed.

(** A goroutine moves: the server is as it was, or has got its message. *)
Lemma healthy_moved n l s e s' i g g' :
  healthy n l s -> regular e -> session_step e s = Some s' -> goroutines s !! i = Some g ->
  goroutines s' = <[i := g']> (goroutines s) -> Forall accepted (todo g') ->
  (length (todo g') + consumed s' = length (todo g) + consumed s)%nat ->
  (server s' = server s /\ server_action s e = [] \/
   exists m, accepted m /\ server_action s e = [ClientSend (marshalMetricPoint m)] /\
     step (ClientSend (marshalMetricPoint m)) (server s) = Some (server s')) ->
  healthy n (l ++ server_action s e) s'.
Proof.
  intros Hh He Hs Hi Hg Ha Hn Hsv.
  pose proof (balanced_step _ e _ _ (h_balanced _ _ _ Hh) ltac:(by destruct e) Hs) as Hb.
  pose proof (sum_list_with_insert (fun g => length (todo g)) i _ g' _ Hi) as Hsum. cbv beta in Hsum.
  assert (Ht : Forall (fun g => Forall accepted (todo g)) (goroutines s')).
  { rewrite Hg. apply Forall_insert; [apply Hh|done]. }
  assert (Hc : (count_todo (goroutines s') + consumed s' = n)%nat).
  { pose proof (h_count _ _ _ Hh). unfold count_todo in *. rewrite Hg. lia. }
  destruct Hh as [_ H2 H3 H4 H5 H6 H7 H8 _ _]. destruct Hsv as [[Es Ea]|(m & Hm & Ea & Hst)].
  - rewrite Ea, app_nil_r in *. split; rewrite ?Es; done.
  - rewrite Ea in *. apply step_act in Hst as [_ Hst]. simpl in Hst. rewrite H5 in Hst. injection Hst as Es.
    split; try rewrite <-Es; simpl; try done; [by rewrite timeouts_of_app, H2|].
    apply Forall_app. split; [done|]. by constructor.
Qed.

Ltac at_goroutine Hs Hh :=
  let Hs' := fresh in pose proof Hs as Hs'; apply session_step_act in Hs' as [_ Hs']; simpl in Hs';
  match type of Hs' with context [goroutines ?s !! ?i] =>
    let Hi := fresh "Hi" in
    destruct (goroutines s !! i) as [[[|m rest] []]|] eqn:Hi; try done;
    let Hm := fresh "Hm" in pose proof (Forall_lookup_1 _ _ _ _ (h_todo _ _ _ Hh) Hi) as Hm; simpl in Hm; apply Forall_cons in Hm as [? ?]
  end.

(** The potential of a session in which one goroutine has moved. *)
Lemma potential_moved (s : session) i g g' n st : goroutines s !! i = Some g ->
  (potential (set_goroutine i g' n st s) + steps_left g + 3 * unsent g + 3 * length (inbox (server s)) + 2 * length (current (server s))
     + (if bool_decide (loop (server s) = Top) then 1 else 0)
   = potential s + steps_left g' + 3 * unsent g' + 3 * length (inbox st) + 2 * length (current st)
     + (if bool_decide (loop st = Top) then 1 else 0))%nat.
Proof.
  intros Hi. pose proof (sum_list_with_insert steps_left i _ g' _ Hi). pose proof (sum_list_with_insert unsent i _ g' _ Hi).
  unfold potential. cbn [goroutines server set_goroutine]. lia.
Qed.

Lemma healthy_send n l s s' i : healthy n l s -> session_step (GSend i) s = Some s' ->
  healthy n (l ++ server_action s (GSend i)) s' /\ (potential s' < potential s)%nat.
Proof.
  intros Hh Hs. at_goroutine Hs Hh. simplify_eq. split.
  - eapply (healthy_moved n l s (GSend i) _ i); [done|done|exact Hs|done|reflexivity|by constructor|done|by left].
  - pose proof (potential_moved s i _ {| todo := m :: rest; at_ := Sending |} (consumed s) (server s) Hi) as Hp.
    unfold steps_left, unsent, awaiting in Hp. simpl in Hp. lia.
Qed.

Lemma healthy_sent n l s s' i : healthy n l s -> session_step (GSent i) s = Some s' ->
  healthy n (l ++ server_action s (GSent i)) s' /\ (potential s' < potential s)%nat.
Proof.
  intros Hh Hs. at_goroutine Hs Hh. destruct (step _ (server s)) as [st|] eqn:Hst; [|done]. simplify_eq. split.
  - eapply (healthy_moved n l s (GSent i) _ i); [done|done|exact Hs|done|reflexivity|by constructor|done|].
    right. exists m. simpl. by rewrite Hi.
  - pose proof (potential_moved s i _ {| todo := m :: rest; at_ := Sent |} (consumed s) st Hi) as Hp.
    apply step_act in Hst as [_ Hst]. simpl in Hst. rewrite (h_open _ _ _ Hh) in Hst. injection Hst as <-.
    unfold steps_left, unsent, awaiting, current in Hp. simpl in Hp. rewrite length_app in Hp. simpl in Hp. unfold current. lia.
Qed.

Lemma healthy_call n l s s' i : healthy n l s -> session_step (GCall i) s = Some s' ->
  healthy n (l ++ server_action s (GCall i)) s' /\ (potential s' < potential s)%nat.
Proof.
  intros Hh Hs. at_goroutine Hs Hh. simplify_eq. split.
  - eapply (healthy_moved n l s (GCall i) _ i); [done|done|exact Hs|done|reflexivity|by constructor|done|by left].
  - pose proof (potential_moved s i _ {| todo := m :: rest; at_ := Receiving |} (consumed s) (server s) Hi) as Hp.
    unfold steps_left, unsent, awaiting in Hp. simpl in Hp. lia.
Qed.

Lemma healthy_recv n l s s' i : healthy n l s -> session_step (GRecv i) s = Some s' ->
  healthy n (l ++ server_action s (GRecv i)) s' /\ (potential s' < potential s)%nat.
Proof.
  intros Hh Hs. at_goroutine Hs Hh. destruct (consumed s <? length (responses (server s)))%nat; [|done]. simplify_eq. split.
  - eapply (healthy_moved n l s (GRecv i) _ i); [done|done|exact Hs|done|reflexivity|done|simpl; lia|by left].
  - pose proof (potential_moved s i _ {| todo := rest; at_ := Ready |} (S (consumed s)) (server s) Hi) as Hp.
    unfold steps_left, unsent, awaiting in Hp. simpl in Hp. lia.
Qed.

(** A server action changes the server only. *)
Lemma healthy_server n l s a st : healthy n l s -> clashing s = false -> step a (server s) = Some st -> server_side a = true ->
  timeouts_of [a] = 0%nat -> alive st = true -> ctxDone st = ctxDone (server s) ->
  clientClosed st = clientClosed (server s) -> Forall ok_message (inbox st) ->
  (forall k r, results st !! k = Some r -> exists d, r = Message d /\ ok_message d) ->
  Forall (fun r => r = success) (responses st) ->
  healthy n (l ++ [a]) {| goroutines := goroutines s; consumed := consumed s; waited := waited s; server := st |}.
Proof.
  intros Hh Hcl Hs Ha Ht H1 H2 H3 H4 H5 H6. split; simpl; try done; try apply Hh.
  - assert (Hs' : session_step (Server a) s = Some {| goroutines := goroutines s; consumed := consumed s; waited := waited s; server := st |})
      by (unfold session_step; rewrite Hcl; simpl; by rewrite Ha, Hs).
    apply (balanced_step _ (Server a) _ _ (h_balanced _ _ _ Hh) I Hs').
  - rewrite timeouts_of_app, (h_timeouts _ _ _ Hh). by destruct a.
  - by rewrite H2, (h_ctx _ _ _ Hh).
  - by rewrite H3, (h_open _ _ _ Hh).
Qed.

Lemma healthy_begin n l s st : healthy n l s -> clashing s = false -> step Begin (server s) = Some st ->
  healthy n (l ++ [Begin]) {| goroutines := goroutines s; consumed := consumed s; waited := waited s; server := st |} /\
  (potential {| goroutines := goroutines s; consumed := consumed s; waited := waited s; server := st |} < potential s)%nat.
Proof.
  intros Hh Hcl Hs. pose proof Hs as [_ Hs']%step_act. simpl in Hs'. unfold begin_round in Hs'.
  destruct (loop (server s)) eqn:Hl; try done. rewrite (h_ctx _ _ _ Hh) in Hs'. simplify_eq. split.
  - eapply healthy_server; simpl; try done; [by rewrite (h_ctx _ _ _ Hh)|apply Hh..].
  - unfold potential, current. simpl. rewrite Hl. rewrite bool_decide_eq_true_2 by done. simpl. lia.
Qed.

Lemma healthy_receive n l s k d st : healthy n l s -> clashing s = false -> step (Receive k (Message d)) (server s) = Some st ->
  healthy n (l ++ [Receive k (Message d)]) {| goroutines := goroutines s; consumed := consumed s; waited := waited s; server := st |} /\
  (potential {| goroutines := goroutines s; consumed := consumed s; waited := waited s; server := st |} < potential s)%nat.
Proof.
  intros Hh Hcl Hs. pose proof Hs as [_ Hs']%step_act. simpl in Hs'. unfold receive in Hs'. rewrite (h_alive _ _ _ Hh), andb_true_r in Hs'.
  destruct (bool_decide_reflect (k ∈ receivers (server s))) as [Hk|]; [|done].
  destruct (receiver_current _ _ _ _ Hh Hk) as (-> & Hw & He).
  destruct (inbox (server s)) as [|d' rest] eqn:Hin; [done|]. case_bool_decide; [|done]. simplify_eq.
  pose proof (h_inbox _ _ _ Hh) as Hok. rewrite Hin in Hok. inversion Hok as [|? ? Hok1 Hok2]; subst.
  split.
  - eapply healthy_server; simpl; try done; try apply Hh.
    intros j r. rewrite He. destruct (decide (j = round (server s))) as [->|Hne].
    + rewrite lookup_insert_eq. intros [= <-]. by exists d.
    + by rewrite lookup_insert_ne, lookup_empty.
  - unfold potential, current. simpl. rewrite Hw, He, lookup_insert_eq, lookup_empty, Hin. simpl. lia.
Qed.

Lemma healthy_take n l s st : healthy n l s -> clashing s = false -> step (Take SendOk) (server s) = Some st ->
  healthy n (l ++ [Take SendOk]) {| goroutines := goroutines s; consumed := consumed s; waited := waited s; server := st |} /\
  (potential {| goroutines := goroutines s; consumed := consumed s; waited := waited s; server := st |} < potential s)%nat.
Proof.
  intros Hh Hcl Hs. pose proof Hs as [_ Hs']%step_act. simpl in Hs'. unfold take_result in Hs'.
  destruct (loop (server s)) eqn:Hl; try done.
  destruct (results (server s) !! round (server s)) as [r|] eqn:Hr; [|done].
  destruct (h_results _ _ _ Hh _ _ Hr) as (d & -> & Hok). rewrite Hok in Hs'. simplify_eq. simpl in *.
  pose proof (acc_results _ _ (healthy_accounted _ _ _ Hh)) as Hle.
  split.
  - eapply healthy_server; simpl; try done; try apply Hh.
    + intros j r Hj. apply lookup_delete_Some in Hj as [_ Hj]. by apply (h_results _ _ _ Hh j).
    + apply Forall_app. split; [apply Hh|]. by constructor.
  - unfold potential, current. simpl. rewrite Hl, Hr.
    assert (Hn : delete (round (server s)) (results (server s)) !! S (round (server s)) = None).
    { rewrite lookup_delete_ne by lia. destruct (results (server s) !! S (round (server s))) as [r|] eqn:Hx; [|done].
      apply Hle in Hx. lia. }
    rewrite Hn. pose proof (bal_consumed _ _ (h_balanced _ _ _ Hh)). simpl. lia.
Qed.

Lemma healthy_step n l s e s' : healthy n l s -> regular e -> session_step e s = Some s' ->
  healthy n (l ++ server_action s e) s' /\ (potential s' < potential s)%nat.
Proof.
  intros Hh He Hs. destruct e as [i|i|i|i|i eof| |a]; try done;
    [by eapply healthy_send|by eapply healthy_sent|by eapply healthy_call|by eapply healthy_recv|].
  apply session_step_act in Hs as [Hcl Hs].
  simpl in Hs. destruct (server_side a) eqn:Ha; [|done]. destruct (step a (server s)) as [st|] eqn:Hst; [|done].
  simplify_eq. destruct a as [| | | |k r|[| |]|]; try done; [by apply healthy_begin| |by apply healthy_take].
  destruct r; try done. by apply healthy_receive.
Qed.

Lemma healthy_uncontended n l s : healthy n l s -> contended (server s) = false.
Proof.
  intros Hh. destruct (contended (server s)) eqn:Hc; [|done]. apply (accounted_contended _ _ (healthy_accounted _ _ _ Hh)) in Hc.
  rewrite (h_timeouts _ _ _ Hh) in Hc. lia.
Qed.

Lemma unfinished_someone gs : forallb finished gs = false -> exists i g, gs !! i = Some g /\ finished g = false.
Proof.
  induction gs as [|g gs IH]; [done|]. simpl. intros Hf. destruct (finished g) eqn:Hg; [|by exists 0%nat, g].
  destruct (IH Hf) as (i & g' & Hi & Hg'). by exists (S i), g'.
Qed.

(** The server can go on unless it waits for a message. *)
Lemma healthy_server_progress n l s : healthy n l s -> clashing s = false ->
  (exists e s', regular e /\ session_step e s = Some s' /\ goroutines s' = goroutines s) \/
  (loop (server s) = Waiting /\ results (server s) !! round (server s) = None /\ inbox (server s) = []).
Proof.
  intros Hh Hcl. pose proof (healthy_accounted _ _ _ Hh) as Hacc. pose proof (h_alive _ _ _ Hh) as Ha.
  pose proof (healthy_uncontended _ _ _ Hh) as Hct.
  assert (Hgo : forall a st, act a (server s) = Some st -> server_side a = true -> regular (Server a) ->
    exists e s', regular e /\ session_step e s = Some s' /\ goroutines s' = goroutines s).
  { intros a st Hst Hside Hreg. exists (Server a). unfold session_step. rewrite Hcl. simpl. rewrite Hside. unfold step.
    rewrite Hct, Hst. by eexists. }
  destruct (loop (server s)) eqn:Hl; try (unfold alive in Ha; rewrite Hl in Ha; done).
  { left. apply (Hgo Begin (set_loop Waiting {| inbox := inbox (server s); clientClosed := clientClosed (server s);
      ctxDone := ctxDone (server s); round := round (server s); loop := Waiting;
      receivers := {[round (server s)]} ∪ receivers (server s); results := results (server s); responses := responses (server s) |}));
      [|done|done]. simpl. unfold begin_round. by rewrite Hl, (h_ctx _ _ _ Hh). }
  destruct (results (server s) !! round (server s)) as [r|] eqn:Hr.
  { left. destruct (h_results _ _ _ Hh _ _ Hr) as (d & -> & Hok). eapply (Hgo (Take SendOk)); [|done|done].
    simpl. unfold take_result. by rewrite Hl, Hr, Hok. }
  destruct (acc_waiting _ _ Hacc Hl) as [Hk|[r Hk]]; [|congruence].
  destruct (inbox (server s)) as [|d rest] eqn:Hin; [by right|left].
  eapply (Hgo (Receive (round (server s)) (Message d))); [|done|done]. simpl. unfold receive.
  rewrite bool_decide_eq_true_2, Ha, Hin by done. simpl. by rewrite bool_decide_eq_true_2.
Qed.

Lemma calling_insert p i g g' gs : gs !! i = Some g ->
  (calling p (<[i := g']> gs) + Nat.b2n (bool_decide (at_ g = p)) = calling p gs + Nat.b2n (bool_decide (at_ g' = p)))%nat.
Proof. apply (sum_list_with_insert (fun g => Nat.b2n (bool_decide (at_ g = p)))). Qed.

Lemma calling_someone p gs : (0 < calling p gs)%nat -> exists i g, gs !! i = Some g /\ at_ g = p.
Proof. intros (i & g & Hi & Hb)%sum_positive. exists i, g. split; [done|]. case_bool_decide; [done|simpl in Hb; lia]. Qed.

Lemma calling_no_one p gs i g : calling p gs = 0%nat -> gs !! i = Some g -> at_ g <> p.
Proof.
  unfold calling. revert i. induction gs as [|g' gs IH]; intros [|i] Hc Hi Hg; simplify_eq/=.
  - by rewrite bool_decide_eq_true_2 in Hc.
  - apply (IH i); [lia|done|done].
Qed.

Definition in_turn (gs : list goroutine) : Prop := (calling Sending gs <= 1 /\ calling Receiving gs <= 1)%nat.

Lemma clashing_turn s : clashing s = false <-> in_turn (goroutines s).
Proof. unfold clashing, in_turn. rewrite orb_false_iff, !Nat.ltb_ge. lia. Qed.

(** When the server waits for a message, some goroutine can go on, in turn: the
    one in a call, else one that has sent, else one that has a metric to send. *)
Lemma healthy_goroutine_progress n l s : healthy n l s -> clashing s = false -> forallb finished (goroutines s) = false ->
  results (server s) !! round (server s) = None -> inbox (server s) = [] ->
  exists e s', regular e /\ session_step e s = Some s' /\ in_turn (goroutines s').
Proof.
  intros Hh Hcl Hf Hr Hin. pose proof Hcl as [Hs1 Hs2]%clashing_turn. pose proof (healthy_accounted _ _ _ Hh) as Hacc.
  pose proof (h_alive _ _ _ Hh) as Ha.
  pose proof (healthy_uncontended _ _ _ Hh) as Hct.
  assert (Hmove : forall e i t p t' p' k st, regular e -> goroutines s !! i = Some {| todo := t; at_ := p |} ->
    session_act e s = Some (set_goroutine i {| todo := t'; at_ := p' |} k st s) ->
    (p' = Sending -> calling Sending (goroutines s) = 0%nat) -> (p' = Receiving -> calling Receiving (goroutines s) = 0%nat) ->
    exists e s', regular e /\ session_step e s = Some s' /\ in_turn (goroutines s')).
  { intros e i t p t' p' k st He Hi Hs Hp1 Hp2. exists e. eexists. split; [done|]. split; [unfold session_step; by rewrite Hcl|].
    simpl. pose proof (calling_insert Sending i _ {| todo := t'; at_ := p' |} _ Hi) as H1.
    pose proof (calling_insert Receiving i _ {| todo := t'; at_ := p' |} _ Hi) as H2. simpl in H1, H2.
    split; destruct p'; simpl in H1, H2; try specialize (Hp1 eq_refl); try specialize (Hp2 eq_refl); lia. }
  assert (Hm : forall i t p, goroutines s !! i = Some {| todo := t; at_ := p |} -> p <> Ready -> exists m rest, t = m :: rest).
  { intros i t p Hi Hp. pose proof (Forall_lookup_1 _ _ _ _ (bal_todo _ _ (h_balanced _ _ _ Hh)) Hi Hp) as Ht. simpl in Ht.
    destruct t as [|m rest]; [done|eauto]. }
  destruct (decide (0 < calling Sending (goroutines s))%nat) as [(i & [t p] & Hi & Hp)%calling_someone|Hno1].
  { simpl in Hp. subst p. destruct (Hm _ _ _ Hi) as (m & rest & ->); [done|].
    eapply (Hmove (GSent i) i _ _ _ Sent); [done|exact Hi| |done|done]. simpl. rewrite Hi. unfold step. rewrite Hct. simpl.
    by rewrite (h_open _ _ _ Hh). }
  destruct (decide (0 < calling Receiving (goroutines s))%nat) as [(i & [t p] & Hi & Hp)%calling_someone|Hno2].
  { simpl in Hp. subst p. destruct (Hm _ _ _ Hi) as (m & rest & ->); [done|].
    eapply (Hmove (GRecv i) i _ _ _ Ready); [done|exact Hi| |done|done]. simpl. rewrite Hi.
    pose proof (balanced_lost _ _ (h_balanced _ _ _ Hh) Ha) as Hlost.
    pose proof (lost_bounded _ _ Hacc) as Hb. rewrite (h_timeouts _ _ _ Hh) in Hb.
    pose proof (count_awaiting_insert i _ {| todo := rest; at_ := Ready |} _ Hi) as Hsum.
    unfold current in Hlost. rewrite Hr, Hin in Hlost. simpl in *.
    by rewrite (proj2 (Nat.ltb_lt _ _)) by lia. }
  destruct (decide (0 < calling Sent (goroutines s))%nat) as [(i & [t p] & Hi & Hp)%calling_someone|Hno3].
  { simpl in Hp. subst p. destruct (Hm _ _ _ Hi) as (m & rest & ->); [done|].
    eapply (Hmove (GCall i) i _ _ _ Receiving); [done|exact Hi|simpl; by rewrite Hi|done|intros; lia]. }
  destruct (unfinished_someone _ Hf) as (i & [t p] & Hi & Hg).
  assert (Hp : p = Ready).
  { pose proof (fun q Hq => calling_no_one q _ _ _ Hq Hi) as Hno. simpl in Hno.
    destruct p; [done|destruct (Hno Sending); [lia|done]|destruct (Hno Sent); [lia|done]|destruct (Hno Receiving); [lia|done]]. }
  subst p. destruct t as [|m rest]; [done|].
  eapply (Hmove (GSend i) i _ _ _ Sending); [done|exact Hi|simpl; by rewrite Hi|intros; lia|done].
Qed.

Lemma healthy_progress n l s : healthy n l s -> clashing s = false -> forallb finished (goroutines s) = false ->
  exists e s', regular e /\ session_step e s = Some s' /\ clashing s' = false.
Proof.
  intros Hh Hcl Hf. destruct (healthy_server_progress _ _ _ Hh Hcl) as [(e & s' & He & Hs & Hg)|(Hl & Hr & Hin)].
  - exists e, s'. split; [done|]. split; [done|]. apply clashing_turn. rewrite Hg. by apply clashing_turn.
  - destruct (healthy_goroutine_progress _ _ _ Hh Hcl Hf Hr Hin) as (e & s' & He & Hs & Ht).
    exists e, s'. split; [done|]. split; [done|]. by apply clashing_turn.
Qed.

Lemma healthy_exec n l es s s' : healthy n l s -> Forall regular es -> session_exec es s = Some s' ->
  exists l', healthy n (l ++ l') s' /\ (length es + potential s' <= potential s)%nat.
Proof.
  revert l s. induction es as [|e es IH]; intros l s Hh Hr; simpl.
  - intros [= <-]. exists []. rewrite app_nil_r. by split; [|lia].
  - inversion Hr as [|? ? He Hr']; subst. destruct (session_step e s) as [s1|] eqn:Hs; [|done]. intros Hx.
    destruct (healthy_step _ _ _ _ _ Hh He Hs) as [Hh1 Hp]. destruct (IH _ _ Hh1 Hr' Hx) as (l' & Hl' & Hp').
    exists (server_action s e ++ l'). rewrite app_assoc. split; [done|lia].
Qed.

Lemma healthy_completes n l s : healthy n l s -> clashing s = false ->
  exists es s' l', Forall regular es /\ session_exec es s = Some s' /\ healthy n l' s' /\ forallb finished (goroutines s') = true.
Proof.
  remember (potential s) as p eqn:Hp. revert l s Hp. induction (lt_wf p) as [p _ IH]. intros l s -> Hh Hcl.
  destruct (forallb finished (goroutines s)) eqn:Hf; [by exists [], s, l|].
  destruct (healthy_progress _ _ _ Hh Hcl Hf) as (e & s1 & He & Hs & Hcl1). destruct (healthy_step _ _ _ _ _ Hh He Hs) as [Hh1 Hlt].
  destruct (IH _ Hlt _ _ eq_refl Hh1 Hcl1) as (es & s' & l' & Hes & Hx & Hh' & Hf').
  exists (e :: es), s', l'. split; [by constructor|]. simpl. by rewrite Hs.
Qed.

Lemma finished_counts gs : forallb finished gs = true -> count_todo gs = 0%nat /\ count_awaiting gs = 0%nat.
Proof.
  induction gs as [|[[|m t] []] gs IH]; done.
Qed.

Lemma healthy_finished n l s : healthy n l s -> forallb finished (goroutines s) = true ->
  consumed s = n /\ responses (server s) = replicate n success.
Proof.
  intros Hh Hf. destruct (finished_counts _ Hf) as [Ht Hw].
  pose proof (h_count _ _ _ Hh). pose proof (balanced_lost _ _ (h_balanced _ _ _ Hh) (h_alive _ _ _ Hh)).
  pose proof (bal_consumed _ _ (h_balanced _ _ _ Hh)). split; [lia|].
  replace n with (length (responses (server s))) by lia.
  pose proof (h_responses _ _ _ Hh) as Hr. clear -Hr. induction Hr as [|r rs -> Hr IH]; [done|]. simpl. by f_equal.
Qed.

Lemma count_todo_batches (bs : list (list MetricPoint)) :
  count_todo ((fun b => {| todo := b; at_ := Ready |}) <$> bs) = length (concat bs).
Proof. induction bs as [|b bs IH]; [done|]. simpl. rewrite length_app, <-IH. done. Qed.

Lemma healthy_start metrics : Forall accepted metrics -> healthy (length metrics) [] (start_session metrics).
Proof.
  intros Hm. split; simpl; try done.
  - apply balanced_start.
  - apply Forall_fmap, Forall_forall. intros b Hb. simpl. apply Forall_forall. intros m Hin.
    rewrite Forall_forall in Hm. apply Hm. rewrite <-(concat_batches metrics). apply list_elem_of_In, in_concat.
    exists b. split; by apply list_elem_of_In.
  - by rewrite count_todo_batches, concat_batches, Nat.add_0_r.
Qed.

Lemma potential_start metrics : potential (start_session metrics) = (7 * length metrics + 1)%nat.
Proof.
  unfold potential, start_session, current. simpl. rewrite lookup_empty. simpl.
  assert (H : forall bs, let gs := (fun b => {| todo := b; at_ := Ready |}) <$> bs in
    sum_list_with steps_left gs = (4 * length (concat bs))%nat /\ sum_list_with unsent gs = length (concat bs)).
  { induction bs as [|b bs [IH1 IH2]]; [done|]. rewrite fmap_cons. cbn [concat sum_list_with]. rewrite length_app, IH1, IH2.
    unfold steps_left, unsent. simpl. lia. }
  destruct (H (batches metrics)) as [-> ->]. rewrite concat_batches. lia.
Qed.

End healthy.

(** ** Properties *)

Section properties.
Context {E : Easyproto} {L : EasyprotoLaws} {MR : MapRange}.

Lemma start_batches (b1 b2 : list MetricPoint) bs metrics : batches metrics = b1 :: b2 :: bs -> exists m1 r1 m2 r2,
  b1 = m1 :: r1 /\ b2 = m2 :: r2.
Proof.
  intros Hb. destruct (batch_loop_spec (length metrics) 0 metrics ltac:(lia)) as [_ Hl]. fold (batches metrics) in Hl.
  rewrite Hb in Hl. apply Forall_cons in Hl as [H1 Hl]. apply Forall_cons in Hl as [H2 _].
  destruct b1 as [|m1 r1]; [simpl in H1; lia|]. destruct b2 as [|m2 r2]; [simpl in H2; lia|]. by exists m1, r1, m2, r2.
Qed.

(** More than one batch: the first two goroutines can be in [SendMsg] at once. *)
Lemma start_clashes metrics : (batchSize < length metrics)%nat ->
  exists s, session_exec [GSend 0; GSend 1] (start_session metrics) = Some s /\ clashing s = true.
Proof.
  intros Hl. destruct (batch_loop_spec (length metrics) 0 metrics ltac:(lia)) as [Hc Hb]. fold (batches metrics) in *.
  change (drop 0 metrics) with metrics in Hc.
  destruct (batches metrics) as [|b1 [|b2 bs]] eqn:Eb.
  - rewrite <-Hc in Hl. simpl in Hl. lia.
  - apply Forall_cons in Hb as [Hb _]. rewrite <-Hc in Hl. simpl in Hl. rewrite app_nil_r in Hl. lia.
  - destruct (start_batches _ _ _ _ Eb) as (m1 & r1 & m2 & r2 & -> & ->).
    set (s0 := start_session metrics). assert (Hg : goroutines s0 = {| todo := m1 :: r1; at_ := Ready |} :: {| todo := m2 :: r2; at_ := Ready |} ::
      ((fun b => {| todo := b; at_ := Ready |}) <$> bs)) by (unfold s0, start_session; cbn [goroutines]; by rewrite Eb).
    assert (Hidle : forall p, p <> Ready -> calling p ((fun b => {| todo := b; at_ := Ready |}) <$> bs) = 0%nat).
    { intros p Hp. clear -Hp. induction bs as [|b bs IH]; [done|]. rewrite fmap_cons. unfold calling in *. cbn [sum_list_with at_].
      rewrite IH. by rewrite bool_decide_eq_false_2. }
    assert (Hcalm : forall s g1 g2, goroutines s = g1 :: g2 :: ((fun b => {| todo := b; at_ := Ready |}) <$> bs) ->
      calling Sending (goroutines s) = (Nat.b2n (bool_decide (at_ g1 = Sending)) + Nat.b2n (bool_decide (at_ g2 = Sending)))%nat /\
      calling Receiving (goroutines s) = (Nat.b2n (bool_decide (at_ g1 = Receiving)) + Nat.b2n (bool_decide (at_ g2 = Receiving)))%nat).
    { intros s g1 g2 Hs. rewrite Hs. pose proof (Hidle Sending ltac:(done)). pose proof (Hidle Receiving ltac:(done)).
      unfold calling in *. cbn [sum_list_with]. lia. }
    set (s1 := set_goroutine 0 {| todo := m1 :: r1; at_ := Sending |} (consumed s0) (server s0) s0).
    assert (Hg1 : goroutines s1 = {| todo := m1 :: r1; at_ := Sending |} :: {| todo := m2 :: r2; at_ := Ready |} ::
      ((fun b => {| todo := b; at_ := Ready |}) <$> bs)) by (unfold s1, set_goroutine; cbn [goroutines]; by rewrite Hg).
    set (s2 := set_goroutine 1 {| todo := m2 :: r2; at_ := Sending |} (consumed s1) (server s1) s1).
    assert (Hg2 : goroutines s2 = {| todo := m1 :: r1; at_ := Sending |} :: {| todo := m2 :: r2; at_ := Sending |} ::
      ((fun b => {| todo := b; at_ := Ready |}) <$> bs)) by (unfold s2, set_goroutine; cbn [goroutines]; by rewrite Hg1).
    destruct (Hcalm _ _ _ Hg) as [C1 C2], (Hcalm _ _ _ Hg1) as [D1 D2], (Hcalm _ _ _ Hg2) as [F1 _].
    assert (H0 : session_step (GSend 0) s0 = Some s1) by (unfold session_step, clashing, session_act; rewrite C1, C2, Hg; reflexivity).
    assert (H1 : session_step (GSend 1) s1 = Some s2) by (unfold session_step, clashing, session_act; rewrite D1, D2, Hg1; reflexivity).
    exists s2. cbn [session_exec]. rewrite H0, H1. split; [done|]. unfold clashing. by rewrite F1.
Qed.

(** C12: a session of the client with the metrics it generates, on which no call
    fails and no read takes five seconds.  Its goroutines share the stream without
    any exclusion, so two of them can be in [SendMsg] of it at once, which gRPC
    documents as unsafe: what is said of the rest is of the runs that have not got
    there.  Such a run takes at most seven steps for each metric and one more,
    and wherever it has got, the goroutines can go on in turn until all are done,
    without two in the same call; then each metric has been answered and
    received, and every answer is a success. *)
Theorem metrics_session_completes `{G : GlobalRand} clock r :
  let metrics := generate_metrics clock r in
  (exists s, session_exec [GSend 0; GSend 1] (start_session metrics) = Some s /\ clashing s = true) /\
  forall es s, Forall regular es -> session_exec es (start_session metrics) = Some s -> 
    (length es <= 7 * length metrics + 1)%nat /\
    (clashing s = false ->
     exists es' s', Forall regular es' /\ session_exec es' s = Some s' /\ forallb finished (goroutines s') = true /\
       consumed s' = length metrics /\ responses (server s') = replicate (length metrics) success).
Proof.
  intros metrics. destruct (generate_metrics_spec clock r) as [Hacc Hlen]. fold metrics in Hacc, Hlen.
  split; [apply start_clashes; unfold batchSize; lia|]. intros es s Hr Hx. pose proof (healthy_start metrics Hacc) as Hh.
  destruct (healthy_exec _ _ _ _ _ Hh Hr Hx) as (l & Hl & Hp). rewrite potential_start in Hp. split; [lia|]. intros Hcl.
  destruct (healthy_completes _ _ _ Hl Hcl) as (es' & s' & l' & Hes & Hx' & Hh' & Hf).
  destruct (healthy_finished _ _ _ Hh' Hf). by exists es', s'.
Qed.

(** The misuse on its own: with more metrics than a batch holds, nothing keeps
    the first two goroutines out of [SendMsg] at the same time. *)
Theorem goroutines_clash metrics : (batchSize < length metrics)%nat ->
  exists s, session_exec [GSend 0; GSend 1] (start_session metrics) = Some s /\ clashing s = true.
Proof. apply start_clashes. Qed.

(** Once a message has been lost to a timed-out read, the client never
    finishes on that stream: whatever happens but a failing call, as long as the
    server's loop runs some goroutine waits for a response, so [wg.Wait] does
    not return. *)
Theorem lost_message_blocks_client metrics es es' s s' :
  calls_succeed es -> session_exec es (start_session metrics) = Some s ->
  alive (server s) = true -> (0 < lost (server s))%nat ->
  calls_succeed es' -> session_exec es' s = Some s' -> alive (server s') = true ->
  (exists i g, goroutines s' !! i = Some g /\ awaiting g = true) /\ session_act Wait s' = None.
Proof.
  intros Hc Hx Ha Hl Hc' Hx' Ha'.
  destruct (balanced_exec _ _ _ _ (balanced_start metrics) Hc Hx) as [l Hb].
  destruct (balanced_exec _ _ _ _ Hb Hc' Hx') as [l' Hb'].
  pose proof (bal_server _ _ Hb) as He. pose proof (bal_server _ _ Hb') as He'. rewrite stream_exec_app, He in He'.
  pose proof (lost_exec _ _ _ _ He Ha Hl He'). pose proof (balanced_lost _ _ Hb' Ha').
  destruct (awaiting_someone (goroutines s')) as (i & g & Hi & Hg); [lia|].
  split; [by exists i, g|by eapply unfinished_blocks].
Qed.

(** The goroutines of main partition the metrics, in order, into batches of
    one to five. *)
Theorem client_batches metrics :
  concat (todo <$> goroutines (start_session metrics)) = metrics /\
  Forall (fun g => at_ g = Ready /\ (1 <= length (todo g) <= batchSize)%nat) (goroutines (start_session metrics)).
Proof.
  destruct (batch_loop_spec (length metrics) 0 metrics ltac:(lia)) as [Hc Hb]. split.
  - simpl. rewrite <-list_fmap_compose. etrans; [|exact Hc]. f_equal. apply (list_fmap_id (batches metrics)).
  - simpl. apply Forall_fmap. eapply Forall_impl; [exact Hb|]. simpl. intros b ?. split; [done|lia].
Qed.

End properties.

(** ** Witnesses *)

(** [Float32] as a simple metric needs it, and as a complex one. *)
Definition walk_float32 (r : Z) : spec_float :=
  if Z.even r then S754_zero false else SFdiv 24 128 (binary_normalize 24 128 9 0 false) (binary_normalize 24 128 10 0 false).

#[export] Instance walk_global : @GlobalRand walk.
Proof.
  refine {| Int63n n (r : @rng walk) := (Z.modulo r n, r + 1 : @rng walk);
            Float32 (r : @rng walk) := (walk_float32 r, r + 1 : @rng walk) |}.
  intros n r Hn. simpl. by apply Z.mod_pos_bound.
Defined.

Definition walk_clock (n : nat) : time := 1000 + Z.of_nat n.

(** The first goroutine's first metric, answered. *)
Definition first_answer (metrics : list MetricPoint) : list event :=
  match metrics with
  | m :: _ => let d := @marshalMetricPoint protobuf_wire canonical_range m in
      [Server Begin; GSend 0; GSent 0; GCall 0; Server (Receive 0 (Message d)); GSend 1; Server (Take SendOk); GRecv 0]
  | [] => []
  end.

Definition walk_metrics : list MetricPoint := @generate_metrics walk walk_global walk_clock (3 : @rng walk).

Lemma first_answer_regular metrics : Forall regular (first_answer metrics).
Proof. destruct metrics; repeat constructor. Qed.

Lemma first_answer_runs : exists s,
  @session_exec protobuf_wire canonical_range (first_answer walk_metrics) (start_session walk_metrics) = Some s /\
  negb (forallb finished (goroutines s)) && negb (clashing s) = true.
Proof. apply computed. vm_compute. done. Qed.

#[local] Opaque walk_metrics first_answer.

Lemma metrics_session_completes_witness : exists s es' s',
  @session_exec protobuf_wire canonical_range (first_answer walk_metrics) (start_session walk_metrics) = Some s /\
  (length (first_answer walk_metrics) <= 7 * length walk_metrics + 1)%nat /\
  @session_exec protobuf_wire canonical_range es' s = Some s' /\ consumed s' = length walk_metrics.
Proof.
  destruct first_answer_runs as (s & Hx & [_ Hcl]%andb_true_iff).
  destruct (@metrics_session_completes protobuf_wire protobuf_wire_laws canonical_range walk walk_global walk_clock 3) as [_ H].
  destruct (H _ s (first_answer_regular _) Hx) as (H1 & H2).
  destruct H2 as (es' & s' & _ & H3 & _ & H4 & _); [apply negb_true_iff; exact Hcl|].
  exists s, es', s'. split; [exact Hx|]. split; [exact H1|]. split; [exact H3|exact H4].
Defined.

Lemma goroutines_clash_witness : exists s,
  @session_exec protobuf_wire canonical_range [GSend 0; GSend 1] (start_session (replicate 6 example_point)) = Some s /\ clashing s = true.
Proof. apply (@goroutines_clash protobuf_wire canonical_range). simpl. unfold batchSize. lia. Defined.

(** The first read times out, and its goroutine gets the first metric before the
    next one starts. *)
Definition late_session : list event :=
  let d := @marshalMetricPoint protobuf_wire canonical_range example_point in
  [Server Begin; Server Timeout; GSend 0; GSent 0; Server (Receive 0 (Message d)); Server Begin].

Lemma late_session_succeeds : calls_succeed late_session.
Proof. repeat constructor. Qed.

Lemma late_session_runs : exists s,
  @session_exec protobuf_wire canonical_range late_session (start_session [example_point; example_point]) = Some s /\
  alive (server s) && bool_decide (0 < lost (server s))%nat = true.
Proof. apply computed. vm_compute. done. Qed.

#[local] Opaque late_session.

Lemma lost_message_blocks_client_witness : exists s,
  @session_exec protobuf_wire canonical_range late_session (start_session [example_point; example_point]) = Some s /\
  @session_act protobuf_wire canonical_range Wait s = None.
Proof.
  destruct late_session_runs as (s & Hx & H). exists s. split; [exact Hx|].
  apply andb_true_iff in H as [Ha Hl%bool_decide_eq_true].
  refine (proj2 (@lost_message_blocks_client protobuf_wire canonical_range _ late_session [] s s _ Hx Ha Hl _ eq_refl Ha)).
  - apply late_session_succeeds.
  - constructor.
Defined.
