(* ===== verification/MetricsHTTP.v ===== *)
(** * The HTTP API of the metrics prototype (ARCHIVE/Jul252026/internal/httpapi)

    [SendMetrics] posts a batch as a JSON document, [HandleBatchMetrics] decodes
    and logs it.  The structs have no tags, so their members carry the names of
    the Go fields.  An empty slice is taken to be nil, as those of the program
    are.  The network, and whether a URL parses, are parameters. *)

From Stdlib Require Import Ascii SpecFloat.
From S2P Require Import Prelude GoStrings Json Wire Metrics Web.

(** ** The JSON of a metric *)

Definition enc_opt {A} (enc : A -> json) (o : option A) : json :=
  match o with Some a => enc a | None => JNull end.
Definition enc_array (l : list json) : json := match l with [] => JNull | _ => JArr l end.

Fixpoint enc_value (v : Value) : result json :=
  match v with
  | {| vType := t; IntVal := i; FloatVal := f; StringVal := s; ListVal := l |} =>
      x ← match f with Some f => enc_float f | None => Ok JNull end;
      js ← (fix go (l : list Value) : result (list json) :=
              match l with [] => Ok [] | v :: l => j ← enc_value v; js ← go l; Ok (j :: js) end) l;
      Ok (JObj [("Type", JInt t); ("IntVal", enc_opt JInt i); ("FloatVal", x);
                ("StringVal", enc_opt enc_str s); ("ListVal", enc_array js)])
  end.

Definition enc_label (l : Label) : json := JObj [("Name", enc_str (lName l)); ("Value", enc_str (lValue l))].

Fixpoint enc_all {A} (enc : A -> result json) (l : list A) : result (list json) :=
  match l with [] => Ok [] | x :: l => j ← enc x; js ← enc_all enc l; Ok (j :: js) end.

(** Map keys in byte order. *)
Fixpoint enc_members (l : list (string * Value)) : result (list (string * json)) :=
  match l with
  | [] => Ok []
  | (k, v) :: l => j ← enc_value v; js ← enc_members l; Ok ((utf8_coerce k, j) :: js)
  end.
Definition enc_items (m : gmap string Value) : result json :=
  js ← enc_members (merge_sort entry_le (map_to_list m)); Ok (JObj js).

Definition enc_keyvalue (kv : KeyValue) : result json := js ← enc_items (Items kv); Ok (JObj [("Items", js)]).

Definition enc_point (mp : MetricPoint) : result json :=
  x ← enc_float (mValue mp);
  ps ← match Properties mp with Some kv => enc_keyvalue kv | None => Ok JNull end;
  Ok (JObj [("Timestamp", JInt (Timestamp mp)); ("Value", x); ("IsNull", JBool (IsNull mp));
            ("Labels", enc_array (enc_label <$> Labels mp)); ("Properties", ps)]).

(** [HTTPMetricRequest] *)
Definition enc_request (metrics : list MetricPoint) : result json :=
  js ← enc_all enc_point metrics; Ok (JObj [("metrics", enc_array js)]).

(** ** Reading it back *)

Definition dec_int32 (j : json) : result Z :=
  match j with
  | JInt z => if bool_decide (int32_min <= z <= int32_max) then Ok z else type_error
  | _ => type_error
  end.

(** A member among results of decoding: the last that matches. *)
Fixpoint last_member {A} (name : string) (l : list (string * A)) : option A :=
  match l with
  | [] => None
  | (k, a) :: l =>
      match last_member name l with
      | Some b => Some b
      | None => if bool_decide (str_lower k = str_lower name) then Some a else None
      end
  end.

(** The elements of an array; [null] leaves the zero value. *)
Fixpoint dec_all {A} (zero : A) (dec : json -> result A) (l : list json) : result (list A) :=
  match l with
  | [] => Ok []
  | j :: l => x ← match j with JNull => Ok zero | _ => dec j end; xs ← dec_all zero dec l; Ok (x :: xs)
  end.
Definition dec_slice {A} (zero : A) (dec : json -> result A) (j : json) : result (list A) :=
  match j with JArr l => dec_all zero dec l | JNull => Ok [] | _ => type_error end.

Fixpoint dec_value (j : json) : result Value :=
  match j with
  | JObj fields =>
      let lists := (fix members (fields : list (string * json)) : list (string * result (list Value)) :=
        match fields with
        | [] => []
        | (k, j) :: fields =>
            (k, match j with
                | JArr l =>
                    (fix items (l : list json) : result (list Value) :=
                       match l with
                       | [] => Ok []
                       | j :: l => x ← match j with JNull => Ok zero_Value | _ => dec_value j end; xs ← items l; Ok (x :: xs)
                       end) l
                | JNull => Ok []
                | _ => type_error
                end) :: members fields
        end) fields in
      t ← dec_field 0 dec_int32 "Type" fields;
      i ← dec_field None (fun j => Some <$> dec_int j) "IntVal" fields;
      f ← dec_field None (fun j => Some <$> dec_float j) "FloatVal" fields;
      s ← dec_field None (fun j => Some <$> dec_str j) "StringVal" fields;
      l ← default (Ok []) (last_member "ListVal" lists);
      Ok {| vType := t; IntVal := i; FloatVal := f; StringVal := s; ListVal := l |}
  | _ => type_error
  end.

Definition dec_label (j : json) : result Label :=
  fs ← dec_obj (Doc j);
  n ← dec_field "" dec_str "Name" fs;
  v ← dec_field "" dec_str "Value" fs;
  Ok {| lName := n; lValue := v |}.

Fixpoint dec_members (fields : list (string * json)) (m : gmap string Value) : result (gmap string Value) :=
  match fields with
  | [] => Ok m
  | (k, j) :: fields =>
      v ← match j with JNull => Ok zero_Value | _ => dec_value j end;
      dec_members fields (<[k := v]> m)
  end.

Definition dec_keyvalue (j : json) : result KeyValue :=
  fs ← dec_obj (Doc j);
  m ← dec_field ∅ (fun j => ms ← dec_obj (Doc j); dec_members ms ∅) "Items" fs;
  Ok {| Items := m |}.

Definition zero_point : MetricPoint :=
  {| Timestamp := 0; mValue := f64_zero; IsNull := false; Labels := []; Properties := None |}.

Definition dec_point (j : json) : result MetricPoint :=
  fs ← dec_obj (Doc j);
  ts ← dec_field 0 dec_int "Timestamp" fs;
  x ← dec_field f64_zero dec_float "Value" fs;
  nl ← dec_field false dec_bool "IsNull" fs;
  ls ← dec_field [] (dec_slice {| lName := ""; lValue := "" |} dec_label) "Labels" fs;
  ps ← dec_field None (fun j => Some <$> dec_keyvalue j) "Properties" fs;
  Ok {| Timestamp := ts; mValue := x; IsNull := nl; Labels := ls; Properties := ps |}.

Definition dec_request (body : value) : result (list MetricPoint) :=
  fs ← dec_obj body;
  dec_field [] (dec_slice zero_point dec_point) "metrics" fs.

(** ** internal/httpapi/types.go *)

Record HTTPMetricResponse := { Success : bool; respError : string }.

Definition enc_response (v : HTTPMetricResponse) : json :=
  JObj ([("success", JBool (Success v))] ++ omit_if (bool_decide (respError v = "")) "error" (enc_str (respError v))).

Definition dec_response (body : value) : result HTTPMetricResponse :=
  fs ← dec_obj body;
  s ← dec_field false dec_bool "success" fs;
  e ← dec_field "" dec_str "error" fs;
  Ok {| Success := s; respError := e |}.

Section api.

(** Whether the connection takes the body.  When it does not, [http.Error]
    changes nothing that is still to be sent. *)
Variable wire : bool.

Definition writeJSONResponse {P} (status : Z) (v : HTTPMetricResponse) (w : Response P) : Response P :=
  let w := write_header status (set_header "Content-Type" "application/json" w) in
  if wire then write_chunk (JsonBody (enc_response v)) w else write_failed w.

Definition writeJSONError {P} (status : Z) (message : string) (w : Response P) : Response P :=
  writeJSONResponse status {| Success := false; respError := message |} w.

(** ** internal/httpapi/service.go *)

(** The lines of the log. *)
Inductive log_line :=
  | LogMetric (timestamp : Z) (value : float64) (isNull : bool)
  | LogLabel (name value : string)
  | LogCount (n : nat).

Variable clock : nat -> time.

(** The loop over the metrics; [n] counts the readings of the clock.  The
    timestamp is assigned to the loop's copy. *)
Fixpoint log_metrics (n : nat) (metrics : list MetricPoint) : list log_line :=
  match metrics with
  | [] => []
  | metric :: metrics =>
      let '(ts, n) := if Timestamp metric =? 0 then (unix_nano (clock n), S n) else (Timestamp metric, n) in
      LogMetric ts (mValue metric) (IsNull metric) ::
      ((fun l => LogLabel (lName l) (lValue l)) <$> Labels metric) ++
      match Properties metric with Some kv => [LogCount (size (Items kv))] | None => [] end ++
      log_metrics n metrics
  end.

Definition HandleBatchMetrics {P} (method : string) (body : value) (w : Response P) : Response P * list log_line :=
  if negb (bool_decide (method = "POST")) then (writeJSONError 405 "method not allowed" w, []) else
  match dec_request body with
  | Err _ => (writeJSONError 400 "invalid request format" w, [])
  | Ok [] => (writeJSONError 400 "no metrics provided" w, [])
  | Ok metrics => (writeJSONResponse 200 {| Success := true; respError := "" |} w, log_metrics 0 metrics)
  end.

End api.

(** ** internal/httpapi/client.go *)

Section client.

(** [http.NewRequestWithContext] on a URL, and [httpClient.Do] on method, URL
    and body: the body of the response. *)
Variable new_request : string -> option error.
Variable do_request : string -> string -> value -> result value.

Definition SendMetrics (baseURL : string) (metrics : list MetricPoint) : option error :=
  match enc_request metrics with
  | Err e => Some (Wrap "failed to marshal request: " e)
  | Ok bodyBytes =>
      let url := baseURL +:+ "/metrics/v1/batch" in
      match new_request url with
      | Some e => Some (Wrap "failed to create request: " e)
      | None =>
          match do_request "POST" url (Doc bodyBytes) with
          | Err e => Some (Wrap "failed to send request: " e)
          | Ok body =>
              match dec_response body with
              | Err e => Some (Wrap "failed to decode response: " e)
              | Ok response => if Success response then None else Some (Errorf ("server error: " +:+ respError response))
              end
          end
      end
  end.

End client.

(** The body of a response, as the client's decoder reads it. *)
Definition body_of {P} (w : Response P) : value :=
  match rOut w with JsonBody j :: _ => Doc j | _ => Raw "" end.

(** The server's mux (internal/server/main.go, main) behind a network that
    works; other paths get the mux's 404. *)
Definition serve (clock : nat -> time) (baseURL method url : string) (body : value) : result value :=
  if bool_decide (url = baseURL +:+ "/metrics/v1/batch")
  then Ok (body_of (HandleBatchMetrics (P := unit) true clock method body no_response).1)
  else Ok (Raw "404 page not found").

(** ** What is encoded *)

Definition unsupported : error := Errorf "json: unsupported value".

Fixpoint value_finite (v : Value) : bool :=
  match v with {| FloatVal := f; ListVal := l |} =>
    match f with Some f => f64_finite f | None => true end && forallb value_finite l end.

Definition point_finite (mp : MetricPoint) : bool :=
  f64_finite (mValue mp) && bool_decide (map_Forall (fun _ v => value_finite v = true) (items_of mp)).

Fixpoint value_json (v : Value) : json :=
  match v with
  | {| vType := t; IntVal := i; FloatVal := f; StringVal := s; ListVal := l |} =>
      JObj [("Type", JInt t); ("IntVal", enc_opt JInt i); ("FloatVal", enc_opt JFloat f);
            ("StringVal", enc_opt enc_str s); ("ListVal", enc_array (map value_json l))]
  end.

(** Strings as JSON carries them. *)
Fixpoint utf8_value (v : Value) : Value :=
  match v with
  | {| vType := t; IntVal := i; FloatVal := f; StringVal := s; ListVal := l |} =>
      {| vType := t; IntVal := i; FloatVal := f; StringVal := utf8_coerce <$> s; ListVal := map utf8_value l |}
  end.

Lemma enc_value_spec v : enc_value v = if value_finite v then Ok (value_json v) else Err unsupported.
Proof.
  induction v as [t i f s l IH] using Value_nested_ind. simpl.
  assert (Hf : match f with Some f => enc_float f | None => Ok JNull end =
    if match f with Some f => f64_finite f | None => true end then Ok (enc_opt JFloat f) else Err unsupported)
    by (destruct f as [f|]; [unfold enc_float; by destruct (f64_finite f)|done]).
  rewrite Hf. destruct (match f with Some f => f64_finite f | None => true end); [|done]. simpl.
  set (go := fix go (l : list Value) : result (list json) := _).
  assert (Hgo : go l = if forallb value_finite l then Ok (map value_json l) else Err unsupported).
  { induction IH as [|v l Hv _ IHl]; [done|]. simpl. rewrite Hv, IHl. destruct (value_finite v); [|done]. simpl.
    by destruct (forallb value_finite l). }
  rewrite Hgo. by destruct (forallb value_finite l).
Qed.

(** Members of an encoded value, found by name. *)
Lemma dec_opt_field {A} (enc : A -> json) (dec : json -> result A) name fields o :
  json_field name fields = Some (enc_opt enc o) -> (forall a, o = Some a -> enc a <> JNull /\ dec (enc a) = Ok a) ->
  dec_field None (fun j => Some <$> dec j) name fields = Ok o.
Proof.
  intros Hf Hd. unfold dec_field. rewrite Hf. destruct o as [a|]; [|done]. simpl. destruct (Hd a eq_refl) as [Hn Ha].
  rewrite Ha. by destruct (enc a).
Qed.

Lemma dec_int_ok z : in_int64 z -> dec_int (JInt z) = Ok z.
Proof. intros Hz. simpl. by rewrite bool_decide_eq_true_2. Qed.

Lemma dec_value_json v : value_ok v -> dec_value (value_json v) = Ok (utf8_value v).
Proof.
  induction v as [t i f s l IH] using Value_nested_ind. intros (Ht & Hi & Hf & Hl).
  cbn [value_json dec_value utf8_value]. set (fields := [("Type", JInt t); ("IntVal", _ : json); _; _; _]).
  assert (E1 : dec_field 0 dec_int32 "Type" fields = Ok t).
  { change (dec_int32 (JInt t) = Ok t). simpl. by rewrite bool_decide_eq_true_2. }
  assert (E2 : dec_field None (fun j => Some <$> dec_int j) "IntVal" fields = Ok i).
  { apply (dec_opt_field JInt); [done|]. intros a ->. split; [done|by apply dec_int_ok]. }
  assert (E3 : dec_field None (fun j => Some <$> dec_float j) "FloatVal" fields = Ok f).
  { by apply (dec_opt_field JFloat). }
  assert (E4 : dec_field None (fun j => Some <$> dec_str j) "StringVal" fields = Ok (utf8_coerce <$> s)).
  { apply (dec_opt_field JStr); [by destruct s|done]. }
  rewrite E1, E2, E3, E4. unfold fields. clear E1 E2 E3 E4 fields. cbn [mbind result_bind].
  set (items := fix items (l : list json) : result (list Value) := _).
  assert (Hitems : items (map value_json l) = Ok (map utf8_value l)).
  { apply value_ok_items in Hl. clear -IH Hl. induction IH as [|v l Hv _ IHl]; [done|].
    inversion Hl as [|? ? Hok Hl']; subst. simpl. destruct v as [t i f s k] eqn:Ev. rewrite <-Ev in *.
    rewrite IHl by done. replace (match value_json v with JNull => Ok zero_Value | _ => dec_value (value_json v) end)
      with (dec_value (value_json v)) by (by rewrite Ev). by rewrite Hv. }
  simpl. replace (match enc_array (map value_json l) with JNull => Ok [] | JArr l0 => items l0 | _ => type_error end)
    with (Ok (map utf8_value l)); [done|].
  rewrite <-Hitems. by destruct l.
Qed.

Definition sorted_items (m : gmap string Value) : list (string * Value) := merge_sort entry_le (map_to_list m).

Definition utf8_label (l : Label) : Label := {| lName := utf8_coerce (lName l); lValue := utf8_coerce (lValue l) |}.
Definition utf8_items (m : gmap string Value) : gmap string Value :=
  foldl (fun a kv => <[utf8_coerce kv.1 := utf8_value kv.2]> a) ∅ (sorted_items m).
Definition utf8_point (mp : MetricPoint) : MetricPoint :=
  {| Timestamp := Timestamp mp; mValue := mValue mp; IsNull := IsNull mp; Labels := utf8_label <$> Labels mp;
     Properties := (fun kv => {| Items := utf8_items (Items kv) |}) <$> Properties mp |}.

Definition members_json (l : list (string * Value)) : list (string * json) :=
  map (fun kv => (utf8_coerce kv.1, value_json kv.2)) l.
Definition keyvalue_json (kv : KeyValue) : json := JObj [("Items", JObj (members_json (sorted_items (Items kv))))].
Definition point_json (mp : MetricPoint) : json :=
  JObj [("Timestamp", JInt (Timestamp mp)); ("Value", JFloat (mValue mp)); ("IsNull", JBool (IsNull mp));
        ("Labels", enc_array (enc_label <$> Labels mp)); ("Properties", enc_opt keyvalue_json (Properties mp))].

Lemma enc_members_spec l :
  enc_members l = if forallb (fun kv => value_finite kv.2) l then Ok (members_json l) else Err unsupported.
Proof.
  induction l as [|[k v] l IH]; [done|]. simpl. rewrite enc_value_spec, IH. destruct (value_finite v); [|done]. simpl.
  by destruct (forallb _ l).
Qed.

Lemma enc_point_spec mp : enc_point mp = if point_finite mp then Ok (point_json mp) else Err unsupported.
Proof.
  destruct mp as [ts x nl ls ps]. unfold enc_point, point_finite, enc_float, items_of, point_json. simpl.
  destruct (f64_finite x); [|done]. simpl. destruct ps as [kv|]; simpl.
  - unfold enc_keyvalue, enc_items. rewrite enc_members_spec.
    rewrite (forallb_entries value_finite (Items kv)) by (by rewrite merge_sort_Permutation).
    by destruct (bool_decide _).
  - by rewrite bool_decide_eq_true_2 by apply map_Forall_empty.
Qed.

Lemma dec_slice_array {A B} (zero : B) (dec : json -> result B) (enc : A -> json) (f : A -> B) l :
  Forall (fun x => enc x <> JNull /\ dec (enc x) = Ok (f x)) l ->
  dec_slice zero dec (enc_array (map enc l)) = Ok (map f l).
Proof.
  intros Hl. assert (Hall : dec_all zero dec (map enc l) = Ok (map f l)).
  { induction Hl as [|x l [Hn Hx] _ IH]; [done|]. simpl. rewrite Hx, IH. by destruct (enc x). }
  by destruct Hl.
Qed.

Lemma dec_field_some {A} (zero : A) dec name fields j :
  json_field name fields = Some j -> j <> JNull -> dec_field zero dec name fields = dec j.
Proof. intros Hf Hj. unfold dec_field. rewrite Hf. by destruct j. Qed.

Lemma dec_field_slice {A B} (zero : B) (dec : json -> result B) (enc : A -> json) (f : A -> B) l name fields :
  json_field name fields = Some (enc_array (map enc l)) ->
  Forall (fun x => enc x <> JNull /\ dec (enc x) = Ok (f x)) l ->
  dec_field [] (dec_slice zero dec) name fields = Ok (map f l).
Proof.
  intros Hf Hl. rewrite <-(dec_slice_array zero dec enc f l Hl). unfold dec_field. rewrite Hf. by destruct l.
Qed.

Lemma dec_label_ok l : dec_label (enc_label l) = Ok (utf8_label l).
Proof. done. Qed.

Lemma value_json_not_null v : value_json v <> JNull.
Proof. by destruct v. Qed.

Lemma dec_members_ok l m : Forall (fun kv => value_ok kv.2) l ->
  dec_members (members_json l) m = Ok (foldl (fun a kv => <[utf8_coerce kv.1 := utf8_value kv.2]> a) m l).
Proof.
  intros Hl. revert m. induction Hl as [|[k v] l Hv Hl IH]; intros m; [done|]. simpl in *.
  pose proof (dec_value_json v Hv) as Hd. destruct (value_json v) eqn:Hj; try (rewrite Hd; apply IH).
  by destruct (value_json_not_null v).
Qed.

Lemma dec_keyvalue_ok kv : map_Forall (fun _ v => value_ok v) (Items kv) ->
  dec_keyvalue (keyvalue_json kv) = Ok {| Items := utf8_items (Items kv) |}.
Proof.
  intros Hv. unfold dec_keyvalue, keyvalue_json. simpl.
  rewrite (dec_field_some _ _ _ _ (JObj (members_json (sorted_items (Items kv))))) by done. simpl.
  rewrite dec_members_ok; [done|]. apply Forall_forall. intros [k v] Hin. unfold sorted_items in Hin.
  rewrite merge_sort_Permutation in Hin. apply elem_of_map_to_list in Hin. by apply (Hv k).
Qed.

Lemma dec_point_ok mp : point_ok mp -> dec_point (point_json mp) = Ok (utf8_point mp).
Proof.
  destruct mp as [ts x nl ls ps]. intros (Hts & Hx & Hv). unfold dec_point, point_json. cbn [Timestamp mValue IsNull Labels Properties dec_obj mbind result_bind].
  set (fields := [("Timestamp", JInt ts); _; _; _; _]).
  assert (E1 : dec_field 0 dec_int "Timestamp" fields = Ok ts) by (by apply dec_int_ok).
  assert (E2 : dec_field f64_zero dec_float "Value" fields = Ok x) by done.
  assert (E3 : dec_field false dec_bool "IsNull" fields = Ok nl) by done.
  assert (E4 : dec_field [] (dec_slice {| lName := ""; lValue := "" |} dec_label) "Labels" fields = Ok (map utf8_label ls)).
  { apply (dec_field_slice _ _ enc_label); [done|]. by apply Forall_true. }
  assert (E5 : dec_field None (fun j => Some <$> dec_keyvalue j) "Properties" fields =
               Ok ((fun kv => {| Items := utf8_items (Items kv) |}) <$> ps)).
  { unfold dec_field. change (json_field "Properties" fields) with (Some (enc_opt keyvalue_json ps)).
    destruct ps as [kv|]; [|done]. cbn [enc_opt]. unfold keyvalue_json at 1. cbn iota.
    change (JObj _) with (keyvalue_json kv). by rewrite dec_keyvalue_ok. }
  by rewrite E1, E2, E3, E4, E5.
Qed.

Definition request_json (metrics : list MetricPoint) : json := JObj [("metrics", enc_array (map point_json metrics))].

Lemma enc_request_spec metrics :
  enc_request metrics = if forallb point_finite metrics then Ok (request_json metrics) else Err unsupported.
Proof.
  unfold enc_request, request_json.
  assert (Hall : enc_all enc_point metrics = if forallb point_finite metrics then Ok (map point_json metrics) else Err unsupported).
  { induction metrics as [|mp ms IH]; [done|]. simpl. rewrite enc_point_spec, IH. destruct (point_finite mp); [|done]. simpl.
    by destruct (forallb point_finite ms). }
  rewrite Hall. by destruct (forallb point_finite metrics).
Qed.

Lemma dec_request_ok metrics : Forall point_ok metrics ->
  dec_request (Doc (request_json metrics)) = Ok (map utf8_point metrics).
Proof.
  intros Hm. unfold dec_request, request_json. cbn [dec_obj mbind result_bind].
  apply (dec_field_slice _ _ point_json); [done|]. eapply Forall_impl; [exact Hm|].
  intros mp Hok. split; [by destruct mp|by apply dec_point_ok].
Qed.

(** ** The handler *)

(** Every branch of the handler on a fresh response. *)
Lemma handle_batch clock method body :
  let '(w, log) := HandleBatchMetrics (P := unit) true clock method body no_response in
  match decide (method = "POST"), dec_request body with
  | left _, Ok (m :: ms) =>
      rStatus w = Some 200 /\ body_of w = Doc (enc_response {| Success := true; respError := "" |}) /\
      log = log_metrics clock 0 (m :: ms)
  | left _, Ok [] =>
      rStatus w = Some 400 /\ body_of w = Doc (enc_response {| Success := false; respError := "no metrics provided" |}) /\ log = []
  | left _, Err _ =>
      rStatus w = Some 400 /\ body_of w = Doc (enc_response {| Success := false; respError := "invalid request format" |}) /\ log = []
  | right _, _ =>
      rStatus w = Some 405 /\ body_of w = Doc (enc_response {| Success := false; respError := "method not allowed" |}) /\ log = []
  end.
Proof.
  unfold HandleBatchMetrics. destruct (decide (method = "POST")) as [->|Hm].
  - rewrite bool_decide_eq_true_2 by done. cbn [negb]. by destruct (dec_request body) as [[|m ms]|e].
  - by rewrite bool_decide_eq_false_2.
Qed.

Lemma serve_url clock base method body : serve clock base method (base +:+ "/metrics/v1/batch") body =
  Ok (body_of (HandleBatchMetrics (P := unit) true clock method body no_response).1).
Proof. unfold serve. by rewrite bool_decide_eq_true_2. Qed.

(** C32: sending a batch over HTTP.  A batch with a NaN or an infinity, as a
    value or in a property, is refused by the client before anything is sent.  Any
    other batch is sent as one body: whatever the network answers, an error for
    that body at that address is the one that is returned.  The server decodes
    from that body every metric as it was, in order, with strings coerced to
    UTF-8, and these are the metrics it logs; and on a network that works the
    client reports a success, unless the batch is empty, which the server
    refuses. *)
Theorem send_metrics clock new_request base metrics : Forall point_ok metrics ->
  let url := base +:+ "/metrics/v1/batch" in new_request url = None ->
  if forallb point_finite metrics then
    exists body,
      (forall do_request e, do_request "POST" url body = Err e ->
         SendMetrics new_request do_request base metrics = Some (Wrap "failed to send request: " e)) /\
      dec_request body = Ok (map utf8_point metrics) /\
      (HandleBatchMetrics (P := unit) true clock "POST" body no_response).2 = log_metrics clock 0 (map utf8_point metrics) /\
      SendMetrics new_request (serve clock base) base metrics =
        match metrics with [] => Some (Errorf "server error: no metrics provided") | _ => None end
  else forall do_request, SendMetrics new_request do_request base metrics = Some (Wrap "failed to marshal request: " unsupported).
Proof.
  intros Hok url Hurl. pose proof (enc_request_spec metrics) as Henc. destruct (forallb point_finite metrics).
  2:{ intros do_request. unfold SendMetrics. by rewrite Henc. }
  exists (Doc (request_json metrics)). pose proof (dec_request_ok metrics Hok) as Hdec.
  pose proof (handle_batch clock "POST" (Doc (request_json metrics))) as H. rewrite Hdec in H.
  assert (Hlog : (HandleBatchMetrics (P := unit) true clock "POST" (Doc (request_json metrics)) no_response).2 =
    log_metrics clock 0 (map utf8_point metrics)).
  { destruct (HandleBatchMetrics _ _ _ _ _) as [w log]. destruct (decide ("POST" = "POST")); [|done].
    destruct metrics; by destruct H as (_ & _ & ->). }
  split_and!; [|exact Hdec|exact Hlog|].
  - intros do_request e He. unfold SendMetrics. fold url. by rewrite Henc, Hurl, He.
  - unfold SendMetrics. fold url. rewrite Henc, Hurl. unfold url. rewrite serve_url.
    destruct (HandleBatchMetrics _ _ _ _ _) as [w log]. destruct (decide ("POST" = "POST")); [|done].
    destruct metrics; destruct H as (_ & Hb & _); cbn [fst]; by rewrite Hb.
Qed.

Definition any_url (_ : string) : option error := None.

Lemma send_metrics_witness : exists body,
  SendMetrics any_url (serve (fun _ => 0) "http://localhost:8080") "http://localhost:8080" [example_point] = None /\
  dec_request body = Ok (map utf8_point [example_point]) /\
  SendMetrics any_url (fun _ _ _ => Err (Errorf "refused")) "http://localhost:8080" [example_point] =
    Some (Wrap "failed to send request: " (Errorf "refused")).
Proof.
  assert (Hok : Forall point_ok [example_point]) by (constructor; [exact example_point_ok|constructor]).
  assert (Hfin : forallb point_finite [example_point] = true) by (vm_compute; reflexivity).
  pose proof (send_metrics (fun _ => 0) any_url "http://localhost:8080" [example_point] Hok eq_refl) as H.
  cbv zeta in H. rewrite Hfin in H. destruct H as (body & H1 & H2 & _ & H3).
  exists body. split; [exact H3|]. split; [exact H2|]. exact (H1 _ _ eq_refl).
Defined.
