(* ===== verification/Codex.v ===== *)
(** * The site generator (internal/codexsites/compiler.go)

    [Generate] writes a bundle of ten files: the catalogues of feeds and regions
    as JSON, and templates.  The texts of the templates (templates.go) are a
    parameter; a file is a sequence of literal text and JSON documents, those
    written by [json.MarshalIndent].  The disk is an oracle. *)

From Stdlib Require Import Ascii.
From S2P Require Import Prelude GoStrings GoTime Json Regions.

(** The string constants of templates.go. *)
Record Templates := {
  indexHTML : string;
  replayHTML : string;
  appCSS : string;
  appJS : string;
  replayJS : string;
  schemaSQL : string;
  wranglerJSONC : string;
  readmeMD : string;
  workerTS : string
}.

Inductive piece := Lit (s : string) | Indented (j : json).
Abbreviation contents := (list piece).

Record siteRegion := {
  srID : string;
  srLabel : string;
  srCenter : float64 * float64;
  srZoom : Z;
  srAgencies : list string
}.
Record siteFeed := { sfAgency : string; sfRegion : string; sfGroup : string; sfURL : string }.
Record siteConfig := { cfgRegions : list siteRegion; cfgFeeds : list siteFeed }.

Definition site_region (r : MapRegion) : siteRegion :=
  {| srID := rID r; srLabel := rLabel r; srCenter := rCenter r; srZoom := rZoom r; srAgencies := rAgencies r |}.
Definition site_feed (f : Feed) : siteFeed :=
  {| sfAgency := fAgency f; sfRegion := fRegion f; sfGroup := fGroup f; sfURL := fURL f |}.
Definition site_config : siteConfig :=
  {| cfgRegions := site_region <$> AllRegions; cfgFeeds := site_feed <$> AllFeeds |}.

(** ** The JSON of the catalogue *)

Definition enc_siteRegion (r : siteRegion) : result json :=
  x ← enc_float (srCenter r).1;
  y ← enc_float (srCenter r).2;
  Ok (JObj [("id", enc_str (srID r)); ("label", enc_str (srLabel r)); ("center", JArr [x; y]); ("zoom", JInt (srZoom r));
            ("agencies", match srAgencies r with [] => JNull | l => JArr (enc_str <$> l) end)]).

Definition enc_siteFeed (f : siteFeed) : json :=
  JObj [("agency", enc_str (sfAgency f)); ("region", enc_str (sfRegion f)); ("group", enc_str (sfGroup f)); ("url", enc_str (sfURL f))].

Fixpoint enc_siteRegions (l : list siteRegion) : result (list json) :=
  match l with [] => Ok [] | r :: l => j ← enc_siteRegion r; js ← enc_siteRegions l; Ok (j :: js) end.

Definition enc_siteConfig (c : siteConfig) : result json :=
  rs ← enc_siteRegions (cfgRegions c);
  Ok (JObj [("regions", JArr rs); ("feeds", JArr (enc_siteFeed <$> cfgFeeds c))]).

(** ** The bundle *)

(** [strings.Replace(s, old, new, 1)] where [new] is a document. *)
Definition replace_first (s old : string) (new : piece) : contents :=
  match String.index 0 old s with
  | None => [Lit s]
  | Some i =>
      [Lit (String.substring 0 i s); new;
       Lit (String.substring (i + String.length old) (String.length s - (i + String.length old)) s)]
  end.

(** The file names of the bundle and what they hold. *)
Definition bundle (t : Templates) (configJSON : json) : gmap string contents := list_to_map [
  ("public/index.html", [Lit (indexHTML t)]);
  ("public/replay.html", [Lit (replayHTML t)]);
  ("public/config.js", [Lit "window.SITE_CONFIG = "; Indented configJSON; Lit (";" +:+ String (ascii_of_N 10) "")]);
  ("public/app.css", [Lit (appCSS t)]);
  ("public/app.js", [Lit (appJS t)]);
  ("public/replay.js", [Lit (replayJS t)]);
  ("schema.sql", [Lit (schemaSQL t)]);
  ("wrangler.jsonc", [Lit (wranglerJSONC t)]);
  ("README.md", [Lit (readmeMD t)]);
  ("worker.ts", replace_first (workerTS t) "__REGIONS_JSON__" (Indented configJSON))].

(** [filepath.Dir]: everything up to the last slash, cleaned. *)
Fixpoint upto_last_slash (s : string) : string :=
  match s with
  | "" => ""
  | String c r =>
      let d := upto_last_slash r in
      if bool_decide (d = "") then (if bool_decide (c = "/"%char) then "/" else "") else String c d
  end.
Definition Dir (path : string) : string := Clean (upto_last_slash path).

Section generate.
Context {MR : MapRange}.

(** The n-th call to the disk: [None] is success; a failed write may leave
    contents behind. *)
Variable disk : nat -> option (error * option contents).

Record fs := { fsFiles : gmap string contents; fsCalls : nat; fsDirs : list string }.

Definition MkdirAll (path : string) (w : fs) : option error * fs :=
  match disk (fsCalls w) with
  | Some (e, _) => (Some e, {| fsFiles := fsFiles w; fsCalls := S (fsCalls w); fsDirs := fsDirs w |})
  | None => (None, {| fsFiles := fsFiles w; fsCalls := S (fsCalls w); fsDirs := fsDirs w ++ [path] |})
  end.

Definition WriteFile (path : string) (c : contents) (w : fs) : option error * fs :=
  match disk (fsCalls w) with
  | Some (e, partial) =>
      (Some e, {| fsFiles := match partial with Some p => <[path := p]> (fsFiles w) | None => fsFiles w end;
                  fsCalls := S (fsCalls w); fsDirs := fsDirs w |})
  | None => (None, {| fsFiles := <[path := c]> (fsFiles w); fsCalls := S (fsCalls w); fsDirs := fsDirs w |})
  end.

(** The loop over the files, in the order of the map. *)
Fixpoint write_loop (out : string) (files : list (string * contents)) (w : fs) : option error * fs :=
  match files with
  | [] => (None, w)
  | (name, c) :: files =>
      let path := Join [out; name] in
      match MkdirAll (Dir path) w with
      | (Some e, w) => (Some (Wrap ("create directory for " +:+ name +:+ ": ") e), w)
      | (None, w) =>
          match WriteFile path c w with
          | (Some e, w) => (Some (Wrap ("write " +:+ name +:+ ": ") e), w)
          | (None, w) => write_loop out files w
          end
      end
  end.

Definition Generate (t : Templates) (out : string) (w : fs) : option error * fs :=
  match enc_siteConfig site_config with
  | Err e => (Some (Wrap "marshal site config: " e), w)
  | Ok configJSON =>
      match MkdirAll (Join [out; "public"]) w with
      | (Some e, w) => (Some (Wrap "create output directory: " e), w)
      | (None, w) => write_loop out (range (bundle t configJSON)) w
      end
  end.

End generate.

(** ** Paths of the bundle do not collide *)

Definition plain (e : string) : Prop := e <> "" /\ e <> "." /\ e <> "..".

Lemma clean_plain rooted l out : Forall plain l -> foldl (clean_step rooted) out l = rev l ++ out.
Proof.
  revert out. induction l as [|e l IH]; intros out Hl; [done|]. inversion Hl as [|? ? (He & He1 & He2) Hl']; subst.
  simpl. rewrite IH by done. unfold clean_step. rewrite !bool_decide_eq_false_2 by done. simpl. by rewrite <-app_assoc.
Qed.

Lemma concat_cons sep x l : l <> [] -> String.concat sep (x :: l) = x +:+ sep +:+ String.concat sep l.
Proof. by destruct l. Qed.

Lemma concat_app sep l1 l2 : l1 <> [] -> l2 <> [] ->
  String.concat sep (l1 ++ l2) = String.concat sep l1 +:+ sep +:+ String.concat sep l2.
Proof.
  intros H1 H2. induction l1 as [|x l1 IH]; [done|]. destruct l1 as [|y l1].
  - simpl app. by rewrite concat_cons.
  - change ((x :: y :: l1) ++ l2) with (x :: ((y :: l1) ++ l2)).
    rewrite concat_cons by done. rewrite IH, (concat_cons _ x (y :: l1)) by done. by rewrite !str_app_assoc.
Qed.

Lemma append_inj_l a b c : a +:+ b = a +:+ c -> b = c.
Proof. apply (inj (String.append a)). Qed.

(** What [Join] makes of a directory and one of the bundle's names. *)
Lemma Join_name out name : out <> "" -> name <> "" -> Forall plain (split_all "/" name) ->
  exists base, Join [out; name] = base +:+ String.concat "/" (split_all "/" name) /\
    forall name', name' <> "" -> Forall plain (split_all "/" name') ->
      Join [out; name'] = base +:+ String.concat "/" (split_all "/" name').
Proof.
  intros Ho Hn Hp.
  assert (Hj : forall n, n <> "" -> Forall plain (split_all "/" n) ->
    Join [out; n] = (if has_prefix out "/" then "/" else "") +:+
      (match foldl (clean_step (has_prefix out "/")) [] (split_all "/" out) with
       | [] => "" | l => String.concat "/" (rev l) +:+ "/" end) +:+ String.concat "/" (split_all "/" n)).
  { clear name Hn Hp. intros n Hn Hp. unfold Join. cbn [List.filter].
    rewrite (bool_decide_eq_false_2 (out = "")), (bool_decide_eq_false_2 (n = "")) by done. cbn [negb].
    rewrite bool_decide_eq_false_2 by done.
    change (String.concat "/" [out; n]) with (out +:+ "/" +:+ n). unfold Clean.
    rewrite bool_decide_eq_false_2 by (by destruct out).
    assert (Hpre : has_prefix (out +:+ "/" +:+ n) "/" = has_prefix out "/").
    { destruct out as [|c o]; [done|]. change (String c o +:+ "/" +:+ n) with (String c (o +:+ "/" +:+ n)).
      rewrite !has_prefix_cons. assert (Hall : forall s, has_prefix s "" = true) by (by intros []). by rewrite !Hall. }
    rewrite Hpre. change (out +:+ "/" +:+ n) with (out +:+ String "/" n). rewrite split_all_app, foldl_app, clean_plain by done.
    assert (Hs : split_all "/" n <> []).
    { destruct n as [|c n]; [done|]. cbn [split_all]. case_bool_decide; [done|]. by destruct (split_all "/" n). }
    assert (Hc : String.concat "/" (split_all "/" n) <> "").
    { destruct Hp as [|e l (He & _) Hl]; [done|]. destruct l; [done|]. rewrite concat_cons by done. by destruct e. }
    rewrite rev_app_distr, rev_involutive.
    destruct (foldl _ [] _) as [|x l] eqn:Hf.
    - simpl. destruct (has_prefix out "/"); [done|]. by rewrite bool_decide_eq_false_2.
    - assert (Hr : rev (x :: l) <> []) by (intros Hr; apply (f_equal length) in Hr; by rewrite length_rev in Hr).
      rewrite concat_app by done. destruct (has_prefix out "/"); [by rewrite !str_app_assoc|].
      rewrite bool_decide_eq_false_2; [by rewrite !str_app_assoc|]. by destruct (String.concat "/" (rev (x :: l))). }
  eexists. rewrite (Hj name), str_app_assoc by done. split; [done|].
  intros n' Hn' Hp'. by rewrite (Hj n'), str_app_assoc.
Qed.

Definition bundle_names : list string := [
  "public/index.html"; "public/replay.html"; "public/config.js"; "public/app.css"; "public/app.js"; "public/replay.js";
  "schema.sql"; "wrangler.jsonc"; "README.md"; "worker.ts"].

Definition plain_name (n : string) : bool :=
  bool_decide (n <> "") && forallb (fun e => bool_decide (plain e)) (split_all "/" n) &&
  bool_decide (String.concat "/" (split_all "/" n) = n) && bool_decide (Join [""; n] = n).

Lemma names_plain n : n ∈ bundle_names ->
  n <> "" /\ Forall plain (split_all "/" n) /\ String.concat "/" (split_all "/" n) = n /\ Join [""; n] = n.
Proof.
  intros Hn. assert (Ha : forallb plain_name bundle_names = true) by (by vm_compute).
  rewrite forallb_forall in Ha. specialize (Ha n). rewrite <-list_elem_of_In in Ha. specialize (Ha Hn). unfold plain_name in Ha.
  apply andb_true_iff in Ha as [[[H1 H2]%andb_true_iff H3]%andb_true_iff H4].
  apply bool_decide_eq_true in H1, H3, H4. split; [done|]. split; [|done].
  rewrite forallb_forall in H2. apply Forall_forall. intros e He. apply list_elem_of_In in He.
  specialize (H2 e He). by apply bool_decide_eq_true in H2.
Qed.

Lemma paths_differ out n1 n2 : n1 ∈ bundle_names -> n2 ∈ bundle_names -> Join [out; n1] = Join [out; n2] -> n1 = n2.
Proof.
  intros (H1 & H2 & H3 & H4)%names_plain (H5 & H6 & H7 & H8)%names_plain Hj.
  destruct (decide (out = "")) as [->|Ho]; [congruence|].
  destruct (Join_name out n1 Ho H1 H2) as (base & Hb & Hall). rewrite Hb, (Hall n2), H3, H7 in Hj by done.
  by apply append_inj_l in Hj.
Qed.

Lemma bundle_name t j n c : bundle t j !! n = Some c -> n ∈ bundle_names.
Proof.
  intros Hn%elem_of_list_to_map_2. apply (list_elem_of_fmap_2 fst) in Hn. exact Hn.
Qed.

Lemma bundle_config t j :
  bundle t j !! "public/config.js" = Some [Lit "window.SITE_CONFIG = "; Indented j; Lit (";" +:+ String (ascii_of_N 10) "")] /\
  bundle t j !! "worker.ts" = Some (replace_first (workerTS t) "__REGIONS_JSON__" (Indented j)) /\
  dom (bundle t j) = list_to_set bundle_names.
Proof. split; [done|]. split; [done|]. unfold bundle. rewrite dom_list_to_map_L. done. Qed.

(** The catalogue always marshals: its centres are finite. *)
Definition site_json : json :=
  match enc_siteConfig site_config with Ok j => j | Err _ => JNull end.
Lemma site_config_ok : enc_siteConfig site_config = Ok site_json.
Proof. by vm_compute. Qed.

Section spec.
Context {MR : MapRange}.
Variable disk : nat -> option (error * option contents).

Lemma bundle_loop_spec out l w : NoDup l.*1 -> Forall (fun n => n ∈ bundle_names) l.*1 ->
  let '(e, w') := write_loop disk out l w in
  (forall p, Forall (fun n => p <> Join [out; n]) l.*1 -> fsFiles w' !! p = fsFiles w !! p) /\
  (e = None -> forall n c, (n, c) ∈ l -> fsFiles w' !! Join [out; n] = Some c) /\
  ((forall k, disk k = None) -> e = None).
Proof.
  revert w. induction l as [|[n c] l IH]; intros w Hnd Hin; [split; [done|]; split; [intros _ ? ? Hx; by apply elem_of_nil in Hx|done]|].
  apply NoDup_cons in Hnd as [Hn Hnd]. inversion Hin as [|? ? Hn' Hin']; subst. cbn [write_loop fmap list_fmap fst].
  unfold MkdirAll. destruct (disk (fsCalls w)) as [[e p]|] eqn:Hd1.
  { cbn. split; [done|]. split; [done|]. intros Hk. by rewrite Hk in Hd1. }
  unfold WriteFile. cbn [fsCalls fsFiles]. destruct (disk (S (fsCalls w))) as [[e p]|] eqn:Hd2.
  { cbn. split; [|split; [done|intros Hk; by rewrite Hk in Hd2]]. intros q Hq. inversion Hq; subst.
    destruct p; [by rewrite lookup_insert_ne by done|done]. }
  specialize (IH {| fsFiles := <[Join [out; n] := c]> (fsFiles w); fsCalls := S (S (fsCalls w)); fsDirs := fsDirs w ++ [Dir (Join [out; n])] |} Hnd Hin').
  destruct (write_loop disk out l _) as [e w']. destruct IH as (IH1 & IH2 & IH3). cbn [fsFiles] in IH1. split; [|split; [|done]].
  - intros p Hp. inversion Hp as [|? ? Hp1 Hp2]; subst. rewrite IH1 by done. by rewrite lookup_insert_ne by done.
  - intros He n0 c0 [Heq|Hx]%elem_of_cons; [|by apply IH2]. simplify_eq. rewrite IH1; [by rewrite lookup_insert_eq|].
    apply Forall_forall. intros m Hm Hj. rewrite Forall_forall in Hin'. apply paths_differ in Hj; [by subst|done|by apply Hin'].
Qed.

(** A run that returns no error has written each of the ten files of the
    bundle whole, the configuration and the worker with the whole catalogue of
    regions and feeds in it, whatever the order of the files; whatever it
    returns, no other path of the disk has changed; on a disk that works it
    returns no error.  A directory may be given in any form, absolute or not. *)
Theorem generate_bundle t out w :
  let '(e, w') := Generate disk t out w in
  (forall p, Forall (fun n => p <> Join [out; n]) bundle_names -> fsFiles w' !! p = fsFiles w !! p) /\
  (e = None -> forall n c, bundle t site_json !! n = Some c -> fsFiles w' !! Join [out; n] = Some c) /\
  ((forall k, disk k = None) -> e = None).
Proof.
  unfold Generate. rewrite site_config_ok. unfold MkdirAll. destruct (disk (fsCalls w)) as [[e p]|] eqn:Hd.
  { cbn. split; [done|]. split; [done|]. intros Hk. by rewrite Hk in Hd. }
  set (w1 := {| fsFiles := fsFiles w; fsCalls := _; fsDirs := _ |}).
  assert (Hin : Forall (fun n => n ∈ bundle_names) (range (bundle t site_json)).*1).
  { apply Forall_forall. intros n ([n' c] & -> & Hn)%list_elem_of_fmap. apply elem_of_range in Hn. by eapply bundle_name. }
  pose proof (bundle_loop_spec out (range (bundle t site_json)) w1 (NoDup_range_keys _) Hin) as H.
  destruct (write_loop disk out (range (bundle t site_json)) w1) as [e w']. destruct H as (H1 & H2 & H3). split; [|split; [|done]].
  - intros p Hp. rewrite H1; [done|]. rewrite Forall_forall in *. auto.
  - intros He n c Hn. apply H2; [done|]. by apply elem_of_range.
Qed.

End spec.

(** ** A concrete run *)

Definition blank : Templates := {|
  indexHTML := "<html>"; replayHTML := "<html>"; appCSS := ""; appJS := ""; replayJS := ""; schemaSQL := "";
  wranglerJSONC := "{}"; readmeMD := "#"; workerTS := "const SITE_DATA = __REGIONS_JSON__;" |}.

Definition empty_disk : fs := {| fsFiles := ∅; fsCalls := 0; fsDirs := [] |}.

Lemma generate_bundle_witness :
  fsFiles (Generate (MR := canonical_range) (fun _ => None) blank "./site/" empty_disk).2 !! Join ["./site/"; "worker.ts"] =
  Some [Lit "const SITE_DATA = "; Indented site_json; Lit ";"].
Proof.
  pose proof (generate_bundle (MR := canonical_range) (fun _ => None) blank "./site/" empty_disk) as H.
  destruct (Generate (fun _ => None) blank "./site/" empty_disk) as [e w']. destruct H as (_ & Hw & He).
  exact (Hw (He (fun _ => eq_refl)) "worker.ts" _ (proj1 (proj2 (bundle_config blank site_json)))).
Defined.
