(* ===== verification/Flags.v ===== *)
(** * Package flag

    The command-line parser of Go's standard library as the commands use it:
    flags of four types in one set, parsed by [flag.Parse], which leaves the
    process when the arguments are wrong.  [parse_rendered] says that arguments
    written from values are read back. *)

From Stdlib Require Import Ascii.
From S2P Require Import Prelude GoStrings Json GoTime.

(** ** Values *)

Inductive flag_value := FString (s : string) | FDuration (d : Z) | FInt (z : Z) | FBool (b : bool).

(** [strconv.ParseBool] *)
Definition ParseBool (s : string) : option bool :=
  if bool_decide (s ∈ ["1"; "t"; "T"; "true"; "TRUE"; "True"]) then Some true
  else if bool_decide (s ∈ ["0"; "f"; "F"; "false"; "FALSE"; "False"]) then Some false
  else None.

(** [strconv.ParseInt(s, 0, 64)]: the prefix says the base, and underscores may
    separate digits. *)
Definition digit_in (base : N) (c : ascii) : option N :=
  let n := N_of_ascii (ascii_lower c) in
  let d := if ((48 <=? n) && (n <=? 57))%N then Some (n - 48)%N
           else if ((97 <=? n) && (n <=? 122))%N then Some (n - 87)%N else None in
  match d with Some d => if (d <? base)%N then Some d else None | None => None end.

Definition base_of (s : string) : N * string :=
  match s with
  | String z r =>
      if bool_decide (z = "0"%char) then
        match r with
        | String c (String d r') =>
            if bool_decide (ascii_lower c = "b"%char) then (2%N, String d r')
            else if bool_decide (ascii_lower c = "o"%char) then (8%N, String d r')
            else if bool_decide (ascii_lower c = "x"%char) then (16%N, String d r')
            else (8%N, r)
        | _ => (8%N, r)
        end
      else (10%N, s)
  | _ => (10%N, s)
  end.

Fixpoint digits_value (base : N) (s : string) (n : N) : option N :=
  match s with
  | "" => Some n
  | String c s =>
      if bool_decide (c = "_"%char) then digits_value base s n
      else match digit_in base c with
           | Some d => let n := (n * base + d)%N in
                       if (uint64_max <? n)%N then None else digits_value base s n
           | None => None
           end
  end.

(** [underscoreOK] after the prefix: [saw_digit] and [saw_underscore] are what
    its [saw] holds. *)
Fixpoint underscores_ok (hex saw_digit saw_underscore : bool) (s : string) : bool :=
  match s with
  | "" => negb saw_underscore
  | String c s =>
      if is_digit c || hex && bool_decide (is_Some (digit_in 16 c)) then underscores_ok hex true false s
      else if bool_decide (c = "_"%char) then saw_digit && underscores_ok hex false true s
      else negb saw_underscore && underscores_ok hex false false s
  end.

Definition underscoreOK (s : string) : bool :=
  match s with
  | String z (String c r) =>
      if bool_decide (z = "0"%char) && bool_decide (ascii_lower c ∈ ["b"; "o"; "x"]%char)
      then underscores_ok (bool_decide (ascii_lower c = "x"%char)) true false r
      else underscores_ok false false false s
  | _ => underscores_ok false false false s
  end.

Definition parse_uint0 (s : string) : option N :=
  if bool_decide (s = "") then None else
  let '(base, digits) := base_of s in
  match digits_value base digits 0 with
  | Some n => if has_byte "_" digits && negb (underscoreOK s) then None else Some n
  | None => None
  end.

Definition parse_int0 (s : string) : option Z :=
  match s with
  | "" => None
  | String c r =>
      let neg := bool_decide (c = "-"%char) in
      match parse_uint0 (if neg || bool_decide (c = "+"%char) then r else s) with
      | None => None
      | Some n => if neg then (if (2 ^ 63 <? n)%N then None else Some (- Z.of_N n))
                  else if (2 ^ 63 <=? n)%N then None else Some (Z.of_N n)
      end
  end.

Example bases : parse_int0 "0x1F" = Some 31 /\ parse_int0 "-0b1_01" = Some (-5) /\ parse_int0 "010" = Some 8 /\
  parse_int0 "1__0" = None /\ parse_int0 "0_8" = None /\ parse_int0 "9223372036854775808" = None /\
  parse_int0 "-9223372036854775808" = Some int64_min /\ parse_int0 "0" = Some 0 /\ parse_int0 "0x" = None /\
  parse_int0 "0xA_F" = Some 175 /\ parse_int0 "0x_a" = Some 10 /\ parse_int0 "1_" = None.
Proof. by vm_compute. Qed.

(** [Value.Set]: [None] for its error. *)
Definition set_flag (v : flag_value) (s : string) : option flag_value :=
  match v with
  | FString _ => Some (FString s)
  | FDuration _ => FDuration <$> ParseDuration s
  | FInt _ => FInt <$> parse_int0 s
  | FBool _ => FBool <$> ParseBool s
  end.

(** ** Parsing *)

(** Why the arguments are refused. *)
Inductive refusal :=
  | BadSyntax (arg : string)
  | NotDefined (name : string)
  | NeedsArgument (name : string)
  | InvalidValue (name value : string).

Inductive outcome :=
  | Parsed (flags : gmap string flag_value) (rest : list string)
  | Helped
  | Refused (why : refusal).

(** One argument, as [parseOne] takes it apart. *)
Inductive word :=
  | Positional
  | Terminator
  | Malformed
  | Named (name : string) (value : option string).

Definition named (name : string) : word :=
  match name with
  | "" => Malformed
  | String c _ => if bool_decide (c = "-"%char) || bool_decide (c = "="%char) then Malformed
                  else let '(n, v) := str_cut "=" name in Named n v
  end.

Definition word_of (s : string) : word :=
  match s with
  | String a (String b r) =>
      if negb (bool_decide (a = "-"%char)) then Positional
      else if bool_decide (b = "-"%char) then (if bool_decide (r = "") then Terminator else named r)
      else named (String b r)
  | _ => Positional
  end.

(** [f.Parse(args)] until it is done or an argument is wrong. *)
Fixpoint parse_args (flags : gmap string flag_value) (args : list string) : outcome :=
  let invalid name t := Refused (InvalidValue name t) in
  match args with
  | [] => Parsed flags []
  | s :: args' =>
      match word_of s with
      | Positional => Parsed flags args
      | Terminator => Parsed flags args'
      | Malformed => Refused (BadSyntax s)
      | Named name value =>
          match flags !! name with
          | None => if bool_decide (name = "help" \/ name = "h") then Helped else Refused (NotDefined name)
          | Some (FBool b) =>
              match set_flag (FBool b) (default "true" value) with
              | Some v => parse_args (<[name := v]> flags) args'
              | None => invalid name (default "true" value)
              end
          | Some v =>
              match value, args' with
              | Some t, _ =>
                  match set_flag v t with Some v => parse_args (<[name := v]> flags) args' | None => invalid name t end
              | None, t :: args'' =>
                  match set_flag v t with Some v => parse_args (<[name := v]> flags) args'' | None => invalid name t end
              | None, [] => Refused (NeedsArgument name)
              end
          end
      end
  end.

(** [flag.Parse] with [ExitOnError]: the flags, or the exit code. *)
Definition Parse (flags : gmap string flag_value) (args : list string) : Z + gmap string flag_value :=
  match parse_args flags args with
  | Parsed flags _ => inr flags
  | Helped => inl 0
  | Refused _ => inl 2
  end.

(** The value of a flag, through the pointer that its definition returned. *)
Definition get_string (name : string) (flags : gmap string flag_value) : string :=
  match flags !! name with Some (FString s) => s | _ => "" end.
Definition get_int (name : string) (flags : gmap string flag_value) : Z :=
  match flags !! name with Some (FInt z) | Some (FDuration z) => z | _ => 0 end.
Definition get_bool (name : string) (flags : gmap string flag_value) : bool :=
  match flags !! name with Some (FBool b) => b | _ => false end.

(** ** Writing arguments *)

Definition text_of (v : flag_value) : string :=
  match v with
  | FString s => s
  | FDuration d => itoa d +:+ "ns"
  | FInt z => itoa z
  | FBool b => if b then "true" else "false"
  end.

(** One or two dashes, and the value behind an equals sign or in a word of its
    own; the value of a Boolean flag cannot be a word of its own. *)
Record style := { twoDashes : bool; ownWord : bool }.

Definition dashes (st : style) : string := if twoDashes st then "--" else "-".

Definition render (st : style) (name : string) (v : flag_value) : list string :=
  if ownWord st && match v with FBool _ => false | _ => true end
  then [dashes st +:+ name; text_of v]
  else [dashes st +:+ name +:+ "=" +:+ text_of v].

(** A name that can be written, and a value that fits its type. *)
Definition flag_name (name : string) : Prop :=
  match name with "" => False | String c _ => c <> "-"%char end /\ has_byte "=" name = false.
Definition fits (v : flag_value) : Prop :=
  match v with FInt z | FDuration z => in_int64 z | _ => True end.
Definition same_type (v w : flag_value) : Prop :=
  match v, w with
  | FString _, FString _ | FDuration _, FDuration _ | FInt _, FInt _ | FBool _, FBool _ => True
  | _, _ => False
  end.

(** *** Numbers are read back *)

Lemma pretty_char_digits d : (d < 10)%N ->
  digit_of (pretty_N_char d) = Some d /\ digit_in 10 (pretty_N_char d) = Some d /\ pretty_N_char d <> "_"%char /\
  (d <> 0%N -> pretty_N_char d <> "0"%char).
Proof.
  intros Hd.
  assert (d = 0 \/ d = 1 \/ d = 2 \/ d = 3 \/ d = 4 \/ d = 5 \/ d = 6 \/ d = 7 \/ d = 8 \/ d = 9)%N by lia.
  naive_solver.
Qed.

(** A reader of digits that takes one digit at a time reads a printed number. *)
Lemma read_pretty {A} (read : N -> string -> A) (limit : N) x s :
  (forall n d r, (d < 10)%N -> (n * 10 + d <= limit)%N -> read n (String (pretty_N_char d) r) = read (n * 10 + d)%N r) ->
  (x <= limit)%N -> read 0%N (pretty_N_go x s) = read x s.
Proof.
  intros Hread. revert s. induction (N.lt_wf_0 x) as [x _ IH]; intros s Hx.
  destruct (decide (x = 0)%N) as [->|Hne]; [by rewrite pretty_N_go_0|].
  rewrite pretty_N_go_step by lia.
  rewrite IH by (try apply N.div_lt; try (etrans; [apply N.Div0.div_le_upper_bound with (q := x)|]); lia).
  assert (Hdiv : (x `div` 10 * 10 + x `mod` 10 = x)%N) by (pose proof (N.div_mod x 10); lia).
  rewrite Hread by (try apply N.mod_lt; lia). by rewrite Hdiv.
Qed.

Lemma pretty_go_app x a s : pretty_N_go x (a +:+ s) = pretty_N_go x a +:+ s.
Proof.
  revert a. induction (N.lt_wf_0 x) as [x _ IH]; intros a.
  destruct (decide (x = 0)%N) as [->|Hne]; [by rewrite !pretty_N_go_0|].
  rewrite !(pretty_N_go_step x) by lia. rewrite <-IH by (apply N.div_lt; lia). by rewrite str_app_cons.
Qed.

(** A printed number, as its digits, for the readers that start with no digit. *)
Lemma pretty_digits {A} (read : N -> string -> A) (limit : N) x s :
  (forall n d r, (d < 10)%N -> (n * 10 + d <= limit)%N -> read n (String (pretty_N_char d) r) = read (n * 10 + d)%N r) ->
  (x <= limit)%N -> read 0%N (pretty x +:+ s) = read x s.
Proof.
  intros Hread Hx. unfold pretty, pretty_N. case_decide as H0.
  - subst. change ("0" +:+ s) with (String (pretty_N_char 0) s). exact (Hread 0%N 0%N s eq_refl Hx).
  - rewrite <-(pretty_go_app x "" s). by apply (read_pretty read limit).
Qed.

Lemma leadingInt_pretty (x : N) s : (x <= 2 ^ 63)%N -> match s with String c _ => is_digit c = false | "" => True end ->
  leadingInt 0 (pretty x +:+ s) = Some (Z.of_N x, s).
Proof.
  intros Hx Hs. rewrite (pretty_digits (fun n => leadingInt (Z.of_N n)) (2 ^ 63)).
  - destruct s as [|c s]; [done|]. cbn [leadingInt]. by rewrite Hs.
  - intros n d r Hd Hn. destruct (pretty_char_digits d Hd) as (Hdig & _). cbn [leadingInt].
    unfold is_digit, digit_val. rewrite Hdig, bool_decide_true by eauto. cbn [default]. unfold id.
    assert (Z.of_N n <= 2 ^ 63 / 10) by (apply Z.div_le_lower_bound; lia).
    rewrite !(proj2 (Z.ltb_ge _ _)) by lia. f_equal. lia.
  - done.
Qed.

Lemma digits_value_pretty (x : N) : (x <= uint64_max)%N -> digits_value 10 (pretty x) 0 = Some x.
Proof.
  intros Hx. rewrite <-(app_str_nil_r (pretty x)).
  rewrite (pretty_digits (fun n s => digits_value 10 s n) uint64_max); [done| |done].
  intros n d r Hd Hn. destruct (pretty_char_digits d Hd) as (_ & Hdig & Hu & _). cbn [digits_value].
  rewrite bool_decide_false, Hdig by done. by rewrite (proj2 (N.ltb_ge _ _)).
Qed.

Lemma pretty_head (p : positive) : exists d r, (0 < d < 10)%N /\ pretty (N.pos p) = String (pretty_N_char d) r.
Proof.
  assert (Hgo : forall x s, (0 < x)%N -> exists d r, (0 < d < 10)%N /\ pretty_N_go x s = String (pretty_N_char d) r).
  { intros x. induction (N.lt_wf_0 x) as [x _ IH]; intros s Hx. rewrite pretty_N_go_step by done.
    destruct (decide (x < 10)%N) as [Hlt|Hge].
    - exists x, s. by rewrite N.div_small, N.mod_small, pretty_N_go_0.
    - apply IH; [apply N.div_lt; lia|apply N.div_str_pos; lia]. }
  unfold pretty, pretty_N. rewrite decide_False by done. by apply Hgo.
Qed.

Lemma parse_uint0_pretty (p : positive) : (N.pos p <= uint64_max)%N -> parse_uint0 (pretty (N.pos p)) = Some (N.pos p).
Proof.
  intros Hp. unfold parse_uint0. destruct (pretty_head p) as (d & r & Hd & E).
  destruct (pretty_char_digits d ltac:(lia)) as (_ & _ & _ & H0).
  assert (Hb : base_of (pretty (N.pos p)) = (10%N, pretty (N.pos p))).
  { rewrite E. cbn [base_of]. rewrite bool_decide_false; [done|]. apply H0. lia. }
  rewrite bool_decide_false by (by rewrite E). rewrite Hb, digits_value_pretty by done.
  change (pretty (N.pos p)) with (itoa (Z.pos p)). rewrite has_byte_itoa; [done|by intros e (_ & _ & ? & _)%pretty_char_digits|done].
Qed.

Lemma parse_int0_itoa z : in_int64 z -> parse_int0 (itoa z) = Some z.
Proof.
  unfold in_int64, int64_min, int64_max. intros Hz. destruct z as [|p|p]; [done|..].
  - change (itoa (Z.pos p)) with (pretty (N.pos p)). destruct (pretty_head p) as (d & r & Hd & E).
    destruct (pretty_N_char_not_sign d ltac:(lia)) as [Hm Hs].
    unfold parse_int0. rewrite E. cbv zeta. rewrite !bool_decide_false by done. cbn [orb]. rewrite <-E.
    rewrite parse_uint0_pretty by (unfold uint64_max; lia). by rewrite (proj2 (N.leb_gt _ _)) by lia.
  - change (itoa (Z.neg p)) with (String "-" (pretty (N.pos p))). cbn [parse_int0]. cbv zeta. rewrite bool_decide_true by done.
    cbn [orb]. rewrite parse_uint0_pretty by (unfold uint64_max; lia). by rewrite (proj2 (N.ltb_ge _ _)) by lia.
Qed.

(** *** Durations are read back *)

Lemma duration_elements_ns (x : N) : (x <= 2 ^ 63)%N ->
  duration_elements (S (String.length (pretty x +:+ "ns"))) 0 (pretty x +:+ "ns") = Some (Z.of_N x).
Proof.
  intros Hx. destruct (pretty_N_head x) as (d & r & Hd & E). destruct (pretty_char_digits d Hd) as (Hdig & _).
  assert (Hlen : String.length (pretty x +:+ "ns") = S (S (S (String.length r)))).
  { rewrite E. rewrite str_app_cons. cbn [String.length]. f_equal. clear. induction r as [|c r IH]; [done|].
    rewrite str_app_cons. cbn [String.length]. by rewrite IH. }
  assert (He : duration_element 0 (pretty x +:+ "ns") = Some (Z.of_N x, "")).
  { unfold duration_element. rewrite leadingInt_pretty by done. rewrite Hlen.
    rewrite E at 1. rewrite str_app_cons. unfold is_digit at 1. rewrite (bool_decide_true (is_Some _)) by (rewrite Hdig; eauto).
    rewrite orb_true_r. rewrite (bool_decide_false (String.length "ns" = _)) by (cbn; lia).
    change (unit_span "ns") with ("ns", ""). cbn [negb andb]. cbv beta iota zeta.
    change (0 <? 0) with false. change (unitMap "ns") with (Some 1). cbv beta iota.
    rewrite Z.div_1_r, Z.mul_1_r. rewrite !(proj2 (Z.ltb_ge _ _)) by lia. rewrite Z.mod_small by lia.
    by rewrite (proj2 (Z.ltb_ge _ _)) by lia. }
  rewrite Hlen. cbn [duration_elements]. rewrite He. rewrite bool_decide_false by (rewrite E; done). done.
Qed.

Lemma ParseDuration_unsigned c r : c <> "-"%char -> c <> "+"%char -> r <> "" ->
  ParseDuration (String c r) =
    match duration_elements (S (String.length (String c r))) 0 (String c r) with
    | None => None
    | Some d => if 2 ^ 63 - 1 <? d then None else Some d
    end.
Proof.
  intros Hm Hp Hr. unfold ParseDuration.
  assert (Hs : forall A (f g : string -> A) (h : A), match String c r with String "-" s => f s | String "+" s => g s | _ => h end = h).
  { intros. by destruct c as [[] [] [] [] [] [] [] []]. }
  rewrite (Hs _ (fun s => (true, s)) (fun s => (false, s)) (false, String c r)).
  by rewrite !bool_decide_false by congruence.
Qed.

Lemma ParseDuration_ns d : in_int64 d -> ParseDuration (itoa d +:+ "ns") = Some d.
Proof.
  unfold in_int64, int64_min, int64_max. intros Hd. destruct d as [|p|p]; [by vm_compute|..];
    pose proof (duration_elements_ns (N.pos p) ltac:(lia)) as He; destruct (pretty_N_head (N.pos p)) as (e & r & Hb & E).
  - change (itoa (Z.pos p)) with (pretty (N.pos p)). rewrite E, str_app_cons in *.
    destruct (pretty_N_char_not_sign e Hb). rewrite ParseDuration_unsigned by (done || by destruct r).
    rewrite He. by rewrite (proj2 (Z.ltb_ge _ _)) by lia.
  - change (itoa (Z.neg p) +:+ "ns") with (String "-" (pretty (N.pos p) +:+ "ns")). unfold ParseDuration.
    rewrite He. rewrite E, str_app_cons. rewrite !bool_decide_false by (by destruct r).
    rewrite wrap64_id; [done|]. unfold in_int64, int64_min, int64_max. lia.
Qed.

Lemma set_flag_text v0 v : same_type v0 v -> fits v -> set_flag v0 (text_of v) = Some v.
Proof.
  destruct v0, v; intros Ht Hf; try done; cbn [set_flag text_of].
  - by rewrite ParseDuration_ns.
  - by rewrite parse_int0_itoa.
  - by destruct b0.
Qed.

(** ** Arguments are read back *)

Lemma word_render st name t : flag_name name ->
  word_of (dashes st +:+ name) = Named name None /\ word_of (dashes st +:+ name +:+ "=" +:+ t) = Named name (Some t).
Proof.
  intros [Hc Hn]. destruct name as [|c name]; [done|].
  assert (He : c <> "="%char) by (intros ->; done).
  assert (Hw : forall v, word_of (dashes st +:+ String c v) = let '(n, v) := str_cut "=" (String c v) in Named n v).
  { intros v. unfold dashes. destruct (twoDashes st).
    - change ("--" +:+ String c v) with (String "-" (String "-" (String c v))). cbn -[str_cut bool_decide].
      rewrite !(bool_decide_true ("-"%char = "-"%char)) by done. cbn [negb]. rewrite bool_decide_false by done. cbn -[str_cut bool_decide].
      by rewrite !bool_decide_false.
    - change ("-" +:+ String c v) with (String "-" (String c v)). cbn -[str_cut bool_decide].
      rewrite !(bool_decide_true ("-"%char = "-"%char)) by done. cbn [negb]. by rewrite !bool_decide_false. }
  split.
  - by rewrite Hw, str_cut_none.
  - rewrite (str_app_cons c name). rewrite Hw.
    change (String c (name +:+ "=" +:+ t)) with (String c name +:+ String "=" t). by rewrite str_cut_app.
Qed.

Lemma parse_render flags st name v0 v args : flag_name name -> flags !! name = Some v0 -> same_type v0 v -> fits v ->
  parse_args flags (render st name v ++ args) = parse_args (<[name := v]> flags) args.
Proof.
  intros Hn Hl Ht Hf. pose proof (set_flag_text v0 v Ht Hf) as Hset.
  unfold render. destruct (word_render st name (text_of v) Hn) as [Hw1 Hw2].
  destruct (ownWord st && _) eqn:Hown; cbn [app parse_args].
  - rewrite Hw1, Hl. destruct v0; try (by rewrite Hset). destruct v; try done. by rewrite andb_false_r in Hown.
  - rewrite Hw2, Hl. destruct v0; cbn [from_option]; unfold id; by rewrite Hset.
Qed.

(** A list of settings, each written in a style of its own. *)
Definition rendered (settings : list (style * string * flag_value)) : list string :=
  concat (map (fun '(st, name, v) => render st name v) settings).

Definition applied (flags : gmap string flag_value) (settings : list (style * string * flag_value)) : gmap string flag_value :=
  foldl (fun flags '(_, name, v) => <[name := v]> flags) flags settings.

(** A setting that the set of flags knows. *)
Definition known (flags : gmap string flag_value) (s : style * string * flag_value) : Prop :=
  let '(_, name, v) := s in
  flag_name name /\ fits v /\ exists v0, flags !! name = Some v0 /\ same_type v0 v.

Lemma same_type_trans u v w : same_type u v -> same_type u w -> same_type v w.
Proof. by destruct u, v, w. Qed.

Lemma known_insert flags s name v v0 : known flags s -> flags !! name = Some v0 -> same_type v0 v -> known (<[name := v]> flags) s.
Proof.
  destruct s as [[st n] w]. intros (Hn & Hf & u & Hu & Ht) Hv0 Hv. split_and!; [done..|].
  destruct (decide (name = n)) as [->|].
  - exists v. rewrite lookup_insert_eq. split; [done|]. apply (same_type_trans v0); congruence.
  - exists u. by rewrite lookup_insert_ne.
Qed.

Lemma parse_rendered flags settings args : Forall (known flags) settings ->
  parse_args flags (rendered settings ++ args) = parse_args (applied flags settings) args.
Proof.
  revert flags. induction settings as [|[[st name] v] settings IH]; intros flags; [done|].
  rewrite Forall_cons. intros [(Hn & Hf & v0 & Hl & Ht) Hk]. unfold rendered. cbn [map concat]. rewrite <-app_assoc.
  rewrite (parse_render _ _ _ v0) by done. apply IH. eapply Forall_impl; [exact Hk|]. intros s Hs. by eapply known_insert.
Qed.
