(* ===== verification/Report.v ===== *)
(** * What the IsleDB debugging tool prints (cmd/isledb-debug/main.go)

    The tool as a user sees it: flags, the verdicts with their texts, the rows
    and the summary on the standard output, errors on the other stream, and the
    exit code.  Harness has the experiments and the outcome of each; here it is
    shown that the printed report is theirs. *)

From Stdlib Require Import Ascii.
From S2P Require Import Prelude GoStrings Json GoTime IsleDB ChangeFeed Store PrefixDB Flags Harness.

(** ** Formatting *)

Definition nl : string := String "010" "".

(** [%8d], [%-14s] and the like, of ASCII texts. *)
Fixpoint spaces (n : nat) : string := match n with O => "" | S n => String " " (spaces n) end.
Definition pad_left (width : nat) (s : string) : string := spaces (width - String.length s) +:+ s.
Definition pad_right (width : nat) (s : string) : string := s +:+ spaces (width - String.length s).

(** [time.Duration.String]: [fmtFrac] writes the digits of a fraction from the
    last one, leaving out trailing zeros; its state is the text and whether a
    digit was written. *)
Fixpoint frac_digits (prec : nat) (v : Z) (text : string) (print : bool) : string * bool * Z :=
  match prec with
  | O => (text, print, v)
  | S prec =>
      let digit := v mod 10 in
      let print := print || negb (digit =? 0) in
      frac_digits prec (v / 10) (if print then itoa digit +:+ text else text) print
  end.

Definition fmtFrac (prec : nat) (v : Z) : string * Z :=
  let '(text, print, v) := frac_digits prec v "" false in (if print then "." +:+ text else text, v).

Definition with_frac (prec : nat) (u : Z) (unit : string) : string :=
  let '(f, v) := fmtFrac prec u in itoa v +:+ f +:+ unit.

Definition DurationString (d : Z) : string :=
  let u := Z.abs d in
  let text :=
    if u <? second then
      if u =? 0 then "0s"
      else if u <? 1000 then with_frac 0 u "ns"
      else if u <? millisecond then with_frac 3 u "µs"
      else with_frac 6 u "ms"
    else
      let '(f, u) := fmtFrac 9 u in
      let seconds := itoa (u mod 60) +:+ f +:+ "s" in
      let u := u / 60 in
      if 0 <? u then
        let minutes := itoa (u mod 60) +:+ "m" +:+ seconds in
        let u := u / 60 in
        if 0 <? u then itoa u +:+ "h" +:+ minutes else minutes
      else seconds in
  if d <? 0 then "-" +:+ text else text.

Example DurationString_examples : DurationString (10 * second) = "10s" /\ DurationString 1500000 = "1.5ms" /\
  DurationString 1001 = "1.001µs" /\ DurationString (- (hour + 90 * second + 5)) = "-1h1m30.000000005s" /\
  DurationString (2 * hour) = "2h0m0s" /\ DurationString 0 = "0s".
Proof. by vm_compute. Qed.

(** ** Output and verdicts *)

Inductive output := Stdout (s : string) | Stderr (s : string).

Record verdict_text := {
  vName : string;
  vStatus : verdictStatus;
  vExpected : string;
  vActual : string;
  vHint : string     (* empty when the user need not act *)
}.

Definition status_text (s : verdictStatus) : string :=
  match s with verdictPass => "PASS" | verdictFail => "FAIL" | verdictInfo => "INFO" end.

(** [v.status], [v.actual] and [v.hint] set. *)
Definition set_verdict (v : verdict_text) (s : verdictStatus) (actual hint : string) : verdict_text :=
  {| vName := vName v; vStatus := s; vExpected := vExpected v; vActual := actual; vHint := hint |}.

Definition new_verdict (name expected : string) : verdict_text :=
  {| vName := name; vStatus := verdictInfo; vExpected := expected; vActual := ""; vHint := "" |}.

(** ** The experiments *)

(** The loop over the rows: the first delay with all keys, the most keys seen,
    and the lines printed. *)
Definition row_status (first : Z) (r : VisibilityRow) : string :=
  if (visibilityBatch <=? KeysSeen r) && (first <? 0) && bool_decide (RowErr r = "") then "← first full visibility"
  else if (0 <=? first) && (visibilityBatch <=? KeysSeen r) then "ok"
  else if (KeysSeen r <? visibilityBatch) && bool_decide (RowErr r = "")
  then "partial (" +:+ itoa (KeysSeen r) +:+ "/" +:+ itoa visibilityBatch +:+ ")"
  else if bool_decide (RowErr r = "") then "" else "err: " +:+ RowErr r.

Definition row_line (first : Z) (r : VisibilityRow) : string :=
  pad_left 8 (itoa (DelayMs r)) +:+ " " +:+ pad_left 10 (itoa (KeysSeen r)) +:+ " " +:+ row_status first r +:+ nl.

Definition row_step (st : Z * Z * list output) (r : VisibilityRow) : Z * Z * list output :=
  let '(first, max, out) := st in
  let max := if bool_decide (RowErr r = "") && (max <? KeysSeen r) then KeysSeen r else max in
  (first_visible first r, max, out ++ [Stdout (row_line first r)]).

Section Report.
Context {I : IsleDB}.
Variable clock : nat -> time.
Variable wait : nat -> option error.

Definition visibility_verdict (b : Backend) (first max : Z) (v : verdict_text) : verdict_text :=
  let budget := visibilityBudget b in
  if first <? 0 then
    set_verdict v verdictFail
      ("never reached " +:+ itoa visibilityBatch +:+ " keys (max_seen=" +:+ itoa max +:+ " by 5000ms)")
      ("run `mise run dev:isledb-debug-compare` — if memory passes but " +:+ b +:+
       " fails, keep poll+broadcast UI; do not use per-key tail for live map")
  else if budget <? first then
    set_verdict v verdictFail
      ("first full visibility at " +:+ itoa first +:+ "ms (budget " +:+ itoa budget +:+ "ms)")
      ("sweep ChangeReader polling in internal/isledbdebug/harness.go, then re-run --backend " +:+ b)
  else
    set_verdict v verdictPass
      ("first full visibility at " +:+ itoa first +:+ "ms (keys_seen=" +:+ itoa visibilityBatch +:+ ")") (vHint v).

Definition visibility_report (fuel : nat) (b : Backend) (h : Harness) : option ((verdict_text * list output) * Harness) :=
  let v := new_verdict "visibility"
    ("keys_seen>=" +:+ itoa visibilityBatch +:+ " within " +:+ itoa (visibilityBudget b) +:+ "ms after flush") in
  let out :=
    [Stdout (nl +:+ "--- visibility (flush batch-2 → delay → ChangeReader) [" +:+ b +:+ "] ---" +:+ nl);
     Stdout ("what: write " +:+ itoa visibilityBatch +:+ " keys, flush, write " +:+ itoa visibilityBatch +:+
             " more, flush, then ChangeReader at increasing delays" +:+ nl)] in
  match RunVisibility clock wait fuel visibilityBatch h with
  | None => None
  | Some ((_, Some e), h) =>
      Some ((set_verdict v verdictFail ("error: " +:+ Error e)
               ("re-run single experiment: go run ./cmd/isledb-debug/ --backend " +:+ b +:+ " --experiment visibility"),
             out ++ [Stderr ("visibility: " +:+ Error e +:+ nl)]), h)
  | Some ((rows, None), h) =>
      let header := pad_left 8 "delay_ms" +:+ " " +:+ pad_left 10 "keys_seen" +:+ " status" +:+ nl in
      let '(first, max, lines) := foldl row_step (-1, 0, []) rows in
      Some ((visibility_verdict b first max v, out ++ Stdout header :: lines), h)
  end.

Definition seed_failed (what : string) (e : error) (hint : string) (v : verdict_text) : verdict_text :=
  set_verdict v verdictFail (what +:+ Error e) hint.

Definition show_bool (b : bool) : string := if b then "true" else "false".

Definition incremental_verdict (b : Backend) (timeout : Z) (res : IncrementalResult) (v : verdict_text) : verdict_text :=
  if Timeout res then
    set_verdict v verdictFail
      ("timeout after " +:+ DurationString timeout +:+ " (feed_events=" +:+ itoa (TailEvents res) +:+ "/" +:+ itoa 5 +:+ ")")
      ("re-run with longer wait: go run ./cmd/isledb-debug/ --backend " +:+ b +:+
       " --experiment incremental --wait 30s; then run `mise run dev:isledb-debug-compare`")
  else if TailEvents res <? WroteKeys res then
    set_verdict v verdictFail ("feed_events=" +:+ itoa (TailEvents res) +:+ "/" +:+ itoa (WroteKeys res))
      ("ensure MinIO is up (`mise run minio-setup`), increase --wait, and compare memory vs " +:+ b)
  else if incrementalFirstNewMs <=? FirstNewKeyMs res then
    set_verdict v verdictFail
      ("slow first key at " +:+ itoa (FirstNewKeyMs res) +:+ "ms (budget " +:+ itoa incrementalFirstNewMs +:+ "ms)")
      "do not rely on tail for live UI — verify demo uses NotifyPoll/LatestPositions (internal/demo/pipeline.go)"
  else
    set_verdict v verdictPass
      ("feed_events=" +:+ itoa (TailEvents res) +:+ "/" +:+ itoa (WroteKeys res) +:+ ", first_new_ms=" +:+ itoa (FirstNewKeyMs res))
      (vHint v).

Definition incremental_report (rounds fuel : nat) (b : Backend) (timeout : Z) (h : Harness)
    : option ((verdict_text * list output) * Harness) :=
  let v := new_verdict "incremental"
    ("change feed delivers " +:+ itoa 5 +:+ "/" +:+ itoa 5 +:+ " new keys, timeout=false, first_new_ms<" +:+ itoa incrementalFirstNewMs) in
  let out :=
    [Stdout (nl +:+ "--- incremental (drain to head → write batch → flush → ChangeReader) [" +:+ b +:+ "] ---" +:+ nl);
     Stdout ("what: seed " +:+ itoa 10 +:+ " keys, drain change feed to head, write " +:+ itoa 5 +:+
             " more, flush, poll ChangeReader" +:+ nl)] in
  match WriteBatch clock 10 1 h with
  | (Some e, h) =>
      Some ((seed_failed "seed write failed: " e "check data/cache/gedung-peristiwa is writable, then re-run" v, out), h)
  | (None, h) =>
    match Flush h with
    | (Some e, h) =>
        Some ((seed_failed "seed flush failed: " e
                 "check backend connectivity (MinIO: `mise run minio-setup`), then re-run" v, out), h)
    | (None, h) =>
      match RunIncremental clock wait rounds fuel 10 5 timeout h with
      | None => None
      | Some ((_, Some e), h) =>
          Some ((set_verdict v verdictFail ("error: " +:+ Error e)
                   "run `mise run dev:isledb-debug-compare` — if all backends fail, file upstream IsleDB issue with this log",
                 out ++ [Stderr ("incremental: " +:+ Error e +:+ nl)]), h)
      | Some ((res, None), h) =>
          let line := "wrote=" +:+ itoa (WroteKeys res) +:+ " feed_events=" +:+ itoa (TailEvents res) +:+ " first_new_ms=" +:+
                      itoa (FirstNewKeyMs res) +:+ " timeout=" +:+ show_bool (Timeout res) +:+ " (wait budget=" +:+
                      DurationString timeout +:+ ")" +:+ nl in
          Some ((incremental_verdict b timeout res v, out ++ [Stdout line]), h)
      end
    end
  end.

Definition replay_report (fuel : nat) (b : Backend) (h : Harness) : option ((verdict_text * list output) * Harness) :=
  let v := new_verdict "replay" "ChangeReader reads historical feed from Oldest (observational only)" in
  let out :=
    [Stdout (nl +:+ "--- replay (ChangeReader from Oldest) [" +:+ b +:+ "] ---" +:+ nl);
     Stdout ("what: write " +:+ itoa 20 +:+ " keys, flush, count change-feed entries" +:+ nl)] in
  match WriteBatch clock 20 1 h with
  | (Some e, h) =>
      Some ((seed_failed "seed write failed: " e "check data/cache/gedung-peristiwa is writable, then re-run" v, out), h)
  | (None, h) =>
    match Flush h with
    | (Some e, h) => Some ((seed_failed "seed flush failed: " e "check backend connectivity, then re-run" v, out), h)
    | (None, h) =>
      match RunReplay fuel replayWindow h with
      | None => None
      | Some (_, Some e) =>
          Some ((set_verdict v verdictFail ("error: " +:+ Error e)
                   ("re-run: go run ./cmd/isledb-debug/ --backend " +:+ b +:+ " --experiment replay"),
                 out ++ [Stderr ("replay: " +:+ Error e +:+ nl)]), h)
      | Some (res, None) =>
          let out := out ++ [Stdout ("replay_events_in_" +:+ itoa (WindowMs res) +:+ "ms=" +:+ itoa (EventsInWindow res) +:+ nl)] in
          if 0 <? EventsInWindow res
          then Some ((set_verdict v verdictInfo (itoa (EventsInWindow res) +:+ " historical changes in feed") (vHint v), out), h)
          else Some ((set_verdict v verdictFail "no replay events (unexpected for seeded store)"
                        "re-run with fresh prefix: --prefix-suffix debug-$(date +%s); if still zero, rm -rf data/cache/gedung-peristiwa and retry",
                      out), h)
      end
    end
  end.
(** ** The summary *)

Definition any_failed (vs : list verdict_text) : bool := existsb (fun v => bool_decide (vStatus v = verdictFail)) vs.
Definition failed_verdicts (vs : list verdict_text) : list verdict_text :=
  List.filter (fun v => bool_decide (vStatus v = verdictFail)) vs.

Definition println (s : string) : output := Stdout (s +:+ nl).

Definition printFailureGuide (b : Backend) (failed : list verdict_text) : list output :=
  let vis := existsb (fun v => bool_decide (vName v = "visibility")) failed in
  let inc := existsb (fun v => bool_decide (vName v = "incremental")) failed in
  println "" ::
  if vis || inc then
    println "diagnose:" ::
    (if bool_decide (b = BackendMemory) then
       [println "  memory failed → likely IsleDB or harness bug (not object-store)";
        println "  → open upstream issue with output from: go test ./internal/isledbdebug/... -v"]
     else
       [println "  → run: mise run dev:isledb-debug-compare";
        println ("  memory PASS + " +:+ b +:+ " FAIL → object-store visibility; keep poll+broadcast UI");
        println "  all backends FAIL incremental → IsleDB ChangeReader or harness bug"]) ++
    (if vis && inc then [println "  both visibility and incremental failed → fix visibility first (flush/read path)"] else [])
  else [println "diagnose: replay-only failure — follow the replay next step above"].

Definition verdict_line (v : verdict_text) : output :=
  println (pad_right 14 (vName v) +:+ " " +:+ pad_right 5 (status_text (vStatus v)) +:+ "  " +:+ vActual v).

Definition hint_lines (failed : list verdict_text) : list output :=
  flat_map (fun v => if bool_decide (vHint v = "") then [] else [println ("  " +:+ vName v +:+ ": " +:+ vHint v)]) failed.

Definition pass_line (b : Backend) : output := println (nl +:+ "✅ PASS [" +:+ b +:+ "]").
Definition fail_line (b : Backend) : output := println (nl +:+ "❌ FAIL [" +:+ b +:+ "]").

Definition printSummary (b : Backend) (vs : list verdict_text) : list output :=
  println (nl +:+ "=== summary [" +:+ b +:+ "] ===") ::
  println (pad_right 14 "experiment" +:+ " " +:+ pad_right 5 "verdict" +:+ "  actual") ::
  map verdict_line vs ++
  let failed := failed_verdicts vs in
  if bool_decide (failed = []) then [pass_line b]
  else fail_line b :: hint_lines failed ++ printFailureGuide b failed.

(** ** The whole command *)

(** [if exp == "all" || exp == name { verdicts = append(verdicts, m) }] *)
Definition chosen_report (exp name : string) (m : Harness -> option ((verdict_text * list output) * Harness))
    (o : option ((list verdict_text * list output) * Harness)) : option ((list verdict_text * list output) * Harness) :=
  match o with
  | None => None
  | Some ((vs, out), h) =>
      if bool_decide (exp = "all" \/ exp = name) then
        match m h with Some ((v, out'), h) => Some ((vs ++ [v], out ++ out'), h) | None => None end
      else Some ((vs, out), h)
  end.

Definition experiments_report (rounds fuel : nat) (exp : string) (b : Backend) (timeout : Z) (h : Harness)
    : option ((list verdict_text * list output) * Harness) :=
  let exp := ToLower exp in
  chosen_report exp "replay" (replay_report fuel b)
    (chosen_report exp "incremental" (incremental_report rounds fuel b timeout)
      (chosen_report exp "visibility" (visibility_report fuel b) (Some (([], []), h)))).

Variable answer : list (call * option error) -> call -> option error.
Variable prefix_db : StoreConfig -> string -> db.

Definition debug_flags : gmap string flag_value :=
  {[ "backend" := FString "memory"; "experiment" := FString "all"; "prefix-suffix" := FString "";
     "wait" := FDuration (10 * second) ]}.

(** [now] is the reading of the clock that names a prefix.  The result is the
    exit code and what is printed; with wrong flags the process ends in
    [flag.Parse], whose usage text is left out. *)
Definition run_debug (rounds fuel : nat) (now : time) (args : list string) (w : world) : option ((Z * list output) * world) :=
  match Parse debug_flags args with
  | inl code => Some ((code, []), w)
  | inr flags =>
      let b : Backend := get_string "backend" flags in
      let prefix := get_string "prefix-suffix" flags in
      let prefix := if bool_decide (prefix = "") then "run-" +:+ itoa (now / second) else prefix in
      let experiment := get_string "experiment" flags in
      if bool_decide (b = BackendTigris) &&
         (bool_decide (Getenv (wEnv w) "AWS_ACCESS_KEY_ID" = "") || bool_decide (Getenv (wEnv w) "AWS_SECRET_ACCESS_KEY" = ""))
      then Some ((1, [Stderr ("tigris backend requires AWS_ACCESS_KEY_ID and AWS_SECRET_ACCESS_KEY in .env" +:+ nl)]), w)
      else
        let cfg := StoreConfigFromEnv (wEnv w) b prefix in
        match Open_ answer b prefix w with
        | (Err e, w) =>
            Some ((1, [Stderr ("open harness: " +:+ Error e +:+ nl);
                       Stderr ("→ next: check .env credentials, MinIO (`mise run minio-setup`), and data/cache/gedung-peristiwa permissions" +:+ nl)]), w)
        | (Ok (pdb, label), w) =>
            let title := Stdout ("=== isledb-debug backend=" +:+ b +:+ " prefix=" +:+ label +:+ " experiment=" +:+ experiment +:+ " ===" +:+ nl) in
            match experiments_report rounds fuel experiment b (get_int "wait" flags) {| hDB := prefix_db cfg (pID pdb); hTicks := 0 |} with
            | None => None
            | Some ((vs, out), _) =>
                let '(_, w) := Close answer pdb w in
                Some ((if any_failed vs then 1 else 0, title :: out ++ printSummary b vs), w)
            end
        end
  end.

(** ** The report is the experiments' *)

Definition verdict_of (v : verdict_text) : verdict := (vName v, vStatus v).

Lemma row_steps rows st : (foldl row_step st rows).1.1 = foldl first_visible st.1.1 rows.
Proof. revert st. induction rows as [|r rows IH]; intros [[first max] out]; [done|]. cbn [foldl]. by rewrite IH. Qed.

(** A report of an experiment and its verdict, both over the same harness. *)
Definition reports (r : option ((verdict_text * list output) * Harness)) (o : option (verdict * Harness)) : Prop :=
  match r, o with
  | Some ((v, _), h), Some (vd, h') => verdict_of v = vd /\ h = h' /\ (vStatus v = verdictFail -> vHint v <> "")
  | None, None => True
  | _, _ => False
  end.

Lemma visibility_reports fuel b h : reports (visibility_report fuel b h) (runVisibility clock wait fuel b h).
Proof.
  unfold visibility_report, runVisibility. destruct (RunVisibility _ _ _ _ _) as [[[rows [e|]] h']|]; [by split_and!| |done].
  pose proof (row_steps rows (-1, 0, [])) as Hr. destruct (foldl row_step _ rows) as [[first max] lines].
  cbn [fst] in Hr. rewrite <-Hr. unfold visibility_verdict. repeat case_match; by split_and!.
Qed.

Lemma incremental_reports rounds fuel b timeout h :
  reports (incremental_report rounds fuel b timeout h) (runIncremental clock wait rounds fuel timeout h).
Proof.
  unfold incremental_report, runIncremental. destruct (WriteBatch _ _ _ _) as [[e|] h1]; [by split_and!|].
  destruct (Flush h1) as [[e|] h2]; [by split_and!|].
  destruct (RunIncremental _ _ _ _ _ _ _ _) as [[[res [e|]] h3]|]; [by split_and!| |done].
  unfold incremental_verdict. repeat case_match; by split_and!.
Qed.

Lemma replay_reports fuel b h : reports (replay_report fuel b h) (runReplay clock fuel h).
Proof.
  unfold replay_report, runReplay. destruct (WriteBatch _ _ _ _) as [[e|] h1]; [by split_and!|].
  destruct (Flush h1) as [[e|] h2]; [by split_and!|].
  destruct (RunReplay _ _ _) as [[res [e|]]|]; [by split_and!| |done]. case_match; by split_and!.
Qed.
(** The same for the list of verdicts. *)
Definition all_reports (r : option ((list verdict_text * list output) * Harness)) (o : option (list verdict * Harness)) : Prop :=
  match r, o with
  | Some ((vs, _), h), Some (vds, h') =>
      map verdict_of vs = vds /\ h = h' /\ Forall (fun v => vStatus v = verdictFail -> vHint v <> "") vs
  | None, None => True
  | _, _ => False
  end.

Lemma chosen_reports exp name m m' r o : (forall h, reports (m h) (m' h)) -> all_reports r o ->
  all_reports (chosen_report exp name m r) (chosen exp name m' o).
Proof.
  intros Hm. destruct r as [[[vs out] h]|], o as [[vds h']|]; try done. intros (<- & <- & Hh). cbn [chosen_report chosen].
  case_bool_decide; [|by split_and!]. specialize (Hm h).
  destruct (m h) as [[[v out'] h1]|], (m' h) as [[vd h2]|]; try done. destruct Hm as (<- & <- & Hv). split_and!; [|done|].
  - by rewrite map_app.
  - apply Forall_app. split; [done|]. by constructor.
Qed.

Lemma experiments_reports rounds fuel exp b timeout h :
  all_reports (experiments_report rounds fuel exp b timeout h) (experiments clock wait rounds fuel exp b timeout h).
Proof.
  unfold experiments_report, experiments.
  repeat (apply chosen_reports; [intros h'; first [apply replay_reports|apply incremental_reports|apply visibility_reports]|]).
  by split_and!.
Qed.

Lemma any_failed_of vs : anyFailed (map verdict_of vs) = any_failed vs.
Proof. unfold anyFailed, any_failed. induction vs as [|v vs IH]; [done|]. cbn. by rewrite IH. Qed.

Lemma failed_verdicts_nil vs : any_failed vs = false <-> failed_verdicts vs = [].
Proof.
  induction vs as [|v vs IH]; [done|]. cbn. case_bool_decide; [done|]. exact IH.
Qed.

Lemma elem_of_failed v vs : v ∈ failed_verdicts vs <-> v ∈ vs /\ vStatus v = verdictFail.
Proof. rewrite !list_elem_of_In. unfold failed_verdicts. by rewrite filter_In, bool_decide_eq_true. Qed.

(** The last line of a summary without failures, and what it holds otherwise. *)
Lemma summary_pass b vs l : any_failed vs = false -> last (l ++ printSummary b vs) = Some (pass_line b).
Proof.
  intros H%failed_verdicts_nil. unfold printSummary. cbv zeta. rewrite H, bool_decide_true by done.
  by rewrite !app_comm_cons, !app_assoc, last_snoc.
Qed.

Lemma summary_fail b vs v : v ∈ vs -> vStatus v = verdictFail -> vHint v <> "" ->
  fail_line b ∈ printSummary b vs /\ println ("  " +:+ vName v +:+ ": " +:+ vHint v) ∈ printSummary b vs.
Proof.
  intros Hv Hs Hh. assert (Hf : v ∈ failed_verdicts vs) by by apply elem_of_failed.
  unfold printSummary. cbv zeta. rewrite bool_decide_false by (intros E; rewrite E in Hf; by apply not_elem_of_nil in Hf).
  assert (Hhint : println ("  " +:+ vName v +:+ ": " +:+ vHint v) ∈ hint_lines (failed_verdicts vs)).
  { apply list_elem_of_In, in_flat_map. exists v. split; [by apply list_elem_of_In|]. rewrite bool_decide_false by done. by left. }
  set_solver.
Qed.

(** The suffix of the prefix: the flag, or the time. *)
Definition suffix_of (now : time) (flags : gmap string flag_value) : string :=
  let prefix := get_string "prefix-suffix" flags in
  if bool_decide (prefix = "") then "run-" +:+ itoa (now / second) else prefix.

Definition credentials (b : Backend) (env : environ) : Prop :=
  b = BackendTigris -> Getenv env "AWS_ACCESS_KEY_ID" <> "" /\ Getenv env "AWS_SECRET_ACCESS_KEY" <> "".

(** C39: The debugging tool's report is what its experiments found.  With flags
    that parse, it exits with the code, and leaves the handles, that the
    experiments give; exit code 0 comes with PASS as the last line; and for each
    experiment that failed on an opened prefix, FAIL and a hint that is not
    empty are printed.  With flags that do not, nothing is opened or printed. *)
Theorem debug_report rounds fuel now args w :
  match Parse debug_flags args with
  | inl code => run_debug rounds fuel now args w = Some ((code, []), w)
  | inr flags =>
      let b : Backend := get_string "backend" flags in
      let exp := get_string "experiment" flags in
      let timeout := get_int "wait" flags in
      let suffix := suffix_of now flags in
      match run_debug rounds fuel now args w, run_tool clock wait answer prefix_db rounds fuel b exp suffix timeout w with
      | Some ((code, out), w1), Some (code', w1') =>
          code = code' /\ w1 = w1' /\ (code = 0 -> last out = Some (pass_line b)) /\
          (credentials b (wEnv w) -> forall pdb label w2 vds h,
             Open_ answer b suffix w = (Ok (pdb, label), w2) ->
             experiments clock wait rounds fuel exp b timeout
               {| hDB := prefix_db (StoreConfigFromEnv (wEnv w) b suffix) (pID pdb); hTicks := 0 |} = Some (vds, h) ->
             forall name, (name, verdictFail) ∈ vds ->
             fail_line b ∈ out /\ exists hint, hint <> "" /\ println ("  " +:+ name +:+ ": " +:+ hint) ∈ out)
      | None, None => True
      | _, _ => False
      end
  end.
Proof.
  unfold run_debug. destruct (Parse debug_flags args) as [code|flags]; [done|]. cbv zeta. unfold run_tool. fold (suffix_of now flags).
  set (b := get_string "backend" flags). set (suffix := suffix_of now flags).
  destruct (bool_decide (@eq Backend b BackendTigris) && _) eqn:Hcred.
  { split_and!; [done..|]. intros Hc. exfalso. apply andb_true_iff in Hcred as [Hb%bool_decide_eq_true Hk].
    destruct (Hc Hb) as [H1 H2]. apply orb_true_iff in Hk as [H%bool_decide_eq_true|H%bool_decide_eq_true]; done. }
  destruct (Open_ answer b suffix w) as [[[pdb label]|e] w2]; [|by split_and!].
  set (h0 := {| hDB := _ |}).
  pose proof (experiments_reports rounds fuel (get_string "experiment" flags) b (get_int "wait" flags) h0) as Hr.
  destruct (experiments_report _ _ _ _ _ _) as [[[vs out] h]|], (experiments _ _ _ _ _ _ _ _) as [[vds h']|] eqn:He; try done.
  destruct Hr as (<- & <- & Hh). destruct (Close answer pdb w2) as [e w3]. rewrite any_failed_of. split_and!; [done..| |].
  - destruct (any_failed vs) eqn:Ha; [done|]. intros _. rewrite app_comm_cons. by apply summary_pass.
  - intros _ pdb' label' w2' vds h2 [= <- <- <-] Hx. unfold h0 in He. rewrite He in Hx. injection Hx as <- <-. intros name (v & [= Hn Hs] & Hv)%list_elem_of_fmap.
    rewrite Forall_forall in Hh. destruct (summary_fail b vs v Hv (eq_sym Hs) (Hh v Hv (eq_sym Hs))) as [Hf Hhint].
    split; [set_solver|]. exists (vHint v). subst name. split; [by apply Hh|set_solver].
Qed.
End Report.

(** A row that read enough keys before an error prints ok, and its error is
    not shown. *)
Example row_error_masked e : row_status 0 {| DelayMs := 50; KeysSeen := 5; RowErr := e |} = "ok".
Proof. unfold row_status. by destruct (bool_decide _). Qed.

(** ** A concrete report *)

#[local] Abbreviation debug := (run_debug (I := MemStore.steady) millis (fun _ => None) (fun _ _ => None) (fun _ _ => MemStore.empty) 1 50 0).

Definition replay_args : list string := ["--backend"; "memory"; "-experiment=REPLAY"; "--wait=1s"].

Lemma debug_report_witness : exists out w',
  debug replay_args start = Some ((0, out), w') /\ last out = Some (pass_line "memory").
Proof.
  pose proof (debug_report (I := MemStore.steady) millis (fun _ => None) (fun _ _ => None) (fun _ _ => MemStore.empty) 1 50 0
    replay_args start) as H.
  assert (Hf : match Parse debug_flags replay_args with inr flags => bool_decide (get_string "backend" flags = "memory") | inl _ => false end = true)
    by (vm_compute; reflexivity).
  assert (Hc : match debug replay_args start with Some ((c, _), _) => c | None => 1 end = 0) by (vm_compute; reflexivity).
  destruct (Parse debug_flags replay_args) as [code|flags]; [discriminate Hf|]. apply bool_decide_eq_true in Hf.
  cbv zeta in H. rewrite Hf in H.
  destruct (debug replay_args start) as [[[code out] w']|]; [|discriminate Hc]. subst code.
  destruct (run_tool _ _ _ _ _ _ _ _ _ _ _) as [[code' w2]|]; [|destruct H].
  destruct H as (_ & _ & Hl & _). exists out, w'. split; [reflexivity|exact (Hl eq_refl)].
Defined.

(** Wrong flags: the process ends in the parser. *)
Example debug_bad_flag : debug ["-wait"; "soon"] start = Some ((2, []), start) /\ debug ["--help"] start = Some ((0, []), start).
Proof. by vm_compute. Qed.
