(* ===== verification/Commands.v ===== *)
(** * The commands (cmd/simulate, cmd/demo, cmd/dev)

    The main functions: flags into the options of a run, the run, and what it
    becomes: lines of the log, the exit code.  The log lines are their level,
    message and attributes.  cmd/isledb-debug is in Report. *)

From S2P Require Import Prelude GoStrings GoTime KeyRange Json Floats Event EventGen IsleDB ChangeFeed Tenant Store PrefixDB Simulation.
From S2P Require Import Vehicle Regions Poller Session Coordinator LivePipeline LiveStores PollLoop Demo Flags.

Inductive attr := AStr (s : string) | AInt (z : Z) | ADuration (d : Z) | AErr (e : string).

Inductive printed :=
  | Info (msg : string) (attrs : list (string * attr))
  | Failure (msg : string) (attrs : list (string * attr))   (* slog.Error *)
  | Println (s : string).

(** ** cmd/simulate *)

Definition simulate_flags : gmap string flag_value :=
  {[ "backend" := FString "minio"; "duration" := FDuration (60 * second); "events" := FInt 1000;
     "prefix-suffix" := FString ""; "fast" := FBool false ]}.

Definition options_of (flags : gmap string flag_value) : Options := {|
  oBackend := get_string "backend" flags;
  oDuration := get_int "duration" flags;
  oEvents := get_int "events" flags;
  oPrefixSuffix := get_string "prefix-suffix" flags;
  oFast := get_bool "fast" flags;
  oCacheRoot := ""
|}.

Definition starting (opts : Options) : printed :=
  Info "starting simulation"
    [("backend", AStr (oBackend opts)); ("duration", ADuration (oDuration opts)); ("events", AInt (oEvents opts));
     ("prefix_suffix", AStr (oPrefixSuffix opts))].

Definition passed : printed := Println "✅ Simulation passed".

(** The exit code and what is printed for a result. *)
Definition concluded (r : Simulation.Result) : Z * list printed :=
  if negb (rOK r) then (1, [Failure "simulation failed" [("err", AStr (rError r))]])
  else (0, [Info "verification ok"
              [("puts", AInt (rPutCount r)); ("unique_expected", AInt (UniqueExpected r));
               ("pre_compact_keys", AInt (PreCompactKeys r)); ("post_compact_keys", AInt (PostCompactKeys r))];
            passed]).

Section simulate.
Context {I : IsleDB} {MR : MapRange} {R : RandSource}.
Variable answer : list (call * option error) -> call -> option error.
Variable prefix_db : StoreConfig -> string -> db.
Variable sin : float64 -> float64.
Variable uuid_NewV7 : nat -> result string.
Variable ctx_Err : nat -> option error.
Variable now : nat -> time.

#[local] Abbreviation Run := (Simulation.Run answer prefix_db sin uuid_NewV7 ctx_Err now).

(** [run]; the usage text of [flag.Parse] is left out. *)
Definition simulate (fuel : nat) (args : list string) (w : world) : option ((Z * list printed) * world) :=
  match Parse simulate_flags args with
  | inl code => Some ((code, []), w)
  | inr flags =>
      let opts := options_of flags in
      match Run fuel opts w with
      | None => None
      | Some ((res, _), w) => let '(code, out) := concluded res in Some ((code, starting opts :: out), w)
      end
  end.

(** The settings of options, each in a style of its own. *)
Definition option_settings (st : nat -> style) (opts : Options) : list (style * string * flag_value) :=
  [(st 0%nat, "backend", FString (oBackend opts)); (st 1%nat, "duration", FDuration (oDuration opts));
   (st 2%nat, "events", FInt (oEvents opts)); (st 3%nat, "prefix-suffix", FString (oPrefixSuffix opts));
   (st 4%nat, "fast", FBool (oFast opts))].

(** Options that a command line can hold. *)
Definition on_command_line (opts : Options) : Prop :=
  in_int64 (oDuration opts) /\ in_int64 (oEvents opts) /\ oCacheRoot opts = "".

Lemma known_settings st opts : on_command_line opts -> Forall (known simulate_flags) (option_settings st opts).
Proof.
  intros (Hd & He & _). unfold option_settings. repeat apply Forall_cons_2; [..|apply Forall_nil_2].
  all: split; [by split|]; split; [done|]; eexists; split; [vm_compute; reflexivity|done].
Qed.

Lemma options_read st opts : oCacheRoot opts = "" -> options_of (applied simulate_flags (option_settings st opts)) = opts.
Proof.
  intros Hc. destruct opts. simpl in Hc. subst. unfold options_of, get_string, get_int, get_bool, applied, option_settings. cbn [foldl].
  by simplify_map_eq.
Qed.

(** The arguments of options run the simulation with them. *)
Lemma simulate_args fuel st opts w : on_command_line opts ->
  simulate fuel (rendered (option_settings st opts)) w =
    match Run fuel opts w with
    | None => None
    | Some ((res, _), w) => Some (((concluded res).1, starting opts :: (concluded res).2), w)
    end.
Proof.
  intros Ho. unfold simulate, Parse. rewrite <-(app_nil_r (rendered _)), parse_rendered by by apply known_settings.
  cbn [parse_args]. cbv zeta. rewrite options_read by apply Ho. by destruct (Run fuel opts w) as [[[res p] w']|]; [destruct (concluded res)|].
Qed.
(** C36: The simulate command does what its arguments say.  Arguments written from
    options, each flag with one or two dashes and its value behind an equals
    sign or in a word of its own, run the simulation with exactly these options;
    the exit code is 0 and the last line the success message when the result is
    OK, and otherwise 1 with the result's error in the log.  On stores that
    answer and hold nothing it exits with 0.  Arguments that do not parse end
    the process with code 2, or 0 for help, before anything is opened. *)
Theorem simulate_command {L : IsleDBLaws I} {Rel : IsleDBReliable I} fuel st opts w : on_command_line opts ->
  let args := rendered (option_settings st opts) in
  (forall r p w', Run fuel opts w = Some ((r, p), w') ->
    exists code out, simulate fuel args w = Some ((code, out), w') /\
      if rOK r then code = 0 /\ last out = Some passed
      else code = 1 /\ last out = Some (Failure "simulation failed" [("err", AStr (rError r))])) /\
  (uuids_distinct uuid_NewV7 -> (forall n, exists a, uuid_NewV7 n = Ok a) -> (forall n, ctx_Err n = None) -> clock_ok now ->
   forall tenants w1, New answer (store_config (wEnv w) opts) AllTenantIDs w = (Ok tenants, w1) ->
   (forall id, id ∈ AllTenantIDs -> closed id w) ->
   (forall id, id ∈ AllTenantIDs -> fresh_db (prefix_db (store_config (wEnv w) opts) id)) ->
   2 * Z.max 0 (oEvents opts) < Z.of_nat fuel ->
   exists out w', simulate fuel args w = Some ((0, out), w') /\ last out = Some passed) /\
  forall args code, Parse simulate_flags args = inl code -> simulate fuel args w = Some ((code, []), w) /\ (code = 0 \/ code = 2).
Proof.
  intros Ho args. unfold args. split_and!.
  - intros r p w' Hr. rewrite simulate_args, Hr by done. unfold concluded.
    destruct (rOK r); (eexists _, _; split; [reflexivity|]); by cbn.
  - intros Hu Hok Hctx Hclock tenants w1 Hn Hc Hf Hfuel.
    destruct (Run_ok answer prefix_db sin uuid_NewV7 ctx_Err now fuel opts w tenants w1 Hu Hok Hctx Hclock Hn Hc Hf Hfuel)
      as (out & n & r & p & w2 & _ & Hr & HOK & _).
    rewrite simulate_args, Hr by done. unfold concluded. rewrite HOK. eexists _, _. by split.
  - intros args' code Hp. unfold simulate. rewrite Hp. split; [done|]. unfold Parse in Hp.
    destruct (parse_args _ _); simplify_eq; auto.
Qed.
End simulate.

(** ** cmd/demo *)

Definition demo_flags (env : environ) : gmap string flag_value :=
  {[ "addr" := FString (envOr env "DEMO_HTTP_ADDR" ":8081"); "poll-interval" := FDuration DefaultPollInterval;
     "backend" := FString "minio"; "write-health-threshold" := FInt DefaultWriteHealthThreshold ]}.

Section demo.
Context {I : IsleDB} {MR : MapRange}.
Variable answer : list (call * option error) -> call -> option error.
Variable prefix_db : StoreConfig -> string -> db.

(** [run] up to the start of its goroutines: an exit code, or the address to
    listen on and the process that Demo describes. *)
Definition run_demo (args : list string) (now : time) (file : result (option value)) (fs : gmap string value) (w : world)
    : (Z + string * (gmap string PrefixDB * Process)) * world :=
  match Parse (demo_flags (wEnv w)) args with
  | inl code => (inl code, w)
  | inr flags =>
      match start_demo answer prefix_db (get_string "backend" flags) (get_int "poll-interval" flags)
              (get_int "write-health-threshold" flags) now file fs w with
      | (inl code, w) => (inl code, w)
      | (inr p, w) => (inr (get_string "addr" flags, p), w)
      end
  end.

(** Arguments that name an address, an interval, a backend and a threshold start
    the process with them. *)
Lemma demo_args st addr interval backend threshold now file fs w : in_int64 interval -> in_int64 threshold ->
  run_demo (rendered [(st 0%nat, "addr", FString addr); (st 1%nat, "poll-interval", FDuration interval);
                      (st 2%nat, "backend", FString backend); (st 3%nat, "write-health-threshold", FInt threshold)])
    now file fs w =
  match start_demo answer prefix_db backend interval threshold now file fs w with
  | (inl code, w) => (inl code, w)
  | (inr p, w) => (inr (addr, p), w)
  end.
Proof.
  intros Hi Ht. unfold run_demo, Parse. rewrite <-(app_nil_r (rendered _)), parse_rendered.
  - cbn [parse_args]. unfold get_string, get_int, applied. cbn [foldl]. unfold demo_flags. by simplify_map_eq.
  - repeat apply Forall_cons_2; [..|apply Forall_nil_2].
    all: split; [by split|]; split; [done|]; eexists; split; [vm_compute; reflexivity|done].
Qed.
End demo.

(** ** cmd/dev *)

(** The address, and the exit code when serving on it ends; [listen] is
    [ListenAndServe] of the dashboard. *)
Definition dev_addr (env : environ) : string := envOr env "DEV_HTTP_ADDR" ":8080".

Definition run_dev (listen : string -> option error) (env : environ) : Z * list printed :=
  let start := Info "starting dev control plane. issa cool!!!" [("addr", AStr (dev_addr env))] in
  match listen (dev_addr env) with
  | Some e => (1, [start; Failure "server failed" [("err", AErr (Error e))]])
  | None => (0, [start])
  end.

(** ** A concrete command *)

#[local] Abbreviation simulated := (simulate (I := MemStore.steady) (MR := canonical_range) (R := walk)
  no_failure empty_prefix no_wave serial_uuid never_done epoch).

(** Two events in memory; dashes, equals signs and words as they come. *)
Definition mixed (n : nat) : style := {| twoDashes := Nat.even n; ownWord := Nat.ltb n 3 |}.

Lemma two_events_on_line : on_command_line two_events.
Proof. split_and!; by vm_compute. Qed.

Example two_events_args : rendered (option_settings mixed two_events) =
  ["--backend"; "memory"; "-duration"; "60000000000ns"; "--events"; "2"; "-prefix-suffix=t"; "--fast=true"].
Proof. by vm_compute. Qed.

Lemma simulate_command_witness : exists out w',
  simulated 5 ["--backend"; "memory"; "-duration"; "60000000000ns"; "--events"; "2"; "-prefix-suffix=t"; "--fast=true"] start =
    Some ((0, out), w') /\ last out = Some passed.
Proof.
  destruct (simulate_command (I := MemStore.steady) (MR := canonical_range) (R := walk) (L := MemStore.steady_laws)
    no_failure empty_prefix no_wave serial_uuid never_done epoch 5 mixed two_events start two_events_on_line) as (_ & H & _).
  destruct (new_ends (New (MR := canonical_range) no_failure (store_config (wEnv start) two_events) AllTenantIDs start))
    as (tenants & w1 & Hnew); [by vm_compute|].
  destruct (H serial_uuids_distinct) with (tenants := tenants) (w1 := w1) as (out & w' & Hs & Hl).
  - intros n. eexists. reflexivity.
  - intros n. reflexivity.
  - intros n. vm_compute. reflexivity.
  - exact Hnew.
  - intros id _. apply nothing_open.
  - intros id _. split; [|split]; reflexivity.
  - vm_compute. reflexivity.
  - exists out, w'. split; [exact Hs|exact Hl].
Defined.
